(** * Transaction coordinator of the shard-per-thread store

    A shallow embedding of [src/server/transaction.cc]: the argument packer
    ([InitByArgs], [ReverseArgIndex]), the scheduler ([ScheduleInternal],
    [ScheduleInShard], [CancelInShard], [ScheduleUniqueShard],
    [ScheduleSingleHop]), the hops ([Execute], [ExecuteAsync], [RunInShard],
    [RunNoop], [RunQuickie]), the multi controller ([SetExecCmd],
    [UnlockMulti]), the blocking controller ([WaitOnWatch],
    [ExpireBlocking], [NotifySuspended], [AddToWatchedShardCb],
    [RemoveFromWatchedShardCb], [BreakOnClose]) and the search for the first
    key ([FindFirstProcessor], [FindFirst]).

    Integers of the source are [Z] with their width written out where the
    source relies on it; bit masks use [Z.land], [Z.lor] and [Z.lnot].
    Shard ids and positions in vectors are [nat]; vectors are lists read with
    stdpp's lookup and written with its insert. *)

From Stdlib Require Import ZArith Lia Bool List.
From stdpp Require Import base numbers option list gmap strings.

Local Open Scope Z_scope.

(** ** Bit masks *)

Module Bits.

(** A flag of an enum of single-bit values. *)
Definition flag (b : Z) : Z := Z.shiftl 1 b.

(** [(m & f) != 0] *)
Definition has (m f : Z) : bool := negb (Z.land m f =? 0).

(** [m |= f] *)
Definition set (m f : Z) : Z := Z.lor m f.

(** [m &= ~f] *)
Definition clear (m f : Z) : Z := Z.land m (Z.lnot f).

(** Truncation of a value stored into a [w]-bit unsigned field. *)
Definition trunc (w : Z) (x : Z) : Z := x mod 2 ^ w.

End Bits.

Local Open Scope nat_scope.

(** ** Data model *)

(** [IntentLock::Mode]; it indexes the two counters of a [LockCnt]. *)
Inductive Mode := SHARED | EXCLUSIVE.

(** [LockCnt]: [unsigned cnt[2]], one counter per mode. *)
Record LockCnt := mkLockCnt { cnt_shared : Z; cnt_exclusive : Z }.

Definition cnt (c : LockCnt) (m : Mode) : Z :=
  match m with SHARED => cnt_shared c | EXCLUSIVE => cnt_exclusive c end.

Definition cnt_add (c : LockCnt) (m : Mode) (d : Z) : LockCnt :=
  match m with
  | SHARED => mkLockCnt (cnt_shared c + d) (cnt_exclusive c)
  | EXCLUSIVE => mkLockCnt (cnt_shared c) (cnt_exclusive c + d)
  end.

Definition cnt_zero : LockCnt := mkLockCnt 0 0.

(** The two option flags of a command that the coordinator tests:
    [opt_mask() & CO::READONLY] and [opt_mask() & CO::GLOBAL_TRANS]. *)
Record OptMask := mkOptMask { READONLY : bool; GLOBAL_TRANS : bool }.

(** [CommandId], as far as the coordinator reads it. *)
Record CommandId := mkCommandId {
  name : string;
  opt_mask : OptMask;
  key_arg_step : nat
}.

(** [KeyIndex], the result of [DetermineKeys]. *)
Record KeyIndex := mkKeyIndex { start : nat; end_ : nat; step : nat }.

Abbreviation TxId := Z (only parsing).
Abbreviation DbIndex := nat (only parsing).
Abbreviation ShardId := nat (only parsing).

Definition kuint64max : Z := 2 ^ 64 - 1.

(** Modelled from the spec: [TxQueue::kEnd], the queue position of a
    transaction that is not queued; the queue's declaration is not among the
    sources. Positions handed out by [Insert] are below it. *)
Definition kEnd : Z := 2 ^ 32 - 1.

(** [OpStatus], the values the coordinator names. *)
Inductive OpStatus := OK | KEY_NOTFOUND | WRONG_TYPE | OTHER_STATUS (code : nat).

(** [Transaction::PerShardData]. [arg_start] is a 32-bit and [arg_count] a
    16-bit unsigned field, so that storing [-1] leaves the all-ones value. *)
Record PerShardData := mkPerShardData {
  arg_start : Z;
  arg_count : Z;
  local_mask : Z;
  pq_pos : Z
}.

Definition PerShardData_default : PerShardData := mkPerShardData 0 0 0 kEnd.

Definition set_local_mask (m : Z) (sd : PerShardData) : PerShardData :=
  mkPerShardData (arg_start sd) (arg_count sd) m (pq_pos sd).

Definition set_pq_pos (p : Z) (sd : PerShardData) : PerShardData :=
  mkPerShardData (arg_start sd) (arg_count sd) (local_mask sd) p.

Definition set_arg_slice (s c : Z) (sd : PerShardData) : PerShardData :=
  mkPerShardData s c (local_mask sd) (pq_pos sd).

(** [Transaction::Multi]. *)
Record Multi := mkMulti {
  locks : gmap string LockCnt;
  multi_opts : OptMask;
  incremental : bool;
  locks_recorded : bool
}.

(** The coordinator's view of a transaction. [this] names the object (the
    payload of its queue entries); [cb_set] tells whether [cb_] holds a
    callback; [blocking_ec_notified] counts the calls of
    [blocking_ec_.notify()]. *)
Record Transaction := mkTransaction {
  this : nat;
  cid_ : CommandId;
  multi_ : option Multi;
  txid_ : TxId;
  db_index_ : DbIndex;
  args_ : list string;
  reverse_index_ : list nat;
  shard_data_ : list PerShardData;
  unique_shard_cnt_ : nat;
  unique_shard_id_ : ShardId;
  coordinator_state_ : Z;
  run_count_ : Z;
  notify_txid_ : TxId;
  local_result_ : OpStatus;
  cb_set : bool;
  blocking_ec_notified : nat
}.

Definition with_cid (x : CommandId) (t : Transaction) : Transaction :=
  mkTransaction (this t) x (multi_ t) (txid_ t) (db_index_ t) (args_ t) (reverse_index_
    t) (shard_data_ t) (unique_shard_cnt_ t) (unique_shard_id_ t) (coordinator_state_ t)
    (run_count_ t) (notify_txid_ t) (local_result_ t) (cb_set t) (blocking_ec_notified
    t).
Definition with_multi (x : option Multi) (t : Transaction) : Transaction :=
  mkTransaction (this t) (cid_ t) x (txid_ t) (db_index_ t) (args_ t) (reverse_index_ t)
    (shard_data_ t) (unique_shard_cnt_ t) (unique_shard_id_ t) (coordinator_state_ t)
    (run_count_ t) (notify_txid_ t) (local_result_ t) (cb_set t) (blocking_ec_notified
    t).
Definition with_txid (x : TxId) (t : Transaction) : Transaction :=
  mkTransaction (this t) (cid_ t) (multi_ t) x (db_index_ t) (args_ t) (reverse_index_
    t) (shard_data_ t) (unique_shard_cnt_ t) (unique_shard_id_ t) (coordinator_state_ t)
    (run_count_ t) (notify_txid_ t) (local_result_ t) (cb_set t) (blocking_ec_notified
    t).
Definition with_db_index (x : DbIndex) (t : Transaction) : Transaction :=
  mkTransaction (this t) (cid_ t) (multi_ t) (txid_ t) x (args_ t) (reverse_index_ t)
    (shard_data_ t) (unique_shard_cnt_ t) (unique_shard_id_ t) (coordinator_state_ t)
    (run_count_ t) (notify_txid_ t) (local_result_ t) (cb_set t) (blocking_ec_notified
    t).
Definition with_args (x : list string) (t : Transaction) : Transaction :=
  mkTransaction (this t) (cid_ t) (multi_ t) (txid_ t) (db_index_ t) x (reverse_index_
    t) (shard_data_ t) (unique_shard_cnt_ t) (unique_shard_id_ t) (coordinator_state_ t)
    (run_count_ t) (notify_txid_ t) (local_result_ t) (cb_set t) (blocking_ec_notified
    t).
Definition with_reverse_index (x : list nat) (t : Transaction) : Transaction :=
  mkTransaction (this t) (cid_ t) (multi_ t) (txid_ t) (db_index_ t) (args_ t) x
    (shard_data_ t) (unique_shard_cnt_ t) (unique_shard_id_ t) (coordinator_state_ t)
    (run_count_ t) (notify_txid_ t) (local_result_ t) (cb_set t) (blocking_ec_notified
    t).
Definition with_shard_data (x : list PerShardData) (t : Transaction) : Transaction :=
  mkTransaction (this t) (cid_ t) (multi_ t) (txid_ t) (db_index_ t) (args_ t)
    (reverse_index_ t) x (unique_shard_cnt_ t) (unique_shard_id_ t) (coordinator_state_
    t) (run_count_ t) (notify_txid_ t) (local_result_ t) (cb_set t)
    (blocking_ec_notified t).
Definition with_unique_shard_cnt (x : nat) (t : Transaction) : Transaction :=
  mkTransaction (this t) (cid_ t) (multi_ t) (txid_ t) (db_index_ t) (args_ t)
    (reverse_index_ t) (shard_data_ t) x (unique_shard_id_ t) (coordinator_state_ t)
    (run_count_ t) (notify_txid_ t) (local_result_ t) (cb_set t) (blocking_ec_notified
    t).
Definition with_unique_shard_id (x : ShardId) (t : Transaction) : Transaction :=
  mkTransaction (this t) (cid_ t) (multi_ t) (txid_ t) (db_index_ t) (args_ t)
    (reverse_index_ t) (shard_data_ t) (unique_shard_cnt_ t) x (coordinator_state_ t)
    (run_count_ t) (notify_txid_ t) (local_result_ t) (cb_set t) (blocking_ec_notified
    t).
Definition with_coordinator_state (x : Z) (t : Transaction) : Transaction :=
  mkTransaction (this t) (cid_ t) (multi_ t) (txid_ t) (db_index_ t) (args_ t)
    (reverse_index_ t) (shard_data_ t) (unique_shard_cnt_ t) (unique_shard_id_ t) x
    (run_count_ t) (notify_txid_ t) (local_result_ t) (cb_set t) (blocking_ec_notified
    t).
Definition with_run_count (x : Z) (t : Transaction) : Transaction :=
  mkTransaction (this t) (cid_ t) (multi_ t) (txid_ t) (db_index_ t) (args_ t)
    (reverse_index_ t) (shard_data_ t) (unique_shard_cnt_ t) (unique_shard_id_ t)
    (coordinator_state_ t) x (notify_txid_ t) (local_result_ t) (cb_set t)
    (blocking_ec_notified t).
Definition with_notify_txid (x : TxId) (t : Transaction) : Transaction :=
  mkTransaction (this t) (cid_ t) (multi_ t) (txid_ t) (db_index_ t) (args_ t)
    (reverse_index_ t) (shard_data_ t) (unique_shard_cnt_ t) (unique_shard_id_ t)
    (coordinator_state_ t) (run_count_ t) x (local_result_ t) (cb_set t)
    (blocking_ec_notified t).
Definition with_local_result (x : OpStatus) (t : Transaction) : Transaction :=
  mkTransaction (this t) (cid_ t) (multi_ t) (txid_ t) (db_index_ t) (args_ t)
    (reverse_index_ t) (shard_data_ t) (unique_shard_cnt_ t) (unique_shard_id_ t)
    (coordinator_state_ t) (run_count_ t) (notify_txid_ t) x (cb_set t)
    (blocking_ec_notified t).
Definition with_cb (x : bool) (t : Transaction) : Transaction :=
  mkTransaction (this t) (cid_ t) (multi_ t) (txid_ t) (db_index_ t) (args_ t)
    (reverse_index_ t) (shard_data_ t) (unique_shard_cnt_ t) (unique_shard_id_ t)
    (coordinator_state_ t) (run_count_ t) (notify_txid_ t) (local_result_ t) x
    (blocking_ec_notified t).
Definition with_blocking_ec_notified (x : nat) (t : Transaction) : Transaction :=
  mkTransaction (this t) (cid_ t) (multi_ t) (txid_ t) (db_index_ t) (args_ t)
    (reverse_index_ t) (shard_data_ t) (unique_shard_cnt_ t) (unique_shard_id_ t)
    (coordinator_state_ t) (run_count_ t) (notify_txid_ t) (local_result_ t) (cb_set t)
    x.

(** [Transaction::Transaction]: EXEC, EVAL and EVALSHA are multi
    transactions; the two script commands lock all their keys at once. *)
Definition is_eval_name (s : string) : bool :=
  bool_decide (s = "EVAL"%string) || bool_decide (s = "EVALSHA"%string).

Definition NewTransaction (self : nat) (cid : CommandId) : Transaction :=
  let m :=
    if bool_decide (name cid = "EXEC"%string) || is_eval_name (name cid)
    then Some (mkMulti ∅ (opt_mask cid) (negb (is_eval_name (name cid))) false)
    else None in
  mkTransaction self cid m 0%Z 0 [] [] [] 0 0 0%Z 0%Z kuint64max OK false 0.

(** [Transaction::Mode] *)
Definition TxMode (t : Transaction) : Mode :=
  if READONLY (opt_mask (cid_ t)) then SHARED else EXCLUSIVE.

(** [Transaction::IsGlobal] *)
Definition IsGlobal (t : Transaction) : bool := GLOBAL_TRANS (opt_mask (cid_ t)).

(** Modelled from the spec: [SidToId], declared in the header that is not
    among the sources. A shard reads its own slot; a transaction shrunk to the
    single slot of the fast path keeps it at index 0. *)
Definition SidToId (t : Transaction) (sid : ShardId) : nat :=
  if sid <? length (shard_data_ t) then sid else 0.

(** ** Key router and argument packer *)

(** One entry of the thread-local [tmp_space.shard_cache]. *)
Record ShardCache := mkShardCache {
  sc_args : list string;
  original_index : list nat
}.

Definition ShardCache_clear : ShardCache := mkShardCache [] [].

(** What the routing loop of [InitByArgs] writes: the per-shard scratch
    lists, [tmp_space.uniq_keys] and [multi_->locks]. *)
Record RouteState := mkRouteState {
  shard_index : list ShardCache;
  uniq_keys : gset string;
  rs_locks : gmap string LockCnt
}.

(** What the packing loop of [InitByArgs] writes. *)
Record PackState := mkPackState {
  next_arg : nat;
  ps_args : list string;
  ps_reverse_index : list nat;
  ps_shard_data : list PerShardData;
  ps_unique_shard_cnt : nat;
  ps_unique_shard_id : ShardId
}.

Section ArgumentPacker.

(** The router [Shard(key, shard_set_size)] and the command registry's
    [DetermineKeys] are collaborators outside the sources. *)
Variable Shard : string -> nat -> ShardId.
Variable DetermineKeys : CommandId -> list string -> KeyIndex.

(** [shard_index[sid].args.push_back(a);
     shard_index[sid].original_index.push_back(orig)] *)
Definition push_arg (sid : ShardId) (a : string) (orig : nat)
    (si : list ShardCache) : option (list ShardCache) :=
  sc ← si !! sid;
  Some (<[sid := mkShardCache (sc_args sc ++ [a]) (original_index sc ++ [orig])]> si).

(** [multi_->locks[key].cnt[int(mode)]++] *)
Definition record_lock (key : string) (mode : Mode)
    (lk : gmap string LockCnt) : gmap string LockCnt :=
  <[key := cnt_add (default cnt_zero (lk !! key)) mode 1]> lk.

(** The loop [for (unsigned i = key_index.start; i < key_index.end; ++i)].
    A read outside [args] or a write outside [shard_index] has no defined
    behaviour in the source and gives [None]. The loop advances [i] in every
    round, so [key_index.end - key_index.start] rounds of fuel are enough. *)
Fixpoint route_keys (args : list string) (n : nat) (ki : KeyIndex)
    (should_record_locks : bool) (mode : Mode)
    (fuel : nat) (i : nat) (st : RouteState) : option RouteState :=
  match fuel with
  | O => Some st
  | S fuel' =>
    if end_ ki <=? i then Some st else
    key ← args !! i;
    let sid := Shard key n in
    si1 ← push_arg sid key (i - 1) (shard_index st);
    let fresh := should_record_locks && bool_decide (key ∉ uniq_keys st) in
    let uk := if should_record_locks then {[key]} ∪ uniq_keys st else uniq_keys st in
    let lk := if fresh then record_lock key mode (rs_locks st) else rs_locks st in
    if step ki =? 2 then
      val ← args !! (i + 1);
      si2 ← push_arg sid val (i + 1 - 1) si1;
      route_keys args n ki should_record_locks mode fuel' (i + 1 + 1)
        (mkRouteState si2 uk lk)
    else
      route_keys args n ki should_record_locks mode fuel' (i + 1)
        (mkRouteState si1 uk lk)
  end.

(** The inner loop [for (size_t j = 0; j < si.args.size(); ++j)]: it copies
    the scratch list of one shard to [*next_arg] and [*rev_indx_it]. *)
Fixpoint copy_args (xs : list string) (orig : list nat) (j : nat)
    (p : nat) (a : list string) (r : list nat)
    : option (nat * list string * list nat) :=
  match xs with
  | [] => Some (p, a, r)
  | x :: xs' =>
    o ← orig !! j;
    if p <? length a then copy_args xs' orig (S j) (S p) (<[p := x]> a) (<[p := o]> r)
    else None
  end.

(** The loop [for (size_t i = 0; i < shard_data_.size(); ++i)], over
    [shard_index], which was resized to [shard_data_.size()]. *)
Fixpoint pack_shards (incremental_locking : bool) (i : nat) (si : list ShardCache)
    (st : PackState) : option PackState :=
  match si with
  | [] => Some st
  | sc :: rest =>
    if negb (Z.of_nat (length (sc_args sc)) <? 2 ^ 15)%Z then None else
    sd ← ps_shard_data st !! i;
    let count := Bits.trunc 16 (Z.of_nat (length (sc_args sc))) in
    let sd1 := set_arg_slice (Bits.trunc 32 (Z.of_nat (next_arg st))) count sd in
    let sd2 := if incremental_locking then set_local_mask 0 sd1 else sd1 in
    let sds := <[i := sd2]> (ps_shard_data st) in
    if (count =? 0)%Z then
      pack_shards incremental_locking (S i) rest
        (mkPackState (next_arg st) (ps_args st) (ps_reverse_index st) sds
           (ps_unique_shard_cnt st) (ps_unique_shard_id st))
    else
      '(p, a, r) ← copy_args (sc_args sc) (original_index sc) 0
                     (next_arg st) (ps_args st) (ps_reverse_index st);
      pack_shards incremental_locking (S i) rest
        (mkPackState p a r sds (S (ps_unique_shard_cnt st)) i)
  end.

(** [sd->arg_count = -1; sd->arg_start = -1;] *)
Definition set_sentinel (sd : PerShardData) : PerShardData :=
  set_arg_slice (Bits.trunc 32 (-1)) (Bits.trunc 16 (-1)) sd.

Definition is_multi (t : Transaction) : bool :=
  match multi_ t with Some _ => true | None => false end.

(** [Transaction::InitByArgs]. [n] is [ess_->size()]. A failed [CHECK]
    ends the process: [None]. *)
Definition InitByArgs (n : nat) (index : DbIndex) (args : list string)
    (t0 : Transaction) : option Transaction :=
  let t := with_db_index index t0 in
  if IsGlobal t then
    Some (with_shard_data (resize n PerShardData_default (shard_data_ t))
            (with_unique_shard_cnt n t))
  else if negb (1 <? length args) then None else
  let key_index := DetermineKeys (cid_ t) args in
  if start key_index =? length args then
    if String.prefix "EVAL" (name (cid_ t)) then Some t else None
  else
  let incremental_locking :=
    match multi_ t with Some m => incremental m | None => false end in
  let single_key :=
    negb (is_multi t) && (end_ key_index <=? start key_index + step key_index) in
  if single_key then
    let copied := take (step key_index) (drop (start key_index) args) in
    if negb (length copied =? step key_index) then None else
    let t1 := with_args (args_ t ++ copied)
                (with_shard_data (resize 1 PerShardData_default (shard_data_ t)) t) in
    key ← head (args_ t1);
    Some (with_unique_shard_id (Shard key n) (with_unique_shard_cnt 1 t1))
  else
  let sds := resize n PerShardData_default (shard_data_ t) in
  if negb ((step key_index =? 1) || (step key_index =? 2)) then None else
  let cleared := replicate (length sds) ShardCache_clear in
  let mode := if is_multi t then TxMode t else EXCLUSIVE in
  let should_record_locks :=
    match multi_ t with
    | Some m => incremental_locking || negb (locks_recorded m)
    | None => false
    end in
  let lk0 := match multi_ t with Some m => locks m | None => ∅ end in
  rs ← route_keys args (length sds) key_index should_record_locks mode
         (end_ key_index - start key_index) (start key_index)
         (mkRouteState cleared ∅ lk0);
  let multi1 :=
    match multi_ t with
    | Some m => Some (mkMulti (rs_locks rs) (multi_opts m) (incremental m) true)
    | None => None
    end in
  let args1 := resize (end_ key_index - start key_index) ""%string (args_ t) in
  let rev1 := resize (length args1) 0 (reverse_index_ t) in
  ps ← pack_shards incremental_locking 0 (shard_index rs)
         (mkPackState 0 args1 rev1 sds (unique_shard_cnt_ t) (unique_shard_id_ t));
  if negb (next_arg ps =? length (ps_args ps)) then None else
  let sds1 :=
    if ps_unique_shard_cnt ps =? 1 then
      if is_multi t then
        match ps_shard_data ps !! ps_unique_shard_id ps with
        | Some sd => <[ps_unique_shard_id ps := set_sentinel sd]> (ps_shard_data ps)
        | None => ps_shard_data ps
        end
      else
        match resize 1 PerShardData_default (ps_shard_data ps) with
        | sd :: rest => set_sentinel sd :: rest
        | [] => []
        end
    else ps_shard_data ps in
  Some (with_shard_data sds1
         (with_unique_shard_id (ps_unique_shard_id ps)
           (with_unique_shard_cnt (ps_unique_shard_cnt ps)
             (with_reverse_index (ps_reverse_index ps)
               (with_args (ps_args ps)
                 (with_multi multi1 t)))))).

(** [Transaction::ReverseArgIndex]; the index read is a [size_t] sum.
    A read outside [reverse_index_] gives [None]. *)
Definition ReverseArgIndex (t : Transaction) (shard_id : ShardId) (arg_index : nat)
    : option nat :=
  if unique_shard_cnt_ t =? 1 then Some arg_index
  else
    sd ← shard_data_ t !! shard_id;
    reverse_index_ t !! (Z.to_nat (arg_start sd) + arg_index).

(** [Transaction::ShardArgsInShard] *)
Definition ShardArgsInShard (t : Transaction) (sid : ShardId) : list string :=
  if unique_shard_cnt_ t =? 1 then args_ t
  else
    match shard_data_ t !! sid with
    | Some sd => take (Z.to_nat (arg_count sd)) (drop (Z.to_nat (arg_start sd)) (args_ t))
    | None => []
    end.

(** *** What the packer is specified against *)

(** The positions of the keys in the caller's argument vector:
    [start], [start + step], ... below [end]. *)
Fixpoint key_positions (ki : KeyIndex) (fuel i : nat) : list nat :=
  match fuel with
  | O => []
  | S fuel' => if end_ ki <=? i then [] else i :: key_positions ki fuel' (i + step ki)
  end.

(** The keys of the command, in caller order. *)
Definition keys_of (args : list string) (ki : KeyIndex) : list string :=
  omap (fun p => args !! p) (key_positions ki (end_ ki - start ki) (start ki)).

(** The keys among [keys] that the router sends to shard [s] of [n]. *)
Definition routed (n : nat) (s : ShardId) (keys : list string) : list string :=
  filter (fun k => Shard k n = s) keys.

(** The number of keys of the command routed to shard [s]. *)
Definition keys_routed_to (n : nat) (args : list string) (ki : KeyIndex)
    (s : ShardId) : nat :=
  length (routed n s (keys_of args ki)).

(** A scratch list pairs every argument with an index, and the index is
    that of the argument among those that follow the command name. *)
Definition bucket_len_ok (sc : ShardCache) : Prop :=
  length (original_index sc) = length (sc_args sc).

Definition bucket_ok (args : list string) (sc : ShardCache) : Prop :=
  bucket_len_ok sc /\
  forall j a o, sc_args sc !! j = Some a -> original_index sc !! j = Some o ->
                args !! (S o) = Some a.

End ArgumentPacker.

(** ** Flags

    [LocalState] and [CoordinatorState] are enums of the header, which is not
    among the sources: every flag is a single bit, and which bit is left
    open. [local_mask] is a 16-bit field and [coordinator_state_] an 8-bit
    one. *)

Record LocalStateBits := mkLocalStateBits {
  armed_bit : Z;
  out_of_order_bit : Z;
  keylock_acquired_bit : Z;
  suspended_q_bit : Z;
  awaked_q_bit : Z;
  expired_q_bit : Z
}.

Record CoordinatorStateBits := mkCoordinatorStateBits {
  coord_sched_bit : Z;
  coord_exec_bit : Z;
  coord_exec_concluding_bit : Z;
  coord_blocked_bit : Z;
  coord_cancelled_bit : Z;
  coord_ooo_bit : Z
}.

(** The bits lie in a field of [w] bits and differ from one another. *)
Definition distinct_bits (w : Z) (bs : list Z) : bool :=
  forallb (fun b => (0 <=? b)%Z && (b <? w)%Z) bs && bool_decide (NoDup bs).

Definition local_state_ok (L : LocalStateBits) : bool :=
  distinct_bits 16
    [armed_bit L; out_of_order_bit L; keylock_acquired_bit L;
     suspended_q_bit L; awaked_q_bit L; expired_q_bit L].

Definition coordinator_state_ok (C : CoordinatorStateBits) : bool :=
  distinct_bits 8
    [coord_sched_bit C; coord_exec_bit C; coord_exec_concluding_bit C;
     coord_blocked_bit C; coord_cancelled_bit C; coord_ooo_bit C].

(** ** The shard, as the coordinator uses it *)

(** [KeyLockArgs] *)
Record KeyLockArgs := mkKeyLockArgs {
  kl_db_index : DbIndex;
  kl_key_step : nat;
  kl_args : list string
}.

(** Modelled from the spec: [IntentLock], "a per-key lock with shared/exclusive
    modes", and the whole-shard lock with its "shared/exclusive compatibility"
    check; the class is not among the sources. The lock counts its holders per
    mode. A shared request is compatible with shared holders, an exclusive one
    with none. *)
Definition IntentLock_Check (m : Mode) (c : LockCnt) : bool :=
  match m with
  | SHARED => (cnt_exclusive c =? 0)%Z
  | EXCLUSIVE => (cnt_exclusive c =? 0)%Z && (cnt_shared c =? 0)%Z
  end.

Definition IntentLock_Acquire (m : Mode) (c : LockCnt) : bool * LockCnt :=
  (IntentLock_Check m c, cnt_add c m 1).

Definition IntentLock_Release (m : Mode) (val : Z) (c : LockCnt) : LockCnt :=
  cnt_add c m (- val).

(** Modelled from the spec: the lock table of [DbSlice], one intent lock per
    database and key, behind [Acquire(mode, keys) -> uncontended],
    [Release(mode, keys)], [Release(mode, db, key, count)] and
    [CheckLock(mode, keys)]; the class is not among the sources. The keys of a
    [KeyLockArgs] are its arguments at the stride [key_step], each locked
    once. *)
Abbreviation LockTable := (DbIndex -> string -> LockCnt) (only parsing).

Definition lock_table_empty : DbIndex -> string -> LockCnt := fun _ _ => cnt_zero.

Fixpoint every_nth (k skip : nat) (l : list string) : list string :=
  match l with
  | [] => []
  | x :: l' =>
    match skip with
    | O => x :: every_nth k (k - 1) l'
    | S s => every_nth k s l'
    end
  end.

Definition lock_keys (la : KeyLockArgs) : list string :=
  remove_dups (every_nth (kl_key_step la) 0 (kl_args la)).

Definition lock_update (db : DbIndex) (key : string) (f : LockCnt -> LockCnt)
    (lt : DbIndex -> string -> LockCnt) : DbIndex -> string -> LockCnt :=
  fun db' key' =>
    if bool_decide (db' = db /\ key' = key) then f (lt db' key') else lt db' key'.

Definition db_Acquire (m : Mode) (la : KeyLockArgs) (lt : DbIndex -> string -> LockCnt)
    : bool * (DbIndex -> string -> LockCnt) :=
  foldl (fun '(ok, lt) key =>
           (ok && IntentLock_Check m (lt (kl_db_index la) key),
            lock_update (kl_db_index la) key (fun c => cnt_add c m 1) lt))
        (true, lt) (lock_keys la).

Definition db_ReleaseKey (m : Mode) (db : DbIndex) (key : string) (count : Z)
    (lt : DbIndex -> string -> LockCnt) : DbIndex -> string -> LockCnt :=
  lock_update db key (IntentLock_Release m count) lt.

Definition db_Release (m : Mode) (la : KeyLockArgs) (lt : DbIndex -> string -> LockCnt)
    : DbIndex -> string -> LockCnt :=
  foldl (fun lt key => db_ReleaseKey m (kl_db_index la) key 1 lt) lt (lock_keys la).

Definition db_CheckLock (m : Mode) (la : KeyLockArgs) (lt : DbIndex -> string -> LockCnt)
    : bool :=
  forallb (fun key => IntentLock_Check m (lt (kl_db_index la) key)) (lock_keys la).

(** Modelled from the spec: [TxQueue], the queue of a shard ordered by
    transaction id, behind [Insert -> it], [Remove(it)], [At(it)], [PopFront],
    [Front], [TailScore] and [Empty]; the class is not among the sources. An
    entry keeps the position handed out for it, its score and the transaction
    that is its payload; the front of the queue is the head of the list. *)
Record QueueEntry := mkQueueEntry {
  qe_pos : Z;
  qe_score : Z;
  qe_trans : nat
}.

Definition txq_Empty (q : list QueueEntry) : bool :=
  match q with [] => true | _ => false end.

Definition txq_TailScore (q : list QueueEntry) : Z :=
  match last q with Some e => qe_score e | None => 0%Z end.

Definition txq_fresh_pos (q : list QueueEntry) : Z :=
  (1 + foldr (fun e acc => Z.max (qe_pos e) acc) (-1) q)%Z.

Fixpoint txq_place (e : QueueEntry) (q : list QueueEntry) : list QueueEntry :=
  match q with
  | [] => [e]
  | x :: q' => if (qe_score e <? qe_score x)%Z then e :: x :: q' else x :: txq_place e q'
  end.

Definition txq_Insert (score : Z) (trans : nat) (q : list QueueEntry)
    : Z * list QueueEntry :=
  let p := txq_fresh_pos q in (p, txq_place (mkQueueEntry p score trans) q).

Definition txq_Remove (p : Z) (q : list QueueEntry) : list QueueEntry :=
  filter (fun e => qe_pos e <> p) q.

Definition txq_At (p : Z) (q : list QueueEntry) : option nat :=
  qe_trans <$> list_find (fun e => qe_pos e = p) q ≫= (fun r => Some r.2).

Definition txq_Front (q : list QueueEntry) : option nat := qe_trans <$> head q.

Definition txq_PopFront (q : list QueueEntry) : list QueueEntry := tail q.

(** Modelled from the spec: the watch tables of a shard behind
    [AddWatched(key, tx)] and [RemovedWatched(key, tx)], kept as the list of
    the registrations; they are not among the sources. *)
Definition AddWatched_entry (db : DbIndex) (key : string) (tx : nat)
    (w : list (DbIndex * string * nat)) : list (DbIndex * string * nat) :=
  w ++ [(db, key, tx)].

Definition RemovedWatched_entry (db : DbIndex) (key : string) (tx : nat)
    (w : list (DbIndex * string * nat)) : list (DbIndex * string * nat) :=
  filter (fun e => e <> (db, key, tx)) w.

(** [EngineShard], as far as the coordinator reads and writes it. *)
Record EngineShard := mkEngineShard {
  shard_id : ShardId;
  committed_txid : TxId;
  shard_lock : LockCnt;
  lock_table : DbIndex -> string -> LockCnt;
  txq : list QueueEntry;
  watched : list (DbIndex * string * nat)
}.

Definition with_shard_lock (x : LockCnt) (s : EngineShard) : EngineShard :=
  mkEngineShard (shard_id s) (committed_txid s) x (lock_table s) (txq s) (watched s).
Definition with_lock_table (x : DbIndex -> string -> LockCnt) (s : EngineShard)
    : EngineShard :=
  mkEngineShard (shard_id s) (committed_txid s) (shard_lock s) x (txq s) (watched s).
Definition with_txq (x : list QueueEntry) (s : EngineShard) : EngineShard :=
  mkEngineShard (shard_id s) (committed_txid s) (shard_lock s) (lock_table s) x (watched s).
Definition with_watched (x : list (DbIndex * string * nat)) (s : EngineShard)
    : EngineShard :=
  mkEngineShard (shard_id s) (committed_txid s) (shard_lock s) (lock_table s) (txq s) x.

(** ** The coordinator *)

(** [Transaction::GetLockArgs] *)
Definition GetLockArgs (t : Transaction) (sid : ShardId) : KeyLockArgs :=
  mkKeyLockArgs (db_index_ t) (key_arg_step (cid_ t)) (ShardArgsInShard t sid).

(** [shard_data_[idx] = sd] *)
Definition set_slot (idx : nat) (sd : PerShardData) (t : Transaction) : Transaction :=
  with_shard_data (<[idx := sd]> (shard_data_ t)) t.

(** Two states of a transaction that differ at most in the masks and the
    queue positions of the slots, in [txid_] and in [run_count_]. *)
Definition same_routing (t t' : Transaction) : Prop :=
  this t' = this t /\ cid_ t' = cid_ t /\ multi_ t' = multi_ t /\
  db_index_ t' = db_index_ t /\ args_ t' = args_ t /\
  coordinator_state_ t' = coordinator_state_ t /\
  unique_shard_cnt_ t' = unique_shard_cnt_ t /\
  unique_shard_id_ t' = unique_shard_id_ t /\
  notify_txid_ t' = notify_txid_ t /\
  blocking_ec_notified t' = blocking_ec_notified t /\
  (fun sd => (arg_start sd, arg_count sd)) <$> shard_data_ t'
    = (fun sd => (arg_start sd, arg_count sd)) <$> shard_data_ t.

(** [EngineShardSet::RunBriefInParallel(cb, is_active)]: the callback runs on
    every active shard. A callback touches its own shard and, in the
    transaction, the slot of that shard, so the shards are taken in the order
    of their ids; the results of the callbacks are collected in that order. *)
Fixpoint RunBriefInParallel {A : Type}
    (cb : Transaction -> EngineShard -> option (Transaction * EngineShard * A))
    (is_active : Transaction -> ShardId -> option bool)
    (i : ShardId) (shards : list EngineShard) (t : Transaction)
    : option (Transaction * list EngineShard * list A) :=
  match shards with
  | [] => Some (t, [], [])
  | sh :: rest =>
    a ← is_active t i;
    if a : bool then
      '(t1, sh1, r) ← cb t sh;
      '(t2, rest2, rs) ← RunBriefInParallel cb is_active (S i) rest t1;
      Some (t2, sh1 :: rest2, r :: rs)
    else
      '(t2, rest2, rs) ← RunBriefInParallel cb is_active (S i) rest t;
      Some (t2, sh :: rest2, rs)
  end.

(** What every answer [(schedule_success, lock_granted)] of a shard looks
    like: a granted lock comes with a scheduled transaction, and a span-all
    transaction is never granted one. *)
Definition answer_ok (t : Transaction) (r : bool * bool) : Prop :=
  (r.2 = true -> r.1 = true) /\ (IsGlobal t = true -> r.2 = false).

Definition count_true (l : list bool) : nat := length (filter (fun b => b = true) l).

(** The global counter [std::atomic_uint64_t op_seq{1}] and
    [op_seq.fetch_add(1)], which returns the value before the addition. *)
Definition op_seq_init : Z := 1.

Definition op_seq_fetch_add (op_seq : Z) : TxId * Z :=
  (op_seq, Bits.trunc 64 (op_seq + 1)).




Section Coordinator.

Context (L : LocalStateBits) (C : CoordinatorStateBits).

Definition ARMED : Z := Bits.flag (armed_bit L).
Definition OUT_OF_ORDER : Z := Bits.flag (out_of_order_bit L).
Definition KEYLOCK_ACQUIRED : Z := Bits.flag (keylock_acquired_bit L).
Definition SUSPENDED_Q : Z := Bits.flag (suspended_q_bit L).
Definition AWAKED_Q : Z := Bits.flag (awaked_q_bit L).
Definition EXPIRED_Q : Z := Bits.flag (expired_q_bit L).

Definition COORD_SCHED : Z := Bits.flag (coord_sched_bit C).
Definition COORD_EXEC : Z := Bits.flag (coord_exec_bit C).
Definition COORD_EXEC_CONCLUDING : Z := Bits.flag (coord_exec_concluding_bit C).
Definition COORD_BLOCKED : Z := Bits.flag (coord_blocked_bit C).
Definition COORD_CANCELLED : Z := Bits.flag (coord_cancelled_bit C).
Definition COORD_OOO : Z := Bits.flag (coord_ooo_bit C).

(** Modelled from the spec: the inspector [IsOOO] of the header. *)
Definition IsOOO (t : Transaction) : bool := Bits.has (coordinator_state_ t) COORD_OOO.

(** [Transaction::DecreaseRunCnt]: [run_count_.fetch_sub(1)] on the 32-bit
    counter; the value before the subtraction is returned. *)
Definition DecreaseRunCnt (t : Transaction) : Z * Transaction :=
  (run_count_ t, with_run_count (Bits.trunc 32 (run_count_ t - 1)) t).

(** [Transaction::ScheduleInShard]. The result is
    [(schedule_success, lock_granted)]. *)
Definition ScheduleInShard (t : Transaction) (shard : EngineShard)
    : option (Transaction * EngineShard * (bool * bool)) :=
  if (txid_ t <=? committed_txid shard)%Z then Some (t, shard, (false, false)) else
  let mode := TxMode t in
  let spans_all := IsGlobal t in
  let sid := SidToId t (shard_id shard) in
  sd ← shard_data_ t !! sid;
  let lock_args :=
    if spans_all then mkKeyLockArgs 0 0 [] else GetLockArgs t (shard_id shard) in
  let '(lock_granted, lt1, mask1) :=
    if spans_all then (false, lock_table shard, local_mask sd)
    else
      let shard_unlocked := IntentLock_Check mode (shard_lock shard) in
      let '(acquired, lt) := db_Acquire mode lock_args (lock_table shard) in
      (acquired && shard_unlocked, lt, Bits.set (local_mask sd) KEYLOCK_ACQUIRED) in
  let to_proceed := lock_granted || (txq_TailScore (txq shard) <? txid_ t)%Z in
  if negb (txq_Empty (txq shard)) && negb to_proceed then
    let '(lt2, mask2) :=
      if Bits.has mask1 KEYLOCK_ACQUIRED
      then (db_Release mode lock_args lt1, Bits.clear mask1 KEYLOCK_ACQUIRED)
      else (lt1, mask1) in
    Some (set_slot sid (set_local_mask mask2 sd) t,
          with_lock_table lt2 shard, (false, false))
  else
    let '(it, q) := txq_Insert (txid_ t) (this t) (txq shard) in
    Some (set_slot sid (set_pq_pos it (set_local_mask mask1 sd)) t,
          with_txq q (with_lock_table lt1 shard), (true, lock_granted)).

(** What an attempt computes as [lock_granted] before it looks at the
    queue. *)
Definition lock_granted_in (t : Transaction) (shard : EngineShard) : bool :=
  negb (IsGlobal t)
  && (db_Acquire (TxMode t) (GetLockArgs t (shard_id shard)) (lock_table shard)).1
  && IntentLock_Check (TxMode t) (shard_lock shard).

(** [Transaction::CancelInShard] *)
Definition CancelInShard (t : Transaction) (shard : EngineShard)
    : option (Transaction * EngineShard * bool) :=
  let idx := SidToId t (shard_id shard) in
  sd ← shard_data_ t !! idx;
  let pos := pq_pos sd in
  if (pos =? kEnd)%Z then Some (t, shard, false) else
  let q := txq_Remove pos (txq shard) in
  if Bits.has (local_mask sd) KEYLOCK_ACQUIRED then
    let lt := db_Release (TxMode t) (GetLockArgs t (shard_id shard)) (lock_table shard) in
    Some (set_slot idx
            (set_local_mask (Bits.clear (local_mask sd) KEYLOCK_ACQUIRED)
               (set_pq_pos kEnd sd)) t,
          with_lock_table lt (with_txq q shard), true)
  else
    Some (set_slot idx (set_pq_pos kEnd sd) t, with_txq q shard, true).

(** The [is_active] predicate of [ScheduleInternal]. *)
Definition is_active (span_all : bool) (num_shards : nat) (t : Transaction)
    (i : ShardId) : option bool :=
  if span_all then Some true
  else if num_shards =? 1 then Some (i =? unique_shard_id_ t)
  else sd ← shard_data_ t !! i; Some (0 <? arg_count sd)%Z.

(** The number of shards among the first [n] that [is_active] selects. *)
Definition active_count (span_all : bool) (num_shards : nat) (t : Transaction)
    (n : nat) : nat :=
  length (filter (fun i => is_active span_all num_shards t i = Some true) (seq 0 n)).

(** The loop [while (true)] of [ScheduleInternal]; every round draws a
    transaction id from [op_seq]. Besides the state it returns what the
    shards answered in the round that succeeded. *)
Fixpoint ScheduleInternal_loop (fuel : nat) (span_all single_hop : bool)
    (num_shards : nat) (op_seq : Z) (t : Transaction) (shards : list EngineShard)
    : option (Z * Transaction * list EngineShard * list (bool * bool)) :=
  match fuel with
  | O => None
  | S fuel' =>
    let '(txid, op_seq1) := op_seq_fetch_add op_seq in
    let t1 := with_txid txid t in
    '(t2, shards2, res) ←
      RunBriefInParallel ScheduleInShard (is_active span_all num_shards) 0 shards t1;
    let success := count_true (fst <$> res) in
    let lock_granted_cnt := count_true (snd <$> res) in
    if success =? num_shards then
      let cs1 :=
        if single_hop && (lock_granted_cnt =? num_shards)
        then Bits.set (coordinator_state_ t2) COORD_OOO
        else coordinator_state_ t2 in
      Some (op_seq1, with_coordinator_state (Bits.set cs1 COORD_SCHED) t2, shards2, res)
    else
      '(t3, shards3, cancelled) ←
        RunBriefInParallel CancelInShard (is_active span_all num_shards) 0 shards2 t2;
      if negb (Bits.trunc 32 (Z.of_nat success - Z.of_nat (count_true cancelled)) =? 0)%Z
      then None
      else ScheduleInternal_loop fuel' span_all single_hop num_shards op_seq1 t3 shards3
  end.

(** [Transaction::ScheduleInternal] *)
Definition ScheduleInternal (fuel : nat) (op_seq : Z) (t : Transaction)
    (shards : list EngineShard)
    : option (Z * Transaction * list EngineShard * list (bool * bool)) :=
  let span_all := IsGlobal t in
  let single_hop := Bits.has (coordinator_state_ t) COORD_EXEC_CONCLUDING in
  let mode := TxMode t in
  let '(num_shards, shards1) :=
    if span_all
    then (length shards,
          (fun sh => with_shard_lock (IntentLock_Acquire mode (shard_lock sh)).2 sh)
            <$> shards)
    else (unique_shard_cnt_ t, shards) in
  '(op_seq1, t1, shards2, res) ←
    ScheduleInternal_loop fuel span_all single_hop num_shards op_seq t shards1;
  let t2 :=
    if IsOOO t1
    then with_shard_data
           ((fun sd => set_local_mask (Bits.set (local_mask sd) OUT_OF_ORDER) sd)
              <$> shard_data_ t1) t1
    else t1 in
  Some (op_seq1, t2, shards2, res).

(** *** The shard-side runner, the multi and the blocking controller *)

(** Collaborators outside the sources: the router, the procedures of
    [EngineShard] that the coordinator calls without reading their result
    ([PollExecution] with no transaction, [ProcessAwakened],
    [ShutdownMulti], [HasResultConverged], [WaitForConvergence]), the hop
    [Execute], whose callbacks the shards run through their own
    [PollExecution], and [blocking_ec_.await]/[await_until], which return
    what the other threads made of the transaction while the coordinator
    slept. *)
Variable Shard : string -> nat -> ShardId.
Variable PollExecution : EngineShard -> EngineShard.
Variable ProcessAwakened : option Transaction -> EngineShard -> EngineShard.
Variable ShutdownMulti : Transaction -> EngineShard -> EngineShard.
Variable HasResultConverged : TxId -> EngineShard -> bool.
Variable WaitForConvergence :
  TxId -> Transaction -> EngineShard -> Transaction * EngineShard.

(** [ess_->Add(i, cb)] followed by the wait for the callback: [cb] runs on
    shard [i]. A shard that does not exist gives [None]. *)
Definition ess_Add (i : ShardId)
    (cb : Transaction -> EngineShard -> option (Transaction * EngineShard))
    (st : Transaction * list EngineShard) : option (Transaction * list EngineShard) :=
  sh ← st.2 !! i;
  '(t', sh') ← cb st.1 sh;
  Some (t', <[i := sh']> st.2).

Fixpoint ess_Add_each (ids : list ShardId)
    (cb : Transaction -> EngineShard -> option (Transaction * EngineShard))
    (st : Transaction * list EngineShard) : option (Transaction * list EngineShard) :=
  match ids with
  | [] => Some st
  | i :: rest => st' ← ess_Add i cb st; ess_Add_each rest cb st'
  end.

(** The indices [i], from [i0] on, of the slots with [arg_count != 0]. *)
Fixpoint touched_from (i0 : nat) (sds : list PerShardData) : list ShardId :=
  match sds with
  | [] => []
  | sd :: rest =>
    if (arg_count sd =? 0)%Z then touched_from (S i0) rest
    else i0 :: touched_from (S i0) rest
  end.

(** [Transaction::RunInShard]. The callback [cb] gets the transaction and
    the shard and may change both; [sd] is a reference, so the slot is read
    again after the callback. The result tells whether the transaction is
    to be kept. The debug-only checks are not part of the model; a failed
    [CHECK], also one inside the callback, gives [None]. *)
Definition RunInShard
    (cb : Transaction -> EngineShard -> option (OpStatus * Transaction * EngineShard))
    (t : Transaction) (shard : EngineShard)
    : option (Transaction * EngineShard * bool) :=
  if negb (cb_set t) then None else
  let idx := SidToId t (shard_id shard) in
  sd ← shard_data_ t !! idx;
  let mask0 := Bits.clear (local_mask sd) ARMED in
  let awaked_prerun := Bits.has mask0 AWAKED_Q in
  let incremental_lock :=
    match multi_ t with Some m => incremental m | None => false end in
  let should_release :=
    Bits.has (coordinator_state_ t) COORD_EXEC_CONCLUDING && negb (is_multi t) in
  let mode := TxMode t in
  let '(mask1, shard1) :=
    if incremental_lock && negb (Bits.has mask0 KEYLOCK_ACQUIRED)
    then (Bits.set mask0 KEYLOCK_ACQUIRED,
          with_lock_table
            (db_Acquire mode (GetLockArgs t idx) (lock_table shard)).2 shard)
    else (mask0, shard) in
  '(status, tc, shc) ← cb (set_slot idx (set_local_mask mask1 sd) t) shard1;
  r ← (if unique_shard_cnt_ tc =? 1
       then Some (with_local_result status (with_cb false tc))
       else match status with OK => Some tc | _ => None end);
  sd1 ← shard_data_ r !! idx;
  let '(sd2, q2) :=
    if negb (pq_pos sd1 =? kEnd)%Z
    then (set_pq_pos kEnd sd1, txq_Remove (pq_pos sd1) (txq shc))
    else (sd1, txq shc) in
  let sh2 := with_txq q2 shc in
  let '(sd3, sh3) :=
    if should_release then
      let is_suspended := Bits.has (local_mask sd2) SUSPENDED_Q in
      if IsGlobal r then
        (sd2, with_shard_lock (IntentLock_Release (TxMode r) 1 (shard_lock sh2)) sh2)
      else
        let largs := GetLockArgs r idx in
        let '(m3, lt3) :=
          if negb is_suspended
          then (Bits.clear (local_mask sd2) KEYLOCK_ACQUIRED,
                db_Release mode largs (lock_table sh2))
          else (local_mask sd2, lock_table sh2) in
        let sd4 := set_local_mask (Bits.clear m3 OUT_OF_ORDER) sd2 in
        (sd4,
         ProcessAwakened (if awaked_prerun then Some (set_slot idx sd4 r) else None)
           (with_lock_table lt3 sh2))
    else (sd2, sh2) in
  let '(res, t4) := DecreaseRunCnt (set_slot idx sd3 r) in
  if (res <? 1)%Z then None else Some (t4, sh3, negb should_release).

(** The keys of [multi_->locks] that [UnlockMulti] files under shard [sid]
    of [n]. *)
Definition sharded_keys (n : nat) (m : Multi) (sid : ShardId)
    : list (string * LockCnt) :=
  filter (fun kv => Shard kv.1 n = sid) (map_to_list (locks m)).

(** The lambda [release] of [UnlockMulti], for one key and one mode. *)
Definition release_recorded (db : DbIndex) (kv : string * LockCnt) (mode : Mode)
    (lt : DbIndex -> string -> LockCnt) : DbIndex -> string -> LockCnt :=
  if (cnt kv.2 mode =? 0)%Z then lt
  else db_ReleaseKey mode db kv.1 (cnt kv.2 mode) lt.

(** What the callback of [UnlockMulti] does before it hands the shard to
    [ShutdownMulti], [ProcessAwakened] and [PollExecution]. *)
Definition unlock_multi_core (n : nat) (m : Multi) (t : Transaction)
    (shard : EngineShard) : option (Transaction * EngineShard) :=
  let sl :=
    if GLOBAL_TRANS (multi_opts m)
    then IntentLock_Release EXCLUSIVE 1 (shard_lock shard)
    else shard_lock shard in
  let lt :=
    foldl (fun lt kv =>
             release_recorded (db_index_ t) kv EXCLUSIVE
               (release_recorded (db_index_ t) kv SHARED lt))
          (lock_table shard) (sharded_keys n m (shard_id shard)) in
  let idx := SidToId t (shard_id shard) in
  sd ← shard_data_ t !! idx;
  let '(sd1, q) :=
    if negb (pq_pos sd =? kEnd)%Z
    then (set_pq_pos kEnd sd, txq_PopFront (txq shard))
    else (sd, txq shard) in
  Some (set_slot idx sd1 t,
        with_txq q (with_lock_table lt (with_shard_lock sl shard))).

Definition unlock_multi_cb (n : nat) (m : Multi) (t : Transaction)
    (shard : EngineShard) : option (Transaction * EngineShard) :=
  '(t1, sh1) ← unlock_multi_core n m t shard;
  Some ((DecreaseRunCnt t1).2,
        PollExecution (ProcessAwakened None (ShutdownMulti t1 sh1))).

(** A lock after the counts [c], recorded for its key, are released. *)
Definition release_counts (c x : LockCnt) : LockCnt :=
  cnt_add (cnt_add x SHARED (- cnt c SHARED)) EXCLUSIVE (- cnt c EXCLUSIVE).

(** What [UnlockMulti] has done to shard [sh] when it hands [core] to the
    procedures of the shard; [sd] is the slot of the shard before. *)
Definition unlocked (n : nat) (m : Multi) (t : Transaction) (sh : EngineShard)
    (sd : PerShardData) (core : EngineShard) : Prop :=
  (forall db k,
     lock_table core db k
     = if bool_decide (db = db_index_ t /\ Shard k n = shard_id sh)
       then release_counts (default cnt_zero (locks m !! k)) (lock_table sh db k)
       else lock_table sh db k) /\
  shard_lock core
    = (if GLOBAL_TRANS (multi_opts m) then cnt_add (shard_lock sh) EXCLUSIVE (-1)
       else shard_lock sh) /\
  txq core = (if (pq_pos sd =? kEnd)%Z then txq sh else txq_PopFront (txq sh)).

(** [Transaction::UnlockMulti]; [n] is [ess_->size()]. *)
Definition UnlockMulti (n : nat) (t : Transaction) (shards : list EngineShard)
    : option (Transaction * list EngineShard) :=
  m ← multi_ t;
  let t1 :=
    with_run_count
      (Bits.trunc 32 (run_count_ t + Z.of_nat (length (shard_data_ t)))) t in
  ess_Add_each (seq 0 (length (shard_data_ t))) (unlock_multi_cb n m) (t1, shards).

(** The lambda [expire_cb] of [ExpireBlocking]. *)
Definition expire_cb (t : Transaction) (shard : EngineShard)
    : option (Transaction * EngineShard) :=
  let lock_args := GetLockArgs t (shard_id shard) in
  let lt := db_Release (TxMode t) lock_args (lock_table shard) in
  let sd_idx := SidToId t (shard_id shard) in
  sd ← shard_data_ t !! sd_idx;
  let mask :=
    Bits.clear (Bits.set (local_mask sd) EXPIRED_Q) KEYLOCK_ACQUIRED in
  let t1 := set_slot sd_idx (set_local_mask mask sd) t in
  let '(res, t2) := DecreaseRunCnt t1 in
  if (res <? 1)%Z then None
  else Some (t2, PollExecution (with_lock_table lt shard)).

(** The shards that [ExpireBlocking] and the convergence barrier visit. *)
Definition touched_shards (t : Transaction) : list ShardId :=
  if unique_shard_cnt_ t =? 1 then [unique_shard_id_ t]
  else touched_from 0 (shard_data_ t).

(** [Transaction::ExpireBlocking] *)
Definition ExpireBlocking (t : Transaction) (shards : list EngineShard)
    : option (Transaction * list EngineShard) :=
  let t0 := with_run_count (Z.of_nat (unique_shard_cnt_ t)) t in
  ess_Add_each (touched_shards t) expire_cb (t0, shards).

(** What [expire_cb] leaves in the mask of a slot, and the shard that it
    hands back: the locks of the transaction's keys released, the rest left
    to [PollExecution]. *)
Definition expired_mask (m : Z) : Prop :=
  Bits.has m EXPIRED_Q = true /\ Bits.has m KEYLOCK_ACQUIRED = false.

Definition expired_shard (t : Transaction) (sh : EngineShard) : EngineShard :=
  PollExecution
    (with_lock_table
       (db_Release (TxMode t) (GetLockArgs t (shard_id sh)) (lock_table sh)) sh).

(** [Transaction::AddToWatchedShardCb] *)
Definition AddToWatchedShardCb (t : Transaction) (shard : EngineShard)
    : option (OpStatus * Transaction * EngineShard) :=
  let sid := SidToId t (shard_id shard) in
  sd ← shard_data_ t !! sid;
  if Bits.has (local_mask sd) SUSPENDED_Q then None else
  let w :=
    foldl (fun w s => AddWatched_entry (db_index_ t) s (this t) w)
          (watched shard) (ShardArgsInShard t (shard_id shard)) in
  Some (OK,
        set_slot sid (set_local_mask (Bits.set (local_mask sd) SUSPENDED_Q) sd) t,
        with_watched w shard).

(** [kQueueMask] of [RemoveFromWatchedShardCb], a [uint16_t]:
    [-SUSPENDED_Q | AWAKED_Q | EXPIRED_Q]. *)
Definition kQueueMask : Z :=
  Bits.trunc 16 (Z.lor (Z.lor (- SUSPENDED_Q) AWAKED_Q) EXPIRED_Q).

(** [Transaction::RemoveFromWatchedShardCb] *)
Definition RemoveFromWatchedShardCb (t : Transaction) (shard : EngineShard)
    : option (Transaction * EngineShard * bool) :=
  let sid := SidToId t (shard_id shard) in
  sd ← shard_data_ t !! sid;
  if (Z.land (local_mask sd) kQueueMask =? 0)%Z then Some (t, shard, false) else
  let w :=
    foldl (fun w s => RemovedWatched_entry (db_index_ t) s (this t) w)
          (watched shard) (ShardArgsInShard t (shard_id shard)) in
  Some (set_slot sid (set_local_mask (Z.land (local_mask sd) kQueueMask) sd) t,
        with_watched w shard, true).

(** [Transaction::NotifySuspended]. The loop around
    [compare_exchange_weak] ends with [notify_txid_] lowered to
    [committed_txid] when that is below it, and only then is
    [blocking_ec_] notified. The result of the function is its [bool]; a
    failed [CHECK] gives [None]. *)
Definition NotifySuspended (committed_txid : TxId) (sid : ShardId) (t : Transaction)
    : option (Transaction * bool) :=
  let sd_id := SidToId t sid in
  sd ← shard_data_ t !! sd_id;
  let local_mask0 := local_mask sd in
  if negb (Bits.has local_mask0 SUSPENDED_Q) then None else
  if Bits.has local_mask0 EXPIRED_Q then Some (t, false) else
  if Bits.has local_mask0 SUSPENDED_Q then
    let mask := Bits.set (Bits.clear (local_mask sd) SUSPENDED_Q) AWAKED_Q in
    let t1 := set_slot sd_id (set_local_mask mask sd) t in
    let t2 :=
      if (committed_txid <? notify_txid_ t1)%Z
      then with_blocking_ec_notified (S (blocking_ec_notified t1))
             (with_notify_txid committed_txid t1)
      else t1 in
    Some (t2, true)
  else
    if Bits.has (local_mask sd) AWAKED_Q then Some (t, true) else None.

(** [Transaction::BreakOnClose] *)
Definition BreakOnClose (t : Transaction) : Transaction :=
  if Bits.has (coordinator_state_ t) COORD_BLOCKED
  then with_blocking_ec_notified (S (blocking_ec_notified t))
         (with_coordinator_state (Bits.set (coordinator_state_ t) COORD_CANCELLED) t)
  else t.

(** [std::cv_status] *)
Inductive cv_status := no_timeout | timeout.

(** The lambda [converge_cb] of [WaitOnWatch]. *)
Definition converge_cb (t : Transaction) (shard : EngineShard)
    : option (Transaction * EngineShard) :=
  sd ← shard_data_ t !! shard_id shard;
  let notify := notify_txid_ t in
  if Bits.has (local_mask sd) AWAKED_Q || HasResultConverged notify shard then
    let '(res, t1) := DecreaseRunCnt t in
    if (res <? 1)%Z then None else Some (t1, shard)
  else Some (WaitForConvergence notify t shard).

Section WaitOnWatch.

Variable Execute :
  (Transaction -> EngineShard -> option (OpStatus * Transaction * EngineShard)) ->
  bool -> Transaction * list EngineShard -> option (Transaction * list EngineShard).
Variable blocking_ec_await :
  option Z -> Transaction * list EngineShard ->
  cv_status * (Transaction * list EngineShard).

(** [Transaction::WaitOnWatch]. [tp] is [None] for [time_point::max()],
    when the wait has no deadline. *)
Definition WaitOnWatch (tp : option Z) (t : Transaction) (shards : list EngineShard)
    : option (Transaction * list EngineShard * bool) :=
  '(t1, shards1) ← Execute AddToWatchedShardCb true (t, shards);
  let t2 :=
    with_coordinator_state (Bits.set (coordinator_state_ t1) COORD_BLOCKED) t1 in
  let '(waited, (t3, shards3)) := blocking_ec_await tp (t2, shards1) in
  let status := match tp with None => no_timeout | Some _ => waited end in
  if Bits.has (coordinator_state_ t3) COORD_CANCELLED
     || match status with timeout => true | no_timeout => false end
  then
    '(t4, shards4) ← ExpireBlocking t3 shards3;
    Some (with_coordinator_state
            (Bits.clear (coordinator_state_ t4) COORD_BLOCKED) t4,
          shards4, false)
  else
    '(t5, shards5) ←
      (if 1 <? unique_shard_cnt_ t3
       then ess_Add_each (touched_from 0 (shard_data_ t3)) converge_cb
              (with_run_count (Z.of_nat (unique_shard_cnt_ t3)) t3, shards3)
       else Some (t3, shards3));
    Some (with_coordinator_state
            (Bits.clear (coordinator_state_ t5) COORD_BLOCKED) t5,
          shards5, true).

End WaitOnWatch.

(** [Transaction::RunQuickie]; the statistics of [IncQuickRun] are not
    part of the model. *)
Definition RunQuickie
    (cb : Transaction -> EngineShard -> option (OpStatus * Transaction * EngineShard))
    (t : Transaction) (shard : EngineShard) : option (Transaction * EngineShard) :=
  if negb (cb_set t) then None else
  '(status, tc, shc) ← cb t shard;
  sd ← shard_data_ tc !! 0;
  Some (with_cb false
          (set_slot 0 (set_local_mask (Bits.clear (local_mask sd) ARMED) sd)
             (with_local_result status tc)),
        shc).

(** [Transaction::ScheduleUniqueShard]: the result tells whether the
    callback ran at once; [op_seq] is drawn from only when it did not. *)
Definition ScheduleUniqueShard
    (cb : Transaction -> EngineShard -> option (OpStatus * Transaction * EngineShard))
    (op_seq : Z) (t : Transaction) (shard : EngineShard)
    : option (Z * Transaction * EngineShard * bool) :=
  let mode := TxMode t in
  let lock_args := GetLockArgs t (shard_id shard) in
  sd ← head (shard_data_ t);
  if db_CheckLock mode lock_args (lock_table shard) then
    '(t1, sh1) ← RunQuickie cb t shard;
    Some (op_seq, t1, sh1, true)
  else
    let '(txid, op_seq1) := op_seq_fetch_add op_seq in
    let t1 := with_txid txid t in
    let '(it, q) := txq_Insert (txid_ t1) (this t1) (txq shard) in
    let '(_, lt) := db_Acquire mode lock_args (lock_table shard) in
    let sd1 := set_local_mask (Bits.set (local_mask sd) KEYLOCK_ACQUIRED)
                 (set_pq_pos it sd) in
    Some (op_seq1, set_slot 0 sd1 t1,
          PollExecution (with_lock_table lt (with_txq q shard)), false).

End Coordinator.

(** ** A concrete instance

    A router, three commands and a registry to run the definitions on. The
    router sends a key to the shard given by its first byte. *)

Module Scenario.

Definition route (k : string) (n : nat) : ShardId :=
  match k with
  | String c _ => Ascii.nat_of_ascii c mod n
  | EmptyString => 0
  end.

Definition MGET : CommandId := mkCommandId "MGET" (mkOptMask true false) 1.
Definition MSET : CommandId := mkCommandId "MSET" (mkOptMask false false) 2.
Definition EXEC : CommandId := mkCommandId "EXEC" (mkOptMask false false) 1.

(** Every argument after the name is a key of MGET; MSET alternates keys
    and values. *)
Definition determine_keys (cid : CommandId) (args : list string) : KeyIndex :=
  mkKeyIndex 1 (length args) (key_arg_step cid).

Definition mset_args : list string := ["MSET"; "d"; "1"; "b"; "2"]%string.
Definition mget_args : list string := ["MGET"; "d"; "d"]%string.

(** The flags, one bit each. *)
Definition local_bits : LocalStateBits := mkLocalStateBits 0 1 2 4 5 6.
Definition coord_bits : CoordinatorStateBits := mkCoordinatorStateBits 0 1 2 3 4 5.

(** Four idle shards. *)
Definition idle (i : ShardId) : EngineShard :=
  mkEngineShard i 0 cnt_zero lock_table_empty [] [].
Definition shards4 : list EngineShard := [idle 0; idle 1; idle 2; idle 3].

(** Shard 0 with key d locked and a transaction queued with id 10. *)
Definition busy0 : EngineShard :=
  mkEngineShard 0 0 cnt_zero
    (lock_update 0 "d" (fun c => cnt_add c EXCLUSIVE 1) lock_table_empty)
    [mkQueueEntry 0 10 99] [].

(** MGET d b c, routed to the shards 0, 2 and 3, as a single hop. *)
Definition mget3_args : list string := ["MGET"; "d"; "b"; "c"]%string.
Definition mget3 : Transaction :=
  with_coordinator_state
    (Bits.set (Bits.set 0 (COORD_EXEC coord_bits)) (COORD_EXEC_CONCLUDING coord_bits))
    (default (NewTransaction 7 MGET)
       (InitByArgs route determine_keys 4 0 mget3_args (NewTransaction 7 MGET))).

(** MGET d, a single key, with its callback set for the single hop. *)
Definition mget1 : Transaction :=
  with_cb true
    (default (NewTransaction 8 MGET)
       (InitByArgs route determine_keys 4 0 ["MGET"; "d"]%string (NewTransaction 8 MGET))).

(** BLPOP b c, which waits on the shards 2 and 3. [blocked m n] is the
    transaction with the mask [m] in every slot and [notify_txid_ = n]. *)
Definition BLPOP : CommandId := mkCommandId "BLPOP" (mkOptMask false false) 1.
Definition blpop_args : list string := ["BLPOP"; "b"; "c"]%string.
Definition blocked (m : Z) (n : TxId) : Transaction :=
  let t := default (NewTransaction 8 BLPOP)
             (InitByArgs route determine_keys 4 0 blpop_args (NewTransaction 8 BLPOP)) in
  with_notify_txid n (with_shard_data (set_local_mask m <$> shard_data_ t) t).


(** A hop that has already run, a wait that ends at its deadline, and shard
    procedures that find nothing to do. *)
Definition hop_done
    (cb : Transaction -> EngineShard -> option (OpStatus * Transaction * EngineShard))
    (conclude : bool) (st : Transaction * list EngineShard)
    : option (Transaction * list EngineShard) := Some st.
Definition await_deadline (tp : option Z) (st : Transaction * list EngineShard)
    : cv_status * (Transaction * list EngineShard) := (timeout, st).
Definition no_convergence (n : TxId) (t : Transaction) (sh : EngineShard)
    : Transaction * EngineShard := (t, sh).
Definition nothing_awakened (t : option Transaction) (sh : EngineShard)
    : EngineShard := sh.
Definition nothing_to_shut (t : Transaction) (sh : EngineShard) : EngineShard := sh.

(** The slots of MGET d b c armed for the hop, with their locks and the
    out-of-order mark, and a callback that reads and leaves all as it is. *)
Definition armed3 : Transaction :=
  with_cb true
    (with_run_count 3 (with_shard_data (set_local_mask 7 <$> shard_data_ mget3) mget3)).
(** Shard 0 while it holds the shared lock of key d for the transaction. *)
Definition held0 : EngineShard :=
  mkEngineShard 0 0 cnt_zero
    (lock_update 0 "d" (fun c => cnt_add c SHARED 1) lock_table_empty) [] [].
Definition noop_cb (t : Transaction) (sh : EngineShard)
    : option (OpStatus * Transaction * EngineShard) := Some (OK, t, sh).

(** MULTI with SET d 1; SET b 2; SET d 3 behind it: the recorded locks
    and the shards that hold them; the transaction is still queued at the
    front of shard 0. *)
Definition multi_locks : gmap string LockCnt :=
  <["d"%string := mkLockCnt 0 2]> (<["b"%string := mkLockCnt 0 1]> ∅).
Definition exec_done : Transaction :=
  with_multi (Some (mkMulti multi_locks (mkOptMask false false) true true))
    (with_shard_data
       (set_pq_pos 0 PerShardData_default :: replicate 3 PerShardData_default)
       (NewTransaction 9 EXEC)).
Definition locked (i : ShardId) (key : string) (c : Z) (q : list QueueEntry)
    : EngineShard :=
  mkEngineShard i 0 cnt_zero
    (lock_update 0 key (fun x => cnt_add x EXCLUSIVE c) lock_table_empty) q [].
Definition multi_shards : list EngineShard :=
  [locked 0 "d" 2 [mkQueueEntry 0 3 9]; idle 1; locked 2 "b" 1 []; idle 3].

End Scenario.



(** ** The packer, the scheduler and the hops: what they are specified against *)

Section RoutedArguments.

Variable Shard : string -> nat -> ShardId.

(** The arguments that belong to shard [s] of [n]: for every key position
    among [ps] whose key the router sends to [s], the key and, with
    [step = 2], the value behind it, in the order of [ps]. *)
Definition routed_args (n : nat) (args : list string) (ki : KeyIndex) (s : ShardId)
    (ps : list nat) : list string :=
  concat ((fun p => match args !! p with
                    | Some key =>
                      if decide (Shard key n = s) then take (step ki) (drop p args) else []
                    | None => []
                    end) <$> ps).

End RoutedArguments.


(** ** More of the concrete instance *)

Module PackerCases.

Import Scenario.

(** SET, a key and its value, and the transaction of an EXEC batch when
    [SetExecCmd] has installed SET for the next command. *)
Definition SET : CommandId := mkCommandId "SET" (mkOptMask false false) 2.
Definition set_args : list string := ["SET"; "d"; "1"]%string.
Definition exec_set : Transaction := with_cid SET (NewTransaction 9 EXEC).

End PackerCases.

Module BlockingCases.

Import Scenario.

(** BLPOP b c armed for the concluding hop in which it suspends itself:
    the slots hold their locks. *)
Definition blpop_armed : Transaction :=
  with_cb true
    (with_run_count 2
       (with_coordinator_state
          (Bits.set (Bits.set 0 (COORD_EXEC coord_bits)) (COORD_EXEC_CONCLUDING coord_bits))
          (blocked 5 kuint64max))).

(** The same transaction while its coordinator waits. *)
Definition blpop_waiting : Transaction :=
  with_coordinator_state (COORD_BLOCKED coord_bits) (blocked 20 kuint64max).

End BlockingCases.

(** ** The hops: arming, the barrier, the single hop and the hop without work *)

Section Hops.

Context (L : LocalStateBits) (C : CoordinatorStateBits).

(** Collaborators outside the sources: [GCWatched] and [PollExecution] of
    [EngineShard], the latter with a transaction, which the shard then runs
    with its callback when it is due; and what the shards have made of the
    transaction and of themselves when the coordinator, suspended at the
    barrier, sees [run_count_] at zero. *)
Variable PollExecution : EngineShard -> EngineShard.
Variable GCWatched : KeyLockArgs -> EngineShard -> EngineShard.
Variable PollExecutionOf :
  (Transaction -> EngineShard -> option (OpStatus * Transaction * EngineShard)) ->
  Transaction -> EngineShard -> option (Transaction * EngineShard).
Variable await_run_count :
  Transaction * list EngineShard -> Transaction * list EngineShard.

(** [Transaction::RunNoop]; the debug-only checks are not part of the
    model, the [CHECK] on the run count gives [None]. *)
Definition RunNoop (t : Transaction) (shard : EngineShard)
    : option (Transaction * EngineShard) :=
  let idx := SidToId t (shard_id shard) in
  sd ← shard_data_ t !! idx;
  let mask0 := Bits.clear (local_mask sd) (ARMED L) in
  let t1 :=
    if unique_shard_cnt_ t =? 1 then with_local_result OK (with_cb false t) else t in
  let '(mask2, shard2) :=
    if Bits.has (coordinator_state_ t1) (COORD_EXEC_CONCLUDING C) then
      let largs := GetLockArgs t1 idx in
      let sh1 := with_lock_table (db_Release (TxMode t1) largs (lock_table shard)) shard in
      let mask1 := Bits.clear mask0 (KEYLOCK_ACQUIRED L) in
      if Bits.has mask1 (SUSPENDED_Q L)
      then (Bits.set mask1 (EXPIRED_Q L), GCWatched largs sh1)
      else (mask1, sh1)
    else (mask0, shard) in
  let '(res, t2) := DecreaseRunCnt (set_slot idx (set_local_mask mask2 sd) t1) in
  if (res <? 1)%Z then None else Some (t2, shard2).

(** Modelled from the spec: [WaitForShardCallbacks], "the [run_count]
    barrier" of the header: the coordinator goes on at once when
    [run_count_] is zero and is suspended until it is otherwise. *)
Definition WaitForShardCallbacks (st : Transaction * list EngineShard)
    : Transaction * list EngineShard :=
  if (run_count_ st.1 =? 0)%Z then st else await_run_count st.

(** Modelled from the spec: [GetLocalMask] of the header, the mask of the
    slot of a shard. *)
Definition GetLocalMask (t : Transaction) (sid : ShardId) : option Z :=
  local_mask <$> shard_data_ t !! SidToId t sid.

(** [sd.local_mask |= ARMED] *)
Definition arm (sd : PerShardData) : PerShardData :=
  set_local_mask (Bits.set (local_mask sd) (ARMED L)) sd.

(** The part of [ExecuteAsync] that arms the slots. *)
Definition ExecuteAsync_arm (t : Transaction) : option Transaction :=
  if unique_shard_cnt_ t =? 1 then
    sd ← shard_data_ t !! SidToId t (unique_shard_id_ t);
    Some (set_slot (SidToId t (unique_shard_id_ t)) (arm sd) t)
  else
    Some (with_shard_data
            ((fun sd => if negb (IsGlobal t) && (arg_count sd =? 0)%Z then sd else arm sd)
               <$> shard_data_ t) t).

(** The shards to which [ExecuteAsync] posts its callback. *)
Definition ExecuteAsync_targets (t : Transaction) : list ShardId :=
  if negb (IsGlobal t) && (unique_shard_cnt_ t =? 1) then [unique_shard_id_ t]
  else if IsGlobal t then seq 0 (length (shard_data_ t))
  else touched_from 0 (shard_data_ t).

(** The callback that [ExecuteAsync] posts. The coordinator of the model
    waits for it before it goes on, so the callback reads the generation
    of [seqlock_] that it was posted with. *)
Definition exec_cb
    (cb : Transaction -> EngineShard -> option (OpStatus * Transaction * EngineShard))
    (t : Transaction) (shard : EngineShard) : option (Transaction * EngineShard) :=
  local_mask ← GetLocalMask t (shard_id shard);
  if Bits.has local_mask (ARMED L) then PollExecutionOf cb t shard else Some (t, shard).

(** [Transaction::ExecuteAsync]; the reference count is not part of the
    model. *)
Definition ExecuteAsync
    (cb : Transaction -> EngineShard -> option (OpStatus * Transaction * EngineShard))
    (st : Transaction * list EngineShard) : option (Transaction * list EngineShard) :=
  t1 ← ExecuteAsync_arm st.1;
  let t2 := with_run_count (Z.of_nat (unique_shard_cnt_ t1)) t1 in
  ess_Add_each (ExecuteAsync_targets st.1) (exec_cb cb) (t2, st.2).

(** [Transaction::Execute] *)
Definition Execute
    (cb : Transaction -> EngineShard -> option (OpStatus * Transaction * EngineShard))
    (conclude : bool) (st : Transaction * list EngineShard)
    : option (Transaction * list EngineShard) :=
  let cs1 := Bits.set (coordinator_state_ st.1) (COORD_EXEC C) in
  let cs2 :=
    if conclude then Bits.set cs1 (COORD_EXEC_CONCLUDING C)
    else Bits.clear cs1 (COORD_EXEC_CONCLUDING C) in
  st1 ← ExecuteAsync cb (with_coordinator_state cs2 (with_cb true st.1), st.2);
  let '(t3, shards3) := WaitForShardCallbacks st1 in
  Some (with_cb false t3, shards3).

(** [Transaction::UnregisterWatch] *)
Definition UnregisterWatch (st : Transaction * list EngineShard)
    : option (Transaction * list EngineShard) :=
  Execute (fun t shard =>
             '(t', shard', _) ← RemoveFromWatchedShardCb L t shard;
             Some (OK, t', shard'))
          true st.

(** [Transaction::ScheduleSingleHop]; the result is [local_result_]. *)
Definition ScheduleSingleHop
    (cb : Transaction -> EngineShard -> option (OpStatus * Transaction * EngineShard))
    (fuel : nat) (op_seq : Z) (t : Transaction) (shards : list EngineShard)
    : option (Z * Transaction * list EngineShard * OpStatus) :=
  let t1 :=
    with_coordinator_state
      (Bits.set (coordinator_state_ t) (Z.lor (COORD_EXEC C) (COORD_EXEC_CONCLUDING C)))
      (with_cb true t) in
  let schedule_fast :=
    (unique_shard_cnt_ t1 =? 1) && negb (IsGlobal t1) && negb (is_multi t1) in
  '(op_seq2, st2) ←
    (if schedule_fast then
       sd ← shard_data_ t1 !! 0;
       let t2 :=
         with_run_count (Bits.trunc 32 (run_count_ t1 + 1)) (set_slot 0 (arm sd) t1) in
       shard ← shards !! unique_shard_id_ t2;
       '(op_seq1, t3, shard1, run_eager) ←
         ScheduleUniqueShard L PollExecution cb op_seq t2 shard;
       t4 ← (if run_eager : bool then
               let '(res, t') := DecreaseRunCnt t3 in
               if (res <? 1)%Z then None else Some t'
             else Some t3);
       Some (op_seq1, (t4, <[unique_shard_id_ t2 := shard1]> shards))
     else
       '(op_seq1, t2, shards2) ←
         (if is_multi t1 then Some (op_seq, t1, shards)
          else
            '(o, t', s', _) ← ScheduleInternal L C fuel op_seq t1 shards;
            Some (o, t', s'));
       st ← ExecuteAsync cb (t2, shards2);
       Some (op_seq1, st));
  let '(t5, shards5) := WaitForShardCallbacks st2 in
  Some (op_seq2, with_cb false t5, shards5, local_result_ t5).

(** [Transaction::SetExecCmd]. Modelled from the spec: [Schedule], the
    entry of the header that the batch calls "if not yet scheduled", as
    [ScheduleInternal]. *)
Definition SetExecCmd (cid : CommandId) (fuel : nat) (op_seq : Z) (t : Transaction)
    (shards : list EngineShard) : option (Z * Transaction * list EngineShard) :=
  '(op_seq1, t1, shards1) ←
    (if (txid_ t =? 0)%Z then
       '(o, t', s', _) ← ScheduleInternal L C fuel op_seq t shards;
       Some (o, t', s')
     else Some (op_seq, t, shards));
  Some (op_seq1,
        with_cb false (with_cid cid (with_args [] (with_unique_shard_cnt 0 t1))),
        shards1).

End Hops.

Module HopCases.

Import Scenario.
Import PackerCases.

(** Shard procedures that find nothing to do. *)
Definition nothing_to_collect (la : KeyLockArgs) (sh : EngineShard) : EngineShard := sh.
Definition poll_nothing
    (cb : Transaction -> EngineShard -> option (OpStatus * Transaction * EngineShard))
    (t : Transaction) (sh : EngineShard) : option (Transaction * EngineShard) :=
  Some (t, sh).
Definition never_awaited (st : Transaction * list EngineShard)
    : Transaction * list EngineShard := st.

(** SET d 1 inside an EXEC batch, armed on shard 0 for a hop. *)
Definition exec_armed : Transaction :=
  let t := default exec_set (InitByArgs route determine_keys 4 0 set_args exec_set) in
  with_cb true
    (with_run_count 1
       (with_shard_data (set_local_mask 1 <$> shard_data_ t) t)).

End HopCases.

(** ** Finding the first key *)

(** The [OpResult<std::pair<MainIterator, unsigned>>] that
    [DbSlice::FindFirst] answers with: a status and, behind it, an iterator
    and the position of the key that was found among the arguments passed. *)
Record FindRes := mkFindRes {
  fr_status : OpStatus;
  fr_it : nat;
  fr_pos : nat
}.

(** [Transaction::FindFirstProcessor] *)
Record FindFirstProcessor := mkFindFirstProcessor {
  find_res_ : list FindRes;
  ffp_notify_txid : TxId
}.

(** [FindFirstProcessor(TxId notify, unsigned size)] *)
Definition NewFindFirstProcessor (notify : TxId) (size : nat) : FindFirstProcessor :=
  mkFindFirstProcessor (replicate size (mkFindRes KEY_NOTFOUND 0 0)) notify.

(** What [Process] answers: the shard and the iterator of the first key, or
    a status. Modelled from the spec: [FindFirstResult] of the header, whose
    [sid] is [kInvalidSid] until a key is found; here it is [None] until
    then. *)
Inductive FindFirstOutcome :=
| first_found (sid : ShardId) (it : nat)
| not_found (status : OpStatus).

Section FindFirst.

(** [DbSlice::FindFirst] is outside the sources, and so is the hop
    [Execute(cb, false)] with a callback that keeps a state of its own. *)
Variable db_FindFirst : EngineShard -> DbIndex -> list string -> FindRes.
Variable find_hop :
  (FindFirstProcessor -> Transaction -> EngineShard ->
   option (FindFirstProcessor * OpStatus)) ->
  FindFirstProcessor -> Transaction * list EngineShard ->
  option (FindFirstProcessor * (Transaction * list EngineShard)).

(** [FindFirstProcessor::RunInShard]; a write outside [find_res_] gives
    [None]. *)
Definition FindFirstProcessor_RunInShard (p : FindFirstProcessor) (t : Transaction)
    (shard : EngineShard) : option (FindFirstProcessor * OpStatus) :=
  if (ffp_notify_txid p =? kuint64max)%Z || (committed_txid shard =? ffp_notify_txid p)%Z
  then
    let args := ShardArgsInShard t (shard_id shard) in
    if shard_id shard <? length (find_res_ p) then
      Some (mkFindFirstProcessor
              (<[shard_id shard := db_FindFirst shard (db_index_ t) args]> (find_res_ p))
              (ffp_notify_txid p),
            OK)
    else None
  else Some (p, OK).

(** The loop of [FindFirstProcessor::Process] from shard [sid] on;
    [inl] is its early return. A read of [ReverseArgIndex] outside
    [reverse_index_] gives [None]. *)
Fixpoint Process_loop (t : Transaction) (frs : list FindRes) (sid : ShardId)
    (min_arg_indx : Z) (result : option (ShardId * nat))
    : option (OpStatus + Z * option (ShardId * nat)) :=
  match frs with
  | [] => Some (inr (min_arg_indx, result))
  | fr :: rest =>
    match fr_status fr with
    | KEY_NOTFOUND => Process_loop t rest (S sid) min_arg_indx result
    | WRONG_TYPE => Some (inl WRONG_TYPE)
    | _ =>
      arg_indx ← ReverseArgIndex t sid (fr_pos fr);
      if (Z.of_nat arg_indx <? min_arg_indx)%Z
      then Process_loop t rest (S sid) (Z.of_nat arg_indx) (Some (sid, fr_it fr))
      else Process_loop t rest (S sid) min_arg_indx result
    end
  end.

(** [FindFirstProcessor::Process]; [min_arg_indx] starts at [UINT32_MAX]. *)
Definition Process (p : FindFirstProcessor) (t : Transaction)
    : option FindFirstOutcome :=
  r ← Process_loop t (find_res_ p) 0 (2 ^ 32 - 1) None;
  match r with
  | inl status => Some (not_found status)
  | inr (_, None) => Some (not_found KEY_NOTFOUND)
  | inr (_, Some (sid, it)) => Some (first_found sid it)
  end.

(** [Transaction::FindFirst]; [n] is [ess_->size()]. *)
Definition FindFirst (n : nat) (st : Transaction * list EngineShard)
    : option (FindFirstOutcome * (Transaction * list EngineShard)) :=
  let processor := NewFindFirstProcessor (notify_txid_ st.1) n in
  '(processor1, st1) ← find_hop FindFirstProcessor_RunInShard processor st;
  out ← Process processor1 st1.1;
  Some (out, st1).

End FindFirst.

(** An entry of [find_res_] that [Process] reads a key from. *)
Definition holds_key (fr : FindRes) : Prop :=
  fr_status fr <> KEY_NOTFOUND /\ fr_status fr <> WRONG_TYPE.

Module FindCases.

Import Scenario.

(** BLPOP b c when the shards 2 and 3 both hold a list under their key. *)
Definition both_found : FindFirstProcessor :=
  mkFindFirstProcessor
    [mkFindRes KEY_NOTFOUND 0 0; mkFindRes KEY_NOTFOUND 0 0;
     mkFindRes OK 21 0; mkFindRes OK 31 0] kuint64max.

End FindCases.

(** ** The scheduler: what its rounds are specified against *)

(** The positions that a queue has handed out lie below [kEnd], with room
    for one more. *)
Definition queue_positions_ok (q : list QueueEntry) : Prop :=
  Forall (fun e => (0 <= qe_pos e < kEnd - 1)%Z) q.

(** Whether slot [k] of a transaction holds a queue position. *)
Definition queued (t : Transaction) (k : nat) : bool :=
  match shard_data_ t !! k with
  | Some sd => negb (pq_pos sd =? kEnd)%Z
  | None => false
  end.

(** The shards of a list are the ones with the ids from [lo] on, in order. *)
Definition shards_from (lo : nat) (shards : list EngineShard) : Prop :=
  forall j sh, shards !! j = Some sh -> shard_id sh = lo + j.

(** What a pass over the shards made of shard [k] and of the slot of [k]
    when its callback answered [r]: [R] relates the shard and the slot before
    the callback to the ones after the pass. *)
Definition on_shard {A : Type}
    (R : EngineShard -> PerShardData -> EngineShard -> PerShardData -> A -> Prop)
    (t0 : Transaction) (lo : nat) (shards shards' : list EngineShard)
    (t t' : Transaction) (k : nat) (r : A) : Prop :=
  exists j sh sd sh' sd',
    k = lo + j /\ shards !! j = Some sh /\ shards' !! j = Some sh' /\
    shard_data_ t !! SidToId t0 k = Some sd /\
    shard_data_ t' !! SidToId t0 k = Some sd' /\
    R sh sd sh' sd' r.

(** What [ScheduleInShard] with the id [txid] makes of a shard and of its
    slot, as far as the queue is concerned. *)
Definition sched_rel (txid : TxId) (trans : nat) (sh : EngineShard) (sd : PerShardData)
    (sh' : EngineShard) (sd' : PerShardData) (r : bool * bool) : Prop :=
  committed_txid sh' = committed_txid sh /\ shard_id sh' = shard_id sh /\
  (r.1 = true ->
     txq sh' = (txq_Insert txid trans (txq sh)).2 /\ pq_pos sd' = txq_fresh_pos (txq sh)) /\
  (r.1 = false -> txq sh' = txq sh /\ pq_pos sd' = pq_pos sd) /\
  ((committed_txid sh < txid)%Z ->
   txq sh = [] \/ (txq_TailScore (txq sh) < txid)%Z -> r.1 = true).

(** What [CancelInShard] makes of them. *)
Definition cancel_rel (sh : EngineShard) (sd : PerShardData)
    (sh' : EngineShard) (sd' : PerShardData) (r : bool) : Prop :=
  committed_txid sh' = committed_txid sh /\ shard_id sh' = shard_id sh /\
  r = negb (pq_pos sd =? kEnd)%Z /\ pq_pos sd' = kEnd /\
  txq sh' = (if (pq_pos sd =? kEnd)%Z then txq sh else txq_Remove (pq_pos sd) (txq sh)).

(** ** The round in which [ScheduleInternal] succeeds *)

(** What shard [k] answered in a round of [ScheduleInternal] that ran with
    the id [txid]: [ScheduleInShard] was called on the shard as the round
    found it, [shards_r !! k], with the transaction in a state that differs
    from [t] at most in the id, the masks and the queue positions; it left
    the shard as [shards' !! k] and answered [r]. *)
Definition answered (L : LocalStateBits) (t : Transaction) (txid : TxId)
    (shards_r shards' : list EngineShard) (k : ShardId) (r : bool * bool) : Prop :=
  exists sh_k t_k t_k' sh_k',
    shards_r !! k = Some sh_k /\ same_routing t t_k /\ txid_ t_k = txid /\
    ScheduleInShard L t_k sh_k = Some (t_k', sh_k', r) /\
    shards' !! k = Some sh_k'.

(** A shard that is as another one is, their lock tables agreeing entry by
    entry. *)
Definition shard_agrees (sh sh' : EngineShard) : Prop :=
  shard_id sh' = shard_id sh /\ committed_txid sh' = committed_txid sh /\
  txq sh' = txq sh /\ shard_lock sh' = shard_lock sh /\ watched sh' = watched sh /\
  forall db k, lock_table sh' db k = lock_table sh db k.

(** What [ScheduleInShard] with the id [txid] makes of a shard and of its
    slot, for a transaction routed as [t0]. *)
Definition attempt_rel (L : LocalStateBits) (t0 : Transaction) (txid : TxId)
    (sh : EngineShard) (sd : PerShardData) (sh' : EngineShard) (sd' : PerShardData)
    (r : bool * bool) : Prop :=
  committed_txid sh' = committed_txid sh /\ shard_id sh' = shard_id sh /\
  shard_lock sh' = shard_lock sh /\ watched sh' = watched sh /\
  (r.1 = true ->
     txq sh' = (txq_Insert txid (this t0) (txq sh)).2 /\
     pq_pos sd' = txq_fresh_pos (txq sh) /\
     lock_table sh'
     = (if IsGlobal t0 then lock_table sh
        else (db_Acquire (TxMode t0) (GetLockArgs t0 (shard_id sh)) (lock_table sh)).2) /\
     local_mask sd'
     = (if IsGlobal t0 then local_mask sd
        else Bits.set (local_mask sd) (KEYLOCK_ACQUIRED L))) /\
  (r.1 = false ->
     txq sh' = txq sh /\ pq_pos sd' = pq_pos sd /\
     (forall db k, lock_table sh' db k = lock_table sh db k) /\
     (Bits.has (local_mask sd) (KEYLOCK_ACQUIRED L) = false ->
      Bits.has (local_mask sd') (KEYLOCK_ACQUIRED L) = false)).

(** What [CancelInShard] makes of them. *)
Definition cancellation_rel (L : LocalStateBits) (t0 : Transaction)
    (sh : EngineShard) (sd : PerShardData) (sh' : EngineShard) (sd' : PerShardData)
    (r : bool) : Prop :=
  committed_txid sh' = committed_txid sh /\ shard_id sh' = shard_id sh /\
  shard_lock sh' = shard_lock sh /\ watched sh' = watched sh /\
  pq_pos sd' = kEnd /\
  txq sh' = (if (pq_pos sd =? kEnd)%Z then txq sh else txq_Remove (pq_pos sd) (txq sh)) /\
  lock_table sh'
  = (if negb (pq_pos sd =? kEnd)%Z && Bits.has (local_mask sd) (KEYLOCK_ACQUIRED L)
     then db_Release (TxMode t0) (GetLockArgs t0 (shard_id sh)) (lock_table sh)
     else lock_table sh) /\
  local_mask sd'
  = (if negb (pq_pos sd =? kEnd)%Z && Bits.has (local_mask sd) (KEYLOCK_ACQUIRED L)
     then Bits.clear (local_mask sd) (KEYLOCK_ACQUIRED L) else local_mask sd).

(** The shards and the slots as [ScheduleInternal] reads them: every shard
    among the first [N] has an answer of [is_active], and two active shards
    have different slots. *)
Definition layout_ok (sa : bool) (ns : nat) (t0 : Transaction) (N : nat) : Prop :=
  sa = IsGlobal t0 /\ shard_data_ t0 <> [] /\
  (forall k, k < N -> is_Some (is_active sa ns t0 k)) /\
  (forall k k', k < N -> k' < N ->
     is_active sa ns t0 k = Some true -> is_active sa ns t0 k' = Some true ->
     SidToId t0 k = SidToId t0 k' -> k = k').

(** The state in which a round of [ScheduleInternal] starts: the shards in
    the order of their ids, the slots of the active shards out of the queues
    (without KEYLOCK_ACQUIRED for a transaction that spans all shards), the
    positions of the queues below [kEnd]. *)
Definition round_ready (L : LocalStateBits) (sa : bool) (ns : nat) (t0 t : Transaction)
    (shards : list EngineShard) : Prop :=
  same_routing t0 t /\ shards_from 0 shards /\
  (forall k, k < length shards -> is_active sa ns t0 k = Some true ->
             queued t (SidToId t0 k) = false) /\
  (sa = true -> forall k sd, k < length shards ->
     shard_data_ t !! SidToId t0 k = Some sd ->
     Bits.has (local_mask sd) (KEYLOCK_ACQUIRED L) = false) /\
  Forall (fun sh => queue_positions_ok (txq sh)) shards.


(** * Proofs *)

(** ** Facts on bit masks *)

Module BitsFacts.
Import Bits.
Local Open Scope Z_scope.

Lemma flag_pow2 b : 0 <= b -> flag b = 2 ^ b.
Proof. intros Hb. unfold flag. rewrite Z.shiftl_1_l. reflexivity. Qed.

Lemma testbit_flag b i : 0 <= b -> Z.testbit (flag b) i = (b =? i).
Proof.
  intros Hb. rewrite flag_pow2 by assumption.
  rewrite Z.pow2_bits_eqb by assumption. reflexivity.
Qed.

Lemma flag_pos b : 0 <= b -> 0 < flag b.
Proof. intros Hb. rewrite flag_pow2 by assumption. apply Z.pow_pos_nonneg; lia. Qed.

Lemma has_flag m b : 0 <= b -> has m (flag b) = Z.testbit m b.
Proof.
  intros Hb. unfold has.
  destruct (Z.testbit m b) eqn:Hm.
  - apply negb_true_iff, Z.eqb_neq. intros H0.
    assert (Hbit : Z.testbit (Z.land m (flag b)) b = true).
    { rewrite Z.land_spec, Hm, testbit_flag, Z.eqb_refl by assumption. reflexivity. }
    rewrite H0, Z.bits_0 in Hbit. discriminate.
  - apply negb_false_iff, Z.eqb_eq. apply Z.bits_inj'. intros i Hi.
    rewrite Z.land_spec, testbit_flag, Z.bits_0 by assumption.
    destruct (Z.eqb_spec b i) as [->|]; [rewrite Hm|rewrite andb_false_r]; reflexivity.
Qed.

Lemma testbit_set m b i : 0 <= b -> Z.testbit (set m (flag b)) i = Z.testbit m i || (b =? i).
Proof. intros Hb. unfold set. rewrite Z.lor_spec, testbit_flag by assumption. reflexivity. Qed.

Lemma testbit_clear m b i :
  0 <= b -> 0 <= i -> Z.testbit (clear m (flag b)) i = Z.testbit m i && negb (b =? i).
Proof.
  intros Hb Hi. unfold clear.
  rewrite Z.land_spec, Z.lnot_spec, testbit_flag by assumption. reflexivity.
Qed.

Lemma has_set_same m b : 0 <= b -> has (set m (flag b)) (flag b) = true.
Proof. intros Hb. rewrite has_flag, testbit_set, Z.eqb_refl, orb_true_r; auto. Qed.

Lemma has_set_other m b c :
  0 <= b -> 0 <= c -> b <> c -> has (set m (flag b)) (flag c) = has m (flag c).
Proof.
  intros Hb Hc Hne. rewrite !has_flag, testbit_set by assumption.
  destruct (Z.eqb_spec b c); [contradiction|]. apply orb_false_r.
Qed.

Lemma has_clear_same m b : 0 <= b -> has (clear m (flag b)) (flag b) = false.
Proof. intros Hb. rewrite has_flag, testbit_clear, Z.eqb_refl, andb_false_r; auto. Qed.

Lemma has_clear_other m b c :
  0 <= b -> 0 <= c -> b <> c -> has (clear m (flag b)) (flag c) = has m (flag c).
Proof.
  intros Hb Hc Hne. rewrite !has_flag, testbit_clear by assumption.
  destruct (Z.eqb_spec b c); [contradiction|]. apply andb_true_r.
Qed.

End BitsFacts.

Import BitsFacts.

(** ** Facts on the argument packer *)

Section PackerFacts.

Variable Shard : string -> nat -> ShardId.
Variable DetermineKeys : CommandId -> list string -> KeyIndex.

Lemma take_S_insert {A} (l : list A) p x :
  p < length l -> take (S p) (<[p := x]> l) = take p l ++ [x].
Proof.
  intros Hp. rewrite (take_S_r _ _ x).
  - rewrite take_insert_ge by lia. reflexivity.
  - apply list_lookup_insert_eq. assumption.
Qed.

Lemma copy_args_spec xs : forall orig j p a r p' a' r',
  copy_args xs orig j p a r = Some (p', a', r') ->
  length r = length a -> p <= length a ->
  p' = p + length xs /\ p' <= length a /\
  length a' = length a /\ length r' = length a /\
  take p' a' = take p a ++ xs /\
  take p' r' = take p r ++ take (length xs) (drop j orig) /\
  length xs <= length (drop j orig).
Proof.
  induction xs as [|x xs IH]; intros orig j p a r p' a' r' H Hlen Hp; simpl in H.
  - injection H as <- <- <-. simpl. rewrite Nat.add_0_r, !app_nil_r.
    repeat split; try done; lia.
  - destruct (orig !! j) as [o|] eqn:Ho; simpl in H; [|discriminate].
    destruct (Nat.ltb_spec p (length a)) as [Hlt|]; [|discriminate].
    apply IH in H; rewrite ?length_insert; try lia.
    destruct H as (-> & Hle & Ha & Hr & Hta & Htr & Hd).
    rewrite length_insert in *.
    rewrite (drop_S _ _ _ Ho). simpl.
    rewrite take_S_insert in Hta by lia. rewrite take_S_insert in Htr by lia.
    rewrite <- !app_assoc in Hta, Htr. simpl in Hta, Htr.
    repeat split; try done; lia.
Qed.

Lemma trunc16_small (k : nat) :
  (Z.of_nat k < 2 ^ 15)%Z -> Bits.trunc 16 (Z.of_nat k) = Z.of_nat k.
Proof. intros Hk. unfold Bits.trunc. apply Z.mod_small. lia. Qed.

Lemma pack_shards_spec inc si : forall i st st',
  pack_shards inc i si st = Some st' ->
  Forall bucket_len_ok si ->
  length (ps_reverse_index st) = length (ps_args st) ->
  next_arg st <= length (ps_args st) ->
  next_arg st' = next_arg st + length (concat (sc_args <$> si)) /\
  next_arg st' <= length (ps_args st') /\
  length (ps_args st') = length (ps_args st) /\
  length (ps_reverse_index st') = length (ps_args st) /\
  take (next_arg st') (ps_args st')
    = take (next_arg st) (ps_args st) ++ concat (sc_args <$> si) /\
  take (next_arg st') (ps_reverse_index st')
    = take (next_arg st) (ps_reverse_index st) ++ concat (original_index <$> si) /\
  length (ps_shard_data st') = length (ps_shard_data st) /\
  (forall k, k < i -> ps_shard_data st' !! k = ps_shard_data st !! k) /\
  (forall k sc, si !! k = Some sc ->
     exists sd, ps_shard_data st' !! (i + k) = Some sd /\
       arg_count sd = Z.of_nat (length (sc_args sc)) /\
       arg_start sd = Bits.trunc 32
         (Z.of_nat (next_arg st + length (concat (sc_args <$> take k si))))) /\
  ps_unique_shard_cnt st <= ps_unique_shard_cnt st' /\
  (ps_unique_shard_cnt st < ps_unique_shard_cnt st' ->
     i <= ps_unique_shard_id st' < i + length si) /\
  (ps_unique_shard_cnt st = ps_unique_shard_cnt st' ->
     ps_unique_shard_id st' = ps_unique_shard_id st).
Proof.
  induction si as [|sc rest IH]; intros i st st' H Hok Hlen Hp; simpl in H.
  - injection H as <-. simpl. rewrite Nat.add_0_r, !app_nil_r.
    repeat split; try done; try lia.
  - apply Forall_cons in Hok as [Hsc Hok]. unfold bucket_len_ok in Hsc.
    destruct (Z.ltb_spec (Z.of_nat (length (sc_args sc))) (2 ^ 15)) as [Hsmall|]; [|discriminate].
    simpl in H.
    destruct (ps_shard_data st !! i) as [sd|] eqn:Hsd; simpl in H; [|discriminate].
    assert (Hi : i < length (ps_shard_data st)) by (eapply lookup_lt_Some; eassumption).
    rewrite trunc16_small in H by assumption.
    set (sd2 := if inc then _ else _) in H.
    assert (Hsd2 : arg_count sd2 = Z.of_nat (length (sc_args sc)) /\
                   arg_start sd2 = Bits.trunc 32 (Z.of_nat (next_arg st))).
    { subst sd2. destruct inc; simpl; auto. }
    destruct Hsd2 as [Hcnt Hstart].
    rewrite !fmap_cons, !concat_cons, length_app.
    assert (Hslot0 : forall st1, 
       (forall k, k < S i -> ps_shard_data st1 !! k = <[i:=sd2]> (ps_shard_data st) !! k) ->
       (forall k sc', rest !! k = Some sc' ->
          exists sd', ps_shard_data st1 !! (S i + k) = Some sd' /\
            arg_count sd' = Z.of_nat (length (sc_args sc')) /\
            arg_start sd' = Bits.trunc 32
              (Z.of_nat (next_arg st + length (sc_args sc)
                         + length (concat (sc_args <$> take k rest))))) ->
       forall k sc', (sc :: rest) !! k = Some sc' ->
          exists sd', ps_shard_data st1 !! (i + k) = Some sd' /\
            arg_count sd' = Z.of_nat (length (sc_args sc')) /\
            arg_start sd' = Bits.trunc 32
              (Z.of_nat (next_arg st
                         + length (concat (sc_args <$> take k (sc :: rest)))))).
    { intros st1 Hlow Hslot [|k] sc' Hk.
      - injection Hk as <-. exists sd2. rewrite Nat.add_0_r, Hlow by lia.
        rewrite list_lookup_insert_eq by assumption.
        rewrite take_0, fmap_nil, concat_nil. simpl. rewrite Nat.add_0_r. auto.
      - destruct (Hslot k sc' Hk) as (sd' & Hl & Hc & Hs).
        exists sd'. replace (i + S k) with (S i + k) by lia.
        rewrite firstn_cons, fmap_cons, concat_cons, length_app, Nat.add_assoc. auto. }
    destruct (Z.eqb_spec (Z.of_nat (length (sc_args sc))) 0) as [Hz|Hnz].
    + assert (Hnil : sc_args sc = []) by (apply length_zero_iff_nil; lia).
      assert (Hnil' : original_index sc = []) by (apply length_zero_iff_nil; rewrite Hsc; lia).
      apply IH in H; [|assumption|simpl; lia|simpl; lia].
      cbn [next_arg ps_args ps_reverse_index ps_shard_data ps_unique_shard_cnt
           ps_unique_shard_id] in H.
      rewrite length_insert in H.
      destruct H as (Hn & Hle & Ha & Hr & Hta & Htr & Hsl & Hlow & Hslot & Hc1 & Hc2 & Hc3).
      rewrite Hnil, Hnil' in *. rewrite !app_nil_l. simpl length in *.
      rewrite Nat.add_0_r in Hslot0.
      split; [lia|]. split; [lia|]. split; [lia|]. split; [lia|].
      split; [assumption|]. split; [assumption|]. split; [lia|].
      split. { intros k Hk. rewrite Hlow by lia. apply list_lookup_insert_ne. lia. }
      split. { apply Hslot0; assumption. }
      split; [lia|]. split; [lia|]. assumption.
    + destruct (copy_args (sc_args sc) (original_index sc) 0 (next_arg st)
                  (ps_args st) (ps_reverse_index st)) as [[[p a] r]|] eqn:Hcopy;
        simpl in H; [|discriminate].
      apply copy_args_spec in Hcopy; try assumption.
      destruct Hcopy as (-> & Hple & Hla & Hlr & Hta0 & Htr0 & _).
      rewrite drop_0, (take_ge (original_index sc)) in Htr0 by lia.
      apply IH in H; [|assumption|simpl; lia|simpl; lia].
      cbn [next_arg ps_args ps_reverse_index ps_shard_data ps_unique_shard_cnt
           ps_unique_shard_id] in H.
      rewrite length_insert in H.
      destruct H as (Hn & Hle & Ha & Hr & Hta & Htr & Hsl & Hlow & Hslot & Hc1 & Hc2 & Hc3).
      rewrite Hta0 in Hta. rewrite Htr0 in Htr. rewrite <- app_assoc in Hta, Htr.
      split; [lia|]. split; [lia|]. split; [lia|]. split; [lia|].
      split; [assumption|]. split; [assumption|]. split; [lia|].
      split. { intros k Hk. rewrite Hlow by lia. apply list_lookup_insert_ne. lia. }
      split. { apply Hslot0; assumption. }
      split; [lia|]. split; [|lia].
      intros _. destruct (decide (S (ps_unique_shard_cnt st) = ps_unique_shard_cnt st')) as [E|E].
      * rewrite (Hc3 E). simpl. lia.
      * assert (Hlt : S (ps_unique_shard_cnt st) < ps_unique_shard_cnt st') by lia.
        specialize (Hc2 Hlt). simpl. lia.
Qed.
Lemma push_arg_spec args sid a o si si' :
  push_arg sid a o si = Some si' ->
  args !! (S o) = Some a ->
  Forall (bucket_ok args) si ->
  length si' = length si /\ Forall (bucket_ok args) si' /\
  forall s sc, si !! s = Some sc ->
    exists sc', si' !! s = Some sc' /\
      length (sc_args sc') = length (sc_args sc) + (if decide (s = sid) then 1 else 0).
Proof.
  unfold push_arg. intros H Ha Hok.
  destruct (si !! sid) as [sc0|] eqn:Hsc0; simpl in H; [|discriminate].
  injection H as <-.
  assert (Hlt : sid < length si) by (eapply lookup_lt_Some; eassumption).
  split; [apply length_insert|]. split.
  - apply Forall_insert; [assumption|].
    pose proof (Forall_lookup_1 _ _ _ _ Hok Hsc0) as [Hl Hc]. unfold bucket_len_ok in Hl.
    split; [unfold bucket_len_ok|]; simpl.
    + rewrite !length_app, Hl. reflexivity.
    + intros j a' o' Hj Ho.
      destruct (decide (j < length (sc_args sc0))) as [Hjl|Hjl].
      * rewrite lookup_app_l in Hj by assumption.
        rewrite lookup_app_l in Ho by lia. eauto.
      * rewrite lookup_app_r in Hj by lia. rewrite lookup_app_r in Ho by lia.
        rewrite Hl in Ho.
        destruct (j - length (sc_args sc0)) as [|d]; simpl in Hj, Ho; [|discriminate].
        congruence.
  - intros s sc Hs. destruct (decide (s = sid)) as [->|Hne].
    + rewrite list_lookup_insert_eq by assumption. eexists. split; [reflexivity|].
      simpl. rewrite length_app. simpl. congruence.
    + rewrite list_lookup_insert_ne by congruence. exists sc. split; [assumption|lia].
Qed.

Lemma route_keys_spec args n ki rec mode :
  step ki = 1 \/ step ki = 2 ->
  forall fuel i st st',
  route_keys Shard args n ki rec mode fuel i st = Some st' -> 1 <= i ->
  Forall (bucket_ok args) (shard_index st) ->
  length (shard_index st') = length (shard_index st) /\
  Forall (bucket_ok args) (shard_index st') /\
  forall s sc, shard_index st !! s = Some sc ->
    exists sc', shard_index st' !! s = Some sc' /\
      length (sc_args sc') = length (sc_args sc)
        + step ki * length (routed Shard n s (omap (fun p => args !! p) (key_positions ki fuel i))).
Proof.
  intros Hstep. induction fuel as [|fuel IH]; intros i st st' H Hi Hok.
  - simpl in H. injection H as <-. simpl. split; [reflexivity|]. split; [assumption|].
    intros s sc Hs. exists sc. split; [assumption|]. unfold routed. simpl. lia.
  - cbn [route_keys key_positions] in *.
    destruct (Nat.leb_spec (end_ ki) i) as [Hend|Hend].
    { injection H as <-. split; [reflexivity|]. split; [assumption|].
      intros s sc Hs. exists sc. split; [assumption|]. unfold routed. simpl. lia. }
    destruct (args !! i) as [key|] eqn:Hkey; simpl in H; [|discriminate].
    destruct (push_arg (Shard key n) key (i - 1) (shard_index st)) as [si1|] eqn:Hp1;
      simpl in H; [|discriminate].
    eapply push_arg_spec in Hp1; [|replace (S (i - 1)) with i by lia; eassumption|eassumption].
    destruct Hp1 as (Hl1 & Hok1 & Hs1).
    assert (Hcount : forall s,
      length (routed Shard n s (omap (fun p => args !! p)
                (i :: key_positions ki fuel (i + step ki))))
      = (if decide (s = Shard key n) then 1 else 0)
        + length (routed Shard n s (omap (fun p => args !! p)
                    (key_positions ki fuel (i + step ki))))).
    { intros s. cbn [omap list_omap]. rewrite Hkey. unfold routed. rewrite filter_cons.
      destruct (decide (Shard key n = s)), (decide (s = Shard key n));
        try congruence; reflexivity. }
    destruct Hstep as [E|E]; rewrite E in *; simpl in H.
    + apply IH in H; [|lia|assumption]. simpl in H.
      destruct H as (Hl & Hok' & Hs'). split; [congruence|]. split; [assumption|].
      intros s sc Hs. destruct (Hs1 s sc Hs) as (sc1 & Hsc1 & Hlen1).
      destruct (Hs' s sc1 Hsc1) as (sc' & Hsc' & Hlen').
      exists sc'. split; [assumption|].
      rewrite Hlen', Hlen1, Hcount.
      destruct (decide (s = Shard key n)); simpl; lia.
    + destruct (args !! (i + 1)) as [val|] eqn:Hval; simpl in H; [|discriminate].
      destruct (push_arg (Shard key n) val (i + 1 - 1) si1) as [si2|] eqn:Hp2;
        simpl in H; [|discriminate].
      eapply push_arg_spec in Hp2;
        [|replace (S (i + 1 - 1)) with (i + 1) by lia; eassumption|eassumption].
      destruct Hp2 as (Hl2 & Hok2 & Hs2).
      replace (i + 1 + 1) with (i + 2) in H by lia.
      apply IH in H; [|lia|assumption]. simpl in H.
      destruct H as (Hl & Hok' & Hs'). split; [congruence|]. split; [assumption|].
      intros s sc Hs. destruct (Hs1 s sc Hs) as (sc1 & Hsc1 & Hlen1).
      destruct (Hs2 s sc1 Hsc1) as (sc2 & Hsc2 & Hlen2).
      destruct (Hs' s sc2 Hsc2) as (sc' & Hsc' & Hlen').
      exists sc'. split; [assumption|].
      rewrite Hlen', Hlen2, Hlen1, Hcount.
      destruct (decide (s = Shard key n)); simpl; lia.
Qed.

(** A push keeps what the scratch lists hold and adds the pair at the end
    of the list of its shard. *)
Lemma push_arg_grows sid a o si si' :
  push_arg sid a o si = Some si' ->
  Forall bucket_len_ok si ->
  Forall bucket_len_ok si' /\
  (forall s sc j x y, si !! s = Some sc ->
     sc_args sc !! j = Some x -> original_index sc !! j = Some y ->
     exists sc', si' !! s = Some sc' /\
       sc_args sc' !! j = Some x /\ original_index sc' !! j = Some y) /\
  (exists sc' j, si' !! sid = Some sc' /\
     sc_args sc' !! j = Some a /\ original_index sc' !! j = Some o).
Proof.
  unfold push_arg. intros H Hok.
  destruct (si !! sid) as [sc0|] eqn:Hsc0; simpl in H; [|discriminate].
  injection H as <-.
  assert (Hlt : sid < length si) by (eapply lookup_lt_Some; eassumption).
  pose proof (Forall_lookup_1 _ _ _ _ Hok Hsc0) as Hl. unfold bucket_len_ok in Hl.
  split; [|split].
  - apply Forall_insert; [assumption|]. unfold bucket_len_ok. simpl.
    rewrite !length_app, Hl. reflexivity.
  - intros s sc j x y Hs Hx Hy. destruct (decide (s = sid)) as [->|Hne].
    + rewrite Hsc0 in Hs. injection Hs as <-.
      eexists. rewrite list_lookup_insert_eq by assumption. split; [reflexivity|].
      simpl. split; apply lookup_app_l_Some; assumption.
    + exists sc. rewrite list_lookup_insert_ne by congruence. auto.
  - eexists _, (length (sc_args sc0)).
    rewrite list_lookup_insert_eq by assumption. split; [reflexivity|]. simpl.
    split.
    + rewrite lookup_app_r by lia. rewrite Nat.sub_diag. reflexivity.
    + rewrite lookup_app_r by lia. rewrite Hl, Nat.sub_diag. reflexivity.
Qed.

(** Every key of the command is in the scratch list of its shard, with its
    index, and so is its value when [step] is 2. *)
Lemma route_keys_covers args n ki rec mode :
  step ki = 1 \/ step ki = 2 ->
  forall fuel i st st',
  route_keys Shard args n ki rec mode fuel i st = Some st' ->
  Forall bucket_len_ok (shard_index st) ->
  (forall s sc j x y, shard_index st !! s = Some sc ->
     sc_args sc !! j = Some x -> original_index sc !! j = Some y ->
     exists sc', shard_index st' !! s = Some sc' /\
       sc_args sc' !! j = Some x /\ original_index sc' !! j = Some y) /\
  (forall p key, p ∈ key_positions ki fuel i -> args !! p = Some key ->
     exists sc' j, shard_index st' !! Shard key n = Some sc' /\
       sc_args sc' !! j = Some key /\ original_index sc' !! j = Some (p - 1)).
Proof.
  intros Hstep. induction fuel as [|fuel IH]; intros i st st' H Hok.
  - simpl in H. injection H as <-. split; [eauto|]. intros p key Hp. inversion Hp.
  - cbn [route_keys key_positions] in *.
    destruct (Nat.leb_spec (end_ ki) i) as [Hend|Hend].
    { injection H as <-. split; [eauto|]. intros p key Hp. inversion Hp. }
    destruct (args !! i) as [key|] eqn:Hkey; simpl in H; [|discriminate].
    destruct (push_arg (Shard key n) key (i - 1) (shard_index st)) as [si1|] eqn:Hp1;
      simpl in H; [|discriminate].
    destruct (push_arg_grows _ _ _ _ _ Hp1 Hok) as (Hok1 & Hkeep1 & Hnew1).
    assert (Hgoal : forall si2 st2,
      Forall bucket_len_ok si2 ->
      (forall s sc j x y, si1 !! s = Some sc ->
         sc_args sc !! j = Some x -> original_index sc !! j = Some y ->
         exists sc', si2 !! s = Some sc' /\
           sc_args sc' !! j = Some x /\ original_index sc' !! j = Some y) ->
      shard_index st2 = si2 ->
      route_keys Shard args n ki rec mode fuel (i + step ki) st2 = Some st' ->
      (forall s sc j x y, shard_index st !! s = Some sc ->
         sc_args sc !! j = Some x -> original_index sc !! j = Some y ->
         exists sc', shard_index st' !! s = Some sc' /\
           sc_args sc' !! j = Some x /\ original_index sc' !! j = Some y) /\
      (forall p key0, p ∈ i :: key_positions ki fuel (i + step ki) ->
         args !! p = Some key0 ->
         exists sc' j, shard_index st' !! Shard key0 n = Some sc' /\
           sc_args sc' !! j = Some key0 /\ original_index sc' !! j = Some (p - 1))).
    { intros si2 st2 Hok2 Hkeep2 Hsi2 Hrun. subst si2.
      destruct (IH _ _ _ Hrun Hok2) as [Hkeep Hcov].
      assert (Hkeep01 : forall s sc j x y, shard_index st !! s = Some sc ->
         sc_args sc !! j = Some x -> original_index sc !! j = Some y ->
         exists sc', shard_index st' !! s = Some sc' /\
           sc_args sc' !! j = Some x /\ original_index sc' !! j = Some y).
      { intros s sc j x y Hs Hx Hy.
        destruct (Hkeep1 _ _ _ _ _ Hs Hx Hy) as (sc1 & Hs1 & Hx1 & Hy1).
        destruct (Hkeep2 _ _ _ _ _ Hs1 Hx1 Hy1) as (sc2 & Hs2 & Hx2 & Hy2).
        eauto. }
      split; [assumption|].
      intros p key0 Hp Hk0. apply elem_of_cons in Hp as [->|Hp]; [|eauto].
      rewrite Hkey in Hk0. injection Hk0 as <-.
      destruct Hnew1 as (sc1 & j & Hs1 & Hx1 & Hy1).
      destruct (Hkeep2 _ _ _ _ _ Hs1 Hx1 Hy1) as (sc2 & Hs2 & Hx2 & Hy2).
      destruct (Hkeep _ _ _ _ _ Hs2 Hx2 Hy2) as (sc' & Hs' & Hx' & Hy').
      eauto. }
    destruct Hstep as [E|E]; rewrite E in *; simpl in H.
    + refine (Hgoal si1 _ Hok1 _ _ H); [intros; eauto|reflexivity].
    + destruct (args !! (i + 1)) as [val|] eqn:Hval; simpl in H; [|discriminate].
      destruct (push_arg (Shard key n) val (i + 1 - 1) si1) as [si2|] eqn:Hp2;
        simpl in H; [|discriminate].
      destruct (push_arg_grows _ _ _ _ _ Hp2 Hok1) as (Hok2 & Hkeep2 & _).
      replace (i + 1 + 1) with (i + 2) in H by lia.
      refine (Hgoal si2 _ Hok2 Hkeep2 _ H). reflexivity.
Qed.

Lemma length_filter_seq_lookup {A} (l : list A) (P : nat -> Prop) (Q : A -> Prop)
    `{!forall i, Decision (P i)} `{!forall x, Decision (Q x)} : forall k,
  (forall i x, l !! i = Some x -> (P (k + i) <-> Q x)) ->
  length (filter P (seq k (length l))) = length (filter Q l).
Proof.
  induction l as [|x l IH]; intros k HPQ; [reflexivity|].
  simpl length. simpl seq. rewrite !filter_cons.
  assert (HPQ0 : P k <-> Q x)
    by (rewrite <- (Nat.add_0_r k) at 1; apply (HPQ 0); reflexivity).
  assert (Hrec : length (filter P (seq (S k) (length l))) = length (filter Q l)).
  { apply IH. intros i y Hi. replace (S k + i) with (k + S i) by lia.
    apply (HPQ (S i)). exact Hi. }
  destruct (decide (P k)), (decide (Q x)); simpl; try tauto; rewrite ?Hrec; reflexivity.
Qed.

Lemma length_filter_seq_one (a n : nat) (P : nat -> Prop) `{!forall i, Decision (P i)} :
  (forall i, P i <-> i = a) -> a < n -> length (filter P (seq 0 n)) = 1.
Proof.
  intros HP Ha. induction n as [|n IH]; [lia|].
  rewrite seq_S, filter_app, length_app. simpl. rewrite filter_cons, filter_nil.
  destruct (decide (a = n)) as [->|Hne].
  - rewrite decide_True by (apply HP; reflexivity). simpl.
    assert (Hz : filter P (seq 0 n) = []).
    { destruct (filter P (seq 0 n)) as [|i rest] eqn:Hf; [reflexivity|].
      assert (Hin : i ∈ filter P (seq 0 n)) by (rewrite Hf; left).
      apply list_elem_of_filter in Hin as [Hp Hi].
      apply HP in Hp. apply elem_of_seq in Hi. lia. }
    rewrite Hz. reflexivity.
  - rewrite decide_False by (intros Hp; apply HP in Hp; lia). simpl.
    rewrite IH by lia. reflexivity.
Qed.

Lemma pack_shards_count inc si : forall i st st',
  pack_shards inc i si st = Some st' ->
  ps_unique_shard_cnt st'
  = ps_unique_shard_cnt st + length (filter (fun sc => sc_args sc <> []) si).
Proof.
  induction si as [|sc rest IH]; intros i st st' H; simpl in H.
  - injection H as <-. simpl. lia.
  - destruct (Z.ltb_spec (Z.of_nat (length (sc_args sc))) (2 ^ 15)) as [Hsmall|];
      [|discriminate]. simpl in H.
    destruct (ps_shard_data st !! i) as [sd|]; simpl in H; [|discriminate].
    rewrite trunc16_small in H by assumption. rewrite filter_cons.
    destruct (Z.eqb_spec (Z.of_nat (length (sc_args sc))) 0) as [Hz|Hnz].
    + apply IH in H. simpl in H.
      rewrite decide_False; [assumption|].
      intros Hne. apply Hne. apply length_zero_iff_nil. lia.
    + destruct (copy_args _ _ _ _ _ _) as [[[p a] r]|]; simpl in H; [|discriminate].
      apply IH in H. simpl in H.
      rewrite decide_True; [simpl; lia|].
      intros Hn. rewrite Hn in Hnz. simpl in Hnz. lia.
Qed.

Lemma InitByArgs_packed n index args t t' :
  InitByArgs Shard DetermineKeys n index args t = Some t' ->
  IsGlobal t = false ->
  start (DetermineKeys (cid_ t) args) <> length args ->
  (is_multi t = true \/
   start (DetermineKeys (cid_ t) args) + step (DetermineKeys (cid_ t) args)
     < end_ (DetermineKeys (cid_ t) args)) ->
  let ki := DetermineKeys (cid_ t) args in
  exists rec mode inc lk0 rs ps,
    (step ki = 1 \/ step ki = 2) /\
    route_keys Shard args n ki rec mode (end_ ki - start ki) (start ki)
      (mkRouteState (replicate n ShardCache_clear) ∅ lk0) = Some rs /\
    pack_shards inc 0 (shard_index rs)
      (mkPackState 0 (resize (end_ ki - start ki) ""%string (args_ t))
         (resize (end_ ki - start ki) 0 (reverse_index_ t))
         (resize n PerShardData_default (shard_data_ t))
         (unique_shard_cnt_ t) (unique_shard_id_ t)) = Some ps /\
    next_arg ps = length (ps_args ps) /\
    args_ t' = ps_args ps /\
    reverse_index_ t' = ps_reverse_index ps /\
    unique_shard_cnt_ t' = ps_unique_shard_cnt ps /\
    unique_shard_id_ t' = ps_unique_shard_id ps /\
    multi_ t' = match multi_ t with
                | Some m => Some (mkMulti (rs_locks rs) (multi_opts m) (incremental m) true)
                | None => None
                end /\
    (ps_unique_shard_cnt ps <> 1 -> shard_data_ t' = ps_shard_data ps) /\
    (ps_unique_shard_cnt ps = 1 ->
       shard_data_ t' =
         if is_multi t then
           match ps_shard_data ps !! ps_unique_shard_id ps with
           | Some sd => <[ps_unique_shard_id ps := set_sentinel sd]> (ps_shard_data ps)
           | None => ps_shard_data ps
           end
         else
           match resize 1 PerShardData_default (ps_shard_data ps) with
           | sd :: rest => set_sentinel sd :: rest
           | [] => []
           end).
Proof.
  intros H Hg Hstart Hpath ki. unfold InitByArgs in H.
  change (IsGlobal (with_db_index index t)) with (IsGlobal t) in H.
  change (cid_ (with_db_index index t)) with (cid_ t) in H.
  change (multi_ (with_db_index index t)) with (multi_ t) in H.
  change (is_multi (with_db_index index t)) with (is_multi t) in H.
  change (args_ (with_db_index index t)) with (args_ t) in H.
  change (reverse_index_ (with_db_index index t)) with (reverse_index_ t) in H.
  change (shard_data_ (with_db_index index t)) with (shard_data_ t) in H.
  change (unique_shard_cnt_ (with_db_index index t)) with (unique_shard_cnt_ t) in H.
  change (unique_shard_id_ (with_db_index index t)) with (unique_shard_id_ t) in H.
  fold ki in H, Hstart, Hpath.
  rewrite Hg in H.
  destruct (negb (1 <? length args)); [discriminate|].
  destruct (Nat.eqb_spec (start ki) (length args)) as [|_]; [contradiction|].
  assert (Hsk : negb (is_multi t) && (end_ ki <=? start ki + step ki) = false).
  { destruct Hpath as [->|Hlt]; [reflexivity|].
    apply andb_false_iff. right. apply Nat.leb_gt. lia. }
  rewrite Hsk in H.
  destruct (Nat.eqb_spec (step ki) 1) as [E1|E1];
    destruct (Nat.eqb_spec (step ki) 2) as [E2|E2]; try discriminate; try lia;
    simpl in H.
  all: rewrite !length_resize in H.
  all: match type of H with (?r ≫= _) = _ => destruct r as [rs|] eqn:Hr end;
    simpl in H; [|discriminate].
  all: match type of H with (?r ≫= _) = _ => destruct r as [ps|] eqn:Hp end;
    simpl in H; [|discriminate].
  all: destruct (Nat.eqb_spec (next_arg ps) (length (ps_args ps))) as [Hn|];
    [|discriminate]; simpl in H.
  all: injection H as <-.
  all: do 6 eexists.
  all: split; [auto|].
  all: split; [exact Hr|].
  all: split; [exact Hp|].
  all: split; [exact Hn|].
  all: simpl.
  all: repeat (split; [reflexivity|]).
  all: split; intros Hcnt.
  all: try (destruct (Nat.eqb_spec (ps_unique_shard_cnt ps) 1); [contradiction|reflexivity]).
  all: rewrite Hcnt; reflexivity.
Qed.

Lemma lookup_concat_take {A} (ls : list (list A)) : forall s l j x,
  ls !! s = Some l -> l !! j = Some x ->
  concat ls !! (length (concat (take s ls)) + j) = Some x.
Proof.
  induction ls as [|l0 ls IH]; intros s l j x Hs Hj; [rewrite lookup_nil in Hs; discriminate|].
  destruct s as [|s]; simpl in Hs.
  - injection Hs as ->. simpl. apply lookup_app_l_Some. assumption.
  - rewrite firstn_cons, !concat_cons, length_app, <- Nat.add_assoc.
    rewrite lookup_app_r by lia.
    replace (length l0 + (length (concat (take s ls)) + j) - length l0)
      with (length (concat (take s ls)) + j) by lia.
    eauto.
Qed.

Lemma length_concat_take_le {A} (ls : list (list A)) s :
  length (concat (take s ls)) <= length (concat ls).
Proof.
  rewrite <- (take_drop s ls) at 2. rewrite concat_app, length_app. lia.
Qed.

Lemma length_concat_buckets (si : list ShardCache) :
  Forall bucket_len_ok si ->
  length (concat (original_index <$> si)) = length (concat (sc_args <$> si)).
Proof.
  induction 1 as [|sc si Hsc _ IH]; [reflexivity|].
  rewrite !fmap_cons, !concat_cons, !length_app, IH, Hsc. reflexivity.
Qed.

(** The packed vectors are the scratch lists of the shards, one shard after
    the other, and each slot records where its shard's list lies. *)
Lemma InitByArgs_buckets n index args t t' :
  InitByArgs Shard DetermineKeys n index args t = Some t' ->
  IsGlobal t = false ->
  start (DetermineKeys (cid_ t) args) <> length args ->
  0 < start (DetermineKeys (cid_ t) args) ->
  (is_multi t = true \/
   start (DetermineKeys (cid_ t) args) + step (DetermineKeys (cid_ t) args)
     < end_ (DetermineKeys (cid_ t) args)) ->
  let ki := DetermineKeys (cid_ t) args in
  exists (si : list ShardCache) (sds : list PerShardData),
    length si = n /\ length sds = n /\
    Forall (bucket_ok args) si /\
    (forall s sc, si !! s = Some sc ->
       length (sc_args sc) = step ki * keys_routed_to Shard n args ki s) /\
    args_ t' = concat (sc_args <$> si) /\
    reverse_index_ t' = concat (original_index <$> si) /\
    length (args_ t') = end_ ki - start ki /\
    (forall s sc, si !! s = Some sc ->
       exists sd, sds !! s = Some sd /\
         arg_count sd = Z.of_nat (length (sc_args sc)) /\
         arg_start sd = Bits.trunc 32 (Z.of_nat (length (concat (sc_args <$> take s si))))) /\
    unique_shard_cnt_ t <= unique_shard_cnt_ t' /\
    (unique_shard_cnt_ t < unique_shard_cnt_ t' -> unique_shard_id_ t' < n) /\
    (unique_shard_cnt_ t' <> 1 -> shard_data_ t' = sds) /\
    (unique_shard_cnt_ t' = 1 ->
       shard_data_ t' =
         if is_multi t then
           match sds !! unique_shard_id_ t' with
           | Some sd => <[unique_shard_id_ t' := set_sentinel sd]> sds
           | None => sds
           end
         else
           match resize 1 PerShardData_default sds with
           | sd :: rest => set_sentinel sd :: rest
           | [] => []
           end) /\
    (forall p key,
       p ∈ key_positions ki (end_ ki - start ki) (start ki) -> args !! p = Some key ->
       exists sc j, si !! Shard key n = Some sc /\
         sc_args sc !! j = Some key /\ original_index sc !! j = Some (p - 1)) /\
    unique_shard_cnt_ t'
      = unique_shard_cnt_ t + length (filter (fun sc => sc_args sc <> []) si).
Proof.
  intros H Hg Hstart Hpos Hpath ki.
  destruct (InitByArgs_packed _ _ _ _ _ H Hg Hstart Hpath)
    as (rec & mode & inc & lk0 & rs & ps & Hstep & Hr & Hp & Hn & Ha & Hrev & Hc & Hid
        & _ & Hne & Heq).
  fold ki in Hstep, Hr, Hp.
  assert (Hcov := route_keys_covers args n ki rec mode Hstep _ _ _ _ Hr).
  simpl in Hcov. specialize (Hcov ltac:(apply Forall_replicate; reflexivity)).
  destruct Hcov as [_ Hcov].
  apply (route_keys_spec args n ki rec mode Hstep) in Hr; [|unfold ki; lia|].
  2:{ simpl. apply Forall_replicate. split; [reflexivity|].
      intros j a o Hj. simpl in Hj. rewrite lookup_nil in Hj. discriminate. }
  simpl in Hr. rewrite length_replicate in Hr. destruct Hr as (Hlen & Hok & Hcount).
  assert (Hlok : Forall bucket_len_ok (shard_index rs)).
  { eapply Forall_impl; [exact Hok|]. intros sc [Hl _]. exact Hl. }
  assert (Hpcnt := pack_shards_count _ _ _ _ _ Hp). simpl in Hpcnt.
  apply pack_shards_spec in Hp; [|assumption|simpl; rewrite !length_resize; reflexivity
                                |simpl; lia].
  cbn [next_arg ps_args ps_reverse_index ps_shard_data ps_unique_shard_cnt
       ps_unique_shard_id] in Hp.
  rewrite !length_resize, !take_0, !app_nil_l in Hp.
  destruct Hp as (Hnext & _ & Hla & Hlr & Hta & Htr & Hls & _ & Hslot & Hc1 & Hc2 & _).
  rewrite Hn, Hla in Hta. rewrite Hn, Hla in Htr.
  rewrite <- Hla in Hta at 1. rewrite <- Hlr in Htr at 1.
  rewrite firstn_all in Hta, Htr.
  exists (shard_index rs), (ps_shard_data ps).
  split; [assumption|]. split; [assumption|]. split; [assumption|].
  split.
  { intros s sc Hs.
    assert (Hs0 : replicate n ShardCache_clear !! s = Some ShardCache_clear).
    { apply lookup_replicate_2. rewrite <- Hlen. eapply lookup_lt_Some; eassumption. }
    destruct (Hcount s _ Hs0) as (sc' & Hsc' & Hl). rewrite Hs in Hsc'.
    injection Hsc' as <-. rewrite Hl. reflexivity. }
  split; [congruence|]. split; [congruence|]. split; [congruence|].
  split. { intros s sc Hs. apply (Hslot s sc Hs). }
  rewrite Hc, Hid.
  split; [assumption|]. split; [intros Hlt; specialize (Hc2 Hlt); lia|].
  split; [assumption|]. split; [assumption|]. split; assumption.
Qed.

Lemma arg_count_sentinel sd : arg_count (set_sentinel sd) = (2 ^ 16 - 1)%Z.
Proof. reflexivity. Qed.

(** C3, as the code has it: on the path of [InitByArgs] that routes and
    packs, a transaction that spans several shards has in every slot the
    number of arguments routed to that shard, [step] per key (a key and,
    for [step = 2], its value); a transaction whose keys all land in one
    shard has the all-ones sentinel in the slot of that shard. *)
Theorem InitByArgs_arg_count n index args t t' :
  InitByArgs Shard DetermineKeys n index args t = Some t' ->
  IsGlobal t = false ->
  start (DetermineKeys (cid_ t) args) <> length args ->
  0 < start (DetermineKeys (cid_ t) args) ->
  (is_multi t = true \/
   start (DetermineKeys (cid_ t) args) + step (DetermineKeys (cid_ t) args)
     < end_ (DetermineKeys (cid_ t) args)) ->
  unique_shard_cnt_ t = 0 ->
  (unique_shard_cnt_ t' <> 1 ->
     forall s, s < n ->
     exists sd, shard_data_ t' !! s = Some sd /\
       arg_count sd
       = Z.of_nat (step (DetermineKeys (cid_ t) args)
                   * keys_routed_to Shard n args (DetermineKeys (cid_ t) args) s)) /\
  (unique_shard_cnt_ t' = 1 ->
     exists sd, shard_data_ t' !! SidToId t' (unique_shard_id_ t') = Some sd /\
       arg_count sd = (2 ^ 16 - 1)%Z).
Proof.
  intros H Hg Hstart Hpos Hpath Hcnt0.
  destruct (InitByArgs_buckets _ _ _ _ _ H Hg Hstart Hpos Hpath)
    as (si & sds & Hlsi & Hlsds & Hok & Hkeys & _ & _ & _ & Hslot & _ & Hid & Hne & Heq & _ & _).
  split.
  - intros Hc s Hs. rewrite (Hne Hc).
    destruct (lookup_lt_is_Some_2 si s) as [sc Hsc]; [lia|].
    destruct (Hslot s sc Hsc) as (sd & Hsd & Hac & _).
    exists sd. split; [assumption|]. rewrite Hac, (Hkeys s sc Hsc). reflexivity.
  - intros Hc. specialize (Heq Hc).
    assert (Hidn : unique_shard_id_ t' < n) by (apply Hid; lia).
    destruct (lookup_lt_is_Some_2 sds (unique_shard_id_ t')) as [sd Hsd]; [lia|].
    unfold SidToId. revert Heq. destruct (is_multi t); intros Heq.
    + rewrite Hsd in Heq. rewrite Heq, length_insert.
      destruct (Nat.ltb_spec (unique_shard_id_ t') (length sds)) as [Hlt|]; [|lia].
      exists (set_sentinel sd). split; [|apply arg_count_sentinel].
      apply list_lookup_insert_eq. assumption.
    + destruct sds as [|sd0 rest]; [simpl in Hlsds; lia|].
      simpl in Heq. rewrite resize_0 in Heq.
      rewrite Heq. exists (set_sentinel sd0). split; [|apply arg_count_sentinel].
      simpl length. destruct (unique_shard_id_ t') as [|k]; reflexivity.
Qed.

Lemma trunc32_small (k : nat) :
  (Z.of_nat k < 2 ^ 32)%Z -> Z.to_nat (Bits.trunc 32 (Z.of_nat k)) = k.
Proof. intros Hk. unfold Bits.trunc. rewrite Z.mod_small by lia. lia. Qed.

(** C8: after [InitByArgs], the argument at position [j] of the slice of
    shard [s] is the caller's argument at the index that
    [ReverseArgIndex s j] returns, an index that counts the arguments after
    the command name; every key of the caller has such a position in the
    slice of the shard that the router gives it; and with one shard
    [ReverseArgIndex s j] is [j]. *)
Theorem ReverseArgIndex_round_trip n index args t t' :
  InitByArgs Shard DetermineKeys n index args t = Some t' ->
  IsGlobal t = false ->
  start (DetermineKeys (cid_ t) args) <> length args ->
  0 < start (DetermineKeys (cid_ t) args) ->
  (is_multi t = true \/
   start (DetermineKeys (cid_ t) args) + step (DetermineKeys (cid_ t) args)
     < end_ (DetermineKeys (cid_ t) args)) ->
  (Z.of_nat (end_ (DetermineKeys (cid_ t) args) - start (DetermineKeys (cid_ t) args))
     < 2 ^ 32)%Z ->
  (unique_shard_cnt_ t' <> 1 ->
     forall s sd j p,
       shard_data_ t' !! s = Some sd ->
       (Z.of_nat j < arg_count sd)%Z ->
       p = Z.to_nat (arg_start sd) + j ->
       exists a r,
         args_ t' !! p = Some a /\
         ReverseArgIndex t' s j = Some r /\
         args !! (S r) = Some a) /\
  (unique_shard_cnt_ t' <> 1 ->
     forall i key,
       i ∈ key_positions (DetermineKeys (cid_ t) args)
             (end_ (DetermineKeys (cid_ t) args) - start (DetermineKeys (cid_ t) args))
             (start (DetermineKeys (cid_ t) args)) ->
       args !! i = Some key ->
       exists sd j,
         shard_data_ t' !! Shard key n = Some sd /\
         (Z.of_nat j < arg_count sd)%Z /\
         args_ t' !! (Z.to_nat (arg_start sd) + j) = Some key /\
         ReverseArgIndex t' (Shard key n) j = Some (i - 1)) /\
  (unique_shard_cnt_ t' = 1 -> forall s j, ReverseArgIndex t' s j = Some j).
Proof.
  intros H Hg Hstart Hpos Hpath Hsize.
  destruct (InitByArgs_buckets _ _ _ _ _ H Hg Hstart Hpos Hpath)
    as (si & sds & Hlsi & Hlsds & Hok & _ & Ha & Hr & Hla & Hslot & _ & _ & Hne & _ & Hcov & _).
  assert (Hpack : unique_shard_cnt_ t' <> 1 ->
    forall s sc j a o,
      si !! s = Some sc -> sc_args sc !! j = Some a -> original_index sc !! j = Some o ->
      exists sd, shard_data_ t' !! s = Some sd /\
        (Z.of_nat j < arg_count sd)%Z /\
        args_ t' !! (Z.to_nat (arg_start sd) + j) = Some a /\
        ReverseArgIndex t' s j = Some o).
  { intros Hc s sc j a o Hsc Hja Hjo.
    destruct (Hslot s sc Hsc) as (sd & Hsd & Hac & Has).
    assert (Hle : length (concat (sc_args <$> take s si)) <= length (args_ t')).
    { rewrite Ha, fmap_take. apply length_concat_take_le. }
    exists sd. rewrite (Hne Hc). split; [assumption|].
    split; [rewrite Hac; apply lookup_lt_Some in Hja; lia|].
    rewrite Has, trunc32_small by lia. split.
    - rewrite Ha, fmap_take.
      apply (lookup_concat_take _ s (sc_args sc)); [|assumption].
      rewrite list_lookup_fmap, Hsc. reflexivity.
    - unfold ReverseArgIndex.
      destruct (Nat.eqb_spec (unique_shard_cnt_ t') 1) as [|_]; [contradiction|].
      rewrite (Hne Hc), Hsd. simpl. rewrite Has, trunc32_small by lia.
      rewrite Hr.
      rewrite <- (length_concat_buckets (take s si)).
      2:{ apply Forall_take. eapply Forall_impl; [exact Hok|]. intros ? [? _]. assumption. }
      rewrite fmap_take.
      apply (lookup_concat_take _ s (original_index sc)); [|assumption].
      rewrite list_lookup_fmap, Hsc. reflexivity. }
  split; [|split].
  - intros Hc s sd j p Hsd Hj ->. rewrite (Hne Hc) in Hsd.
    assert (Hs : s < n) by (rewrite <- Hlsds; eapply lookup_lt_Some; eassumption).
    destruct (lookup_lt_is_Some_2 si s) as [sc Hsc]; [lia|].
    destruct (Hslot s sc Hsc) as (sd' & Hsd' & Hac & Has).
    rewrite Hsd in Hsd'. injection Hsd' as <-.
    pose proof (Forall_lookup_1 _ _ _ _ Hok Hsc) as [Hl Hcontent].
    unfold bucket_len_ok in Hl.
    destruct (lookup_lt_is_Some_2 (sc_args sc) j) as [a Hja]; [lia|].
    destruct (lookup_lt_is_Some_2 (original_index sc) j) as [o Hjo]; [lia|].
    destruct (Hpack Hc s sc j a o Hsc Hja Hjo) as (sd2 & Hsd2 & _ & Harg & Hrev).
    rewrite (Hne Hc), Hsd in Hsd2. injection Hsd2 as <-.
    exists a, o. split; [assumption|]. split; [assumption|].
    eapply Hcontent; eassumption.
  - intros Hc i key Hi Hkey.
    destruct (Hcov i key Hi Hkey) as (sc & j & Hsc & Hja & Hjo).
    destruct (Hpack Hc _ sc j key (i - 1) Hsc Hja Hjo) as (sd & Hsd & Hj & Harg & Hrev).
    exists sd, j. auto.
  - intros Hc s j. unfold ReverseArgIndex. rewrite Hc. reflexivity.
Qed.

(** What [ScheduleInternal] relies on: after the routing path of
    [InitByArgs], [unique_shard_cnt_] is the number of shards that its
    [is_active] selects. *)
Lemma InitByArgs_active_count n index args t t' :
  InitByArgs Shard DetermineKeys n index args t = Some t' ->
  IsGlobal t = false ->
  start (DetermineKeys (cid_ t) args) <> length args ->
  0 < start (DetermineKeys (cid_ t) args) ->
  (is_multi t = true \/
   start (DetermineKeys (cid_ t) args) + step (DetermineKeys (cid_ t) args)
     < end_ (DetermineKeys (cid_ t) args)) ->
  unique_shard_cnt_ t = 0 ->
  active_count false (unique_shard_cnt_ t') t' n = unique_shard_cnt_ t'.
Proof.
  intros H Hg Hstart Hpos Hpath Hcnt0.
  destruct (InitByArgs_buckets _ _ _ _ _ H Hg Hstart Hpos Hpath)
    as (si & sds & Hlsi & Hlsds & _ & _ & _ & _ & _ & Hslot & _ & Hid & Hne & _ & _ & Hcount).
  unfold active_count.
  destruct (Nat.eqb_spec (unique_shard_cnt_ t') 1) as [Hc|Hc].
  - rewrite Hc. apply (length_filter_seq_one (unique_shard_id_ t')).
    + intros i. unfold is_active. simpl. split.
      * intros E. injection E as E. apply Nat.eqb_eq in E. assumption.
      * intros ->. rewrite Nat.eqb_refl. reflexivity.
    + apply Hid. lia.
  - transitivity (length (filter (fun sc => sc_args sc <> []) si));
      [|rewrite Hcount, Hcnt0; reflexivity].
    rewrite <- Hlsi.
    apply length_filter_seq_lookup. intros i sc Hsc. simpl.
    unfold is_active.
    rewrite (proj2 (Nat.eqb_neq _ _) Hc). rewrite (Hne Hc).
    destruct (Hslot i sc Hsc) as (sd & Hsd & Hac & _). rewrite Hsd. simpl.
    rewrite Hac. split.
    + intros E. injection E as E. apply Z.ltb_lt in E.
      intros Hn. rewrite Hn in E. simpl in E. lia.
    + intros Hn. f_equal. apply Z.ltb_lt.
      destruct (sc_args sc); [contradiction|simpl; lia].
Qed.

End PackerFacts.

(** ** Facts on the lock table *)

Lemma cnt_add_cancel c m d : cnt_add (cnt_add c m d) m (- d) = c.
Proof. destruct c, m; unfold cnt_add; simpl; f_equal; lia. Qed.

Lemma foldl_lock_update db0 (f : LockCnt -> LockCnt) ks : forall lt db k,
  NoDup ks ->
  foldl (fun lt key => lock_update db0 key f lt) lt ks db k
  = if bool_decide (db = db0 /\ k ∈ ks) then f (lt db k) else lt db k.
Proof.
  induction ks as [|key ks IH]; intros lt db k Hnd; simpl.
  - rewrite bool_decide_eq_false_2; [reflexivity|]. intros [_ H]. inversion H.
  - apply NoDup_cons in Hnd as [Hnotin Hnd]. rewrite IH by assumption.
    unfold lock_update.
    destruct (bool_decide_reflect (db = db0 /\ k ∈ ks)) as [[-> Hin]|Hn].
    + rewrite (bool_decide_eq_false_2 (db0 = db0 /\ k = key))
        by (intros [_ ->]; contradiction).
      rewrite bool_decide_eq_true_2; [reflexivity|]. split; [reflexivity|]. by right.
    + destruct (bool_decide_reflect (db = db0 /\ k = key)) as [[-> ->]|Hn'].
      * rewrite bool_decide_eq_true_2; [reflexivity|]. split; [reflexivity|]. by left.
      * rewrite bool_decide_eq_false_2; [reflexivity|].
        intros [-> Hin]. apply elem_of_cons in Hin as [->|Hin]; tauto.
Qed.

Lemma db_Acquire_table m la lt :
  (db_Acquire m la lt).2
  = foldl (fun lt key => lock_update (kl_db_index la) key (fun c => cnt_add c m 1) lt)
      lt (lock_keys la).
Proof.
  unfold db_Acquire. generalize (lock_keys la) as ks. generalize true as b. revert lt.
  intros lt b ks. revert lt b. induction ks as [|k ks IH]; intros lt b; simpl; [reflexivity|].
  apply IH.
Qed.

Lemma NoDup_lock_keys la : NoDup (lock_keys la).
Proof. apply NoDup_remove_dups. Qed.

(** [Release] undoes [Acquire] on every lock of the table. *)
Lemma db_Release_Acquire m la lt db k :
  db_Release m la (db_Acquire m la lt).2 db k = lt db k.
Proof.
  rewrite db_Acquire_table. unfold db_Release, db_ReleaseKey, IntentLock_Release.
  rewrite !foldl_lock_update by apply NoDup_lock_keys.
  destruct (bool_decide (db = kl_db_index la /\ k ∈ lock_keys la)); [|reflexivity].
  apply cnt_add_cancel.
Qed.

Lemma db_Release_count m la lt db k :
  db_Release m la lt db k
  = if bool_decide (db = kl_db_index la /\ k ∈ lock_keys la)
    then cnt_add (lt db k) m (-1) else lt db k.
Proof.
  unfold db_Release, db_ReleaseKey, IntentLock_Release.
  apply foldl_lock_update, NoDup_lock_keys.
Qed.

(** ** Facts on the scheduler *)

Lemma distinct_bits_spec w bs :
  distinct_bits w bs = true -> Forall (fun b => (0 <= b < w)%Z) bs /\ NoDup bs.
Proof.
  unfold distinct_bits. intros H. apply andb_prop in H as [Hr Hd].
  split; [|eapply bool_decide_eq_true; eassumption].
  apply Forall_forall. intros b Hb.
  rewrite forallb_forall in Hr. apply list_elem_of_In in Hb.
  specialize (Hr b Hb). apply andb_prop in Hr as [H1 H2]. lia.
Qed.

Ltac bits_facts H :=
  let Hrange := fresh "Hrange" in
  let Hnd := fresh "Hnd" in
  destruct (distinct_bits_spec _ _ H) as [Hrange Hnd];
  repeat (apply Forall_cons in Hrange as [[? ?] Hrange]);
  repeat (apply NoDup_cons in Hnd as [? Hnd]);
  repeat match goal with
         | Hn : _ ∉ _ :: _ |- _ => apply not_elem_of_cons in Hn as [? Hn]
         end;
  clear Hrange Hnd.

(** The side conditions of the flag lemmas, from the facts that [bits_facts]
    leaves in the context. *)
Ltac bit_side :=
  solve [ assumption | apply not_eq_sym; assumption ].

#[local] Arguments Bits.has : simpl never.
#[local] Arguments Bits.set : simpl never.
#[local] Arguments Bits.clear : simpl never.
#[local] Arguments Bits.flag : simpl never.

Section SchedulerFacts.

Context (L : LocalStateBits) (C : CoordinatorStateBits).
Hypothesis HL : local_state_ok L = true.

Lemma txq_Empty_nil q : txq_Empty q = true <-> q = [].
Proof. destruct q; simpl; split; congruence. Qed.

(** C2: a scheduling attempt fails exactly when the shard has committed
    the transaction id or when the queue is not empty, the lock was not
    granted and the tail of the queue is not below the id; it then answers
    [(false, false)], and the locks, the queue and the rest of the shard are
    as before the attempt, as is the slot, with KEYLOCK_ACQUIRED clear. *)
Theorem ScheduleInShard_failure t shard t' shard' res sd :
  ScheduleInShard L t shard = Some (t', shard', res) ->
  shard_data_ t !! SidToId t (shard_id shard) = Some sd ->
  Bits.has (local_mask sd) (KEYLOCK_ACQUIRED L) = false ->
  (res.1 = false <->
     (txid_ t <= committed_txid shard)%Z \/
     (txq shard <> [] /\ lock_granted_in t shard = false /\
      (txid_ t <= txq_TailScore (txq shard))%Z)) /\
  (res.1 = false ->
     res = (false, false) /\
     txq shard' = txq shard /\
     (forall db k, lock_table shard' db k = lock_table shard db k) /\
     shard_lock shard' = shard_lock shard /\
     committed_txid shard' = committed_txid shard /\
     watched shard' = watched shard /\
     shard_id shard' = shard_id shard /\
     (forall k, k <> SidToId t (shard_id shard) ->
                shard_data_ t' !! k = shard_data_ t !! k) /\
     exists sd',
       shard_data_ t' !! SidToId t (shard_id shard) = Some sd' /\
       Bits.has (local_mask sd') (KEYLOCK_ACQUIRED L) = false /\
       pq_pos sd' = pq_pos sd /\ arg_start sd' = arg_start sd /\
       arg_count sd' = arg_count sd).
Proof.
  intros H Hsd Hclear.
  assert (Hset : forall m, Bits.has (Bits.set m (KEYLOCK_ACQUIRED L)) (KEYLOCK_ACQUIRED L)
                           = true)
    by (intros m; clear - HL; bits_facts HL; apply has_set_same; bit_side).
  assert (Hclr : forall m, Bits.has (Bits.clear m (KEYLOCK_ACQUIRED L))
                             (KEYLOCK_ACQUIRED L) = false)
    by (intros m; clear - HL; bits_facts HL; apply has_clear_same; bit_side).
  unfold ScheduleInShard in H. unfold lock_granted_in.
  destruct (Z.leb_spec (txid_ t) (committed_txid shard)) as [Hc|Hc].
  { injection H as <- <- <-. split; [split; auto|].
    intros _. repeat split; try reflexivity. exists sd. auto. }
  rewrite Hsd in H. simpl in H.
  assert (Hlt : SidToId t (shard_id shard) < length (shard_data_ t))
    by (eapply lookup_lt_Some; eassumption).
  destruct (IsGlobal t) eqn:Hg; simpl in H.
  - (* span-all: no lock is taken *)
    rewrite Hclear in H.
    destruct (txq_Empty (txq shard)) eqn:He; simpl in H.
    + unfold txq_Insert in H; simpl in H. injection H as <- <- <-.
      apply txq_Empty_nil in He. simpl. split; [|discriminate].
      split; [discriminate|]. intros [?|(? & _)]; [lia|contradiction].
    + assert (Hne : txq shard <> []) by (intros E; apply txq_Empty_nil in E; congruence).
      destruct (Z.ltb_spec (txq_TailScore (txq shard)) (txid_ t)) as [Ht|Ht]; simpl in H.
      * unfold txq_Insert in H; simpl in H. injection H as <- <- <-.
        simpl. split; [|discriminate]. split; [discriminate|].
        intros [?|(_ & _ & ?)]; lia.
      * injection H as <- <- <-. simpl. split; [split; auto|].
        intros _. repeat split; try reflexivity.
        -- intros k Hk. apply list_lookup_insert_ne. congruence.
        -- exists (set_local_mask (local_mask sd) sd).
           rewrite list_lookup_insert_eq by assumption. auto.
  - destruct (db_Acquire (TxMode t) (GetLockArgs t (shard_id shard)) (lock_table shard))
      as [acquired lt] eqn:Hacq.
    assert (Hlt2 : lt = (db_Acquire (TxMode t) (GetLockArgs t (shard_id shard))
                           (lock_table shard)).2) by (rewrite Hacq; reflexivity).
    simpl in H. simpl.
    rewrite Hset in H.
    destruct (txq_Empty (txq shard)) eqn:He; simpl in H.
    + unfold txq_Insert in H; simpl in H. injection H as <- <- <-.
      apply txq_Empty_nil in He. simpl. split; [|discriminate].
      split; [discriminate|]. intros [?|(? & _)]; [lia|contradiction].
    + assert (Hne : txq shard <> []) by (intros E; apply txq_Empty_nil in E; congruence).
      destruct (acquired && IntentLock_Check (TxMode t) (shard_lock shard)) eqn:Hlg;
        simpl in H.
      { unfold txq_Insert in H; simpl in H. injection H as <- <- <-.
        simpl. split; [|discriminate]. split; [discriminate|].
        intros [?|(_ & ? & _)]; [lia|congruence]. }
      destruct (Z.ltb_spec (txq_TailScore (txq shard)) (txid_ t)) as [Ht|Ht]; simpl in H.
      * unfold txq_Insert in H; simpl in H. injection H as <- <- <-.
        simpl. split; [|discriminate]. split; [discriminate|].
        intros [?|(_ & _ & ?)]; lia.
      * injection H as <- <- <-. simpl. split; [split; auto|].
        intros _. repeat split; try reflexivity.
        -- intros db k. rewrite Hlt2. apply db_Release_Acquire.
        -- intros k Hk. apply list_lookup_insert_ne. congruence.
        -- eexists. rewrite list_lookup_insert_eq by assumption.
           split; [reflexivity|]. simpl. rewrite Hclr. auto.
Qed.

End SchedulerFacts.

Lemma same_routing_refl t : same_routing t t.
Proof. unfold same_routing. repeat split; reflexivity. Qed.

Lemma same_routing_trans t1 t2 t3 :
  same_routing t1 t2 -> same_routing t2 t3 -> same_routing t1 t3.
Proof.
  unfold same_routing. intros H1 H2.
  destruct H1 as (?&?&?&?&?&?&?&?&?&?&?), H2 as (?&?&?&?&?&?&?&?&?&?&?).
  repeat split; congruence.
Qed.

Lemma same_routing_set_slot t idx sd sd' :
  shard_data_ t !! idx = Some sd ->
  arg_start sd' = arg_start sd -> arg_count sd' = arg_count sd ->
  same_routing t (set_slot idx sd' t).
Proof.
  intros Hsd Hs Hc. unfold same_routing, set_slot. simpl.
  repeat split; try reflexivity.
  rewrite list_fmap_insert, Hs, Hc. apply list_insert_id.
  rewrite list_lookup_fmap, Hsd. reflexivity.
Qed.

Lemma same_routing_with_txid x t : same_routing t (with_txid x t).
Proof. unfold same_routing. repeat split; reflexivity. Qed.

Lemma same_routing_length t t' :
  same_routing t t' -> length (shard_data_ t') = length (shard_data_ t).
Proof.
  intros (_&_&_&_&_&_&_&_&_&_&H).
  apply (f_equal length) in H. rewrite !length_fmap in H. exact H.
Qed.

Lemma same_routing_arg_count t t' i :
  same_routing t t' ->
  arg_count <$> (shard_data_ t' !! i) = arg_count <$> (shard_data_ t !! i).
Proof.
  intros (_&_&_&_&_&_&_&_&_&_&H).
  apply (f_equal (fun l => snd <$> (l !! i))) in H.
  rewrite !list_lookup_fmap in H. 
  destruct (shard_data_ t' !! i), (shard_data_ t !! i); simpl in *; congruence.
Qed.

Section SchedulerLoop.

Context (L : LocalStateBits) (C : CoordinatorStateBits).

Lemma is_active_same_routing sa ns t t' i :
  same_routing t t' -> is_active sa ns t' i = is_active sa ns t i.
Proof.
  intros H. unfold is_active.
  destruct sa; [reflexivity|]. destruct (ns =? 1).
  - destruct H as (_&_&_&_&_&_&_&->&_). reflexivity.
  - pose proof (same_routing_arg_count _ _ i H) as Hc.
    destruct (shard_data_ t' !! i), (shard_data_ t !! i); simpl in *; congruence.
Qed.

Lemma ScheduleInShard_answer t shard t' shard' r :
  ScheduleInShard L t shard = Some (t', shard', r) ->
  same_routing t t' /\ answer_ok t r.
Proof.
  unfold ScheduleInShard, answer_ok. intros H.
  destruct (txid_ t <=? committed_txid shard)%Z.
  { injection H as <- <- <-. split; [apply same_routing_refl|]. split; [discriminate|auto]. }
  destruct (shard_data_ t !! SidToId t (shard_id shard)) as [sd|] eqn:Hsd;
    simpl in H; [|discriminate].
  destruct (IsGlobal t); simpl in H.
  - destruct (negb (txq_Empty (txq shard)) && _).
    + destruct (Bits.has _ _); injection H as <- <- <-;
        (split; [eapply same_routing_set_slot; [eassumption|reflexivity..]
                |split; [discriminate|auto]]).
    + unfold txq_Insert in H. injection H as <- <- <-.
      split; [eapply same_routing_set_slot; [eassumption|reflexivity..]|].
      split; [discriminate|auto].
  - destruct (db_Acquire _ _ _) as [acq lt]. simpl in H.
    destruct (negb (txq_Empty (txq shard)) && _).
    + destruct (Bits.has _ _); injection H as <- <- <-;
        (split; [eapply same_routing_set_slot; [eassumption|reflexivity..]
                |split; [discriminate|discriminate]]).
    + unfold txq_Insert in H. injection H as <- <- <-.
      split; [eapply same_routing_set_slot; [eassumption|reflexivity..]|].
      split; [auto|discriminate].
Qed.

Lemma CancelInShard_routing t shard t' shard' r :
  CancelInShard L t shard = Some (t', shard', r) -> same_routing t t'.
Proof.
  unfold CancelInShard. intros H.
  destruct (shard_data_ t !! SidToId t (shard_id shard)) as [sd|] eqn:Hsd;
    simpl in H; [|discriminate].
  destruct (pq_pos sd =? kEnd)%Z.
  { injection H as <- <- <-. apply same_routing_refl. }
  destruct (Bits.has _ _); injection H as <- <- <-;
    (eapply same_routing_set_slot; [eassumption|reflexivity..]).
Qed.

Lemma RunBriefInParallel_spec {A} (cb : Transaction -> EngineShard ->
      option (Transaction * EngineShard * A)) (P : A -> Prop) sa ns t0 :
  (forall t sh t' sh' r, same_routing t0 t -> cb t sh = Some (t', sh', r) ->
                         same_routing t t' /\ P r) ->
  forall shards i t t' shards' rs,
  same_routing t0 t ->
  RunBriefInParallel cb (is_active sa ns) i shards t = Some (t', shards', rs) ->
  same_routing t t' /\ Forall P rs /\ length shards' = length shards /\
  length rs
  = length (filter (fun i => is_active sa ns t0 i = Some true) (seq i (length shards))).
Proof.
  intros Hcb. induction shards as [|sh rest IH]; intros i t t' shards' rs H0 H; simpl in H.
  - injection H as <- <- <-. split; [apply same_routing_refl|]. auto.
  - rewrite (is_active_same_routing _ _ _ _ _ H0) in H.
    destruct (is_active sa ns t0 i) as [a|] eqn:Ha; simpl in H; [|discriminate].
    simpl seq. rewrite filter_cons.
    destruct a.
    + destruct (cb t sh) as [[[t1 sh1] r]|] eqn:Hc; simpl in H; [|discriminate].
      destruct (Hcb _ _ _ _ _ H0 Hc) as [Hr1 HP].
      destruct (RunBriefInParallel cb _ (S i) rest t1) as [[[t2 rest2] rs2]|] eqn:Hrec;
        simpl in H; [|discriminate].
      injection H as <- <- <-.
      apply IH in Hrec; [|eapply same_routing_trans; eassumption].
      destruct Hrec as (Hr2 & HPs & Hl & Hn).
      split; [eapply same_routing_trans; eassumption|].
      split; [constructor; assumption|]. split; [simpl; congruence|].
      rewrite decide_True by (rewrite Ha; reflexivity). simpl. congruence.
    + destruct (RunBriefInParallel cb _ (S i) rest t) as [[[t2 rest2] rs2]|] eqn:Hrec;
        simpl in H; [|discriminate].
      injection H as <- <- <-.
      apply IH in Hrec; [|assumption].
      destruct Hrec as (Hr2 & HPs & Hl & Hn).
      split; [assumption|]. split; [assumption|]. split; [simpl; congruence|].
      rewrite decide_False by (rewrite Ha; discriminate). assumption.
Qed.


Lemma count_true_le (l : list bool) : count_true l <= length l.
Proof. apply length_filter. Qed.

Lemma count_true_cons b l :
  count_true (b :: l) = (if b then 1 else 0) + count_true l.
Proof. unfold count_true. rewrite filter_cons. destruct b; reflexivity. Qed.

Lemma count_true_all (l : list bool) :
  count_true l = length l <-> Forall (fun b => b = true) l.
Proof.
  induction l as [|b l IH].
  - split; [constructor|reflexivity].
  - rewrite count_true_cons, Forall_cons. pose proof (count_true_le l).
    destruct b; simpl; split.
    + intros E. split; [reflexivity|]. apply IH. lia.
    + intros [_ Hl]. apply IH in Hl. lia.
    + intros E. lia.
    + intros [? _]. discriminate.
Qed.

Lemma count_true_none (l : list bool) :
  Forall (fun b => b = false) l -> count_true l = 0.
Proof.
  induction 1 as [|b l Hb _ IH]; [reflexivity|].
  rewrite count_true_cons, IH, Hb. reflexivity.
Qed.

Lemma active_filter_same_routing sa ns t t' (l : list nat) :
  same_routing t t' ->
  filter (fun i => is_active sa ns t' i = Some true) l
  = filter (fun i => is_active sa ns t i = Some true) l.
Proof.
  intros H. apply list_filter_iff. intros i.
  rewrite (is_active_same_routing _ _ _ _ _ H). reflexivity.
Qed.

Lemma answer_ok_same_routing t t' r :
  same_routing t t' -> answer_ok t' r -> answer_ok t r.
Proof.
  intros (_ & Hcid & _) [H1 H2]. split; [assumption|].
  unfold IsGlobal in *. rewrite Hcid in H2. assumption.
Qed.

(** The loop ends in a round in which every active shard scheduled the
    transaction; the answers of that round decide COORD_OOO. *)
Lemma ScheduleInternal_loop_spec sa sh ns : forall fuel op_seq t shards op_seq' t' shards' res,
  ScheduleInternal_loop L C fuel sa sh ns op_seq t shards
    = Some (op_seq', t', shards', res) ->
  length shards' = length shards /\
  Forall (answer_ok t) res /\
  count_true (fst <$> res) = ns /\
  length res
    = length (filter (fun i => is_active sa ns t i = Some true) (seq 0 (length shards))) /\
  cid_ t' = cid_ t /\
  length (shard_data_ t') = length (shard_data_ t) /\
  coordinator_state_ t'
    = Bits.set (if sh && (count_true (snd <$> res) =? ns)
                then Bits.set (coordinator_state_ t) (COORD_OOO C)
                else coordinator_state_ t) (COORD_SCHED C).
Proof.
  induction fuel as [|fuel IH]; intros op_seq t shards op_seq' t' shards' res H;
    [discriminate|].
  cbn [ScheduleInternal_loop] in H. unfold op_seq_fetch_add in H. cbv iota beta in H.
  destruct (RunBriefInParallel (ScheduleInShard L) (is_active sa ns) 0 shards
              (with_txid op_seq t)) as [[[t2 shards2] res2]|] eqn:Hrun;
    simpl in H; [|discriminate].
  apply (RunBriefInParallel_spec (ScheduleInShard L) (answer_ok t) sa ns
           (with_txid op_seq t)) in Hrun; [| |apply same_routing_refl].
  2:{ intros t0 sh0 t1 sh1 r Hr Hc. apply ScheduleInShard_answer in Hc as [Hr' Ha].
      split; [assumption|].
      apply (answer_ok_same_routing t t0);
        [eapply same_routing_trans; [apply same_routing_with_txid|eassumption]
        |assumption]. }
  destruct Hrun as (Hr2 & Hans & Hlen & Hcount).
  assert (Hrt2 : same_routing t t2)
    by (eapply same_routing_trans; [apply same_routing_with_txid|eassumption]).
  rewrite (active_filter_same_routing _ _ t (with_txid op_seq t))
    in Hcount by apply same_routing_with_txid.
  destruct (Nat.eqb_spec (count_true (fst <$> res2)) ns) as [Hs|Hs].
  - injection H as <- <- <- <-. simpl.
    destruct Hrt2 as (_ & Hcid & _ & _ & _ & Hcs & _).
    rewrite Hcs. repeat split; try assumption.
    apply (same_routing_length t t2).
    eapply same_routing_trans; [apply same_routing_with_txid|eassumption].
  - destruct (RunBriefInParallel (CancelInShard L) (is_active sa ns) 0 shards2 t2)
      as [[[t3 shards3] cancelled]|] eqn:Hcan; simpl in H; [|discriminate].
    apply (RunBriefInParallel_spec (CancelInShard L) (fun _ => True) sa ns t2) in Hcan;
      [| |apply same_routing_refl].
    2:{ intros t0 sh0 t1 sh1 r Hr Hc. apply CancelInShard_routing in Hc. auto. }
    destruct Hcan as (Hr3 & _ & Hlen3 & _).
    destruct (negb _); [discriminate|].
    apply IH in H. destruct H as (Hl & Ha & Hc & Hn & Hcid & Hsd & Hcs).
    assert (Hrt3 : same_routing t t3) by (eapply same_routing_trans; eassumption).
    rewrite (active_filter_same_routing _ _ t t3) in Hn by assumption.
    destruct Hrt3 as (_ & Hcid3 & _ & _ & _ & Hcs3 & _).
    rewrite Hcs3 in Hcs. 
    split; [congruence|]. split.
    { eapply Forall_impl; [exact Ha|]. intros r. apply answer_ok_same_routing.
      eapply same_routing_trans; eassumption. }
    split; [assumption|]. split; [congruence|]. split; [congruence|].
    split; [|assumption].
    rewrite Hsd. apply (same_routing_length t t3). eapply same_routing_trans; eassumption.
Qed.


Hypothesis HL : local_state_ok L = true.
Hypothesis HC : coordinator_state_ok C = true.

Lemma answers_granted (t : Transaction) (res : list (bool * bool)) :
  Forall (answer_ok t) res ->
  count_true (fst <$> res) = length res ->
  (count_true (snd <$> res) = length res <-> Forall (fun r => r.2 = true) res).
Proof.
  intros _ _. rewrite <- (length_fmap snd res) at 1.
  rewrite count_true_all, Forall_fmap. reflexivity.
Qed.

Lemma answers_scheduled (t : Transaction) (res : list (bool * bool)) :
  Forall (answer_ok t) res -> Forall (fun r => r.2 = true) res ->
  count_true (fst <$> res) = length res.
Proof.
  intros Ha Hg. rewrite <- (length_fmap fst res) at 1.
  apply count_true_all, Forall_fmap.
  induction Ha as [|r l [Hr _] _ IH]; [constructor|].
  apply Forall_cons in Hg as [Hg1 Hg2]. constructor; [simpl; auto|auto].
Qed.

End SchedulerLoop.

(** ** Facts on the blocking controller *)

Lemma testbit_neg_flag b i :
  (0 <= b)%Z -> (0 <= i)%Z -> Z.testbit (- Bits.flag b) i = (b <=? i)%Z.
Proof.
  intros Hb Hi. rewrite flag_pow2 by assumption.
  replace (- 2 ^ b)%Z with (Z.lnot (Z.ones b)).
  2:{ rewrite Z.ones_equiv. unfold Z.lnot. lia. }
  rewrite Z.lnot_spec by assumption.
  destruct (Z.leb_spec b i) as [Hle|Hlt].
  - rewrite Z.ones_spec_high by lia. reflexivity.
  - rewrite Z.ones_spec_low by lia. reflexivity.
Qed.

Section BlockingFacts.

Context (L : LocalStateBits) (C : CoordinatorStateBits).
Hypothesis HL : local_state_ok L = true.

Lemma testbit_kQueueMask i :
  (0 <= i)%Z ->
  Z.testbit (kQueueMask L) i
  = (i <? 16)%Z && ((suspended_q_bit L <=? i)%Z || (awaked_q_bit L =? i)%Z
                    || (expired_q_bit L =? i)%Z).
Proof.
  intros Hi. bits_facts HL. unfold kQueueMask, Bits.trunc, SUSPENDED_Q, AWAKED_Q, EXPIRED_Q.
  destruct (Z.ltb_spec i 16) as [Hlt|Hge].
  - rewrite Z.mod_pow2_bits_low by lia.
    rewrite !Z.lor_spec, testbit_neg_flag, !testbit_flag by bit_side || lia. reflexivity.
  - rewrite Z.mod_pow2_bits_high by lia. reflexivity.
Qed.

(** The mask of [RemoveFromWatchedShardCb] has the bit of SUSPENDED_Q. *)
Lemma kQueueMask_keeps_SUSPENDED_Q m :
  Bits.has (Z.land m (kQueueMask L)) (SUSPENDED_Q L) = Bits.has m (SUSPENDED_Q L).
Proof.
  pose proof (testbit_kQueueMask (suspended_q_bit L)) as Hk.
  bits_facts HL. unfold SUSPENDED_Q.
  rewrite !has_flag by bit_side. rewrite Z.land_spec, Hk by bit_side.
  assert (E1 : (suspended_q_bit L <? 16)%Z = true) by (apply Z.ltb_lt; assumption).
  rewrite E1, Z.leb_refl. simpl. apply andb_true_r.
Qed.

(** On a slot that is still in SUSPENDED_Q, which [RunInShard] asserts not
    to be the case before it runs a callback, the call answers [true] and
    SUSPENDED_Q stays set. *)
Lemma RemoveFromWatchedShardCb_suspended t shard sd :
  shard_data_ t !! SidToId t (shard_id shard) = Some sd ->
  Bits.has (local_mask sd) (SUSPENDED_Q L) = true ->
  exists t' shard' sd',
    RemoveFromWatchedShardCb L t shard = Some (t', shard', true) /\
    shard_data_ t' !! SidToId t (shard_id shard) = Some sd' /\
    Bits.has (local_mask sd') (SUSPENDED_Q L) = true.
Proof.
  intros Hsd HS. unfold RemoveFromWatchedShardCb. rewrite Hsd. simpl.
  pose proof (kQueueMask_keeps_SUSPENDED_Q (local_mask sd)) as Hk. rewrite HS in Hk.
  destruct (Z.eqb_spec (Z.land (local_mask sd) (kQueueMask L)) 0) as [E|E].
  { rewrite E in Hk. unfold Bits.has in Hk. rewrite Z.land_0_l in Hk. discriminate. }
  do 3 eexists. split; [reflexivity|]. simpl.
  rewrite list_lookup_insert_eq by (eapply lookup_lt_Some; eassumption).
  split; [reflexivity|]. simpl. assumption.
Qed.



Lemma has_set_clear_other m b c d :
  (0 <= b)%Z -> (0 <= c)%Z -> (0 <= d)%Z -> b <> d -> c <> d ->
  Bits.has (Bits.set (Bits.clear m (Bits.flag b)) (Bits.flag c)) (Bits.flag d)
  = Bits.has m (Bits.flag d).
Proof.
  intros. rewrite has_set_other, has_clear_other by assumption. reflexivity.
Qed.

(** C6, as the code has it: on a slot with SUSPENDED_Q a call answers
    [false] and changes nothing when the slot has EXPIRED_Q; otherwise it
    clears SUSPENDED_Q, sets AWAKED_Q, keeps the other flags, answers [true],
    lowers [notify_txid_] to [committed_txid] when that is smaller, and
    notifies the condition variable exactly when it lowered it. *)
Theorem NotifySuspended_spec committed_txid sid t sd :
  shard_data_ t !! SidToId t sid = Some sd ->
  Bits.has (local_mask sd) (SUSPENDED_Q L) = true ->
  (Bits.has (local_mask sd) (EXPIRED_Q L) = true ->
     NotifySuspended L committed_txid sid t = Some (t, false)) /\
  (Bits.has (local_mask sd) (EXPIRED_Q L) = false ->
     exists t' sd',
       NotifySuspended L committed_txid sid t = Some (t', true) /\
       shard_data_ t' !! SidToId t sid = Some sd' /\
       Bits.has (local_mask sd') (SUSPENDED_Q L) = false /\
       Bits.has (local_mask sd') (AWAKED_Q L) = true /\
       Bits.has (local_mask sd') (EXPIRED_Q L) = false /\
       Bits.has (local_mask sd') (ARMED L) = Bits.has (local_mask sd) (ARMED L) /\
       Bits.has (local_mask sd') (KEYLOCK_ACQUIRED L)
         = Bits.has (local_mask sd) (KEYLOCK_ACQUIRED L) /\
       Bits.has (local_mask sd') (OUT_OF_ORDER L)
         = Bits.has (local_mask sd) (OUT_OF_ORDER L) /\
       notify_txid_ t' = Z.min committed_txid (notify_txid_ t) /\
       (notify_txid_ t' <= notify_txid_ t)%Z /\
       blocking_ec_notified t'
         = blocking_ec_notified t
           + (if (committed_txid <? notify_txid_ t)%Z then 1 else 0)).
Proof.
  intros Hsd HS. unfold NotifySuspended. rewrite Hsd. simpl. rewrite HS. simpl.
  split; [intros ->; reflexivity|]. intros HE. rewrite HE.
  assert (Hlt : SidToId t sid < length (shard_data_ t))
    by (eapply lookup_lt_Some; eassumption).
  assert (Hmask :
    let m := Bits.set (Bits.clear (local_mask sd) (SUSPENDED_Q L)) (AWAKED_Q L) in
    Bits.has m (SUSPENDED_Q L) = false /\ Bits.has m (AWAKED_Q L) = true /\
    Bits.has m (EXPIRED_Q L) = false /\
    Bits.has m (ARMED L) = Bits.has (local_mask sd) (ARMED L) /\
    Bits.has m (KEYLOCK_ACQUIRED L) = Bits.has (local_mask sd) (KEYLOCK_ACQUIRED L) /\
    Bits.has m (OUT_OF_ORDER L) = Bits.has (local_mask sd) (OUT_OF_ORDER L)).
  { clear - HL HE. bits_facts HL.
    unfold SUSPENDED_Q, AWAKED_Q, EXPIRED_Q, ARMED, KEYLOCK_ACQUIRED, OUT_OF_ORDER in *.
    simpl. rewrite has_set_same by bit_side.
    rewrite (has_set_other _ (awaked_q_bit L) (suspended_q_bit L)) by bit_side.
    rewrite has_clear_same by bit_side.
    rewrite !has_set_clear_other by bit_side. rewrite HE. repeat split. }
  simpl in Hmask. destruct Hmask as (M1 & M2 & M3 & M4 & M5 & M6).
  destruct (Z.ltb_spec committed_txid (notify_txid_ t)) as [Hc|Hc].
  - do 2 eexists. split; [reflexivity|]. simpl.
    rewrite list_lookup_insert_eq by assumption.
    split; [reflexivity|]. simpl.
    repeat (split; [assumption|]). split; [lia|]. split; lia.
  - do 2 eexists. split; [reflexivity|]. simpl.
    rewrite list_lookup_insert_eq by assumption.
    split; [reflexivity|]. simpl.
    repeat (split; [assumption|]). split; [lia|]. split; lia.
Qed.

(** The last two lines of [NotifySuspended] are never reached: without
    SUSPENDED_Q the first [CHECK] fails. *)
Lemma NotifySuspended_not_suspended committed_txid sid t sd :
  shard_data_ t !! SidToId t sid = Some sd ->
  Bits.has (local_mask sd) (SUSPENDED_Q L) = false ->
  NotifySuspended L committed_txid sid t = None.
Proof.
  intros Hsd HS. unfold NotifySuspended. rewrite Hsd. simpl. rewrite HS. reflexivity.
Qed.

End BlockingFacts.

(** ** Facts on [ExpireBlocking] and [WaitOnWatch] *)

Lemma same_routing_with_run_count x t : same_routing t (with_run_count x t).
Proof. unfold same_routing. repeat split; reflexivity. Qed.

Lemma same_routing_sym t t' : same_routing t t' -> same_routing t' t.
Proof.
  unfold same_routing. intros (?&?&?&?&?&?&?&?&?&?&?). repeat split; congruence.
Qed.

Lemma ShardArgsInShard_same_routing t t' sid :
  same_routing t t' -> ShardArgsInShard t' sid = ShardArgsInShard t sid.
Proof.
  intros H. pose proof H as (_&_&_&_&Ha&_&Hc&_&_&_&Hsd).
  unfold ShardArgsInShard. rewrite Hc, Ha.
  apply (f_equal (fun l => l !! sid)) in Hsd. rewrite !list_lookup_fmap in Hsd.
  destruct (shard_data_ t' !! sid), (shard_data_ t !! sid); simpl in Hsd;
    try discriminate; [|reflexivity].
  injection Hsd as -> ->. reflexivity.
Qed.

Lemma GetLockArgs_same_routing t t' sid :
  same_routing t t' -> GetLockArgs t' sid = GetLockArgs t sid.
Proof.
  intros H. unfold GetLockArgs. rewrite (ShardArgsInShard_same_routing _ _ _ H).
  destruct H as (_&->&_&->&_). reflexivity.
Qed.

Lemma TxMode_same_routing t t' : same_routing t t' -> TxMode t' = TxMode t.
Proof. intros (_&H&_). unfold TxMode. rewrite H. reflexivity. Qed.

Lemma SidToId_same_routing t t' sid : same_routing t t' -> SidToId t' sid = SidToId t sid.
Proof. intros H. unfold SidToId. rewrite (same_routing_length _ _ H). reflexivity. Qed.

Section ExpireFacts.

Context (L : LocalStateBits) (C : CoordinatorStateBits).
Variable PollExecution : EngineShard -> EngineShard.
Hypothesis HL : local_state_ok L = true.

Local Abbreviation expired_mask := (expired_mask L).
Local Abbreviation expired_shard := (expired_shard PollExecution).

Lemma expired_mask_expire m :
  expired_mask (Bits.clear (Bits.set m (EXPIRED_Q L)) (KEYLOCK_ACQUIRED L)).
Proof.
  clear - HL. bits_facts HL. unfold expired_mask, EXPIRED_Q, KEYLOCK_ACQUIRED.
  rewrite has_clear_same by bit_side.
  rewrite has_clear_other, has_set_same by bit_side. auto.
Qed.

Lemma expire_cb_spec t0 t sh t' sh' :
  same_routing t0 t ->
  expire_cb L PollExecution t sh = Some (t', sh') ->
  same_routing t0 t' /\ sh' = expired_shard t0 sh /\
  (exists sd', shard_data_ t' !! SidToId t0 (shard_id sh) = Some sd' /\
               expired_mask (local_mask sd')) /\
  (forall k, k <> SidToId t0 (shard_id sh) -> shard_data_ t' !! k = shard_data_ t !! k).
Proof.
  intros Hr H. unfold expire_cb in H.
  rewrite (SidToId_same_routing _ _ _ Hr) in H.
  destruct (shard_data_ t !! SidToId t0 (shard_id sh)) as [sd|] eqn:Hsd;
    simpl in H; [|discriminate].
  destruct (_ <? 1)%Z; [discriminate|]. injection H as <- <-.
  assert (Hlt : SidToId t0 (shard_id sh) < length (shard_data_ t))
    by (eapply lookup_lt_Some; eassumption).
  split.
  { eapply same_routing_trans; [exact Hr|].
    eapply same_routing_trans; [|apply same_routing_with_run_count].
    eapply same_routing_set_slot; [eassumption|reflexivity..]. }
  split.
  { unfold expired_shard.
    rewrite (GetLockArgs_same_routing _ _ _ Hr), (TxMode_same_routing _ _ Hr).
    reflexivity. }
  simpl. split.
  - eexists. rewrite list_lookup_insert_eq by assumption. split; [reflexivity|].
    simpl. apply expired_mask_expire.
  - intros k Hk. apply list_lookup_insert_ne. congruence.
Qed.

Lemma ess_Add_each_expire t0 ids : forall t shards t' shards',
  same_routing t0 t ->
  ess_Add_each ids (expire_cb L PollExecution) (t, shards) = Some (t', shards') ->
  (forall i sh, i ∈ ids -> shards !! i = Some sh -> shard_id sh = i) ->
  NoDup ids ->
  same_routing t0 t' /\ length shards' = length shards /\
  (forall i, i ∉ ids -> shards' !! i = shards !! i) /\
  (forall i, i ∈ ids ->
     exists sh, shards !! i = Some sh /\ shards' !! i = Some (expired_shard t0 sh)) /\
  (forall k sd, shard_data_ t !! k = Some sd -> expired_mask (local_mask sd) ->
     exists sd', shard_data_ t' !! k = Some sd' /\ expired_mask (local_mask sd')) /\
  (forall i, i ∈ ids ->
     exists sd', shard_data_ t' !! SidToId t0 i = Some sd' /\
                 expired_mask (local_mask sd')) /\
  (forall k, (forall i, i ∈ ids -> SidToId t0 i <> k) ->
             shard_data_ t' !! k = shard_data_ t !! k).
Proof.
  induction ids as [|i ids IH]; intros t shards t' shards' Hr H Hid Hnd; simpl in H.
  - injection H as <- <-. split; [assumption|]. split; [reflexivity|].
    split; [reflexivity|]. split; [intros i Hi; inversion Hi|].
    split; [eauto|]. split; [intros i Hi; inversion Hi|]. reflexivity.
  - apply NoDup_cons in Hnd as [Hni Hnd].
    unfold ess_Add in H. simpl in H.
    destruct (shards !! i) as [sh|] eqn:Hsh; simpl in H; [|discriminate].
    destruct (expire_cb L PollExecution t sh) as [[t1 sh1]|] eqn:Hcb;
      simpl in H; [|discriminate].
    pose proof (Hid i sh ltac:(left) Hsh) as Hshid.
    destruct (expire_cb_spec _ _ _ _ _ Hr Hcb) as (Hr1 & -> & (sd1 & Hsd1 & Hm1) & Hoth).
    rewrite Hshid in Hsd1, Hoth.
    assert (Hilt : i < length shards) by (eapply lookup_lt_Some; eassumption).
    apply IH in H; [|assumption| |assumption].
    2:{ intros j shj Hj Hl. rewrite list_lookup_insert_ne in Hl by (intros ->; contradiction).
        apply Hid; [right; assumption|assumption]. }
    destruct H as (Hr' & Hlen & Hout & Hin & Hkeep & Hslots & Hrest).
    rewrite length_insert in Hlen.
    split; [assumption|]. split; [assumption|]. split; [|split; [|split; [|split]]].
    + intros j Hj. apply not_elem_of_cons in Hj as [Hji Hj].
      rewrite Hout by assumption. apply list_lookup_insert_ne. congruence.
    + intros j Hj. apply elem_of_cons in Hj as [->|Hj].
      * exists sh. split; [assumption|]. rewrite Hout by assumption.
        apply list_lookup_insert_eq. assumption.
      * destruct (Hin j Hj) as (shj & Hl & Hl').
        rewrite list_lookup_insert_ne in Hl by (intros ->; contradiction). eauto.
    + intros k sd Hk Hm. destruct (decide (k = SidToId t0 i)) as [->|Hne].
      * apply (Hkeep _ _ Hsd1 Hm1).
      * apply (Hkeep k sd); [rewrite Hoth by assumption; assumption|assumption].
    + intros j Hj. apply elem_of_cons in Hj as [->|Hj]; [|auto].
      apply (Hkeep _ _ Hsd1 Hm1).
    + intros k Hk. rewrite Hrest by (intros j Hj; apply Hk; right; assumption).
      apply Hoth. intros ->. apply (Hk i); [left|reflexivity].
Qed.

Lemma touched_from_spec sds : forall i0,
  NoDup (touched_from i0 sds) /\
  forall j, j ∈ touched_from i0 sds -> i0 <= j < i0 + length sds.
Proof.
  induction sds as [|sd sds IH]; intros i0; simpl.
  - split; [constructor|]. intros j Hj. inversion Hj.
  - destruct (IH (S i0)) as [Hnd Hr].
    destruct (arg_count sd =? 0)%Z.
    + split; [assumption|]. intros j Hj. specialize (Hr j Hj). lia.
    + split.
      * constructor; [|assumption]. intros Hin. specialize (Hr _ Hin). lia.
      * intros j Hj. apply elem_of_cons in Hj as [->|Hj]; [lia|].
        specialize (Hr j Hj). lia.
Qed.

Lemma NoDup_touched_shards t : NoDup (touched_shards t).
Proof.
  unfold touched_shards. destruct (unique_shard_cnt_ t =? 1).
  - apply NoDup_singleton.
  - apply touched_from_spec.
Qed.

(** [ExpireBlocking] on every touched shard: the locks are released, the
    slot has EXPIRED_Q and no longer KEYLOCK_ACQUIRED; the other shards are
    left alone. *)
Lemma ExpireBlocking_spec t shards t' shards' :
  ExpireBlocking L PollExecution t shards = Some (t', shards') ->
  (forall i sh, i ∈ touched_shards t -> shards !! i = Some sh -> shard_id sh = i) ->
  same_routing t t' /\
  (forall i, i ∈ touched_shards t ->
     exists sh sd',
       shards !! i = Some sh /\ shards' !! i = Some (expired_shard t sh) /\
       shard_data_ t' !! SidToId t i = Some sd' /\
       Bits.has (local_mask sd') (EXPIRED_Q L) = true /\
       Bits.has (local_mask sd') (KEYLOCK_ACQUIRED L) = false) /\
  (forall i, i ∉ touched_shards t -> shards' !! i = shards !! i).
Proof.
  unfold ExpireBlocking. intros H Hid.
  apply (ess_Add_each_expire t) in H;
    [|apply same_routing_with_run_count|assumption|apply NoDup_touched_shards].
  destruct H as (Hr & _ & Hout & Hin & _ & Hslots & _).
  split; [assumption|]. split; [|assumption].
  intros i Hi. destruct (Hin i Hi) as (sh & Hs & Hs').
  destruct (Hslots i Hi) as (sd' & Hsd' & HE & HK).
  exists sh, sd'. auto.
Qed.

End ExpireFacts.

Section WaitOnWatchFacts.

Context (L : LocalStateBits) (C : CoordinatorStateBits).
Variable PollExecution : EngineShard -> EngineShard.
Variable HasResultConverged : TxId -> EngineShard -> bool.
Variable WaitForConvergence :
  TxId -> Transaction -> EngineShard -> Transaction * EngineShard.
Variable Execute :
  (Transaction -> EngineShard -> option (OpStatus * Transaction * EngineShard)) ->
  bool -> Transaction * list EngineShard -> option (Transaction * list EngineShard).
Variable blocking_ec_await :
  option Z -> Transaction * list EngineShard ->
  cv_status * (Transaction * list EngineShard).
Hypothesis HL : local_state_ok L = true.
Hypothesis HC : coordinator_state_ok C = true.

(** C7: [WaitOnWatch] answers [false] exactly when the wait ended by the
    deadline or with COORD_CANCELLED set; it has then run [ExpireBlocking],
    which on every touched shard released the locks of the keys, set
    EXPIRED_Q and cleared KEYLOCK_ACQUIRED, and it has cleared
    COORD_BLOCKED. *)
Theorem WaitOnWatch_expires tp t shards t' shards' res t1 shards1 waited t3 shards3 :
  WaitOnWatch L C PollExecution HasResultConverged WaitForConvergence
    Execute blocking_ec_await tp t shards = Some (t', shards', res) ->
  Execute (AddToWatchedShardCb L) true (t, shards) = Some (t1, shards1) ->
  blocking_ec_await tp
    (with_coordinator_state (Bits.set (coordinator_state_ t1) (COORD_BLOCKED C)) t1,
     shards1) = (waited, (t3, shards3)) ->
  (forall i sh, i ∈ touched_shards t3 -> shards3 !! i = Some sh -> shard_id sh = i) ->
  (res = false <->
     Bits.has (coordinator_state_ t3) (COORD_CANCELLED C) = true \/
     (tp <> None /\ waited = timeout)) /\
  (res = false ->
     exists t4,
       ExpireBlocking L PollExecution t3 shards3 = Some (t4, shards') /\
       t' = with_coordinator_state
              (Bits.clear (coordinator_state_ t4) (COORD_BLOCKED C)) t4 /\
       Bits.has (coordinator_state_ t') (COORD_BLOCKED C) = false /\
       (forall i, i ∈ touched_shards t3 ->
          exists sh sd',
            shards3 !! i = Some sh /\
            shards' !! i = Some (expired_shard PollExecution t3 sh) /\
            shard_data_ t' !! SidToId t3 i = Some sd' /\
            Bits.has (local_mask sd') (EXPIRED_Q L) = true /\
            Bits.has (local_mask sd') (KEYLOCK_ACQUIRED L) = false) /\
       (forall i, i ∉ touched_shards t3 -> shards' !! i = shards3 !! i)).
Proof.
  intros H He Hw Hid. unfold WaitOnWatch in H. rewrite He in H. simpl in H.
  rewrite Hw in H.
  assert (Hclr : forall m, Bits.has (Bits.clear m (COORD_BLOCKED C)) (COORD_BLOCKED C)
                           = false).
  { intros m. clear - HC. bits_facts HC. unfold COORD_BLOCKED.
    apply has_clear_same. bit_side. }
  destruct (Bits.has (coordinator_state_ t3) (COORD_CANCELLED C)
            || match match tp with Some _ => waited | None => no_timeout end with
               | timeout => true | no_timeout => false end) eqn:Hcond.
  - destruct (ExpireBlocking L PollExecution t3 shards3) as [[t4 shards4]|] eqn:Hex;
      simpl in H; [|discriminate].
    injection H as <- <- <-.
    split.
    { split; [intros _|reflexivity].
      apply orb_true_iff in Hcond as [Hc|Hc]; [left; assumption|right].
      destruct tp; [|discriminate]. destruct waited; [discriminate|]. split; congruence. }
    intros _. exists t4. split; [reflexivity|]. split; [reflexivity|].
    split; [apply Hclr|].
    destruct (ExpireBlocking_spec L PollExecution HL _ _ _ _ Hex Hid) as (_ & Hin & Hout).
    split; assumption.
  - destruct (if 1 <? unique_shard_cnt_ t3 then _ else _) as [[t5 shards5]|];
      simpl in H; [|discriminate].
    injection H as <- <- <-.
    apply orb_false_iff in Hcond as [Hc Ht].
    split; [|discriminate]. split; [discriminate|].
    intros [Hc'|[Htp Hwt]]; [congruence|].
    destruct tp; [|contradiction]. rewrite Hwt in Ht. discriminate.
Qed.

End WaitOnWatchFacts.

(** ** Facts on the shard-side runner *)

Section RunnerFacts.

Context (L : LocalStateBits) (C : CoordinatorStateBits).
Variable ProcessAwakened : option Transaction -> EngineShard -> EngineShard.
Hypothesis HL : local_state_ok L = true.

(** C4: the concluding hop of a transaction that is neither multi nor
    global. The slot is read after the callback. Without SUSPENDED_Q the
    locks of the keys are released and KEYLOCK_ACQUIRED is cleared; with
    SUSPENDED_Q the lock table is the one the callback left and
    KEYLOCK_ACQUIRED is as the callback left it. OUT_OF_ORDER is cleared in
    both cases, the queue entry is removed, and the transaction is not
    kept. *)
Theorem RunInShard_concluding cb t shard t' shard' keep sd :
  RunInShard L C ProcessAwakened cb t shard = Some (t', shard', keep) ->
  Bits.has (coordinator_state_ t) (COORD_EXEC_CONCLUDING C) = true ->
  is_multi t = false ->
  IsGlobal t = false ->
  shard_data_ t !! SidToId t (shard_id shard) = Some sd ->
  (forall status tc shc,
     cb (set_slot (SidToId t (shard_id shard))
           (set_local_mask (Bits.clear (local_mask sd) (ARMED L)) sd) t) shard
     = Some (status, tc, shc) -> same_routing t tc) ->
  exists status tc shc sdc sd' aw sh2,
    cb (set_slot (SidToId t (shard_id shard))
          (set_local_mask (Bits.clear (local_mask sd) (ARMED L)) sd) t) shard
      = Some (status, tc, shc) /\
    shard_data_ tc !! SidToId t (shard_id shard) = Some sdc /\
    shard_data_ t' !! SidToId t (shard_id shard) = Some sd' /\
    keep = false /\
    shard' = ProcessAwakened aw sh2 /\
    txq sh2 = (if (pq_pos sdc =? kEnd)%Z then txq shc
               else txq_Remove (pq_pos sdc) (txq shc)) /\
    pq_pos sd' = kEnd /\
    Bits.has (local_mask sd') (OUT_OF_ORDER L) = false /\
    Bits.has (local_mask sd') (SUSPENDED_Q L) = Bits.has (local_mask sdc) (SUSPENDED_Q L) /\
    (Bits.has (local_mask sdc) (SUSPENDED_Q L) = false ->
       Bits.has (local_mask sd') (KEYLOCK_ACQUIRED L) = false /\
       lock_table sh2
       = db_Release (TxMode t) (GetLockArgs t (SidToId t (shard_id shard)))
           (lock_table shc)) /\
    (Bits.has (local_mask sdc) (SUSPENDED_Q L) = true ->
       Bits.has (local_mask sd') (KEYLOCK_ACQUIRED L)
         = Bits.has (local_mask sdc) (KEYLOCK_ACQUIRED L) /\
       lock_table sh2 = lock_table shc).
Proof.
  intros H Hconc Hm Hg Hsd Hcb. unfold RunInShard in H.
  destruct (cb_set t); simpl in H; [|discriminate].
  rewrite Hsd in H. simpl in H.
  unfold is_multi in Hm. destruct (multi_ t) eqn:Hmulti; [discriminate|].
  unfold is_multi in H. rewrite Hmulti, Hconc in H. simpl in H.
  set (idx := SidToId t (shard_id shard)) in *.
  destruct (cb _ shard) as [[[status tc] shc]|] eqn:Hc; simpl in H; [|discriminate].
  specialize (Hcb _ _ _ eq_refl).
  assert (Hbits :
    forall m,
      Bits.has (Bits.clear m (OUT_OF_ORDER L)) (OUT_OF_ORDER L) = false /\
      Bits.has (Bits.clear m (OUT_OF_ORDER L)) (SUSPENDED_Q L)
        = Bits.has m (SUSPENDED_Q L) /\
      Bits.has (Bits.clear m (OUT_OF_ORDER L)) (KEYLOCK_ACQUIRED L)
        = Bits.has m (KEYLOCK_ACQUIRED L) /\
      Bits.has (Bits.clear m (KEYLOCK_ACQUIRED L)) (KEYLOCK_ACQUIRED L) = false /\
      Bits.has (Bits.clear m (KEYLOCK_ACQUIRED L)) (SUSPENDED_Q L)
        = Bits.has m (SUSPENDED_Q L)).
  { intros m. clear - HL. bits_facts HL.
    unfold OUT_OF_ORDER, SUSPENDED_Q, KEYLOCK_ACQUIRED.
    rewrite !has_clear_same by bit_side.
    rewrite !has_clear_other by bit_side. auto. }
  set (r := if unique_shard_cnt_ tc =? 1 then _ else _) in H.
  assert (Hr : exists r0, r = Some r0 /\ shard_data_ r0 = shard_data_ tc /\
                          cid_ r0 = cid_ tc /\ same_routing tc r0).
  { subst r. destruct (unique_shard_cnt_ tc =? 1).
    - eexists. split; [reflexivity|]. split; [reflexivity|]. split; [reflexivity|].
      unfold same_routing. repeat split; reflexivity.
    - destruct status; try discriminate.
      eexists. split; [reflexivity|]. split; [reflexivity|]. split; [reflexivity|].
      apply same_routing_refl. }
  destruct Hr as (r0 & -> & Hrsd & Hrcid & Hrr). simpl in H. rewrite Hrsd in H.
  destruct (shard_data_ tc !! idx) as [sdc|] eqn:Hsdc; simpl in H; [|discriminate].
  assert (Hg0 : IsGlobal r0 = false).
  { unfold IsGlobal in *. rewrite Hrcid. destruct Hcb as (_ & -> & _). assumption. }
  rewrite Hg0 in H.
  assert (Hrt : same_routing t r0) by (eapply same_routing_trans; eassumption).
  rewrite (GetLockArgs_same_routing _ _ _ Hrt) in H.
  assert (Hlt : idx < length (shard_data_ r0))
    by (rewrite Hrsd; eapply lookup_lt_Some; eassumption).
  exists status, tc, shc, sdc.
  destruct (Z.eqb_spec (pq_pos sdc) kEnd) as [Hq|Hq]; simpl in H;
    destruct (Bits.has (local_mask sdc) (SUSPENDED_Q L)) eqn:HS; simpl in H;
    destruct (_ <? 1)%Z; try discriminate; injection H as <- <- <-;
    (eexists _, _, _; split; [reflexivity|]; split; [exact Hsdc|];
     simpl; rewrite list_lookup_insert_eq by assumption;
     split; [reflexivity|]; split; [reflexivity|]; split; [reflexivity|];
     split; [reflexivity|]; simpl; split; [try assumption; reflexivity|]).
  all: match goal with
       | |- context [Bits.clear ?m (OUT_OF_ORDER L)] =>
           destruct (Hbits m) as (B1 & B2 & B3 & _ & _)
       end.
  all: destruct (Hbits (local_mask sdc)) as (_ & _ & _ & B4 & B5).
  all: split; [assumption|].
  all: rewrite B2, ?B5, B3, ?B4.
  all: split; [congruence|].
  all: split; [intros ?; try discriminate; auto|intros ?; try discriminate; auto].
Qed.

End RunnerFacts.

(** ** Facts on [UnlockMulti] *)

Lemma cnt_add_0 c m : cnt_add c m 0 = c.
Proof. destruct c, m; unfold cnt_add; simpl; f_equal; lia. Qed.

Lemma release_counts_zero x : release_counts cnt_zero x = x.
Proof. destruct x. unfold release_counts, cnt_add. simpl. f_equal; lia. Qed.

Lemma release_recorded_spec db0 kv mode lt db k :
  release_recorded db0 kv mode lt db k
  = if bool_decide (db = db0 /\ k = kv.1)
    then cnt_add (lt db k) mode (- cnt kv.2 mode) else lt db k.
Proof.
  unfold release_recorded.
  destruct (Z.eqb_spec (cnt kv.2 mode) 0) as [E|E].
  - rewrite E. simpl. rewrite cnt_add_0. destruct (bool_decide _); reflexivity.
  - reflexivity.
Qed.

Lemma foldl_release_recorded db0 kvs : forall lt db k,
  NoDup kvs.*1 ->
  foldl (fun lt kv =>
           release_recorded db0 kv EXCLUSIVE (release_recorded db0 kv SHARED lt)) lt kvs db k
  = match list_find (fun kv => kv.1 = k) kvs with
    | Some (_, kv) => if bool_decide (db = db0) then release_counts kv.2 (lt db k)
                      else lt db k
    | None => lt db k
    end.
Proof.
  induction kvs as [|kv kvs IH]; intros lt db k Hnd; [reflexivity|].
  rewrite fmap_cons in Hnd. apply NoDup_cons in Hnd as [Hni Hnd].
  cbn [foldl]. rewrite IH by assumption. cbn [list_find].
  rewrite !release_recorded_spec.
  destruct (decide (kv.1 = k)) as [Hk|Hk].
  - subst k.
    assert (Hnone : list_find (fun kv0 : string * LockCnt => kv0.1 = kv.1) kvs = None).
    { apply list_find_None, Forall_forall. intros kv' Hin Heq.
      apply Hni. rewrite <- Heq. apply list_elem_of_fmap. exists kv'. auto. }
    rewrite Hnone. simpl.
    destruct (bool_decide_reflect (db = db0)) as [->|Hdb].
    + rewrite !bool_decide_eq_true_2 by auto. reflexivity.
    + rewrite !bool_decide_eq_false_2 by (intros [? _]; contradiction). reflexivity.
  - rewrite !(bool_decide_eq_false_2 (db = db0 /\ k = kv.1)) by (intros [_ ->]; auto).
    destruct (list_find _ kvs) as [[i kv']|]; reflexivity.
Qed.

Section UnlockFacts.

Variable Shard : string -> nat -> ShardId.
Variable PollExecution : EngineShard -> EngineShard.
Variable ProcessAwakened : option Transaction -> EngineShard -> EngineShard.
Variable ShutdownMulti : Transaction -> EngineShard -> EngineShard.

Lemma sharded_keys_find n m sid k :
  match list_find (fun kv : string * LockCnt => kv.1 = k) (sharded_keys Shard n m sid) with
  | Some (_, kv) => kv.1 = k /\ Shard k n = sid /\ locks m !! k = Some kv.2
  | None => Shard k n <> sid \/ locks m !! k = None
  end.
Proof.
  destruct (list_find _ _) as [[i kv]|] eqn:Hf.
  - apply list_find_Some in Hf as (Hl & Hk & _).
    apply list_elem_of_lookup_2 in Hl. unfold sharded_keys in Hl.
    apply list_elem_of_filter in Hl as [Hs Hin].
    destruct kv as [k' c]. simpl in *. subst k'.
    apply elem_of_map_to_list in Hin. auto.
  - destruct (locks m !! k) as [c|] eqn:Hl; [|auto]. left. intros Hs.
    apply list_find_None in Hf. rewrite Forall_forall in Hf.
    apply (Hf (k, c)); [|reflexivity].
    unfold sharded_keys. apply list_elem_of_filter. split; [assumption|].
    apply elem_of_map_to_list. assumption.
Qed.

Lemma NoDup_sharded_keys n m sid : NoDup (sharded_keys Shard n m sid).*1.
Proof.
  unfold sharded_keys.
  assert (H : NoDup (map_to_list (locks m)).*1) by apply NoDup_fst_map_to_list.
  revert H. generalize (map_to_list (locks m)). intros l.
  induction l as [|kv l IH]; intros Hnd; [constructor|].
  rewrite fmap_cons in Hnd. apply NoDup_cons in Hnd as [Hni Hnd].
  rewrite filter_cons. destruct (decide _); [|auto].
  rewrite fmap_cons. constructor; [|auto].
  intros Hin. apply Hni. apply list_elem_of_fmap in Hin as (kv' & -> & Hin).
  apply list_elem_of_filter in Hin as [_ Hin].
  apply list_elem_of_fmap. eauto.
Qed.

(** The shard that the callback of [UnlockMulti] hands to the procedures
    of the shard. *)
Lemma unlock_multi_core_spec n m t0 t sh t1 sh1 :
  same_routing t0 t ->
  unlock_multi_core Shard n m t sh = Some (t1, sh1) ->
  same_routing t0 t1 /\
  (forall db k,
     lock_table sh1 db k
     = if bool_decide (db = db_index_ t0 /\ Shard k n = shard_id sh)
       then release_counts (default cnt_zero (locks m !! k)) (lock_table sh db k)
       else lock_table sh db k) /\
  shard_lock sh1
    = (if GLOBAL_TRANS (multi_opts m) then cnt_add (shard_lock sh) EXCLUSIVE (-1)
       else shard_lock sh) /\
  (exists sd sd1,
     shard_data_ t !! SidToId t0 (shard_id sh) = Some sd /\
     shard_data_ t1 !! SidToId t0 (shard_id sh) = Some sd1 /\
     pq_pos sd1 = kEnd /\
     txq sh1 = (if (pq_pos sd =? kEnd)%Z then txq sh else txq_PopFront (txq sh))) /\
  (forall k, k <> SidToId t0 (shard_id sh) -> shard_data_ t1 !! k = shard_data_ t !! k).
Proof.
  intros Hr H. unfold unlock_multi_core in H.
  rewrite (SidToId_same_routing _ _ _ Hr) in H.
  destruct (shard_data_ t !! SidToId t0 (shard_id sh)) as [sd|] eqn:Hsd;
    simpl in H; [|discriminate].
  assert (Hlt : SidToId t0 (shard_id sh) < length (shard_data_ t))
    by (eapply lookup_lt_Some; eassumption).
  assert (Hdb : db_index_ t = db_index_ t0) by (destruct Hr as (_&_&_&->&_); reflexivity).
  assert (Hlocks : forall lt db k,
    foldl (fun lt kv =>
             release_recorded (db_index_ t) kv EXCLUSIVE
               (release_recorded (db_index_ t) kv SHARED lt))
          lt (sharded_keys Shard n m (shard_id sh)) db k
    = if bool_decide (db = db_index_ t0 /\ Shard k n = shard_id sh)
      then release_counts (default cnt_zero (locks m !! k)) (lt db k)
      else lt db k).
  { intros lt db k. rewrite foldl_release_recorded by apply NoDup_sharded_keys.
    rewrite Hdb. pose proof (sharded_keys_find n m (shard_id sh) k) as Hf.
    destruct (list_find _ _) as [[i kv]|].
    - destruct Hf as (Hk & Hs & Hl). rewrite Hl. simpl.
      destruct (bool_decide_reflect (db = db_index_ t0)) as [->|Hne].
      + rewrite bool_decide_eq_true_2 by auto. reflexivity.
      + rewrite bool_decide_eq_false_2 by (intros [? _]; contradiction). reflexivity.
    - destruct (bool_decide_reflect (db = db_index_ t0 /\ Shard k n = shard_id sh))
        as [[_ Hs]|_]; [|reflexivity].
      destruct Hf as [Hf|Hf]; [contradiction|].
      rewrite Hf. simpl. rewrite release_counts_zero. reflexivity. }
  destruct (Z.eqb_spec (pq_pos sd) kEnd) as [Hq|Hq]; simpl in H;
    injection H as <- <-; simpl.
  - split; [eapply same_routing_trans;
              [exact Hr|eapply same_routing_set_slot; [eassumption|reflexivity..]]|].
    split; [apply Hlocks|]. split; [destruct (GLOBAL_TRANS _); reflexivity|].
    split.
    + exists sd, sd. rewrite list_lookup_insert_eq by assumption.
      rewrite (proj2 (Z.eqb_eq _ _) Hq). repeat split; auto.
    + intros k Hk. apply list_lookup_insert_ne. congruence.
  - split; [eapply same_routing_trans;
              [exact Hr|eapply same_routing_set_slot; [eassumption|reflexivity..]]|].
    split; [apply Hlocks|]. split; [destruct (GLOBAL_TRANS _); reflexivity|].
    split.
    + exists sd, (set_pq_pos kEnd sd).
      rewrite list_lookup_insert_eq by assumption.
      rewrite (proj2 (Z.eqb_neq _ _) Hq). repeat split; auto.
    + intros k Hk. apply list_lookup_insert_ne. congruence.
Qed.


Lemma ess_Add_each_unlock n m t0 ids : forall t shards t' shards',
  same_routing t0 t ->
  ess_Add_each ids (unlock_multi_cb Shard PollExecution ProcessAwakened ShutdownMulti n m)
    (t, shards) = Some (t', shards') ->
  (forall i, i ∈ ids -> i < length (shard_data_ t0)) ->
  (forall i sh, i ∈ ids -> shards !! i = Some sh -> shard_id sh = i) ->
  NoDup ids ->
  same_routing t0 t' /\
  (forall i, i ∉ ids -> shards' !! i = shards !! i) /\
  (forall k, k ∉ ids -> shard_data_ t' !! k = shard_data_ t !! k) /\
  (forall i, i ∈ ids ->
     exists sh sd sd' tx core,
       shards !! i = Some sh /\ shard_data_ t !! i = Some sd /\
       shard_data_ t' !! i = Some sd' /\ pq_pos sd' = kEnd /\
       shards' !! i
         = Some (PollExecution (ProcessAwakened None (ShutdownMulti tx core))) /\
       unlocked Shard n m t0 sh sd core).
Proof.
  induction ids as [|i ids IH]; intros t shards t' shards' Hr H Hlt Hid Hnd; simpl in H.
  - injection H as <- <-. split; [assumption|]. split; [reflexivity|].
    split; [reflexivity|]. intros i Hi. inversion Hi.
  - apply NoDup_cons in Hnd as [Hni Hnd].
    unfold ess_Add in H. simpl in H.
    destruct (shards !! i) as [sh|] eqn:Hsh; simpl in H; [|discriminate].
    unfold unlock_multi_cb in H.
    destruct (unlock_multi_core Shard n m t sh) as [[t1 sh1]|] eqn:Hcore;
      simpl in H; [|discriminate].
    pose proof (Hid i sh ltac:(left) Hsh) as Hshid.
    destruct (unlock_multi_core_spec _ _ _ _ _ _ _ Hr Hcore)
      as (Hr1 & Hlk & Hsl & (sd & sd1 & Hsd & Hsd1 & Hq1 & Hq) & Hoth).
    assert (Hsid : SidToId t0 (shard_id sh) = i).
    { rewrite Hshid. unfold SidToId.
      destruct (Nat.ltb_spec i (length (shard_data_ t0))) as [|Hge]; [reflexivity|].
      specialize (Hlt i ltac:(left)). lia. }
    rewrite Hsid in Hsd, Hsd1, Hoth.
    assert (Hilt : i < length shards) by (eapply lookup_lt_Some; eassumption).
    apply IH in H.
    2:{ eapply same_routing_trans; [exact Hr1|apply same_routing_with_run_count]. }
    2:{ intros j Hj. apply Hlt. right. assumption. }
    2:{ intros j shj Hj Hl. rewrite list_lookup_insert_ne in Hl by (intros ->; contradiction).
        apply Hid; [right; assumption|assumption]. }
    2:{ assumption. }
    destruct H as (Hr' & Hout & Hkeep & Hin). simpl in Hkeep, Hin.
    split; [assumption|]. split; [|split].
    + intros j Hj. apply not_elem_of_cons in Hj as [Hji Hj].
      rewrite Hout by assumption. apply list_lookup_insert_ne. congruence.
    + intros k Hk. apply not_elem_of_cons in Hk as [Hki Hk].
      rewrite Hkeep by assumption. apply Hoth. assumption.
    + intros j Hj. apply elem_of_cons in Hj as [->|Hj].
      * exists sh, sd, sd1, t1, sh1.
        split; [assumption|]. split; [assumption|].
        split; [rewrite Hkeep by assumption; assumption|]. split; [assumption|].
        split; [rewrite Hout by assumption; apply list_lookup_insert_eq; assumption|].
        unfold unlocked. auto.
      * destruct (Hin j Hj) as (shj & sdj & sdj' & tx & core & H1 & H2 & H3 & H4 & H5 & H6).
        assert (Hji : j <> i) by (intros ->; contradiction).
        rewrite list_lookup_insert_ne in H1 by congruence.
        rewrite Hoth in H2 by assumption.
        exists shj, sdj, sdj', tx, core. auto 10.
Qed.

(** C5: after [UnlockMulti] every slot has [pq_pos == kEnd], and every
    shard is handed to [ShutdownMulti], [ProcessAwakened] and
    [PollExecution] with the counts recorded in [multi_->locks] for its keys
    released, the whole-shard lock released in EXCLUSIVE mode when the
    options of the multi transaction have GLOBAL_TRANS, and the front of the
    queue popped when the slot was still queued. *)
Theorem UnlockMulti_releases n t shards t' shards' m :
  UnlockMulti Shard PollExecution ProcessAwakened ShutdownMulti n t shards
    = Some (t', shards') ->
  multi_ t = Some m ->
  length (shard_data_ t) = length shards ->
  (forall i sh, shards !! i = Some sh -> shard_id sh = i) ->
  Forall (fun sd => pq_pos sd = kEnd) (shard_data_ t') /\
  forall i sh,
    shards !! i = Some sh ->
    exists sd tx core,
      shard_data_ t !! i = Some sd /\
      shards' !! i
        = Some (PollExecution (ProcessAwakened None (ShutdownMulti tx core))) /\
      (forall db k,
         lock_table core db k
         = if bool_decide (db = db_index_ t /\ Shard k n = i)
           then release_counts (default cnt_zero (locks m !! k)) (lock_table sh db k)
           else lock_table sh db k) /\
      shard_lock core
        = (if GLOBAL_TRANS (multi_opts m) then cnt_add (shard_lock sh) EXCLUSIVE (-1)
           else shard_lock sh) /\
      txq core = (if (pq_pos sd =? kEnd)%Z then txq sh else txq_PopFront (txq sh)).
Proof.
  intros H Hm Hlen Hid. unfold UnlockMulti in H. rewrite Hm in H. simpl in H.
  apply (ess_Add_each_unlock n m t) in H.
  2:{ apply same_routing_with_run_count. }
  2:{ intros i Hi. apply elem_of_seq in Hi. lia. }
  2:{ intros i sh _. apply Hid. }
  2:{ apply NoDup_seq. }
  destruct H as (Hr & _ & _ & Hin). simpl in Hin.
  split.
  - apply Forall_forall. intros sd' Hsd'. apply list_elem_of_lookup_1 in Hsd' as [i Hi].
    assert (Hilt : i < length (shard_data_ t)).
    { rewrite <- (same_routing_length _ _ Hr). eapply lookup_lt_Some; eassumption. }
    destruct (Hin i) as (sh & sd & sd1 & tx & core & _ & _ & H3 & H4 & _).
    { apply elem_of_seq. lia. }
    congruence.
  - intros i sh Hsh.
    assert (Hilt : i < length shards) by (eapply lookup_lt_Some; eassumption).
    destruct (Hin i) as (sh0 & sd & sd1 & tx & core & H1 & H2 & H3 & H4 & H5 & H6).
    { apply elem_of_seq. lia. }
    rewrite Hsh in H1. injection H1 as <-.
    destruct H6 as (Hlk & Hsl & Hq). rewrite (Hid _ _ Hsh) in Hlk.
    exists sd, tx, core. auto 10.
Qed.

End UnlockFacts.

(** ** Facts on the allocation of transaction ids *)





Lemma txid_preserved_ScheduleInShard L t shard t' shard' r :
  ScheduleInShard L t shard = Some (t', shard', r) -> txid_ t' = txid_ t.
Proof.
  unfold ScheduleInShard. intros H.
  destruct (txid_ t <=? committed_txid shard)%Z; [injection H as <- <- <-; reflexivity|].
  destruct (shard_data_ t !! _) as [sd|]; simpl in H; [|discriminate].
  destruct (IsGlobal t); simpl in H.
  - destruct (negb _ && _); [destruct (Bits.has _ _)|unfold txq_Insert in H];
      injection H as <- <- <-; reflexivity.
  - destruct (db_Acquire _ _ _) as [acq lt]. simpl in H.
    destruct (negb _ && _); [destruct (Bits.has _ _)|unfold txq_Insert in H];
      injection H as <- <- <-; reflexivity.
Qed.

Lemma txid_preserved_CancelInShard L t shard t' shard' r :
  CancelInShard L t shard = Some (t', shard', r) -> txid_ t' = txid_ t.
Proof.
  unfold CancelInShard. intros H.
  destruct (shard_data_ t !! _) as [sd|]; simpl in H; [|discriminate].
  destruct (pq_pos sd =? kEnd)%Z; [injection H as <- <- <-; reflexivity|].
  destruct (Bits.has _ _); injection H as <- <- <-; reflexivity.
Qed.

Lemma txid_preserved_RunBrief {A}
    (cb : Transaction -> EngineShard -> option (Transaction * EngineShard * A)) act :
  (forall t sh t' sh' r, cb t sh = Some (t', sh', r) -> txid_ t' = txid_ t) ->
  forall shards i t t' shards' rs,
    RunBriefInParallel cb act i shards t = Some (t', shards', rs) -> txid_ t' = txid_ t.
Proof.
  intros Hcb. induction shards as [|sh rest IH]; intros i t t' shards' rs H; simpl in H.
  - injection H as <- <- <-. reflexivity.
  - destruct (act t i) as [[|]|]; simpl in H; [| |discriminate].
    + destruct (cb t sh) as [[[t1 sh1] r]|] eqn:Hc; simpl in H; [|discriminate].
      destruct (RunBriefInParallel cb act (S i) rest t1) as [[[t2 rest2] rs2]|] eqn:Hrec;
        simpl in H; [|discriminate].
      injection H as <- <- <-. rewrite (IH _ _ _ _ _ Hrec). eauto.
    + destruct (RunBriefInParallel cb act (S i) rest t) as [[[t2 rest2] rs2]|] eqn:Hrec;
        simpl in H; [|discriminate].
      injection H as <- <- <-. eauto.
Qed.







(** * Slots, flags and counters: facts shared by what follows *)

(** The flags of a mask after some of them were set and cleared, bit by
    bit; [bits_facts] has put the facts on the bit positions in the
    context. *)
Ltac flag_bits :=
  repeat (rewrite has_flag by bit_side);
  repeat first [ rewrite testbit_set by bit_side | rewrite testbit_clear by bit_side ];
  repeat match goal with
         | |- context [(?a =? ?a)%Z] => rewrite (Z.eqb_refl a)
         | |- context [(?a =? ?b)%Z] => rewrite (proj2 (Z.eqb_neq a b)) by bit_side
         end;
  cbn [negb];
  rewrite ?orb_false_r, ?andb_true_r, ?andb_false_r, ?orb_true_r.

Lemma SidToId_set_slot t idx sd sid : SidToId (set_slot idx sd t) sid = SidToId t sid.
Proof. unfold SidToId, set_slot. simpl. rewrite length_insert. reflexivity. Qed.

Lemma lookup_set_slot t idx sd x :
  shard_data_ t !! idx = Some sd -> shard_data_ (set_slot idx x t) !! idx = Some x.
Proof.
  intros H. unfold set_slot. simpl. apply list_lookup_insert_eq.
  eapply lookup_lt_Some; eassumption.
Qed.

Lemma lookup_set_slot_ne t idx x k :
  k <> idx -> shard_data_ (set_slot idx x t) !! k = shard_data_ t !! k.
Proof. intros H. unfold set_slot. simpl. apply list_lookup_insert_ne. congruence. Qed.

Lemma set_slot_id t idx sd : shard_data_ t !! idx = Some sd -> set_slot idx sd t = t.
Proof.
  intros H. unfold set_slot, with_shard_data. rewrite list_insert_id by assumption.
  destruct t; reflexivity.
Qed.

Lemma slot_of_shard_exists t sid :
  shard_data_ t <> [] -> is_Some (shard_data_ t !! SidToId t sid).
Proof.
  intros Hne. apply lookup_lt_is_Some. unfold SidToId.
  destruct (Nat.ltb_spec sid (length (shard_data_ t))); [assumption|].
  destruct (shard_data_ t); [contradiction|simpl; lia].
Qed.

Lemma trunc32_id x : (0 <= x < 2 ^ 32)%Z -> Bits.trunc 32 x = x.
Proof. intros Hx. unfold Bits.trunc. apply Z.mod_small. exact Hx. Qed.

(** * The argument packer: contents, sizes and rejected input *)

Section PackerContent.

Variable Shard : string -> nat -> ShardId.
Variable DetermineKeys : CommandId -> list string -> KeyIndex.

Lemma push_arg_content sid a o si si' :
  push_arg sid a o si = Some si' ->
  forall s sc, si !! s = Some sc ->
    exists sc', si' !! s = Some sc' /\
      sc_args sc' = sc_args sc ++ (if decide (s = sid) then [a] else []).
Proof.
  unfold push_arg. intros H s sc Hs.
  destruct (si !! sid) as [sc0|] eqn:Hsc0; simpl in H; [|discriminate].
  injection H as <-.
  assert (Hlt : sid < length si) by (eapply lookup_lt_Some; eassumption).
  destruct (decide (s = sid)) as [->|Hne].
  - rewrite list_lookup_insert_eq by assumption. eexists. split; [reflexivity|].
    simpl. congruence.
  - rewrite list_lookup_insert_ne by congruence. exists sc. split; [assumption|].
    rewrite app_nil_r. reflexivity.
Qed.

Lemma take_drop_1 {A} (l : list A) i x : l !! i = Some x -> take 1 (drop i l) = [x].
Proof.
  revert l. induction i as [|i IH]; intros [|z l] H; simpl in *; try discriminate.
  - injection H as ->. destruct l; reflexivity.
  - apply IH. assumption.
Qed.

Lemma take_drop_2 {A} (l : list A) i x y :
  l !! i = Some x -> l !! (i + 1) = Some y -> take 2 (drop i l) = [x; y].
Proof.
  revert l. induction i as [|i IH]; intros [|z l] Hx Hy; simpl in *; try discriminate.
  - injection Hx as ->. destruct l as [|w l]; simpl in Hy; [discriminate|].
    injection Hy as ->. destruct l; reflexivity.
  - apply IH; assumption.
Qed.

Lemma route_keys_content args n ki rec mode :
  step ki = 1 \/ step ki = 2 ->
  forall fuel i st st',
  route_keys Shard args n ki rec mode fuel i st = Some st' ->
  forall s sc, shard_index st !! s = Some sc ->
    exists sc', shard_index st' !! s = Some sc' /\
      sc_args sc' = sc_args sc ++ routed_args Shard n args ki s (key_positions ki fuel i).
Proof.
  intros Hstep. induction fuel as [|fuel IH]; intros i st st' H s sc Hs.
  - simpl in H. injection H as <-. exists sc. split; [assumption|].
    unfold routed_args. simpl. rewrite app_nil_r. reflexivity.
  - cbn [route_keys key_positions] in *.
    destruct (Nat.leb_spec (end_ ki) i) as [Hend|Hend].
    { injection H as <-. exists sc. split; [assumption|].
      unfold routed_args. simpl. rewrite app_nil_r. reflexivity. }
    destruct (args !! i) as [key|] eqn:Hkey; simpl in H; [|discriminate].
    destruct (push_arg (Shard key n) key (i - 1) (shard_index st)) as [si1|] eqn:Hp1;
      simpl in H; [|discriminate].
    destruct (push_arg_content _ _ _ _ _ Hp1 s sc Hs) as (sc1 & Hsc1 & Hc1).
    unfold routed_args. rewrite fmap_cons, concat_cons, Hkey.
    fold (routed_args Shard n args ki s (key_positions ki fuel (i + step ki))).
    destruct Hstep as [E|E]; rewrite E in *; simpl in H.
    + destruct (IH _ _ _ H s sc1 Hsc1) as (sc' & Hsc' & Hc').
      exists sc'. split; [assumption|]. rewrite Hc', Hc1, <- app_assoc. f_equal.
      rewrite (take_drop_1 _ _ _ Hkey).
      destruct (decide (s = Shard key n)), (decide (Shard key n = s));
        try congruence; reflexivity.
    + destruct (args !! (i + 1)) as [val|] eqn:Hval; simpl in H; [|discriminate].
      destruct (push_arg (Shard key n) val (i + 1 - 1) si1) as [si2|] eqn:Hp2;
        simpl in H; [|discriminate].
      destruct (push_arg_content _ _ _ _ _ Hp2 s sc1 Hsc1) as (sc2 & Hsc2 & Hc2).
      replace (i + 1 + 1) with (i + 2) in H by lia.
      destruct (IH _ _ _ H s sc2 Hsc2) as (sc' & Hsc' & Hc').
      exists sc'. split; [assumption|]. rewrite Hc', Hc2, Hc1, <- !app_assoc. f_equal.
      rewrite (take_drop_2 _ _ _ _ Hkey Hval).
      destruct (decide (s = Shard key n)), (decide (Shard key n = s));
        try congruence; reflexivity.
Qed.


Lemma pack_shards_id inc si : forall i st st',
  pack_shards inc i si st = Some st' ->
  (filter (fun sc => sc_args sc <> []) si = [] ->
     ps_unique_shard_id st' = ps_unique_shard_id st) /\
  (filter (fun sc => sc_args sc <> []) si <> [] ->
     exists k sc, ps_unique_shard_id st' = i + k /\ si !! k = Some sc /\ sc_args sc <> []).
Proof.
  induction si as [|sc rest IH]; intros i st st' H.
  - simpl in H. injection H as <-. split; [reflexivity|]. intros Hne. contradiction.
  - cbn [pack_shards] in H.
    destruct (Z.ltb_spec (Z.of_nat (length (sc_args sc))) (2 ^ 15)) as [Hlt|];
      simpl in H; [|discriminate].
    destruct (ps_shard_data st !! i) as [sd|]; simpl in H; [|discriminate].
    rewrite trunc16_small in H by assumption.
    rewrite filter_cons.
    destruct (Z.eqb_spec (Z.of_nat (length (sc_args sc))) 0) as [E|E].
    + assert (Hnil : sc_args sc = []) by (destruct (sc_args sc); [reflexivity|simpl in E; lia]).
      destruct (decide (sc_args sc <> [])) as [Hn|_]; [contradiction|].
      destruct (IH _ _ _ H) as [IH1 IH2]. simpl in IH1, IH2. split; [assumption|].
      intros Hne. destruct (IH2 Hne) as (k & sc' & Hid & Hk & Hsc').
      exists (S k), sc'. split; [lia|]. split; assumption.
    + assert (Hnn : sc_args sc <> []) by (intros Hn; rewrite Hn in E; simpl in E; lia).
      destruct (decide (sc_args sc <> [])) as [_|Hn]; [|contradiction].
      destruct (copy_args _ _ _ _ _ _) as [[[p a] r]|]; simpl in H; [|discriminate].
      destruct (IH _ _ _ H) as [IH1 IH2]. simpl in IH1, IH2.
      split; [intros Hc; discriminate|]. intros _.
      destruct (filter (fun sc => sc_args sc <> []) rest) as [|y ys] eqn:Hf.
      * exists 0, sc. split; [rewrite IH1 by reflexivity; lia|]. split; [reflexivity|assumption].
      * destruct IH2 as (k & sc' & Hid & Hk & Hsc'); [discriminate|].
        exists (S k), sc'. split; [lia|]. split; assumption.
Qed.

Lemma filter_one_unique {A} (P : A -> Prop) `{!forall x, Decision (P x)} (l : list A) :
  length (filter P l) = 1 ->
  forall k x, l !! k = Some x -> P x ->
  forall k' y, k' <> k -> l !! k' = Some y -> ~ P y.
Proof.
  induction l as [|z l IH]; intros Hlen k x Hk Hx k' y Hne Hk' Hy; [discriminate|].
  rewrite filter_cons in Hlen.
  assert (Hnone : forall w j, length (filter P l) = 0 -> l !! j = Some w -> ~ P w).
  { intros w j Hl Hj Hw. apply list_elem_of_lookup_2 in Hj.
    assert (Hin : w ∈ filter P l) by (apply list_elem_of_filter; auto).
    destruct (filter P l); [inversion Hin|discriminate]. }
  destruct (decide (P z)) as [Hz|Hz]; simpl in Hlen.
  - destruct k as [|k], k' as [|k']; simpl in *; try congruence.
    + eapply Hnone; [lia|eassumption|assumption].
    + eapply Hnone; [lia|exact Hk|assumption].
    + eapply Hnone; [lia|exact Hk|assumption].
  - destruct k as [|k], k' as [|k']; simpl in *; try congruence.
    eapply (IH Hlen k x Hk Hx k' y); [congruence|assumption|assumption].
Qed.

Lemma concat_single {A} (ls : list (list A)) : forall k l,
  ls !! k = Some l ->
  (forall k' y, k' <> k -> ls !! k' = Some y -> y = []) ->
  concat ls = l.
Proof.
  induction ls as [|z ls IH]; intros k l Hk Hothers; [discriminate|].
  destruct k as [|k]; simpl in *.
  - injection Hk as ->.
    assert (Hnil : concat ls = []).
    { clear IH. induction ls as [|w ls IHl]; [reflexivity|]. simpl.
      rewrite (Hothers 1 w) by (try lia; reflexivity). simpl.
      apply IHl. intros [|k'] y Hne Hy; [lia|]. destruct k'; simpl in Hy.
      - apply (Hothers 2 y); [lia|exact Hy].
      - apply (Hothers (S (S (S k'))) y); [lia|exact Hy]. }
    rewrite Hnil, app_nil_r. reflexivity.
  - rewrite (Hothers 0 z) by (try lia; reflexivity). simpl.
    apply (IH k l Hk). intros k' y Hne Hy. apply (Hothers (S k') y); [lia|exact Hy].
Qed.

Lemma take_drop_concat {A} (ls : list (list A)) : forall s l,
  ls !! s = Some l ->
  take (length l) (drop (length (concat (take s ls))) (concat ls)) = l.
Proof.
  induction ls as [|z ls IH]; intros s l Hs; [discriminate|].
  destruct s as [|s]; simpl in Hs.
  - injection Hs as ->. rewrite take_0, concat_cons. simpl length.
    rewrite drop_0, take_app_length. reflexivity.
  - rewrite firstn_cons, !concat_cons, length_app, drop_app_add'; [|reflexivity].
    apply IH. assumption.
Qed.


(** X1. What a shard is handed by [ShardArgsInShard] after [InitByArgs]
    has routed and packed the arguments: exactly the arguments of the keys
    that the router sends to it (each key with its value when [step = 2]),
    in the caller's order. When all keys go to one shard, every shard id
    is answered with that shard's arguments and no other shard has any. *)
Theorem InitByArgs_slices n index args t t' :
  InitByArgs Shard DetermineKeys n index args t = Some t' ->
  IsGlobal t = false ->
  start (DetermineKeys (cid_ t) args) <> length args ->
  0 < start (DetermineKeys (cid_ t) args) ->
  (is_multi t = true \/
   start (DetermineKeys (cid_ t) args) + step (DetermineKeys (cid_ t) args)
     < end_ (DetermineKeys (cid_ t) args)) ->
  unique_shard_cnt_ t = 0 ->
  (Z.of_nat (end_ (DetermineKeys (cid_ t) args) - start (DetermineKeys (cid_ t) args))
     < 2 ^ 32)%Z ->
  let ki := DetermineKeys (cid_ t) args in
  let keys := key_positions ki (end_ ki - start ki) (start ki) in
  (unique_shard_cnt_ t' <> 1 ->
     forall s, s < n -> ShardArgsInShard t' s = routed_args Shard n args ki s keys) /\
  (unique_shard_cnt_ t' = 1 ->
     (forall s, ShardArgsInShard t' s = routed_args Shard n args ki (unique_shard_id_ t') keys) /\
     (forall s, s < n -> s <> unique_shard_id_ t' -> routed_args Shard n args ki s keys = [])).
Proof.
  intros H Hg Hstart Hpos Hpath Hcnt0 Hsmall ki keys.
  destruct (InitByArgs_packed Shard DetermineKeys _ _ _ _ _ H Hg Hstart Hpath)
    as (rec & mode & inc & lk0 & rs & ps & Hstep & Hr & Hp & Hn & Ha & Hrev & Hc & Hid
        & _ & Hne & Heq).
  fold ki in Hstep, Hr, Hp, Hsmall.
  assert (Hcontent := route_keys_content args n ki rec mode Hstep _ _ _ _ Hr).
  cbn [shard_index] in Hcontent. fold keys in Hcontent.
  apply (route_keys_spec Shard args n ki rec mode Hstep) in Hr; [|unfold ki; lia|].
  2:{ simpl. apply Forall_replicate. split; [reflexivity|].
      intros j a o Hj. simpl in Hj. rewrite lookup_nil in Hj. discriminate. }
  simpl in Hr. rewrite length_replicate in Hr. destruct Hr as (Hlen & Hok & _).
  assert (Hlok : Forall bucket_len_ok (shard_index rs)).
  { eapply Forall_impl; [exact Hok|]. intros sc [Hl _]. exact Hl. }
  assert (Hbucket : forall s sc, shard_index rs !! s = Some sc ->
            sc_args sc = routed_args Shard n args ki s keys).
  { intros s sc Hs.
    assert (Hs0 : replicate n ShardCache_clear !! s = Some ShardCache_clear).
    { apply lookup_replicate_2. rewrite <- Hlen. eapply lookup_lt_Some; eassumption. }
    destruct (Hcontent s _ Hs0) as (sc' & Hsc' & Hl). rewrite Hs in Hsc'.
    injection Hsc' as <-. exact Hl. }
  assert (Hpcnt := pack_shards_count _ _ _ _ _ Hp). simpl in Hpcnt.
  assert (Hpid := pack_shards_id _ _ _ _ _ Hp). simpl in Hpid.
  apply pack_shards_spec in Hp; [|assumption|simpl; rewrite !length_resize; reflexivity
                                |simpl; lia].
  cbn [next_arg ps_args ps_reverse_index ps_shard_data ps_unique_shard_cnt
       ps_unique_shard_id] in Hp.
  rewrite !length_resize, !take_0, !app_nil_l in Hp.
  destruct Hp as (Hnext & _ & Hla & Hlr & Hta & Htr & Hls & _ & Hslot & _).
  rewrite Hn, Hla in Hta. rewrite <- Hla in Hta at 1. rewrite firstn_all in Hta.
  assert (Hargs : args_ t' = concat (sc_args <$> shard_index rs)) by congruence.
  assert (Htotal : length (concat (sc_args <$> shard_index rs)) = end_ ki - start ki)
    by (rewrite <- Hta; exact Hla).
  split.
  - intros Hcnt s Hs. unfold ShardArgsInShard.
    destruct (Nat.eqb_spec (unique_shard_cnt_ t') 1); [contradiction|].
    rewrite Hne by congruence.
    destruct (lookup_lt_is_Some_2 (shard_index rs) s) as [sc Hsc]; [lia|].
    destruct (Hslot s sc Hsc) as (sd & Hsd & Hac & Has). simpl in Hsd.
    rewrite Hsd, Hac, Has, Nat2Z.id, Hargs. simpl.
    rewrite trunc32_small.
    + rewrite fmap_take. rewrite <- (Hbucket s sc Hsc).
      apply take_drop_concat. rewrite list_lookup_fmap, Hsc. reflexivity.
    + pose proof (length_concat_take_le (sc_args <$> shard_index rs) s) as Hle.
      rewrite fmap_take. lia.
  - intros Hcnt.
    rewrite Hc in Hcnt. rewrite Hcnt, Hcnt0 in Hpcnt. simpl in Hpcnt.
    destruct Hpid as [_ Hpid].
    destruct Hpid as (k & sc & Hk & Hsc & Hnn).
    { intros Hnil. rewrite Hnil in Hpcnt. discriminate. }
    simpl in Hk. rewrite <- Hid in Hk. subst k.
    assert (Hothers : forall k' y, k' <> unique_shard_id_ t' ->
              shard_index rs !! k' = Some y -> sc_args y = []).
    { intros k' y Hk' Hy.
      destruct (decide (sc_args y = [])) as [|Hyn]; [assumption|].
      exfalso.
      apply (filter_one_unique (fun sc => sc_args sc <> []) (shard_index rs)
               (eq_sym Hpcnt) _ _ Hsc Hnn k' y Hk' Hy Hyn). }
    split.
    + intros s. unfold ShardArgsInShard.
      rewrite Hc, Hcnt. simpl. rewrite Hargs, <- (Hbucket _ _ Hsc).
      apply (concat_single _ (unique_shard_id_ t')).
      * rewrite list_lookup_fmap, Hsc. reflexivity.
      * intros k' y Hk' Hy. rewrite list_lookup_fmap in Hy.
        destruct (shard_index rs !! k') as [sc'|] eqn:Hsc'; simpl in Hy; [|discriminate].
        injection Hy as <-. eapply Hothers; eassumption.
    + intros s Hs Hsne.
      destruct (lookup_lt_is_Some_2 (shard_index rs) s) as [sc' Hsc']; [lia|].
      rewrite <- (Hbucket s sc' Hsc'). eapply Hothers; eassumption.
Qed.


Lemma route_keys_len_ok args n ki rec mode :
  forall fuel i st st',
  route_keys Shard args n ki rec mode fuel i st = Some st' ->
  Forall bucket_len_ok (shard_index st) ->
  length (shard_index st') = length (shard_index st) /\
  Forall bucket_len_ok (shard_index st').
Proof.
  assert (Hpush : forall sid a o si si', push_arg sid a o si = Some si' ->
            Forall bucket_len_ok si -> length si' = length si /\ Forall bucket_len_ok si').
  { intros sid a o si si' Hp Hok. split.
    - unfold push_arg in Hp. destruct (si !! sid); simpl in Hp; [|discriminate].
      injection Hp as <-. apply length_insert.
    - apply (push_arg_grows _ _ _ _ _ Hp Hok). }
  induction fuel as [|fuel IH]; intros i st st' H Hok.
  - simpl in H. injection H as <-. auto.
  - cbn [route_keys] in H.
    destruct (end_ ki <=? i); [injection H as <-; auto|].
    destruct (args !! i) as [key|]; simpl in H; [|discriminate].
    destruct (push_arg (Shard key n) key (i - 1) (shard_index st)) as [si1|] eqn:Hp1;
      simpl in H; [|discriminate].
    destruct (Hpush _ _ _ _ _ Hp1 Hok) as [Hl1 Hok1].
    destruct (step ki =? 2).
    + destruct (args !! (i + 1)) as [val|]; simpl in H; [|discriminate].
      destruct (push_arg (Shard key n) val (i + 1 - 1) si1) as [si2|] eqn:Hp2;
        simpl in H; [|discriminate].
      destruct (Hpush _ _ _ _ _ Hp2 Hok1) as [Hl2 Hok2].
      destruct (IH _ _ _ H Hok2) as [Hl Hok']. simpl in Hl. split; [congruence|assumption].
    + destruct (IH _ _ _ H Hok1) as [Hl Hok']. simpl in Hl. split; [congruence|assumption].
Qed.

(** X2. The slots that [InitByArgs] leaves: one per shard, or a single one
    for a transaction that is not multi and whose keys are all on one
    shard; either way every shard finds a slot through [SidToId]. *)
Theorem InitByArgs_slots n index args t t' :
  InitByArgs Shard DetermineKeys n index args t = Some t' ->
  IsGlobal t = true \/ start (DetermineKeys (cid_ t) args) <> length args ->
  length (shard_data_ t')
    = (if negb (IsGlobal t) && negb (is_multi t) && (unique_shard_cnt_ t' =? 1)
       then 1 else n) /\
  (IsGlobal t = true -> unique_shard_cnt_ t' = n) /\
  (forall sid, sid < n -> is_Some (shard_data_ t' !! SidToId t' sid)).
Proof.
  intros H Hcase.
  assert (Hlen : length (shard_data_ t')
    = (if negb (IsGlobal t) && negb (is_multi t) && (unique_shard_cnt_ t' =? 1)
       then 1 else n) /\ (IsGlobal t = true -> unique_shard_cnt_ t' = n)).
  { destruct (IsGlobal t) eqn:Hg.
    - unfold InitByArgs in H.
      change (IsGlobal (with_db_index index t)) with (IsGlobal t) in H.
      rewrite Hg in H. injection H as <-. simpl. rewrite length_resize. auto.
    - destruct Hcase as [|Hstart]; [discriminate|].
      split; [|discriminate]. simpl.
      destruct (negb (is_multi t)
                && (end_ (DetermineKeys (cid_ t) args)
                    <=? start (DetermineKeys (cid_ t) args)
                        + step (DetermineKeys (cid_ t) args))) eqn:Hsk.
      + unfold InitByArgs in H.
        change (IsGlobal (with_db_index index t)) with (IsGlobal t) in H.
        change (cid_ (with_db_index index t)) with (cid_ t) in H.
        change (is_multi (with_db_index index t)) with (is_multi t) in H.
        rewrite Hg, Hsk in H.
        destruct (negb (1 <? length args)); [discriminate|].
        destruct (Nat.eqb_spec (start (DetermineKeys (cid_ t) args)) (length args));
          [contradiction|].
        destruct (negb (_ =? _)); [discriminate|].
        match type of H with (?r ≫= _) = _ => destruct r as [key|] end;
          simpl in H; [|discriminate].
        injection H as <-. simpl. rewrite length_resize.
        apply andb_true_iff in Hsk as [-> _]. reflexivity.
      + assert (Hpath : is_multi t = true \/
                  start (DetermineKeys (cid_ t) args) + step (DetermineKeys (cid_ t) args)
                    < end_ (DetermineKeys (cid_ t) args)).
        { apply andb_false_iff in Hsk as [Hm|Hle].
          - left. destruct (is_multi t); [reflexivity|discriminate].
          - right. apply Nat.leb_gt in Hle. exact Hle. }
        destruct (InitByArgs_packed Shard DetermineKeys _ _ _ _ _ H Hg Hstart Hpath)
          as (rec & mode & inc & lk0 & rs & ps & Hstep & Hr & Hp & Hn & Ha & Hrev & Hc
              & Hid & _ & Hne & Heq).
        apply route_keys_len_ok in Hr; [|apply Forall_replicate; reflexivity].
        simpl in Hr. rewrite length_replicate in Hr. destruct Hr as [Hlr Hlok].
        apply pack_shards_spec in Hp;
          [|assumption|simpl; rewrite !length_resize; reflexivity|simpl; lia].
        destruct Hp as (_ & _ & _ & _ & _ & _ & Hls & _). simpl in Hls.
        rewrite length_resize in Hls.
        destruct (Nat.eqb_spec (unique_shard_cnt_ t') 1) as [E|E].
        * rewrite Heq by congruence. destruct (is_multi t); simpl.
          -- destruct (ps_shard_data ps !! ps_unique_shard_id ps);
               [rewrite length_insert|]; exact Hls.
          -- pose proof (length_resize (ps_shard_data ps) 1 PerShardData_default) as Hrz.
             destruct (resize 1 PerShardData_default (ps_shard_data ps));
               simpl in *; [discriminate Hrz|exact Hrz].
        * rewrite Hne by congruence. rewrite andb_false_r. exact Hls. }
  destruct Hlen as [Hlen Hglob]. split; [exact Hlen|]. split; [exact Hglob|].
  intros sid Hsid. apply lookup_lt_is_Some. unfold SidToId.
  destruct (Nat.ltb_spec sid (length (shard_data_ t'))) as [Hlt|Hge]; [exact Hlt|].
  rewrite Hlen in Hge |- *.
  destruct (negb (IsGlobal t) && negb (is_multi t) && (unique_shard_cnt_ t' =? 1)); lia.
Qed.










Lemma pack_shards_small inc si : forall i st st',
  pack_shards inc i si st = Some st' ->
  Forall (fun sc => (Z.of_nat (length (sc_args sc)) < 2 ^ 15)%Z) si.
Proof.
  induction si as [|sc rest IH]; intros i st st' H; [constructor|].
  cbn [pack_shards] in H.
  destruct (Z.ltb_spec (Z.of_nat (length (sc_args sc))) (2 ^ 15)) as [Hlt|];
    simpl in H; [|discriminate].
  destruct (ps_shard_data st !! i) as [sd|]; simpl in H; [|discriminate].
  constructor; [exact Hlt|].
  destruct (_ =? 0)%Z; [eapply IH; exact H|].
  destruct (copy_args _ _ _ _ _ _) as [[[p a] r]|]; simpl in H; [|discriminate].
  eapply IH; exact H.
Qed.

(** X4. What [InitByArgs] rejects for a command that is not global: an
    argument vector with nothing behind the command name; a command
    without keys unless its name starts with EVAL (which is then left
    unrouted); on the routing path a key step other than 1 or 2, and a
    shard that would get [2^15] arguments or more. *)
Theorem InitByArgs_rejects n index args t :
  IsGlobal t = false ->
  let ki := DetermineKeys (cid_ t) args in
  (length args <= 1 -> InitByArgs Shard DetermineKeys n index args t = None) /\
  (1 < length args -> start ki = length args ->
     InitByArgs Shard DetermineKeys n index args t
     = if String.prefix "EVAL" (name (cid_ t)) then Some (with_db_index index t)
       else None) /\
  (start ki <> length args ->
   (is_multi t = true \/ start ki + step ki < end_ ki) ->
     (step ki <> 1 -> step ki <> 2 ->
        InitByArgs Shard DetermineKeys n index args t = None) /\
     (forall s, s < n ->
        (2 ^ 15 <= Z.of_nat (length (routed_args Shard n args ki s
                               (key_positions ki (end_ ki - start ki) (start ki)))))%Z ->
        InitByArgs Shard DetermineKeys n index args t = None)).
Proof.
  intros Hg ki. split; [|split].
  - intros Hlen. unfold InitByArgs.
    change (IsGlobal (with_db_index index t)) with (IsGlobal t). rewrite Hg.
    destruct (Nat.ltb_spec 1 (length args)); [lia|reflexivity].
  - intros Hlen Hstart. unfold InitByArgs.
    change (IsGlobal (with_db_index index t)) with (IsGlobal t).
    change (cid_ (with_db_index index t)) with (cid_ t).
    fold ki. rewrite Hg.
    destruct (Nat.ltb_spec 1 (length args)); [|lia]. simpl negb. cbv iota.
    rewrite Hstart, Nat.eqb_refl. reflexivity.
  - intros Hstart Hpath. split.
    + intros H1 H2.
      destruct (InitByArgs Shard DetermineKeys n index args t) as [t'|] eqn:H;
        [|reflexivity].
      destruct (InitByArgs_packed Shard DetermineKeys _ _ _ _ _ H Hg Hstart Hpath)
        as (_ & _ & _ & _ & _ & _ & [?|?] & _); contradiction.
    + intros s Hs Hbig.
      destruct (InitByArgs Shard DetermineKeys n index args t) as [t'|] eqn:H;
        [|reflexivity].
      exfalso.
      destruct (InitByArgs_packed Shard DetermineKeys _ _ _ _ _ H Hg Hstart Hpath)
        as (rec & mode & inc & lk0 & rs & ps & Hstep & Hr & Hp & _).
      fold ki in Hstep, Hr, Hp.
      assert (Hcontent := route_keys_content args n ki rec mode Hstep _ _ _ _ Hr).
      cbn [shard_index] in Hcontent.
      destruct (Hcontent s ShardCache_clear) as (sc & Hsc & Hargs);
        [apply lookup_replicate_2; exact Hs|].
      apply pack_shards_small in Hp.
      pose proof (Forall_lookup_1 _ _ _ _ Hp Hsc) as Hlt. simpl in Hlt.
      rewrite Hargs in Hlt. simpl in Hlt. lia.
Qed.

Lemma route_keys_locks args n ki mode :
  step ki = 1 \/ step ki = 2 ->
  forall fuel i st st',
  route_keys Shard args n ki true mode fuel i st = Some st' ->
  forall k,
    rs_locks st' !! k
    = if bool_decide (k ∈ omap (fun p => args !! p) (key_positions ki fuel i)
                      /\ k ∉ uniq_keys st)
      then Some (cnt_add (default cnt_zero (rs_locks st !! k)) mode 1)
      else rs_locks st !! k.
Proof.
  intros Hstep. induction fuel as [|fuel IH]; intros i st st' H k.
  - cbn [route_keys] in H. injection H as <-. cbn [key_positions omap list_omap].
    rewrite bool_decide_eq_false_2; [reflexivity|]. intros [Hin _]. inversion Hin.
  - cbn [route_keys key_positions] in *.
    destruct (Nat.leb_spec (end_ ki) i) as [Hend|Hend].
    { injection H as <-. cbn [omap list_omap].
      rewrite bool_decide_eq_false_2; [reflexivity|]. intros [Hin _]. inversion Hin. }
    destruct (args !! i) as [key|] eqn:Hkey; simpl in H; [|discriminate].
    destruct (push_arg (Shard key n) key (i - 1) (shard_index st)) as [si1|];
      simpl in H; [|discriminate].
    cbn [omap list_omap]. rewrite Hkey.
    assert (Hnext : exists si', route_keys Shard args n ki true mode fuel (i + step ki)
              (mkRouteState si' ({[key]} ∪ uniq_keys st)
                 (if bool_decide (key ∉ uniq_keys st)
                  then record_lock key mode (rs_locks st) else rs_locks st)) = Some st').
    { destruct Hstep as [E|E]; rewrite E in *; simpl in H.
      - exists si1. exact H.
      - destruct (args !! (i + 1)); simpl in H; [|discriminate].
        destruct (push_arg _ _ _ si1) as [si2|]; simpl in H; [|discriminate].
        exists si2. replace (i + 2) with (i + 1 + 1) by lia. exact H. }
    destruct Hnext as (si' & Hnext). rewrite (IH _ _ _ Hnext k). cbn [uniq_keys rs_locks].
    destruct (decide (k = key)) as [->|Hne].
    + rewrite (bool_decide_eq_false_2 (_ /\ key ∉ {[key]} ∪ uniq_keys st))
        by (intros [_ Hn]; apply Hn, elem_of_union_l, elem_of_singleton; reflexivity).
      destruct (decide (key ∈ uniq_keys st)) as [Hin|Hnin].
      * rewrite (bool_decide_eq_false_2 (key ∉ uniq_keys st)) by tauto.
        rewrite bool_decide_eq_false_2 by tauto. reflexivity.
      * rewrite (bool_decide_eq_true_2 (key ∉ uniq_keys st)) by assumption.
        rewrite bool_decide_eq_true_2 by (split; [left|assumption]).
        unfold record_lock. rewrite lookup_insert_eq. reflexivity.
    + assert (Hlk : (if bool_decide (key ∉ uniq_keys st)
                     then record_lock key mode (rs_locks st) else rs_locks st) !! k
                    = rs_locks st !! k).
      { destruct (bool_decide (key ∉ uniq_keys st)); [|reflexivity].
        unfold record_lock. rewrite lookup_insert_ne by congruence. reflexivity. }
      rewrite Hlk. erewrite bool_decide_ext; [reflexivity|].
      rewrite elem_of_cons. split.
      * intros [Hin Hn]. split; [right; exact Hin|].
        intros Hk. apply Hn, elem_of_union_r. exact Hk.
      * intros [[Heq|Hin] Hn]; [contradiction|]. split; [exact Hin|].
        intros Hk. apply elem_of_union in Hk as [Hk|Hk]; [|contradiction].
        apply elem_of_singleton in Hk. contradiction.
Qed.

Lemma route_keys_no_locks args n ki mode :
  forall fuel i st st',
  route_keys Shard args n ki false mode fuel i st = Some st' ->
  rs_locks st' = rs_locks st.
Proof.
  induction fuel as [|fuel IH]; intros i st st' H.
  - cbn [route_keys] in H. injection H as <-. reflexivity.
  - cbn [route_keys] in H.
    destruct (end_ ki <=? i); [injection H as <-; reflexivity|].
    destruct (args !! i) as [key|]; simpl in H; [|discriminate].
    destruct (push_arg _ _ _ _) as [si1|]; simpl in H; [|discriminate].
    destruct (step ki =? 2).
    + destruct (args !! (i + 1)); simpl in H; [|discriminate].
      destruct (push_arg _ _ _ si1) as [si2|]; simpl in H; [|discriminate].
      apply IH in H. exact H.
    + apply IH in H. exact H.
Qed.


Lemma InitByArgs_routed_locks n index args t t' m :
  InitByArgs Shard DetermineKeys n index args t = Some t' ->
  multi_ t = Some m ->
  IsGlobal t = false ->
  start (DetermineKeys (cid_ t) args) <> length args ->
  let ki := DetermineKeys (cid_ t) args in
  (step ki = 1 \/ step ki = 2) /\
  exists rs,
    route_keys Shard args n ki (incremental m || negb (locks_recorded m)) (TxMode t)
      (end_ ki - start ki) (start ki)
      (mkRouteState (replicate n ShardCache_clear) ∅ (locks m)) = Some rs /\
    multi_ t' = Some (mkMulti (rs_locks rs) (multi_opts m) (incremental m) true).
Proof.
  intros H Hm Hg Hstart ki. unfold InitByArgs in H.
  change (IsGlobal (with_db_index index t)) with (IsGlobal t) in H.
  change (cid_ (with_db_index index t)) with (cid_ t) in H.
  change (multi_ (with_db_index index t)) with (multi_ t) in H.
  change (is_multi (with_db_index index t)) with (is_multi t) in H.
  change (args_ (with_db_index index t)) with (args_ t) in H.
  change (reverse_index_ (with_db_index index t)) with (reverse_index_ t) in H.
  change (shard_data_ (with_db_index index t)) with (shard_data_ t) in H.
  change (unique_shard_cnt_ (with_db_index index t)) with (unique_shard_cnt_ t) in H.
  change (unique_shard_id_ (with_db_index index t)) with (unique_shard_id_ t) in H.
  change (TxMode (with_db_index index t)) with (TxMode t) in H.
  fold ki in H, Hstart.
  unfold is_multi in H. rewrite Hg, Hm in H.
  destruct (negb (1 <? length args)); [discriminate|].
  destruct (Nat.eqb_spec (start ki) (length args)) as [|_]; [contradiction|].
  simpl negb in H. cbv iota in H. simpl andb in H. cbv iota in H.
  destruct (Nat.eqb_spec (step ki) 1) as [E1|E1];
    destruct (Nat.eqb_spec (step ki) 2) as [E2|E2]; try discriminate; try lia;
    simpl in H.
  all: rewrite !length_resize in H.
  all: match type of H with (?r ≫= _) = _ => destruct r as [rs|] eqn:Hr end;
    simpl in H; [|discriminate].
  all: match type of H with (?r ≫= _) = _ => destruct r as [ps|] eqn:Hp end;
    simpl in H; [|discriminate].
  all: destruct (Nat.eqb_spec (next_arg ps) (length (ps_args ps))) as [Hn|];
    [|discriminate]; simpl in H.
  all: injection H as <-.
  all: split; [auto|].
  all: exists rs; split; [first [exact Hr|reflexivity]|reflexivity].
Qed.

(** X5. How [InitByArgs] records the locks of a multi transaction: when
    it records (the transaction locks incrementally, or nothing was
    recorded yet), every distinct key of the command gets one more lock of
    the transaction's mode, however often the command names it; otherwise
    the recorded locks stay as they are. The record is marked as made. *)
Theorem InitByArgs_records_locks n index args t t' m :
  InitByArgs Shard DetermineKeys n index args t = Some t' ->
  multi_ t = Some m ->
  IsGlobal t = false ->
  start (DetermineKeys (cid_ t) args) <> length args ->
  exists m',
    multi_ t' = Some m' /\
    locks_recorded m' = true /\
    multi_opts m' = multi_opts m /\
    incremental m' = incremental m /\
    forall k,
      locks m' !! k
      = if (incremental m || negb (locks_recorded m))
           && bool_decide (k ∈ keys_of args (DetermineKeys (cid_ t) args))
        then Some (cnt_add (default cnt_zero (locks m !! k)) (TxMode t) 1)
        else locks m !! k.
Proof.
  intros H Hm Hg Hstart.
  destruct (InitByArgs_routed_locks _ _ _ _ _ _ H Hm Hg Hstart) as (Hstep & rs & Hr & Hm').
  eexists. split; [exact Hm'|]. simpl. do 3 (split; [reflexivity|]).
  intros k. destruct (incremental m || negb (locks_recorded m)).
  - rewrite (route_keys_locks _ _ _ _ Hstep _ _ _ _ Hr k). simpl.
    unfold keys_of. erewrite bool_decide_ext; [reflexivity|].
    split; [intros [Hin _]; exact Hin|].
    intros Hin. split; [exact Hin|]. apply not_elem_of_empty.
  - rewrite (route_keys_no_locks _ _ _ _ _ _ _ _ Hr). reflexivity.
Qed.


Lemma length_filter_rel {A B} (P : A -> Prop) (Q : B -> Prop)
    `{!forall x, Decision (P x)} `{!forall y, Decision (Q y)} :
  forall (l1 : list A) (l2 : list B),
  length l1 = length l2 ->
  (forall i x y, l1 !! i = Some x -> l2 !! i = Some y -> (P x <-> Q y)) ->
  length (filter P l1) = length (filter Q l2).
Proof.
  induction l1 as [|x l1 IH]; intros [|y l2] Hlen Hrel; try discriminate; [reflexivity|].
  rewrite !filter_cons.
  assert (Hxy : P x <-> Q y) by (apply (Hrel 0); reflexivity).
  assert (Hrec : length (filter P l1) = length (filter Q l2)).
  { apply IH; [simpl in Hlen; lia|]. intros i. apply (Hrel (S i)). }
  destruct (decide (P x)), (decide (Q y)); simpl; try tauto; rewrite ?Hrec; reflexivity.
Qed.

Lemma touched_from_length sds : forall i0,
  length (touched_from i0 sds) = length (filter (fun sd => arg_count sd <> 0%Z) sds).
Proof.
  induction sds as [|sd sds IH]; intros i0; [reflexivity|].
  cbn [touched_from]. rewrite filter_cons.
  destruct (Z.eqb_spec (arg_count sd) 0) as [E|E];
    destruct (decide (arg_count sd <> 0%Z)) as [D|D]; try contradiction.
  - apply IH.
  - simpl. rewrite IH. reflexivity.
Qed.

(** X6. [unique_shard_cnt_] counts the shards that have arguments: after
    [InitByArgs] on a command that is not global, the shards that
    [ExpireBlocking] and the convergence barrier of [WaitOnWatch] visit are
    [unique_shard_cnt_] many, and when that is not 1 they are the slots
    with [arg_count != 0]. *)
Theorem InitByArgs_touched_count n index args t t' :
  InitByArgs Shard DetermineKeys n index args t = Some t' ->
  IsGlobal t = false ->
  start (DetermineKeys (cid_ t) args) <> length args ->
  0 < start (DetermineKeys (cid_ t) args) ->
  unique_shard_cnt_ t = 0 ->
  length (touched_shards t') = unique_shard_cnt_ t' /\
  (unique_shard_cnt_ t' <> 1 ->
     touched_shards t' = touched_from 0 (shard_data_ t') /\
     length (filter (fun sd => arg_count sd <> 0%Z) (shard_data_ t'))
     = unique_shard_cnt_ t').
Proof.
  intros H Hg Hstart Hpos Hcnt0.
  assert (Hmany : unique_shard_cnt_ t' <> 1 ->
            length (filter (fun sd => arg_count sd <> 0%Z) (shard_data_ t'))
            = unique_shard_cnt_ t').
  { intros Hne.
    destruct (negb (is_multi t)
              && (end_ (DetermineKeys (cid_ t) args)
                  <=? start (DetermineKeys (cid_ t) args)
                      + step (DetermineKeys (cid_ t) args))) eqn:Hsk.
    - exfalso. apply Hne. unfold InitByArgs in H.
      change (IsGlobal (with_db_index index t)) with (IsGlobal t) in H.
      change (cid_ (with_db_index index t)) with (cid_ t) in H.
      change (is_multi (with_db_index index t)) with (is_multi t) in H.
      rewrite Hg, Hsk in H.
      destruct (negb (1 <? length args)); [discriminate|].
      destruct (Nat.eqb_spec (start (DetermineKeys (cid_ t) args)) (length args));
        [contradiction|].
      destruct (negb (_ =? _)); [discriminate|].
      match type of H with (?r ≫= _) = _ => destruct r as [key|] end;
        simpl in H; [|discriminate].
      injection H as <-. reflexivity.
    - assert (Hpath : is_multi t = true \/
                start (DetermineKeys (cid_ t) args) + step (DetermineKeys (cid_ t) args)
                  < end_ (DetermineKeys (cid_ t) args)).
      { apply andb_false_iff in Hsk as [Hm|Hle].
        - left. destruct (is_multi t); [reflexivity|discriminate].
        - right. apply Nat.leb_gt in Hle. exact Hle. }
      destruct (InitByArgs_buckets Shard DetermineKeys _ _ _ _ _ H Hg Hstart Hpos Hpath)
        as (si & sds & Hlsi & Hlsds & _ & _ & _ & _ & _ & Hslot & _ & _ & Hsd & _ & _
            & Hcount).
      rewrite (Hsd Hne), Hcount, Hcnt0. simpl.
      apply length_filter_rel; [congruence|].
      intros i sd sc Hi Hsc. destruct (Hslot i sc Hsc) as (sd' & Hsd' & Hac & _).
      rewrite Hi in Hsd'. injection Hsd' as <-. rewrite Hac.
      destruct (sc_args sc); simpl; split; intros Hx; try congruence; lia. }
  unfold touched_shards.
  destruct (Nat.eqb_spec (unique_shard_cnt_ t') 1) as [E|E].
  - split; [rewrite E; reflexivity|]. intros Hne. contradiction.
  - split; [|intros _; split; [reflexivity|apply Hmany; exact E]].
    rewrite touched_from_length. apply Hmany. exact E.
Qed.

End PackerContent.

(** * The blocking controller: the life of a watched slot *)

Section WatchedSlot.

Context (L : LocalStateBits) (C : CoordinatorStateBits).
Variable PollExecution : EngineShard -> EngineShard.
Hypothesis HL : local_state_ok L = true.

(** X7. A slot is woken at most once: when [NotifySuspended] has answered
    [true], the slot is no longer in SUSPENDED_Q and a second call on it
    fails the [CHECK] at its top; when it has answered [false], for an
    expired slot, nothing has changed and every later call answers
    [false] again. *)
Theorem NotifySuspended_once c1 c2 sid t t' r :
  NotifySuspended L c1 sid t = Some (t', r) ->
  NotifySuspended L c2 sid t' = if r then None else Some (t', false).
Proof.
  intros H. unfold NotifySuspended in H.
  destruct (shard_data_ t !! SidToId t sid) as [sd|] eqn:Hsd; simpl in H; [|discriminate].
  destruct (Bits.has (local_mask sd) (SUSPENDED_Q L)) eqn:HS; simpl in H; [|discriminate].
  destruct (Bits.has (local_mask sd) (EXPIRED_Q L)) eqn:HE.
  - injection H as <- <-. unfold NotifySuspended. rewrite Hsd. simpl.
    rewrite HS, HE. reflexivity.
  - assert (Hlt : SidToId t sid < length (shard_data_ t))
      by (eapply lookup_lt_Some; eassumption).
    assert (Hm : Bits.has (Bits.set (Bits.clear (local_mask sd) (SUSPENDED_Q L)) (AWAKED_Q L))
                   (SUSPENDED_Q L) = false).
    { clear - HL. bits_facts HL. unfold SUSPENDED_Q, AWAKED_Q.
      rewrite has_set_other by bit_side. apply has_clear_same. bit_side. }
    injection H as <- <-.
    apply (NotifySuspended_not_suspended L c2 sid _
             (set_local_mask
                (Bits.set (Bits.clear (local_mask sd) (SUSPENDED_Q L)) (AWAKED_Q L)) sd));
      [|exact Hm].
    destruct (c1 <? _)%Z; unfold SidToId; simpl; rewrite length_insert;
      fold (SidToId t sid); rewrite list_lookup_insert_eq by assumption; reflexivity.
Qed.


Lemma expire_cb_keeps_suspended t sh t' sh' :
  expire_cb L PollExecution t sh = Some (t', sh') ->
  forall k sd, shard_data_ t !! k = Some sd ->
    exists sd', shard_data_ t' !! k = Some sd' /\
      Bits.has (local_mask sd') (SUSPENDED_Q L) = Bits.has (local_mask sd) (SUSPENDED_Q L).
Proof.
  intros H k sd Hk. unfold expire_cb in H.
  destruct (shard_data_ t !! SidToId t (shard_id sh)) as [sd0|] eqn:Hsd0;
    simpl in H; [|discriminate].
  destruct (_ <? 1)%Z; [discriminate|]. injection H as <- <-. simpl.
  destruct (decide (k = SidToId t (shard_id sh))) as [->|Hne].
  - rewrite list_lookup_insert_eq by (eapply lookup_lt_Some; eassumption).
    eexists. split; [reflexivity|]. simpl.
    assert (sd = sd0) by congruence. subst sd0.
    clear - HL. bits_facts HL. unfold SUSPENDED_Q, EXPIRED_Q, KEYLOCK_ACQUIRED.
    rewrite has_clear_other, has_set_other by bit_side. reflexivity.
  - rewrite list_lookup_insert_ne by congruence. eauto.
Qed.

Lemma ess_Add_each_keeps_suspended ids : forall t shards t' shards',
  ess_Add_each ids (expire_cb L PollExecution) (t, shards) = Some (t', shards') ->
  forall k sd, shard_data_ t !! k = Some sd ->
    exists sd', shard_data_ t' !! k = Some sd' /\
      Bits.has (local_mask sd') (SUSPENDED_Q L) = Bits.has (local_mask sd) (SUSPENDED_Q L).
Proof.
  induction ids as [|i ids IH]; intros t shards t' shards' H k sd Hk.
  - simpl in H. injection H as <- <-. eauto.
  - cbn [ess_Add_each] in H. unfold ess_Add in H at 1. simpl in H.
    destruct (shards !! i) as [sh|]; simpl in H; [|discriminate].
    destruct (expire_cb L PollExecution t sh) as [[t1 sh1]|] eqn:Hcb;
      simpl in H; [|discriminate].
    destruct (expire_cb_keeps_suspended _ _ _ _ Hcb k sd Hk) as (sd1 & Hk1 & E1).
    destruct (IH _ _ _ _ H k sd1 Hk1) as (sd' & Hk' & E').
    exists sd'. split; [assumption|congruence].
Qed.

(** X8. An expired slot is never woken: after [ExpireBlocking], on every
    shard that it visited and whose slot was in SUSPENDED_Q,
    [NotifySuspended] answers [false] and leaves the transaction as it
    is. *)
Theorem NotifySuspended_after_ExpireBlocking t shards t' shards' :
  ExpireBlocking L PollExecution t shards = Some (t', shards') ->
  (forall i sh, i ∈ touched_shards t -> shards !! i = Some sh -> shard_id sh = i) ->
  forall i sd committed_txid,
    i ∈ touched_shards t ->
    shard_data_ t !! SidToId t i = Some sd ->
    Bits.has (local_mask sd) (SUSPENDED_Q L) = true ->
    NotifySuspended L committed_txid i t' = Some (t', false).
Proof.
  intros H Hids i sd c Hi Hsd HS.
  destruct (ExpireBlocking_spec L PollExecution HL _ _ _ _ H Hids) as (Hsame & Hexp & _).
  destruct (Hexp i Hi) as (sh & sd' & _ & _ & Hsd' & HE & _).
  unfold ExpireBlocking in H.
  destruct (ess_Add_each_keeps_suspended _ _ _ _ _ H (SidToId t i) sd Hsd)
    as (sd'' & Hsd'' & HS').
  rewrite Hsd' in Hsd''. injection Hsd'' as <-.
  unfold NotifySuspended. rewrite (SidToId_same_routing _ _ _ Hsame), Hsd'. simpl.
  rewrite HS', HS, HE. reflexivity.
Qed.

End WatchedSlot.

Section SuspendingHop.

Context (L : LocalStateBits) (C : CoordinatorStateBits).
Variable ProcessAwakened : option Transaction -> EngineShard -> EngineShard.
Hypothesis HL : local_state_ok L = true.

(** X9. The hop by which [WaitOnWatch] suspends a transaction keeps its
    locks: when [RunInShard] runs [AddToWatchedShardCb] as the concluding
    hop of a transaction that is neither multi nor global, the slot ends
    in SUSPENDED_Q with KEYLOCK_ACQUIRED as it was, the lock table of the
    shard is untouched, the keys of the shard are registered in its watch
    table, and the transaction has left the queue. A slot that is already
    in SUSPENDED_Q fails the [CHECK] of the callback. *)
Theorem RunInShard_suspends t shard sd :
  Bits.has (coordinator_state_ t) (COORD_EXEC_CONCLUDING C) = true ->
  is_multi t = false ->
  IsGlobal t = false ->
  shard_data_ t !! SidToId t (shard_id shard) = Some sd ->
  (Bits.has (local_mask sd) (SUSPENDED_Q L) = true ->
     RunInShard L C ProcessAwakened (AddToWatchedShardCb L) t shard = None) /\
  (forall t' shard' keep,
     RunInShard L C ProcessAwakened (AddToWatchedShardCb L) t shard
       = Some (t', shard', keep) ->
     exists sd' aw sh2,
       keep = false /\
       shard' = ProcessAwakened aw sh2 /\
       shard_data_ t' !! SidToId t (shard_id shard) = Some sd' /\
       Bits.has (local_mask sd') (SUSPENDED_Q L) = true /\
       Bits.has (local_mask sd') (KEYLOCK_ACQUIRED L)
         = Bits.has (local_mask sd) (KEYLOCK_ACQUIRED L) /\
       Bits.has (local_mask sd') (ARMED L) = false /\
       Bits.has (local_mask sd') (OUT_OF_ORDER L) = false /\
       pq_pos sd' = kEnd /\
       lock_table sh2 = lock_table shard /\
       shard_lock sh2 = shard_lock shard /\
       txq sh2 = (if (pq_pos sd =? kEnd)%Z then txq shard
                  else txq_Remove (pq_pos sd) (txq shard)) /\
       watched sh2
         = foldl (fun w s => AddWatched_entry (db_index_ t) s (this t) w)
                 (watched shard) (ShardArgsInShard t (shard_id shard))).
Proof.
  intros Hc Hm Hg Hsd.
  assert (Hlt : SidToId t (shard_id shard) < length (shard_data_ t))
    by (eapply lookup_lt_Some; eassumption).
  assert (Hmu : multi_ t = None)
    by (unfold is_multi in Hm; destruct (multi_ t); [discriminate|reflexivity]).
  assert (Hbits :
    (Bits.has (Bits.clear (local_mask sd) (ARMED L)) (SUSPENDED_Q L)
     = Bits.has (local_mask sd) (SUSPENDED_Q L)) /\
    let m := Bits.clear (Bits.set (Bits.clear (local_mask sd) (ARMED L)) (SUSPENDED_Q L))
               (OUT_OF_ORDER L) in
    Bits.has (Bits.set (Bits.clear (local_mask sd) (ARMED L)) (SUSPENDED_Q L))
      (SUSPENDED_Q L) = true /\
    Bits.has m (SUSPENDED_Q L) = true /\
    Bits.has m (KEYLOCK_ACQUIRED L) = Bits.has (local_mask sd) (KEYLOCK_ACQUIRED L) /\
    Bits.has m (ARMED L) = false /\
    Bits.has m (OUT_OF_ORDER L) = false).
  { clear - HL. bits_facts HL.
    unfold SUSPENDED_Q, ARMED, KEYLOCK_ACQUIRED, OUT_OF_ORDER. simpl.
    rewrite !has_clear_same by bit_side.
    rewrite !has_clear_other by bit_side.
    rewrite !has_set_same by bit_side.
    rewrite !has_set_other by bit_side.
    rewrite !has_clear_other by bit_side.
    rewrite !has_clear_same by bit_side. repeat split. }
  destruct Hbits as (B0 & B1 & B2 & B3 & B4 & B5). simpl in B2, B3, B4, B5.
  assert (Hrun : forall res,
    RunInShard L C ProcessAwakened (AddToWatchedShardCb L) t shard = res ->
    (Bits.has (local_mask sd) (SUSPENDED_Q L) = true -> res = None) /\
    forall t' shard' keep, res = Some (t', shard', keep) ->
    exists sd' aw sh2,
       keep = false /\
       shard' = ProcessAwakened aw sh2 /\
       shard_data_ t' !! SidToId t (shard_id shard) = Some sd' /\
       local_mask sd'
         = Bits.clear (Bits.set (Bits.clear (local_mask sd) (ARMED L)) (SUSPENDED_Q L))
             (OUT_OF_ORDER L) /\
       pq_pos sd' = kEnd /\
       lock_table sh2 = lock_table shard /\
       shard_lock sh2 = shard_lock shard /\
       txq sh2 = (if (pq_pos sd =? kEnd)%Z then txq shard
                  else txq_Remove (pq_pos sd) (txq shard)) /\
       watched sh2
         = foldl (fun w s => AddWatched_entry (db_index_ t) s (this t) w)
                 (watched shard) (ShardArgsInShard t (shard_id shard))).
  { intros res H. unfold RunInShard in H.
    destruct (cb_set t); simpl in H; [|subst res; split; [reflexivity|discriminate]].
    rewrite Hsd in H. simpl in H. rewrite Hmu, Hc, Hm in H. simpl in H.
    unfold AddToWatchedShardCb in H at 1.
    rewrite SidToId_set_slot in H.
    rewrite (lookup_set_slot _ _ _ _ Hsd) in H. simpl in H. rewrite B0 in H.
    destruct (Bits.has (local_mask sd) (SUSPENDED_Q L)) eqn:HS; simpl in H;
      [subst res; split; [reflexivity|discriminate]|].
    split; [discriminate|]. intros t' shard' keep Hres. subst res.
    assert (Hargs : ShardArgsInShard
              (set_slot (SidToId t (shard_id shard))
                 (set_local_mask (Bits.clear (local_mask sd) (ARMED L)) sd) t)
              (shard_id shard) = ShardArgsInShard t (shard_id shard)).
    { apply ShardArgsInShard_same_routing.
      apply (same_routing_set_slot _ _ sd); [assumption|reflexivity|reflexivity]. }
    rewrite Hargs in Hres. clear Hargs.
    destruct (unique_shard_cnt_ t =? 1); simpl in Hres.
    all: rewrite !list_lookup_insert_eq in Hres by (rewrite ?length_insert; assumption).
    all: simpl in Hres.
    all: change (IsGlobal _) with (IsGlobal t) in Hres.
    all: rewrite Hg in Hres; simpl in Hres.
    all: destruct (Z.eqb_spec (pq_pos sd) kEnd) as [Epq|Epq]; simpl in Hres.
    all: rewrite B1 in Hres; simpl in Hres.
    all: destruct (run_count_ t <? 1)%Z; [discriminate|].
    all: injection Hres as <- <- <-.
    all: do 3 eexists.
    all: split; [reflexivity|]; split; [reflexivity|]; simpl.
    all: rewrite !list_lookup_insert_eq by (rewrite ?length_insert; assumption).
    all: split; [reflexivity|]; simpl.
    all: repeat split; auto. }
  destruct (Hrun _ eq_refl) as [Hnone Hsome].
  split; [exact Hnone|].
  intros t' shard' keep H.
  destruct (Hsome _ _ _ H) as (sd' & aw & sh2 & Hk & Hsh & Hsd' & Hmask & Hpq & Hrest).
  exists sd', aw, sh2.
  split; [exact Hk|]. split; [exact Hsh|]. split; [exact Hsd'|].
  rewrite Hmask. split; [exact B2|]. split; [exact B3|]. split; [exact B4|].
  split; [exact B5|]. split; [exact Hpq|]. exact Hrest.
Qed.

End SuspendingHop.

Section CloseWhileBlocked.

Context (L : LocalStateBits) (C : CoordinatorStateBits).
Variable PollExecution : EngineShard -> EngineShard.
Variable HasResultConverged : TxId -> EngineShard -> bool.
Variable WaitForConvergence :
  TxId -> Transaction -> EngineShard -> Transaction * EngineShard.
Variable Execute :
  (Transaction -> EngineShard -> option (OpStatus * Transaction * EngineShard)) ->
  bool -> Transaction * list EngineShard -> option (Transaction * list EngineShard).
Variable blocking_ec_await :
  option Z -> Transaction * list EngineShard ->
  cv_status * (Transaction * list EngineShard).
Hypothesis HC : coordinator_state_ok C = true.

(** X10. [BreakOnClose] acts only on a transaction that is blocked: it then
    sets COORD_CANCELLED, keeps COORD_BLOCKED and notifies the condition
    variable once. [WaitOnWatch] lifts COORD_BLOCKED on every path on which
    it returns, so a close that comes after it has returned changes
    nothing. *)
Theorem BreakOnClose_only_while_blocked t :
  (Bits.has (coordinator_state_ t) (COORD_BLOCKED C) = false -> BreakOnClose C t = t) /\
  (Bits.has (coordinator_state_ t) (COORD_BLOCKED C) = true ->
     Bits.has (coordinator_state_ (BreakOnClose C t)) (COORD_CANCELLED C) = true /\
     Bits.has (coordinator_state_ (BreakOnClose C t)) (COORD_BLOCKED C) = true /\
     blocking_ec_notified (BreakOnClose C t) = S (blocking_ec_notified t) /\
     shard_data_ (BreakOnClose C t) = shard_data_ t /\
     notify_txid_ (BreakOnClose C t) = notify_txid_ t) /\
  (forall tp shards t' shards' res,
     WaitOnWatch L C PollExecution HasResultConverged WaitForConvergence
       Execute blocking_ec_await tp t shards = Some (t', shards', res) ->
     Bits.has (coordinator_state_ t') (COORD_BLOCKED C) = false /\
     BreakOnClose C t' = t').
Proof.
  split; [|split].
  - intros Hb. unfold BreakOnClose. rewrite Hb. reflexivity.
  - intros Hb. unfold BreakOnClose. rewrite Hb. simpl.
    clear - HC Hb. bits_facts HC. unfold COORD_CANCELLED, COORD_BLOCKED in *.
    rewrite has_set_same, has_set_other by bit_side. auto.
  - intros tp shards t' shards' res H.
    assert (Hb : Bits.has (coordinator_state_ t') (COORD_BLOCKED C) = false).
    { assert (Hclear : forall cs, Bits.has (Bits.clear cs (COORD_BLOCKED C)) (COORD_BLOCKED C)
                                  = false).
      { clear - HC. bits_facts HC. intros cs. apply has_clear_same. bit_side. }
      unfold WaitOnWatch in H.
      destruct (Execute _ _ _) as [[t1 shards1]|]; simpl in H; [|discriminate].
      destruct (blocking_ec_await _ _) as [waited [t3 shards3]].
      destruct (_ || _).
      - destruct (ExpireBlocking _ _ _ _) as [[t4 shards4]|]; simpl in H; [|discriminate].
        injection H as <- <- <-. apply Hclear.
      - match type of H with (?r ≫= _) = _ => destruct r as [[t5 shards5]|] end;
          simpl in H; [|discriminate].
        injection H as <- <- <-. apply Hclear. }
    split; [exact Hb|]. unfold BreakOnClose. rewrite Hb. reflexivity.
Qed.

End CloseWhileBlocked.

(** * The hops *)

Section HopFacts.

Context (L : LocalStateBits) (C : CoordinatorStateBits).
Variable PollExecution : EngineShard -> EngineShard.
Variable GCWatched : KeyLockArgs -> EngineShard -> EngineShard.
Variable ProcessAwakened : option Transaction -> EngineShard -> EngineShard.
Hypothesis HL : local_state_ok L = true.

(** X11. [RunNoop], the hop that runs no callback: it fails its [CHECK]
    when [run_count_] is below 1; otherwise it disarms the slot, takes one
    off [run_count_] and leaves the queue position alone. On a concluding
    hop it releases the locks of the shard's keys and clears
    KEYLOCK_ACQUIRED also for a slot in SUSPENDED_Q, which it marks
    EXPIRED_Q and hands to [GCWatched]; on any other hop it leaves the
    shard and the other flags as they are. *)
Theorem RunNoop_spec t shard sd :
  shard_data_ t !! SidToId t (shard_id shard) = Some sd ->
  ((run_count_ t < 1)%Z -> RunNoop L C GCWatched t shard = None) /\
  ((1 <= run_count_ t)%Z ->
     exists t' shard' sd',
       RunNoop L C GCWatched t shard = Some (t', shard') /\
       shard_data_ t' !! SidToId t (shard_id shard) = Some sd' /\
       run_count_ t' = Bits.trunc 32 (run_count_ t - 1) /\
       pq_pos sd' = pq_pos sd /\
       Bits.has (local_mask sd') (ARMED L) = false /\
       Bits.has (local_mask sd') (SUSPENDED_Q L) = Bits.has (local_mask sd) (SUSPENDED_Q L) /\
       Bits.has (local_mask sd') (AWAKED_Q L) = Bits.has (local_mask sd) (AWAKED_Q L) /\
       Bits.has (local_mask sd') (OUT_OF_ORDER L)
         = Bits.has (local_mask sd) (OUT_OF_ORDER L) /\
       (unique_shard_cnt_ t = 1 -> cb_set t' = false /\ local_result_ t' = OK) /\
       (Bits.has (coordinator_state_ t) (COORD_EXEC_CONCLUDING C) = false ->
          shard' = shard /\
          Bits.has (local_mask sd') (KEYLOCK_ACQUIRED L)
            = Bits.has (local_mask sd) (KEYLOCK_ACQUIRED L) /\
          Bits.has (local_mask sd') (EXPIRED_Q L)
            = Bits.has (local_mask sd) (EXPIRED_Q L)) /\
       (Bits.has (coordinator_state_ t) (COORD_EXEC_CONCLUDING C) = true ->
          Bits.has (local_mask sd') (KEYLOCK_ACQUIRED L) = false /\
          Bits.has (local_mask sd') (EXPIRED_Q L)
            = Bits.has (local_mask sd) (EXPIRED_Q L)
              || Bits.has (local_mask sd) (SUSPENDED_Q L) /\
          let released :=
            with_lock_table
              (db_Release (TxMode t) (GetLockArgs t (SidToId t (shard_id shard)))
                 (lock_table shard)) shard in
          shard' = if Bits.has (local_mask sd) (SUSPENDED_Q L)
                   then GCWatched (GetLockArgs t (SidToId t (shard_id shard))) released
                   else released)).
Proof.
  intros Hsd.
  assert (Hlt : SidToId t (shard_id shard) < length (shard_data_ t))
    by (eapply lookup_lt_Some; eassumption).
  assert (Hbits : forall m,
    let m0 := Bits.clear m (ARMED L) in
    let m1 := Bits.clear m0 (KEYLOCK_ACQUIRED L) in
    let m2 := Bits.set m1 (EXPIRED_Q L) in
    (Bits.has m0 (ARMED L) = false /\
     Bits.has m0 (SUSPENDED_Q L) = Bits.has m (SUSPENDED_Q L) /\
     Bits.has m0 (AWAKED_Q L) = Bits.has m (AWAKED_Q L) /\
     Bits.has m0 (OUT_OF_ORDER L) = Bits.has m (OUT_OF_ORDER L) /\
     Bits.has m0 (KEYLOCK_ACQUIRED L) = Bits.has m (KEYLOCK_ACQUIRED L) /\
     Bits.has m0 (EXPIRED_Q L) = Bits.has m (EXPIRED_Q L)) /\
    (Bits.has m1 (ARMED L) = false /\
     Bits.has m1 (SUSPENDED_Q L) = Bits.has m (SUSPENDED_Q L) /\
     Bits.has m1 (AWAKED_Q L) = Bits.has m (AWAKED_Q L) /\
     Bits.has m1 (OUT_OF_ORDER L) = Bits.has m (OUT_OF_ORDER L) /\
     Bits.has m1 (KEYLOCK_ACQUIRED L) = false /\
     Bits.has m1 (EXPIRED_Q L) = Bits.has m (EXPIRED_Q L)) /\
    (Bits.has m2 (ARMED L) = false /\
     Bits.has m2 (SUSPENDED_Q L) = Bits.has m (SUSPENDED_Q L) /\
     Bits.has m2 (AWAKED_Q L) = Bits.has m (AWAKED_Q L) /\
     Bits.has m2 (OUT_OF_ORDER L) = Bits.has m (OUT_OF_ORDER L) /\
     Bits.has m2 (KEYLOCK_ACQUIRED L) = false /\
     Bits.has m2 (EXPIRED_Q L) = true)).
  { clear - HL. bits_facts HL. intros m.
    unfold SUSPENDED_Q, ARMED, KEYLOCK_ACQUIRED, OUT_OF_ORDER, AWAKED_Q, EXPIRED_Q. simpl.
    repeat split; flag_bits; reflexivity. }
  destruct (Hbits (local_mask sd)) as
    ((A0 & A1 & A2 & A3 & A4 & A5) & (B0 & B1 & B2 & B3 & B4 & B5)
     & (D0 & D1 & D2 & D3 & D4 & D5)).
  clear Hbits.
  split.
  - intros Hrun. unfold RunNoop. rewrite Hsd. simpl.
    destruct (unique_shard_cnt_ t =? 1); simpl.
    all: destruct (Bits.has (coordinator_state_ t) (COORD_EXEC_CONCLUDING C)); simpl.
    all: rewrite ?B1.
    all: try (destruct (Bits.has (local_mask sd) (SUSPENDED_Q L)); simpl).
    all: destruct (Z.ltb_spec (run_count_ t) 1); [reflexivity|lia].
  - intros Hrun. unfold RunNoop. rewrite Hsd. simpl.
    destruct (Nat.eqb_spec (unique_shard_cnt_ t) 1) as [Eu|Eu]; simpl.
    all: destruct (Bits.has (coordinator_state_ t) (COORD_EXEC_CONCLUDING C)) eqn:Hcc; simpl.
    all: rewrite ?B1.
    all: try destruct (Bits.has (local_mask sd) (SUSPENDED_Q L)) eqn:HS; simpl.
    all: destruct (Z.ltb_spec (run_count_ t) 1); try lia.
    all: do 3 eexists; split; [reflexivity|]; simpl.
    all: rewrite list_lookup_insert_eq by assumption.
    all: split; [reflexivity|]; simpl.
    all: split; [reflexivity|]; split; [reflexivity|].
    all: rewrite ?orb_true_r, ?orb_false_r.
    all: repeat split; try assumption; try discriminate; try congruence.
Qed.


(** X12. [RunInShard] on a multi transaction never releases a lock and
    always asks to be kept: what it leaves of the shard's lock table and
    whole-shard lock is what the callback left. It acquires the locks of
    the shard's keys only for a transaction that locks incrementally and
    whose slot does not have KEYLOCK_ACQUIRED yet, and the callback of
    such a transaction always finds KEYLOCK_ACQUIRED set. *)
Theorem RunInShard_multi cb t shard t' shard' keep m sd :
  RunInShard L C ProcessAwakened cb t shard = Some (t', shard', keep) ->
  multi_ t = Some m ->
  shard_data_ t !! SidToId t (shard_id shard) = Some sd ->
  let idx := SidToId t (shard_id shard) in
  let locks_now := incremental m && negb (Bits.has (local_mask sd) (KEYLOCK_ACQUIRED L)) in
  let mask0 := Bits.clear (local_mask sd) (ARMED L) in
  let mask1 := if locks_now then Bits.set mask0 (KEYLOCK_ACQUIRED L) else mask0 in
  let shard1 :=
    if locks_now
    then with_lock_table
           (db_Acquire (TxMode t) (GetLockArgs t idx) (lock_table shard)).2 shard
    else shard in
  exists status tc shc,
    cb (set_slot idx (set_local_mask mask1 sd) t) shard1 = Some (status, tc, shc) /\
    keep = true /\
    lock_table shard' = lock_table shc /\
    shard_lock shard' = shard_lock shc /\
    watched shard' = watched shc /\
    (incremental m = true -> Bits.has mask1 (KEYLOCK_ACQUIRED L) = true).
Proof.
  intros H Hmu Hsd idx locks_now mask0 mask1 shard1.
  assert (HK : Bits.has mask0 (KEYLOCK_ACQUIRED L)
               = Bits.has (local_mask sd) (KEYLOCK_ACQUIRED L)).
  { clear - HL. bits_facts HL. unfold mask0, KEYLOCK_ACQUIRED, ARMED.
    apply has_clear_other; bit_side. }
  assert (HK1 : incremental m = true -> Bits.has mask1 (KEYLOCK_ACQUIRED L) = true).
  { intros Hinc. unfold mask1, locks_now. rewrite Hinc. simpl.
    destruct (Bits.has (local_mask sd) (KEYLOCK_ACQUIRED L)) eqn:E; simpl.
    - rewrite HK. reflexivity.
    - clear - HL. bits_facts HL. unfold KEYLOCK_ACQUIRED. apply has_set_same. bit_side. }
  unfold RunInShard in H.
  destruct (cb_set t); simpl in H; [|discriminate].
  rewrite Hsd in H. simpl in H. fold idx in H.
  unfold is_multi in H. rewrite Hmu in H. fold mask0 in H. rewrite HK in H.
  fold locks_now in H. rewrite andb_false_r in H.
  assert (Hcall :
    (if locks_now
     then (Bits.set mask0 (KEYLOCK_ACQUIRED L),
           with_lock_table
             (db_Acquire (TxMode t) (GetLockArgs t idx) (lock_table shard)).2 shard)
     else (mask0, shard)) = (mask1, shard1)).
  { unfold mask1, shard1. destruct locks_now; reflexivity. }
  rewrite Hcall in H. clear Hcall.
  destruct (cb _ _) as [[[status tc] shc]|] eqn:Hcb; simpl in H; [|discriminate].
  exists status, tc, shc. split; [reflexivity|].
  match type of H with (?x ≫= _) = _ => destruct x as [r|] end;
    simpl in H; [|discriminate].
  destruct (shard_data_ r !! idx) as [sd1|]; simpl in H; [|discriminate].
  destruct (negb (pq_pos sd1 =? kEnd)%Z); simpl in H.
  all: destruct (run_count_ r <? 1)%Z; [discriminate|].
  all: injection H as <- <- <-.
  all: repeat split; auto.
Qed.


(** Callbacks that take one off [run_count_]; [checked] tells whether they
    fail when it is below 1. *)
Lemma ess_Add_each_run_count
    (cb : Transaction -> EngineShard -> option (Transaction * EngineShard))
    (checked : bool) :
  (forall t sh t' sh', cb t sh = Some (t', sh') ->
     run_count_ t' = Bits.trunc 32 (run_count_ t - 1) /\
     (checked = true -> (1 <= run_count_ t)%Z)) ->
  forall ids t shards t' shards',
  ess_Add_each ids cb (t, shards) = Some (t', shards') ->
  (0 <= run_count_ t < 2 ^ 32)%Z ->
  (checked = true -> (Z.of_nat (length ids) <= run_count_ t)%Z) /\
  ((Z.of_nat (length ids) <= run_count_ t)%Z ->
     run_count_ t' = (run_count_ t - Z.of_nat (length ids))%Z).
Proof.
  intros Hcb. induction ids as [|i ids IH]; intros t shards t' shards' H Hrc.
  - simpl in H. injection H as <- <-. simpl. split; intros; lia.
  - cbn [ess_Add_each] in H. unfold ess_Add in H at 1. simpl in H.
    destruct (shards !! i) as [sh|]; simpl in H; [|discriminate].
    destruct (cb t sh) as [[t1 sh1]|] eqn:Hc; simpl in H; [|discriminate].
    destruct (Hcb _ _ _ _ Hc) as [Hdec Hchk].
    cbn [length]. rewrite Nat2Z.inj_succ.
    split.
    + intros Hck. specialize (Hchk Hck).
      rewrite trunc32_id in Hdec by lia.
      destruct (IH _ _ _ _ H) as [IH1 _]; [lia|]. specialize (IH1 Hck). lia.
    + intros Hle.
      assert (1 <= run_count_ t)%Z by lia.
      rewrite trunc32_id in Hdec by lia.
      destruct (IH _ _ _ _ H) as [_ IH2]; [lia|]. rewrite IH2 by lia. lia.
Qed.

Lemma ess_Add_each_total
    (cb : Transaction -> EngineShard -> option (Transaction * EngineShard))
    (I : Transaction -> Prop) :
  (forall t sh, I t -> (1 <= run_count_ t)%Z ->
     exists t' sh', cb t sh = Some (t', sh') /\ I t' /\
       run_count_ t' = Bits.trunc 32 (run_count_ t - 1)) ->
  forall ids t shards,
  I t -> (0 <= run_count_ t < 2 ^ 32)%Z ->
  (Z.of_nat (length ids) <= run_count_ t)%Z ->
  (forall i, i ∈ ids -> i < length shards) ->
  is_Some (ess_Add_each ids cb (t, shards)).
Proof.
  intros Hcb. induction ids as [|i ids IH]; intros t shards HI Hrc Hlen Hin.
  - simpl. eauto.
  - cbn [ess_Add_each]. unfold ess_Add at 1. simpl.
    destruct (lookup_lt_is_Some_2 shards i) as [sh Hsh]; [apply Hin; left|].
    rewrite Hsh. simpl. cbn [length] in Hlen. rewrite Nat2Z.inj_succ in Hlen.
    destruct (Hcb t sh HI) as (t1 & sh1 & Hc & HI1 & Hdec); [lia|].
    rewrite Hc. simpl. rewrite trunc32_id in Hdec by lia.
    apply IH; [assumption|lia|lia|].
    intros j Hj. rewrite length_insert. apply Hin. right. exact Hj.
Qed.

(** X13. The barrier of [ExpireBlocking]: it sets [run_count_] to
    [unique_shard_cnt_] and every shard that it visits takes one off, so
    that it returns with [run_count_] at [unique_shard_cnt_] less the
    number of the visited shards, which cannot be more; with as many
    visited shards as [unique_shard_cnt_] the count is back at zero. It
    passes its [CHECK]s whenever the visited shards exist and are not more
    than [unique_shard_cnt_]. *)
Theorem ExpireBlocking_run_count t shards :
  (Z.of_nat (unique_shard_cnt_ t) < 2 ^ 32)%Z ->
  (forall t' shards',
     ExpireBlocking L PollExecution t shards = Some (t', shards') ->
     length (touched_shards t) <= unique_shard_cnt_ t /\
     run_count_ t'
     = (Z.of_nat (unique_shard_cnt_ t) - Z.of_nat (length (touched_shards t)))%Z /\
     (length (touched_shards t) = unique_shard_cnt_ t -> run_count_ t' = 0%Z)) /\
  (length (touched_shards t) <= unique_shard_cnt_ t ->
   (forall i, i ∈ touched_shards t -> i < length shards) ->
   shard_data_ t <> [] ->
   is_Some (ExpireBlocking L PollExecution t shards)).
Proof.
  intros Hsmall. split.
  - intros t' shards' H. unfold ExpireBlocking in H.
    apply (ess_Add_each_run_count _ true) in H; [| |simpl; lia].
    + simpl in H. destruct H as [H1 H2]. specialize (H1 eq_refl).
      specialize (H2 H1). split; [lia|]. split; [exact H2|]. intros E. lia.
    + intros t0 sh t1 sh1 Hc. unfold expire_cb in Hc.
      destruct (shard_data_ t0 !! _) as [sd|]; simpl in Hc; [|discriminate].
      destruct (Z.ltb_spec (run_count_ t0) 1) as [|Hge]; [discriminate|].
      injection Hc as <- <-. simpl. split; [reflexivity|]. intros _. exact Hge.
  - intros Hle Hin Hne. unfold ExpireBlocking.
    apply (ess_Add_each_total _ (fun t0 => shard_data_ t0 <> []));
      [|exact Hne|simpl; lia|simpl; lia|exact Hin].
    intros t0 sh Hne0 Hrun. unfold expire_cb.
    destruct (lookup_lt_is_Some_2 (shard_data_ t0) (SidToId t0 (shard_id sh)))
      as [sd Hsd].
    { unfold SidToId. destruct (Nat.ltb_spec (shard_id sh) (length (shard_data_ t0)));
        [assumption|]. destruct (shard_data_ t0); [contradiction|simpl; lia]. }
    rewrite Hsd. simpl.
    destruct (Z.ltb_spec (run_count_ t0) 1); [lia|].
    do 2 eexists. split; [reflexivity|]. simpl. split; [|reflexivity].
    intros Hnil. apply (f_equal length) in Hnil. rewrite length_insert in Hnil.
    destruct (shard_data_ t0); [contradiction|discriminate].
Qed.


Lemma touched_from_elem sds : forall i0 j,
  j ∈ touched_from i0 sds <->
  i0 <= j /\ exists sd, sds !! (j - i0) = Some sd /\ arg_count sd <> 0%Z.
Proof.
  induction sds as [|sd sds IH]; intros i0 j; cbn [touched_from].
  - split; [intros Hin; inversion Hin|]. intros (_ & sd & Hsd & _). discriminate.
  - assert (Hrest : j ∈ touched_from (S i0) sds <->
              i0 < j /\ exists sd', (sd :: sds) !! (j - i0) = Some sd'
                                    /\ arg_count sd' <> 0%Z).
    { rewrite IH. split.
      - intros (Hle & sd' & Hsd' & Hac). split; [lia|]. exists sd'. split; [|exact Hac].
        replace (j - i0) with (S (j - S i0)) by lia. exact Hsd'.
      - intros (Hlt & sd' & Hsd' & Hac). split; [lia|]. exists sd'. split; [|exact Hac].
        replace (j - i0) with (S (j - S i0)) in Hsd' by lia. exact Hsd'. }
    destruct (Z.eqb_spec (arg_count sd) 0) as [E|E].
    + rewrite Hrest. split.
      * intros (Hlt & Hex). split; [lia|exact Hex].
      * intros (Hle & sd' & Hsd' & Hac). split; [|eauto].
        destruct (decide (j = i0)) as [->|]; [|lia].
        rewrite Nat.sub_diag in Hsd'. simpl in Hsd'. congruence.
    + rewrite elem_of_cons, Hrest. split.
      * intros [->|(Hlt & Hex)]; [|split; [lia|exact Hex]].
        split; [lia|]. exists sd. rewrite Nat.sub_diag. auto.
      * intros (Hle & Hex). destruct (decide (j = i0)) as [->|]; [left; reflexivity|].
        right. split; [lia|exact Hex].
Qed.

(** X14. What [ExecuteAsync] arms and where it posts its callback: every
    shard that gets the callback finds the slot that it reads through
    [GetLocalMask] armed; the slots of no such shard are left as they are;
    arming touches no other flag, no slice and no queue position. When
    [unique_shard_cnt_] counts the shards of the transaction (all of them
    for a global one, those with arguments otherwise), the callbacks are
    as many as the [run_count_] that [ExecuteAsync] stores. *)
Theorem ExecuteAsync_arms t t1 :
  ExecuteAsync_arm L t = Some t1 ->
  (IsGlobal t = true -> length (shard_data_ t) = unique_shard_cnt_ t) ->
  (forall i, i ∈ ExecuteAsync_targets t ->
     exists m, GetLocalMask t1 i = Some m /\ Bits.has m (ARMED L) = true) /\
  (forall k, (forall i, i ∈ ExecuteAsync_targets t -> SidToId t i <> k) ->
     shard_data_ t1 !! k = shard_data_ t !! k) /\
  same_routing t t1 /\
  Forall2 (fun sd sd1 =>
             pq_pos sd1 = pq_pos sd /\
             Bits.clear (local_mask sd1) (ARMED L) = Bits.clear (local_mask sd) (ARMED L))
          (shard_data_ t) (shard_data_ t1) /\
  ((IsGlobal t = false -> length (touched_shards t) = unique_shard_cnt_ t) ->
     length (ExecuteAsync_targets t) = unique_shard_cnt_ t).
Proof.
  intros H Hglob.
  assert (Harm : forall m, Bits.has (Bits.set m (ARMED L)) (ARMED L) = true).
  { clear - HL. bits_facts HL. intros m. apply has_set_same. bit_side. }
  assert (Hclr : forall m, Bits.clear (Bits.set m (ARMED L)) (ARMED L)
                           = Bits.clear m (ARMED L)).
  { clear - HL. bits_facts HL. intros m. apply Z.bits_inj'. intros i Hi.
    unfold ARMED. rewrite !testbit_clear, testbit_set by assumption.
    destruct (Z.eqb_spec (armed_bit L) i); simpl;
      rewrite ?andb_false_r, ?orb_false_r; reflexivity. }
  unfold ExecuteAsync_arm in H. unfold ExecuteAsync_targets, GetLocalMask.
  destruct (Nat.eqb_spec (unique_shard_cnt_ t) 1) as [E1|E1].
  - destruct (shard_data_ t !! SidToId t (unique_shard_id_ t)) as [sd|] eqn:Hsd;
      simpl in H; [|discriminate].
    injection H as <-.
    assert (Hlt : SidToId t (unique_shard_id_ t) < length (shard_data_ t))
      by (eapply lookup_lt_Some; eassumption).
    assert (Htgt : forall i,
              i ∈ (if negb (IsGlobal t) && true then [unique_shard_id_ t]
                   else if IsGlobal t then seq 0 (length (shard_data_ t))
                        else touched_from 0 (shard_data_ t)) ->
              SidToId t i = SidToId t (unique_shard_id_ t)).
    { intros i Hi. destruct (IsGlobal t) eqn:Hg; simpl in Hi.
      - rewrite (Hglob eq_refl), E1 in Hi. simpl in Hi.
        unfold SidToId. rewrite (Hglob eq_refl), E1.
        apply list_elem_of_singleton in Hi. subst i.
        destruct (unique_shard_id_ t) as [|u]; reflexivity.
      - apply list_elem_of_singleton in Hi. subst i. reflexivity. }
    split; [|split; [|split; [|split]]].
    + intros i Hi. rewrite SidToId_set_slot, (Htgt i Hi).
      rewrite (lookup_set_slot _ _ _ _ Hsd). simpl. eexists. split; [reflexivity|].
      apply Harm.
    + intros k Hk. unfold set_slot. simpl. apply list_lookup_insert_ne.
      assert (Hex : exists i0,
                i0 ∈ (if negb (IsGlobal t) && true then [unique_shard_id_ t]
                      else if IsGlobal t then seq 0 (length (shard_data_ t))
                           else touched_from 0 (shard_data_ t))).
      { destruct (IsGlobal t) eqn:Hg; simpl.
        - exists 0. rewrite (Hglob eq_refl), E1. simpl. left.
        - exists (unique_shard_id_ t). left. }
      destruct Hex as [i0 Hi0]. rewrite <- (Htgt i0 Hi0). apply Hk. exact Hi0.
    + apply (same_routing_set_slot _ _ sd); [assumption|reflexivity|reflexivity].
    + unfold set_slot. simpl. apply Forall2_lookup. intros k.
      destruct (decide (k = SidToId t (unique_shard_id_ t))) as [->|Hne].
      * rewrite list_lookup_insert_eq, Hsd by assumption. constructor. simpl.
        split; [reflexivity|apply Hclr].
      * rewrite list_lookup_insert_ne by congruence.
        destruct (shard_data_ t !! k); constructor. split; reflexivity.
    + intros Htouched. destruct (IsGlobal t) eqn:Hg; simpl.
      * rewrite length_seq. apply Hglob. reflexivity.
      * rewrite E1. reflexivity.
  - injection H as <-. rewrite andb_false_r.
    split; [|split; [|split; [|split]]].
    + intros i Hi.
      assert (Hslot : exists sd, shard_data_ t !! i = Some sd /\
                (negb (IsGlobal t) && (arg_count sd =? 0)%Z) = false).
      { destruct (IsGlobal t) eqn:Hg.
        - apply elem_of_seq in Hi.
          destruct (lookup_lt_is_Some_2 (shard_data_ t) i) as [sd Hsd]; [lia|]. eauto.
        - apply touched_from_elem in Hi as (_ & sd & Hsd & Hac).
          rewrite Nat.sub_0_r in Hsd. exists sd. split; [exact Hsd|]. simpl.
          apply Z.eqb_neq. exact Hac. }
      destruct Hslot as (sd & Hsd & Hcond).
      assert (Hi' : i < length (shard_data_ t)) by (eapply lookup_lt_Some; eassumption).
      unfold SidToId. simpl. rewrite length_fmap.
      destruct (Nat.ltb_spec i (length (shard_data_ t))); [|lia].
      rewrite list_lookup_fmap, Hsd. simpl. rewrite Hcond. simpl.
      eexists. split; [reflexivity|]. apply Harm.
    + intros k Hk. simpl. rewrite list_lookup_fmap.
      destruct (shard_data_ t !! k) as [sd|] eqn:Hsd; [|reflexivity]. simpl.
      assert (Hk' : k < length (shard_data_ t)) by (eapply lookup_lt_Some; eassumption).
      assert (Hsid : SidToId t k = k).
      { unfold SidToId. destruct (Nat.ltb_spec k (length (shard_data_ t))); [reflexivity|lia]. }
      destruct (IsGlobal t) eqn:Hg.
      * exfalso. apply (Hk k); [|exact Hsid]. apply elem_of_seq. lia.
      * simpl. destruct (Z.eqb_spec (arg_count sd) 0) as [|Hac]; [reflexivity|].
        exfalso. apply (Hk k); [|exact Hsid]. apply touched_from_elem.
        split; [lia|]. exists sd. rewrite Nat.sub_0_r. auto.
    + unfold same_routing. simpl. repeat split; try reflexivity.
      rewrite <- list_fmap_compose. apply list_fmap_ext. intros k sd _. simpl.
      destruct (negb (IsGlobal t) && (arg_count sd =? 0)%Z); reflexivity.
    + simpl. apply Forall2_fmap_r. apply Forall_Forall2_diag. apply Forall_forall.
      intros sd _. unfold compose.
      match goal with |- context [if ?c then _ else _] => destruct c end; simpl;
        (split; [reflexivity|]); [reflexivity|apply Hclr].
    + intros Htouched. destruct (IsGlobal t) eqn:Hg.
      * rewrite length_seq. apply Hglob. reflexivity.
      * rewrite <- (Htouched eq_refl). unfold touched_shards.
        destruct (Nat.eqb_spec (unique_shard_cnt_ t) 1); [contradiction|reflexivity].
Qed.

End HopFacts.

Section MultiBarrier.

Variable Shard : string -> nat -> ShardId.
Variable PollExecution : EngineShard -> EngineShard.
Variable ProcessAwakened : option Transaction -> EngineShard -> EngineShard.
Variable ShutdownMulti : Transaction -> EngineShard -> EngineShard.

(** X15. The barrier of [UnlockMulti]: it adds the number of slots to
    [run_count_] and each of its callbacks, one per slot, takes one off, so
    that [run_count_] is at the end what it was. With a slot for every
    shard the function comes back for every multi transaction: it has no
    [CHECK] that could fail. *)
Theorem UnlockMulti_run_count n t shards :
  (0 <= run_count_ t)%Z ->
  (run_count_ t + Z.of_nat (length (shard_data_ t)) < 2 ^ 32)%Z ->
  (forall t' shards',
     UnlockMulti Shard PollExecution ProcessAwakened ShutdownMulti n t shards
       = Some (t', shards') ->
     run_count_ t' = run_count_ t) /\
  (is_Some (multi_ t) -> length (shard_data_ t) <= length shards ->
   is_Some (UnlockMulti Shard PollExecution ProcessAwakened ShutdownMulti n t shards)).
Proof.
  intros Hrc Hsmall. split.
  - intros t' shards' H. unfold UnlockMulti in H.
    destruct (multi_ t) as [m|]; simpl in H; [|discriminate].
    apply (ess_Add_each_run_count _ false) in H.
    + destruct H as [_ H]. simpl in H. rewrite length_seq, trunc32_id in H by lia.
      rewrite H by lia. lia.
    + intros t0 sh t1 sh1 Hc. unfold unlock_multi_cb in Hc.
      destruct (unlock_multi_core Shard n m t0 sh) as [[tc shc]|] eqn:Hcore;
        simpl in Hc; [|discriminate].
      injection Hc as <- <-. simpl. split; [|discriminate].
      unfold unlock_multi_core in Hcore.
      destruct (shard_data_ t0 !! _) as [sd|]; simpl in Hcore; [|discriminate].
      destruct (negb (pq_pos sd =? kEnd)%Z); injection Hcore as <- _; reflexivity.
    + simpl. rewrite trunc32_id by lia. lia.
  - intros [m Hm] Hlen. unfold UnlockMulti. rewrite Hm. simpl.
    destruct (shard_data_ t) as [|sd0 sds] eqn:Hsds; [simpl; eauto|].
    rewrite <- Hsds in *.
    assert (Hne0 : shard_data_ t <> []) by (rewrite Hsds; discriminate).
    clear Hsds.
    apply (ess_Add_each_total _ (fun t0 => shard_data_ t0 <> [])).
    + intros t0 sh Hne _. unfold unlock_multi_cb, unlock_multi_core.
      destruct (slot_of_shard_exists t0 (shard_id sh) Hne) as [sd Hsd].
      rewrite Hsd. simpl.
      destruct (negb (pq_pos sd =? kEnd)%Z); simpl.
      all: do 2 eexists; split; [reflexivity|]; simpl; split; [|reflexivity].
      all: intros Hnil; apply (f_equal length) in Hnil; rewrite length_insert in Hnil.
      all: destruct (shard_data_ t0); [contradiction|discriminate].
    + exact Hne0.
    + simpl. rewrite trunc32_id by lia. lia.
    + simpl. rewrite length_seq, trunc32_id by lia. lia.
    + intros i Hi. apply elem_of_seq in Hi. lia.
Qed.

End MultiBarrier.

Section SingleHop.

Context (L : LocalStateBits) (C : CoordinatorStateBits).
Variable PollExecution : EngineShard -> EngineShard.
Variable PollExecutionOf :
  (Transaction -> EngineShard -> option (OpStatus * Transaction * EngineShard)) ->
  Transaction -> EngineShard -> option (Transaction * EngineShard).
Variable await_run_count :
  Transaction * list EngineShard -> Transaction * list EngineShard.
Hypothesis HL : local_state_ok L = true.

(** X16. The fast path of [ScheduleSingleHop]: for a transaction that is
    not multi, not global and touches one shard, whose keys nobody has
    locked, the callback runs at once on that shard with the slot armed
    and [run_count_] at 1, and the function answers with the status of the
    callback. It draws no transaction id, leaves the callback unset, the
    slot disarmed and [run_count_] at zero, and on the shards it changes
    only what the callback changed on its own. *)
Theorem ScheduleSingleHop_eager cb fuel op_seq t shards shard sd status tc shc sdc :
  unique_shard_cnt_ t = 1 -> IsGlobal t = false -> is_multi t = false ->
  run_count_ t = 0%Z ->
  shard_data_ t !! 0 = Some sd ->
  shards !! unique_shard_id_ t = Some shard ->
  db_CheckLock (TxMode t) (GetLockArgs t (shard_id shard)) (lock_table shard) = true ->
  cb (with_run_count 1
        (set_slot 0 (arm L sd)
           (with_coordinator_state
              (Bits.set (coordinator_state_ t)
                 (Z.lor (COORD_EXEC C) (COORD_EXEC_CONCLUDING C)))
              (with_cb true t)))) shard = Some (status, tc, shc) ->
  shard_data_ tc !! 0 = Some sdc ->
  run_count_ tc = 1%Z ->
  exists t' sd',
    ScheduleSingleHop L C PollExecution PollExecutionOf await_run_count
      cb fuel op_seq t shards
    = Some (op_seq, t', <[unique_shard_id_ t := shc]> shards, status) /\
    txid_ t' = txid_ tc /\
    local_result_ t' = status /\
    cb_set t' = false /\
    run_count_ t' = 0%Z /\
    shard_data_ t' !! 0 = Some sd' /\
    local_mask sd' = Bits.clear (local_mask sdc) (ARMED L) /\
    pq_pos sd' = pq_pos sdc.
Proof.
  intros Hcnt Hg Hm Hrc Hsd Hshard Hlock Hcb Hsdc Hrc1.
  unfold ScheduleSingleHop. simpl.
  rewrite Hcnt. change (IsGlobal _) with (IsGlobal t). rewrite Hg.
  change (is_multi _) with (is_multi t). rewrite Hm. simpl.
  rewrite Hsd. simpl. rewrite Hshard. simpl. rewrite Hrc. simpl.
  unfold ScheduleUniqueShard. simpl.
  change (TxMode _) with (TxMode t).
  unfold GetLockArgs, ShardArgsInShard in Hlock |- *. simpl.
  rewrite Hcnt in Hlock |- *. simpl in Hlock |- *. rewrite Hlock.
  unfold RunQuickie. simpl.
  unfold Bits.trunc. change ((0 + 1) mod 2 ^ 32)%Z with 1%Z.
  unfold set_slot in Hcb |- *. simpl in Hcb |- *. rewrite Hcb. simpl.
  rewrite Hsdc. simpl.
  destruct (shard_data_ t) as [|sd0 rest]; [discriminate Hsd|]. simpl.
  rewrite Hrc1. simpl.
  unfold WaitForShardCallbacks. simpl.
  do 2 eexists. split; [reflexivity|]. simpl.
  repeat (split; [reflexivity|]).
  rewrite list_lookup_insert_eq by (eapply lookup_lt_Some; eassumption).
  split; [reflexivity|]. split; reflexivity.
Qed.

End SingleHop.

(** * Finding the first key *)

Section FindFirstFacts.

Lemma Process_loop_spec t frs : forall sid0 min res,
  (forall k fr, frs !! k = Some fr -> holds_key fr ->
     is_Some (ReverseArgIndex t (sid0 + k) (fr_pos fr))) ->
  match Process_loop t frs sid0 min res with
  | None => False
  | Some (inl status) =>
    status = WRONG_TYPE /\ exists k fr, frs !! k = Some fr /\ fr_status fr = WRONG_TYPE
  | Some (inr (min', res')) =>
    (forall k fr, frs !! k = Some fr -> fr_status fr <> WRONG_TYPE) /\
    ((min' = min /\ res' = res /\
      forall k fr r, frs !! k = Some fr -> holds_key fr ->
        ReverseArgIndex t (sid0 + k) (fr_pos fr) = Some r -> (min <= Z.of_nat r)%Z) \/
     ((min' < min)%Z /\
      exists k fr r, frs !! k = Some fr /\ holds_key fr /\
        ReverseArgIndex t (sid0 + k) (fr_pos fr) = Some r /\
        min' = Z.of_nat r /\ res' = Some (sid0 + k, fr_it fr) /\
        forall k' fr' r', frs !! k' = Some fr' -> holds_key fr' ->
          ReverseArgIndex t (sid0 + k') (fr_pos fr') = Some r' ->
          r <= r' /\ (r' = r -> k <= k')))
  end.
Proof.
  induction frs as [|fr rest IH]; intros sid0 min res Hvalid.
  - simpl. split; [intros k fr Hk; discriminate|]. left.
    split; [reflexivity|]. split; [reflexivity|]. intros k fr r Hk. discriminate.
  - cbn [Process_loop].
    assert (Hvalid' : forall k fr', rest !! k = Some fr' -> holds_key fr' ->
              is_Some (ReverseArgIndex t (S sid0 + k) (fr_pos fr'))).
    { intros k fr' Hk Hh. replace (S sid0 + k) with (sid0 + S k) by lia.
      apply (Hvalid (S k)); assumption. }
    assert (Hskip : fr_status fr = KEY_NOTFOUND ->
      match Process_loop t rest (S sid0) min res with
      | None => False
      | Some (inl status) =>
        status = WRONG_TYPE /\
        exists k fr0, (fr :: rest) !! k = Some fr0 /\ fr_status fr0 = WRONG_TYPE
      | Some (inr (min', res')) =>
        (forall k fr0, (fr :: rest) !! k = Some fr0 -> fr_status fr0 <> WRONG_TYPE) /\
        ((min' = min /\ res' = res /\
          forall k fr0 r, (fr :: rest) !! k = Some fr0 -> holds_key fr0 ->
            ReverseArgIndex t (sid0 + k) (fr_pos fr0) = Some r -> (min <= Z.of_nat r)%Z) \/
         ((min' < min)%Z /\
          exists k fr0 r, (fr :: rest) !! k = Some fr0 /\ holds_key fr0 /\
            ReverseArgIndex t (sid0 + k) (fr_pos fr0) = Some r /\
            min' = Z.of_nat r /\ res' = Some (sid0 + k, fr_it fr0) /\
            forall k' fr' r', (fr :: rest) !! k' = Some fr' -> holds_key fr' ->
              ReverseArgIndex t (sid0 + k') (fr_pos fr') = Some r' ->
              r <= r' /\ (r' = r -> k <= k')))
      end).
    { intros Hst. specialize (IH (S sid0) min res Hvalid').
      destruct (Process_loop t rest (S sid0) min res) as [[st|[min' res']]|];
        [| |exact IH].
      - destruct IH as (-> & k & fr0 & Hk & Hw). split; [reflexivity|].
        exists (S k), fr0. auto.
      - destruct IH as (Hnw & IH). split.
        + intros [|k] fr0 Hk; simpl in Hk; [injection Hk as <-; congruence|eauto].
        + destruct IH as [(-> & -> & Hmin)|(Hlt & k & fr0 & r & Hk & Hh & Hr & -> & -> & Hbest)].
          * left. split; [reflexivity|]. split; [reflexivity|].
            intros [|k] fr0 r Hk Hh Hr; simpl in Hk.
            -- injection Hk as <-. destruct Hh as [Hh _]. contradiction.
            -- replace (sid0 + S k) with (S sid0 + k) in Hr by lia. eauto.
          * right. split; [assumption|]. exists (S k), fr0, r.
            replace (sid0 + S k) with (S sid0 + k) by lia.
            split; [exact Hk|]. split; [exact Hh|]. split; [exact Hr|].
            split; [reflexivity|]. split; [reflexivity|].
            intros [|k'] fr' r' Hk' Hh' Hr'; simpl in Hk'.
            -- injection Hk' as <-. destruct Hh' as [Hh' _]. contradiction.
            -- replace (sid0 + S k') with (S sid0 + k') in Hr' by lia.
               destruct (Hbest k' fr' r' Hk' Hh' Hr') as [H1 H2]. split; [exact H1|].
               intros E. specialize (H2 E). lia. }
    assert (Hkey : holds_key fr ->
      match
        ReverseArgIndex t sid0 (fr_pos fr) ≫= (fun arg_indx =>
          if (Z.of_nat arg_indx <? min)%Z
          then Process_loop t rest (S sid0) (Z.of_nat arg_indx) (Some (sid0, fr_it fr))
          else Process_loop t rest (S sid0) min res)
      with
      | None => False
      | Some (inl status) =>
        status = WRONG_TYPE /\
        exists k fr0, (fr :: rest) !! k = Some fr0 /\ fr_status fr0 = WRONG_TYPE
      | Some (inr (min', res')) =>
        (forall k fr0, (fr :: rest) !! k = Some fr0 -> fr_status fr0 <> WRONG_TYPE) /\
        ((min' = min /\ res' = res /\
          forall k fr0 r, (fr :: rest) !! k = Some fr0 -> holds_key fr0 ->
            ReverseArgIndex t (sid0 + k) (fr_pos fr0) = Some r -> (min <= Z.of_nat r)%Z) \/
         ((min' < min)%Z /\
          exists k fr0 r, (fr :: rest) !! k = Some fr0 /\ holds_key fr0 /\
            ReverseArgIndex t (sid0 + k) (fr_pos fr0) = Some r /\
            min' = Z.of_nat r /\ res' = Some (sid0 + k, fr_it fr0) /\
            forall k' fr' r', (fr :: rest) !! k' = Some fr' -> holds_key fr' ->
              ReverseArgIndex t (sid0 + k') (fr_pos fr') = Some r' ->
              r <= r' /\ (r' = r -> k <= k')))
      end).
    { intros Hh.
      destruct (Hvalid 0 fr eq_refl Hh) as [r0 Hr0].
      rewrite Nat.add_0_r in Hr0. rewrite Hr0. simpl.
      destruct (Z.ltb_spec (Z.of_nat r0) min) as [Hlt|Hge].
      - specialize (IH (S sid0) (Z.of_nat r0) (Some (sid0, fr_it fr)) Hvalid').
        destruct (Process_loop t rest (S sid0) (Z.of_nat r0) (Some (sid0, fr_it fr)))
          as [[st|[min' res']]|]; [| |exact IH].
        + destruct IH as (-> & k & fr0 & Hk & Hw). split; [reflexivity|].
          exists (S k), fr0. auto.
        + destruct IH as (Hnw & IH). split.
          { intros [|k] fr0 Hk; simpl in Hk; [injection Hk as <-; apply Hh|eauto]. }
          right.
          destruct IH as [(-> & -> & Hmin)|(Hlt' & k & fr0 & r & Hk & Hh0 & Hr & -> & -> & Hbest)].
          * split; [exact Hlt|]. exists 0, fr, r0. rewrite Nat.add_0_r.
            split; [reflexivity|]. split; [exact Hh|]. split; [exact Hr0|].
            split; [reflexivity|]. split; [reflexivity|].
            intros [|k'] fr' r' Hk' Hh' Hr'; simpl in Hk'.
            -- injection Hk' as <-. rewrite Nat.add_0_r in Hr'.
               assert (r' = r0) by congruence. subst r'. split; [lia|lia].
            -- replace (sid0 + S k') with (S sid0 + k') in Hr' by lia.
               specialize (Hmin k' fr' r' Hk' Hh' Hr'). split; lia.
          * split; [lia|]. exists (S k), fr0, r.
            replace (sid0 + S k) with (S sid0 + k) by lia.
            split; [exact Hk|]. split; [exact Hh0|]. split; [exact Hr|].
            split; [reflexivity|]. split; [reflexivity|].
            intros [|k'] fr' r' Hk' Hh' Hr'; simpl in Hk'.
            -- injection Hk' as <-. rewrite Nat.add_0_r in Hr'.
               assert (r' = r0) by congruence. subst r'. split; lia.
            -- replace (sid0 + S k') with (S sid0 + k') in Hr' by lia.
               destruct (Hbest k' fr' r' Hk' Hh' Hr') as [H1 H2]. split; [exact H1|].
               intros E. specialize (H2 E). lia.
      - specialize (IH (S sid0) min res Hvalid').
        destruct (Process_loop t rest (S sid0) min res) as [[st|[min' res']]|];
          [| |exact IH].
        + destruct IH as (-> & k & fr0 & Hk & Hw). split; [reflexivity|].
          exists (S k), fr0. auto.
        + destruct IH as (Hnw & IH). split.
          { intros [|k] fr0 Hk; simpl in Hk; [injection Hk as <-; apply Hh|eauto]. }
          destruct IH as [(-> & -> & Hmin)|(Hlt' & k & fr0 & r & Hk & Hh0 & Hr & -> & -> & Hbest)].
          * left. split; [reflexivity|]. split; [reflexivity|].
            intros [|k] fr0 r Hk Hh0 Hr; simpl in Hk.
            -- injection Hk as <-. rewrite Nat.add_0_r in Hr.
               assert (r = r0) by congruence. subst r. lia.
            -- replace (sid0 + S k) with (S sid0 + k) in Hr by lia. eauto.
          * right. split; [assumption|]. exists (S k), fr0, r.
            replace (sid0 + S k) with (S sid0 + k) by lia.
            split; [exact Hk|]. split; [exact Hh0|]. split; [exact Hr|].
            split; [reflexivity|]. split; [reflexivity|].
            intros [|k'] fr' r' Hk' Hh' Hr'; simpl in Hk'.
            -- injection Hk' as <-. rewrite Nat.add_0_r in Hr'.
               assert (r' = r0) by congruence. subst r'. split; lia.
            -- replace (sid0 + S k') with (S sid0 + k') in Hr' by lia.
               destruct (Hbest k' fr' r' Hk' Hh' Hr') as [H1 H2]. split; [exact H1|].
               intros E. specialize (H2 E). lia. }
    destruct (fr_status fr) eqn:Hst.
    + apply Hkey. split; congruence.
    + apply Hskip. reflexivity.
    + split; [reflexivity|]. exists 0, fr. auto.
    + apply Hkey. split; congruence.
Qed.


(** X17. What [FindFirstProcessor::Process] answers, when the positions
    that the shards report lie in their slices: WRONG_TYPE as soon as one
    shard reports it; else KEY_NOTFOUND when no shard holds a key whose
    index in the caller's order is below [UINT32_MAX]; else the shard and
    the iterator of the key with the least such index, the shard with the
    least id among several with that index. *)
Theorem Process_spec p t :
  (forall sid fr, find_res_ p !! sid = Some fr -> holds_key fr ->
     is_Some (ReverseArgIndex t sid (fr_pos fr))) ->
  exists out,
    Process p t = Some out /\
    match out with
    | not_found status =>
      (status = WRONG_TYPE /\
       exists sid fr, find_res_ p !! sid = Some fr /\ fr_status fr = WRONG_TYPE) \/
      (status = KEY_NOTFOUND /\
       (forall sid fr, find_res_ p !! sid = Some fr -> fr_status fr <> WRONG_TYPE) /\
       forall sid fr r, find_res_ p !! sid = Some fr -> holds_key fr ->
         ReverseArgIndex t sid (fr_pos fr) = Some r -> (2 ^ 32 - 1 <= Z.of_nat r)%Z)
    | first_found sid it =>
      (forall sid' fr, find_res_ p !! sid' = Some fr -> fr_status fr <> WRONG_TYPE) /\
      exists fr r,
        find_res_ p !! sid = Some fr /\ holds_key fr /\ it = fr_it fr /\
        ReverseArgIndex t sid (fr_pos fr) = Some r /\
        (Z.of_nat r < 2 ^ 32 - 1)%Z /\
        forall sid' fr' r', find_res_ p !! sid' = Some fr' -> holds_key fr' ->
          ReverseArgIndex t sid' (fr_pos fr') = Some r' ->
          r <= r' /\ (r' = r -> sid <= sid')
    end.
Proof.
  intros Hvalid. unfold Process.
  pose proof (Process_loop_spec t (find_res_ p) 0 (2 ^ 32 - 1) None Hvalid) as H.
  destruct (Process_loop t (find_res_ p) 0 (2 ^ 32 - 1) None) as [[st|[min' res']]|];
    [| |contradiction]; simpl.
  - destruct H as (-> & k & fr & Hk & Hw). eexists. split; [reflexivity|].
    left. split; [reflexivity|]. eauto.
  - destruct H as (Hnw & [(-> & -> & Hmin)|(Hlt & k & fr & r & Hk & Hh & Hr & -> & -> & Hbest)]).
    + eexists. split; [reflexivity|]. right. split; [reflexivity|].
      split; [exact Hnw|]. intros sid fr r Hk Hh Hr. apply (Hmin sid fr r Hk Hh Hr).
    + eexists. split; [reflexivity|]. simpl. split; [exact Hnw|].
      exists fr, r. split; [exact Hk|]. split; [exact Hh|]. split; [reflexivity|].
      split; [exact Hr|]. split; [exact Hlt|]. exact Hbest.
Qed.

End FindFirstFacts.

(** * The scheduler: a round, its cancellation, and the end of the loop *)

Lemma txq_fresh_pos_gt q : Forall (fun e => (qe_pos e < txq_fresh_pos q)%Z) q.
Proof.
  unfold txq_fresh_pos. induction q as [|x q IH]; [constructor|].
  simpl. constructor; [lia|]. eapply Forall_impl; [exact IH|]. simpl. intros e He. lia.
Qed.

Lemma txq_fresh_pos_bounds q :
  queue_positions_ok q -> (0 <= txq_fresh_pos q < kEnd)%Z.
Proof.
  unfold txq_fresh_pos, queue_positions_ok. induction 1 as [|x q Hx _ IH]; simpl.
  - unfold kEnd. lia.
  - lia.
Qed.

Lemma txq_Remove_place e q :
  Forall (fun x => qe_pos x <> qe_pos e) q ->
  txq_Remove (qe_pos e) (txq_place e q) = q.
Proof.
  unfold txq_Remove. induction 1 as [|x q Hx Hq IH]; simpl.
  - rewrite filter_cons. destruct (decide (qe_pos e <> qe_pos e)); [contradiction|reflexivity].
  - destruct (qe_score e <? qe_score x)%Z.
    + rewrite filter_cons. destruct (decide (qe_pos e <> qe_pos e)); [contradiction|].
      rewrite filter_cons. destruct (decide (qe_pos x <> qe_pos e)); [|contradiction].
      f_equal. clear IH. induction Hq as [|y q Hy Hq IH]; [reflexivity|].
      rewrite filter_cons. destruct (decide (qe_pos y <> qe_pos e)); [|contradiction].
      f_equal. exact IH.
    + rewrite filter_cons. destruct (decide (qe_pos x <> qe_pos e)); [|contradiction].
      f_equal. exact IH.
Qed.

Lemma txq_Remove_Insert score trans q :
  txq_Remove (txq_Insert score trans q).1 (txq_Insert score trans q).2 = q.
Proof.
  unfold txq_Insert. simpl.
  apply (txq_Remove_place (mkQueueEntry (txq_fresh_pos q) score trans)).
  eapply Forall_impl; [apply txq_fresh_pos_gt|]. simpl. intros x Hx. lia.
Qed.

Lemma txq_place_elem e q : e ∈ txq_place e q.
Proof.
  induction q as [|x q IH]; simpl; [left|].
  destruct (qe_score e <? qe_score x)%Z; [left|right; exact IH].
Qed.

Section SchedulerRounds.

Context (L : LocalStateBits) (C : CoordinatorStateBits).
Hypothesis HL : local_state_ok L = true.

(** One attempt, seen from the slot and the shard that it works on. *)
Lemma ScheduleInShard_local t sh sd :
  shard_data_ t !! SidToId t (shard_id sh) = Some sd ->
  exists sd' sh' r,
    ScheduleInShard L t sh = Some (set_slot (SidToId t (shard_id sh)) sd' t, sh', r) /\
    arg_start sd' = arg_start sd /\ arg_count sd' = arg_count sd /\
    committed_txid sh' = committed_txid sh /\ shard_id sh' = shard_id sh /\
    shard_lock sh' = shard_lock sh /\ watched sh' = watched sh /\
    (r.1 = true ->
       txq sh' = (txq_Insert (txid_ t) (this t) (txq sh)).2 /\
       pq_pos sd' = txq_fresh_pos (txq sh) /\
       lock_table sh'
       = (if IsGlobal t then lock_table sh
          else (db_Acquire (TxMode t) (GetLockArgs t (shard_id sh)) (lock_table sh)).2) /\
       local_mask sd'
       = (if IsGlobal t then local_mask sd
          else Bits.set (local_mask sd) (KEYLOCK_ACQUIRED L))) /\
    (r.1 = false ->
       txq sh' = txq sh /\ pq_pos sd' = pq_pos sd /\
       (forall db k, lock_table sh' db k = lock_table sh db k) /\
       (Bits.has (local_mask sd) (KEYLOCK_ACQUIRED L) = false ->
        Bits.has (local_mask sd') (KEYLOCK_ACQUIRED L) = false)) /\
    ((committed_txid sh < txid_ t)%Z ->
     txq sh = [] \/ (txq_TailScore (txq sh) < txid_ t)%Z -> r.1 = true).
Proof.
  intros Hsd. unfold ScheduleInShard.
  destruct (Z.leb_spec (txid_ t) (committed_txid sh)) as [Hle|Hgt].
  { exists sd, sh, (false, false). rewrite (set_slot_id _ _ _ Hsd).
    split; [reflexivity|]. do 6 (split; [reflexivity|]).
    split; [discriminate|]. split; [intros _; repeat split; auto|]. intros Hlt. lia. }
  rewrite Hsd. simpl.
  assert (Hfailed : forall lg : bool,
             negb (txq_Empty (txq sh))
             && negb (lg || (txq_TailScore (txq sh) <? txid_ t)%Z) = true ->
             ~ (txq sh = [] \/ (txq_TailScore (txq sh) < txid_ t)%Z)).
  { intros lg Hf [Hnil|Hlt].
    - rewrite Hnil in Hf. discriminate.
    - apply Z.ltb_lt in Hlt. rewrite Hlt, orb_true_r, andb_false_r in Hf. discriminate. }
  destruct (IsGlobal t) eqn:Hg.
  - destruct (negb (txq_Empty (txq sh))
              && negb (false || (txq_TailScore (txq sh) <? txid_ t)%Z)) eqn:Hfail.
    + apply Hfailed in Hfail.
      destruct (Bits.has (local_mask sd) (KEYLOCK_ACQUIRED L)) eqn:HK0.
      * do 3 eexists. split; [reflexivity|]. simpl. do 6 (split; [reflexivity|]).
        split; [discriminate|]. split; [|intros _ Hok; contradiction].
        intros _. split; [reflexivity|]. split; [reflexivity|].
        split; [reflexivity|discriminate].
      * do 3 eexists. split; [reflexivity|]. simpl. do 6 (split; [reflexivity|]).
        split; [discriminate|]. split; [|intros _ Hok; contradiction].
        intros _. split; [reflexivity|]. split; [reflexivity|].
        split; [reflexivity|]. intros _. exact HK0.
    + do 3 eexists. split; [reflexivity|]. simpl. do 6 (split; [reflexivity|]).
      split; [auto|]. split; [discriminate|auto].
  - destruct (db_Acquire (TxMode t) (GetLockArgs t (shard_id sh)) (lock_table sh))
      as [acquired lt] eqn:Hacq.
    assert (HK : Bits.has (Bits.set (local_mask sd) (KEYLOCK_ACQUIRED L))
                   (KEYLOCK_ACQUIRED L) = true).
    { clear - HL. bits_facts HL. apply has_set_same. bit_side. }
    destruct (negb (txq_Empty (txq sh))
              && negb (acquired && IntentLock_Check (TxMode t) (shard_lock sh)
                       || (txq_TailScore (txq sh) <? txid_ t)%Z)) eqn:Hfail.
    + apply Hfailed in Hfail. rewrite HK.
      do 3 eexists. split; [reflexivity|]. simpl. do 6 (split; [reflexivity|]).
      split; [discriminate|]. split; [|intros _ Hok; contradiction].
      intros _. split; [reflexivity|]. split; [reflexivity|]. split.
      * intros db k.
        pose proof (db_Release_Acquire (TxMode t) (GetLockArgs t (shard_id sh))
                      (lock_table sh) db k) as Hrel.
        rewrite Hacq in Hrel. exact Hrel.
      * intros _. clear - HL. bits_facts HL. apply has_clear_same. bit_side.
    + do 3 eexists. split; [reflexivity|]. simpl. do 6 (split; [reflexivity|]).
      split; [auto|]. split; [discriminate|auto].
Qed.

(** A cancellation, seen from the slot and the shard that it works on. *)
Lemma CancelInShard_local t sh sd :
  shard_data_ t !! SidToId t (shard_id sh) = Some sd ->
  exists sd' sh',
    CancelInShard L t sh
    = Some (set_slot (SidToId t (shard_id sh)) sd' t, sh', negb (pq_pos sd =? kEnd)%Z) /\
    pq_pos sd' = kEnd /\
    arg_start sd' = arg_start sd /\ arg_count sd' = arg_count sd /\
    committed_txid sh' = committed_txid sh /\ shard_id sh' = shard_id sh /\
    shard_lock sh' = shard_lock sh /\ watched sh' = watched sh /\
    txq sh' = (if (pq_pos sd =? kEnd)%Z then txq sh else txq_Remove (pq_pos sd) (txq sh)) /\
    lock_table sh'
    = (if negb (pq_pos sd =? kEnd)%Z && Bits.has (local_mask sd) (KEYLOCK_ACQUIRED L)
       then db_Release (TxMode t) (GetLockArgs t (shard_id sh)) (lock_table sh)
       else lock_table sh) /\
    local_mask sd'
    = (if negb (pq_pos sd =? kEnd)%Z && Bits.has (local_mask sd) (KEYLOCK_ACQUIRED L)
       then Bits.clear (local_mask sd) (KEYLOCK_ACQUIRED L) else local_mask sd).
Proof.
  intros Hsd. unfold CancelInShard. rewrite Hsd. simpl.
  destruct (Z.eqb_spec (pq_pos sd) kEnd) as [Hp|Hp].
  { exists sd, sh. rewrite (set_slot_id _ _ _ Hsd). simpl. repeat split; auto. }
  destruct (Bits.has (local_mask sd) (KEYLOCK_ACQUIRED L));
    do 2 eexists; (split; [reflexivity|]); simpl; repeat split; reflexivity.
Qed.

Lemma clear_set m f : Bits.clear (Bits.set m f) f = Bits.clear m f.
Proof.
  unfold Bits.clear, Bits.set. apply Z.bits_inj'. intros i Hi.
  rewrite !Z.land_spec, Z.lor_spec, Z.lnot_spec by assumption.
  destruct (Z.testbit m i), (Z.testbit f i); reflexivity.
Qed.

Lemma set_slot_twice idx a b t : set_slot idx a (set_slot idx b t) = set_slot idx a t.
Proof.
  unfold set_slot, with_shard_data. simpl. rewrite list_insert_insert_eq. reflexivity.
Qed.

(** X18. A shard that took the transaction into its queue and is then told
    to cancel is left as it was before the attempt: the queue is the one
    before the insertion, every lock count is back, and the slot holds no
    queue position; of the transaction only the flag KEYLOCK_ACQUIRED of
    that slot can differ, which is clear afterwards. [CancelInShard]
    answers true. *)
Theorem ScheduleInShard_then_CancelInShard t sh sd t1 sh1 granted :
  shard_data_ t !! SidToId t (shard_id sh) = Some sd ->
  pq_pos sd = kEnd ->
  queue_positions_ok (txq sh) ->
  (IsGlobal t = true -> Bits.has (local_mask sd) (KEYLOCK_ACQUIRED L) = false) ->
  ScheduleInShard L t sh = Some (t1, sh1, (true, granted)) ->
  exists sh2,
    CancelInShard L t1 sh1
    = Some ((if IsGlobal t then t
             else set_slot (SidToId t (shard_id sh))
                    (set_local_mask (Bits.clear (local_mask sd) (KEYLOCK_ACQUIRED L)) sd) t),
            sh2, true) /\
    txq sh2 = txq sh /\
    (forall db k, lock_table sh2 db k = lock_table sh db k) /\
    committed_txid sh2 = committed_txid sh /\ shard_id sh2 = shard_id sh /\
    shard_lock sh2 = shard_lock sh /\ watched sh2 = watched sh.
Proof.
  intros Hsd Hend Hq Hglob Hs.
  destruct (ScheduleInShard_local t sh sd Hsd)
    as (sd1 & sh1' & r & Hs' & Has & Hac & Hc & Hid & Hsl & Hw & Hok & _ & _).
  rewrite Hs in Hs'. injection Hs' as Ht1 Hsh1 Hr. subst sh1' r.
  destruct (Hok eq_refl) as (Hq1 & Hp1 & Hlt1 & Hm1). clear Hok.
  assert (Hsd1 : shard_data_ t1 !! SidToId t1 (shard_id sh1) = Some sd1).
  { rewrite Ht1, SidToId_set_slot, Hid. eapply lookup_set_slot. exact Hsd. }
  destruct (CancelInShard_local t1 sh1 sd1 Hsd1)
    as (sd2 & sh2 & Hc2 & Hp2 & Has2 & Hac2 & Hcm2 & Hid2 & Hsl2 & Hw2 & Hq2 & Hlt2 & Hm2).
  pose proof (txq_fresh_pos_bounds _ Hq) as Hfresh.
  assert (Hne : (pq_pos sd1 =? kEnd)%Z = false) by (apply Z.eqb_neq; lia).
  rewrite Hne in Hc2, Hq2, Hlt2, Hm2. simpl in Hc2, Hlt2, Hm2.
  assert (Hr1 : same_routing t t1).
  { rewrite Ht1. eapply same_routing_set_slot; eassumption. }
  assert (Hsd2 : sd2 = set_local_mask (local_mask sd2) sd).
  { destruct sd2, sd; simpl in *. subst. reflexivity. }
  exists sh2. split; [|split; [|split; [|repeat split; congruence]]].
  - rewrite Hc2. f_equal. f_equal. f_equal.
    rewrite Ht1, SidToId_set_slot, Hid, set_slot_twice.
    rewrite Hsd2, Hm2, Hm1.
    destruct (IsGlobal t) eqn:Hg.
    + rewrite (Hglob eq_refl).
      replace (set_local_mask (local_mask sd) sd) with sd by (destruct sd; reflexivity).
      apply set_slot_id. exact Hsd.
    + assert (HK : Bits.has (Bits.set (local_mask sd) (KEYLOCK_ACQUIRED L))
                     (KEYLOCK_ACQUIRED L) = true).
      { clear - HL. bits_facts HL. apply has_set_same. bit_side. }
      rewrite HK, clear_set. reflexivity.
  - rewrite Hq2, Hq1, Hp1.
    apply (txq_Remove_Insert (txid_ t) (this t) (txq sh)).
  - intros db k. rewrite Hlt2, Hm1, Hlt1.
    rewrite (GetLockArgs_same_routing _ _ _ Hr1), (TxMode_same_routing _ _ Hr1), Hid.
    destruct (IsGlobal t) eqn:Hg.
    + rewrite (Hglob eq_refl). reflexivity.
    + assert (HK : Bits.has (Bits.set (local_mask sd) (KEYLOCK_ACQUIRED L))
                     (KEYLOCK_ACQUIRED L) = true).
      { clear - HL. bits_facts HL. apply has_set_same. bit_side. }
      rewrite HK. apply db_Release_Acquire.
Qed.

End SchedulerRounds.

Lemma Forall2_with_l {A B} (P : A -> Prop) (R : A -> B -> Prop) l k :
  Forall P l -> Forall2 R l k -> Forall2 (fun a b => P a /\ R a b) l k.
Proof.
  intros HP HR. induction HR as [|a b l k Hab _ IH]; [constructor|].
  inversion HP; subst. constructor; auto.
Qed.

(** A pass of [RunBriefInParallel] whose callback works on its shard and on
    the slot of that shard: it runs to its end, and what it returns is what
    the callback made of every active shard, shard by shard. *)
Section Pass.

Context {A : Type}.
Variable cb : Transaction -> EngineShard -> option (Transaction * EngineShard * A).
Variable R : EngineShard -> PerShardData -> EngineShard -> PerShardData -> A -> Prop.
Variables (sa : bool) (ns : nat) (t0 : Transaction) (N : nat) (T : TxId).

Hypothesis Hcb : forall t sh sd,
  same_routing t0 t -> txid_ t = T ->
  shard_data_ t !! SidToId t (shard_id sh) = Some sd ->
  exists sd' sh' r,
    cb t sh = Some (set_slot (SidToId t (shard_id sh)) sd' t, sh', r) /\
    arg_start sd' = arg_start sd /\ arg_count sd' = arg_count sd /\
    R sh sd sh' sd' r.
Hypothesis Hne : shard_data_ t0 <> [].
Hypothesis Htot : forall k, k < N -> is_Some (is_active sa ns t0 k).
Hypothesis Hinj : forall k k', k < N -> k' < N ->
  is_active sa ns t0 k = Some true -> is_active sa ns t0 k' = Some true ->
  SidToId t0 k = SidToId t0 k' -> k = k'.

Lemma RunBriefInParallel_local : forall shards i t,
  same_routing t0 t -> txid_ t = T -> shards_from i shards ->
  i + length shards <= N ->
  exists t' shards' rs,
    RunBriefInParallel cb (is_active sa ns) i shards t = Some (t', shards', rs) /\
    same_routing t t' /\ txid_ t' = txid_ t /\ length shards' = length shards /\
    (forall x,
       (forall k, i <= k < i + length shards ->
                  is_active sa ns t0 k = Some true -> SidToId t0 k <> x) ->
       shard_data_ t' !! x = shard_data_ t !! x) /\
    (forall j sh, shards !! j = Some sh -> is_active sa ns t0 (i + j) = Some false ->
                  shards' !! j = Some sh) /\
    Forall2 (on_shard R t0 i shards shards' t t')
      (filter (fun k => is_active sa ns t0 k = Some true) (seq i (length shards))) rs.
Proof.
  induction shards as [|sh rest IH]; intros i t Hr Htx Hfrom Hlen.
  - exists t, [], []. simpl. split; [reflexivity|]. split; [apply same_routing_refl|].
    repeat split; try reflexivity; try constructor. intros j sh Hj. discriminate.
  - simpl in Hlen. cbn [RunBriefInParallel].
    rewrite (is_active_same_routing sa ns _ _ i Hr).
    destruct (Htot i ltac:(lia)) as [a Ha]. rewrite Ha. cbn [mbind option_bind].
    assert (Hid : shard_id sh = i).
    { rewrite (Hfrom 0 sh eq_refl). lia. }
    assert (Hfrom' : shards_from (S i) rest).
    { intros j x Hj. rewrite (Hfrom (S j) x Hj). lia. }
    cbn [length seq]. rewrite filter_cons.
    destruct a.
    + rewrite decide_True by exact Ha.
      assert (Hsl : is_Some (shard_data_ t !! SidToId t (shard_id sh))).
      { apply slot_of_shard_exists. intros E.
        pose proof (same_routing_length _ _ Hr) as Hl. rewrite E in Hl.
        destruct (shard_data_ t0); [contradiction|discriminate]. }
      destruct Hsl as [sd Hsd].
      destruct (Hcb t sh sd Hr Htx Hsd) as (sd' & sh' & r & Hc & Has & Hac & HR).
      rewrite Hc. cbn [mbind option_bind].
      assert (Hr1 : same_routing t (set_slot (SidToId t (shard_id sh)) sd' t))
        by (eapply same_routing_set_slot; eassumption).
      destruct (IH (S i) (set_slot (SidToId t (shard_id sh)) sd' t))
        as (t2 & rest2 & rs & Hrun & Hr2 & Htx2 & Hl2 & Hframe & Hidle & Hall);
        [eapply same_routing_trans; eassumption|exact Htx|exact Hfrom'|lia|].
      rewrite Hrun. cbn [mbind option_bind].
      pose proof (SidToId_same_routing _ _ (shard_id sh) Hr) as Hidx.
      rewrite Hid in Hidx, Hsd, Hr1, Hframe, Hall, Hrun, Hr2, Htx2. 
      assert (Hother : forall k, S i <= k < S i + length rest ->
                 is_active sa ns t0 k = Some true -> SidToId t0 k <> SidToId t0 i).
      { intros k Hk Hak E. apply Hinj in E; [lia|lia|lia|exact Hak|exact Ha]. }
      exists t2, (sh' :: rest2), (r :: rs). split; [reflexivity|].
      split; [eapply same_routing_trans; eassumption|].
      split; [exact Htx2|]. split; [simpl; congruence|].
      split; [|split].
      * intros x Hx. rewrite Hframe.
        -- apply lookup_set_slot_ne. rewrite Hidx. intros E.
           apply (Hx i); [lia|exact Ha|congruence].
        -- intros k Hk Hak. apply Hx; [lia|exact Hak].
      * intros j x Hj Hf. destruct j as [|j].
        -- rewrite Nat.add_0_r in Hf. congruence.
        -- apply Hidle; [exact Hj|].
           replace (S i + j) with (i + S j) by lia. exact Hf.
      * constructor.
        -- exists 0, sh, sd, sh', sd'. rewrite Nat.add_0_r.
           split; [reflexivity|]. split; [reflexivity|]. split; [reflexivity|].
           split; [congruence|]. split; [|exact HR].
           rewrite Hframe by exact Hother. rewrite <- Hidx.
           eapply lookup_set_slot. exact Hsd.
        -- eapply Forall2_impl;
             [apply (Forall2_with_l
                       (fun k => S i <= k < S i + length rest
                                 /\ is_active sa ns t0 k = Some true));
              [|exact Hall]|].
           ++ apply Forall_forall. intros k Hk.
              apply list_elem_of_filter in Hk as [Hak Hk].
              apply elem_of_seq in Hk. split; [lia|exact Hak].
           ++ intros k r' [[Hrange Hak]
                             (j & x & xd & x' & xd' & Hk & Hx & Hx' & Hxd & Hxd' & HR')].
              exists (S j), x, xd, x', xd'.
              split; [lia|]. split; [exact Hx|]. split; [exact Hx'|].
              split; [|split; [exact Hxd'|exact HR']].
              rewrite <- Hxd. symmetry. apply lookup_set_slot_ne. rewrite Hidx.
              apply Hother; assumption.
    + rewrite decide_False by (rewrite Ha; discriminate).
      destruct (IH (S i) t)
        as (t2 & rest2 & rs & Hrun & Hr2 & Htx2 & Hl2 & Hframe & Hidle & Hall);
        [exact Hr|exact Htx|exact Hfrom'|lia|].
      rewrite Hrun. cbn [mbind option_bind].
      exists t2, (sh :: rest2), rs. split; [reflexivity|].
      split; [exact Hr2|]. split; [exact Htx2|]. split; [simpl; congruence|].
      split; [|split].
      * intros x Hx. apply Hframe. intros k Hk Hak. apply Hx; [lia|exact Hak].
      * intros j x Hj Hf. destruct j as [|j]; [exact Hj|].
        apply Hidle; [exact Hj|].
        replace (S i + j) with (i + S j) by lia. exact Hf.
      * eapply Forall2_impl; [exact Hall|].
        intros k r' (j & x & xd & x' & xd' & Hk & Hx & Hx' & Hxd & Hxd' & HR').
        exists (S j), x, xd, x', xd'.
        split; [lia|]. repeat split; assumption.
Qed.

End Pass.

Lemma count_true_Forall2 {A B} (f : B -> bool) (g : A -> bool) ks rs :
  Forall2 (fun k r => f r = g k) ks rs ->
  count_true (f <$> rs) = length (filter (fun k => g k = true) ks).
Proof.
  unfold count_true. induction 1 as [|k r ks rs Hkr _ IH]; [reflexivity|].
  rewrite fmap_cons, !filter_cons, Hkr.
  destruct (decide (g k = true)) as [E|E]; simpl; [congruence|exact IH].
Qed.

Lemma filter_all {A} (P : A -> Prop) `{forall x, Decision (P x)} (l : list A) :
  length (filter P l) = length l -> Forall P l.
Proof.
  induction l as [|x l IH]; [constructor|].
  rewrite filter_cons. destruct (decide (P x)) as [Hx|Hx]; simpl.
  - intros E. constructor; [exact Hx|]. apply IH. lia.
  - intros E. pose proof (length_filter P l). lia.
Qed.

Lemma filter_id {A} (P : A -> Prop) `{forall x, Decision (P x)} (l : list A) :
  Forall P l -> filter P l = l.
Proof.
  induction 1 as [|x l Hx _ IH]; [reflexivity|].
  rewrite filter_cons, decide_True by exact Hx. congruence.
Qed.

Lemma Forall2_filter_seq {B} (P : nat -> Prop) `{forall x, Decision (P x)}
    (Rel : nat -> B -> Prop) N rs k :
  Forall2 Rel (filter P (seq 0 N)) rs -> k < N -> P k -> exists r, Rel k r.
Proof.
  intros HF Hk HP.
  assert (Hin : k ∈ filter P (seq 0 N)).
  { apply list_elem_of_filter. split; [exact HP|]. apply elem_of_seq. lia. }
  apply list_elem_of_lookup_1 in Hin as [i Hi].
  destruct (Forall2_lookup_l _ _ _ _ _ HF Hi) as (r & _ & Hr). eauto.
Qed.

Section SchedulerEnds.

Context (L : LocalStateBits) (C : CoordinatorStateBits).
Hypothesis HL : local_state_ok L = true.
Variables (sa single_hop : bool) (ns : nat) (t0 : Transaction) (N : nat).
Hypothesis Hne : shard_data_ t0 <> [].
Hypothesis Htot : forall k, k < N -> is_Some (is_active sa ns t0 k).
Hypothesis Hinj : forall k k', k < N -> k' < N ->
  is_active sa ns t0 k = Some true -> is_active sa ns t0 k' = Some true ->
  SidToId t0 k = SidToId t0 k' -> k = k'.

Lemma queued_false t x sd :
  queued t x = false -> shard_data_ t !! x = Some sd -> pq_pos sd = kEnd.
Proof.
  unfold queued. intros Hq Hsd. rewrite Hsd in Hq.
  apply negb_false_iff, Z.eqb_eq in Hq. exact Hq.
Qed.

Lemma queued_slot t x sd :
  shard_data_ t !! x = Some sd -> queued t x = negb (pq_pos sd =? kEnd)%Z.
Proof. unfold queued. intros ->. reflexivity. Qed.

(** The pass of the attempts of one round. *)
Lemma sched_round T t shards :
  same_routing t0 t -> txid_ t = T -> length shards = N -> shards_from 0 shards ->
  (forall k, k < N -> is_active sa ns t0 k = Some true ->
             queued t (SidToId t0 k) = false) ->
  Forall (fun sh => queue_positions_ok (txq sh)) shards ->
  exists t2 shards2 res,
    RunBriefInParallel (ScheduleInShard L) (is_active sa ns) 0 shards t
    = Some (t2, shards2, res) /\
    same_routing t0 t2 /\ txid_ t2 = T /\ length shards2 = N /\
    count_true (fst <$> res)
    = length (filter (fun k => queued t2 (SidToId t0 k) = true)
                (filter (fun k => is_active sa ns t0 k = Some true) (seq 0 N))) /\
    (forall j sh, shards !! j = Some sh -> is_active sa ns t0 j = Some false ->
                  shards2 !! j = Some sh) /\
    (forall j sh, shards !! j = Some sh -> is_active sa ns t0 j = Some true ->
       exists sh2 sd2,
         shards2 !! j = Some sh2 /\ shard_data_ t2 !! SidToId t0 j = Some sd2 /\
         committed_txid sh2 = committed_txid sh /\ shard_id sh2 = shard_id sh /\
         (queued t2 (SidToId t0 j) = false /\ txq sh2 = txq sh /\
          ~ ((committed_txid sh < T)%Z /\
             (txq sh = [] \/ (txq_TailScore (txq sh) < T)%Z))
          \/ queued t2 (SidToId t0 j) = true /\
             pq_pos sd2 = txq_fresh_pos (txq sh) /\
             txq sh2 = (txq_Insert T (this t0) (txq sh)).2)).
Proof.
  intros Hr Htx Hlen Hfrom Hinv Hqs.
  destruct (RunBriefInParallel_local (ScheduleInShard L) (sched_rel T (this t0))
              sa ns t0 N T) with (shards := shards) (i := 0) (t := t)
    as (t2 & shards2 & res & Hrun & Hr2 & Htx2 & Hl2 & Hframe & Hidle & Hall);
    try assumption; [|lia|].
  { intros t' sh sd Hr' Htx' Hsd.
    destruct (ScheduleInShard_local L HL t' sh sd Hsd)
      as (sd' & sh' & r & Hs & Has & Hac & Hc & Hid & _ & _ & Hok & Hfail & Hgo).
    exists sd', sh', r. split; [exact Hs|]. split; [exact Has|]. split; [exact Hac|].
    destruct Hr' as (Hthis & _). rewrite Htx', Hthis in *.
    split; [exact Hc|]. split; [exact Hid|].
    split; [intros E; destruct (Hok E) as (? & ? & _); auto|].
    split; [intros E; destruct (Hfail E) as (? & ? & _); auto|exact Hgo]. }
  assert (Hpair : forall k r, k < N -> is_active sa ns t0 k = Some true ->
            on_shard (sched_rel T (this t0)) t0 0 shards shards2 t t2 k r ->
            r.1 = queued t2 (SidToId t0 k) /\
            exists sh sh2 sd2,
              shards !! k = Some sh /\ shards2 !! k = Some sh2 /\
              shard_data_ t2 !! SidToId t0 k = Some sd2 /\
              committed_txid sh2 = committed_txid sh /\ shard_id sh2 = shard_id sh /\
              (queued t2 (SidToId t0 k) = false /\ txq sh2 = txq sh /\
               ~ ((committed_txid sh < T)%Z /\
                  (txq sh = [] \/ (txq_TailScore (txq sh) < T)%Z))
               \/ queued t2 (SidToId t0 k) = true /\
                  pq_pos sd2 = txq_fresh_pos (txq sh) /\
                  txq sh2 = (txq_Insert T (this t0) (txq sh)).2)).
  { intros k r Hk Hak (j & sh & sd & sh2 & sd2 & Hkj & Hsh & Hsh2 & Hsd & Hsd2 & HR).
    simpl in Hkj. subst j.
    destruct HR as (Hc & Hid & Hok & Hfail & Hgo).
    pose proof (queued_false _ _ _ (Hinv k Hk Hak) Hsd) as Hend.
    pose proof (proj1 (Forall_lookup _ _) Hqs k sh Hsh) as Hq. simpl in Hq.
    pose proof (txq_fresh_pos_bounds _ Hq) as Hfresh.
    rewrite (queued_slot _ _ _ Hsd2).
    destruct r as [[|] g]; simpl in *.
    - destruct (Hok eq_refl) as [Hq2 Hp2].
      assert (Hn : (pq_pos sd2 =? kEnd)%Z = false) by (apply Z.eqb_neq; lia).
      rewrite Hn. split; [reflexivity|].
      exists sh, sh2, sd2. repeat (split; [assumption|]). right. auto.
    - destruct (Hfail eq_refl) as [Hq2 Hp2].
      assert (Hn : (pq_pos sd2 =? kEnd)%Z = true) by (apply Z.eqb_eq; congruence).
      rewrite Hn. split; [reflexivity|].
      exists sh, sh2, sd2. repeat (split; [assumption|]). left.
      split; [reflexivity|]. split; [exact Hq2|].
      intros [H1 H2]. specialize (Hgo H1 H2). discriminate. }
  assert (Hin : Forall (fun k => k < N /\ is_active sa ns t0 k = Some true)
                  (filter (fun k => is_active sa ns t0 k = Some true) (seq 0 N))).
  { apply Forall_forall. intros k Hk. apply list_elem_of_filter in Hk as [Hak Hk].
    apply elem_of_seq in Hk. split; [lia|exact Hak]. }
  rewrite Hlen in Hall.
  exists t2, shards2, res. split; [exact Hrun|].
  split; [eapply same_routing_trans; eassumption|]. split; [congruence|].
  split; [congruence|]. split; [|split].
  - apply (count_true_Forall2 fst (fun k => queued t2 (SidToId t0 k))).
    eapply Forall2_impl; [apply (Forall2_with_l _ _ _ _ Hin Hall)|].
    intros k r [[Hk Hak] Hon]. simpl. apply (Hpair k r Hk Hak Hon).
  - intros j sh Hj Hf. apply Hidle; assumption.
  - intros j sh Hj Hak.
    assert (Hjn : j < N) by (rewrite <- Hlen; eapply lookup_lt_Some; eassumption).
    destruct (Forall2_filter_seq _ _ N res j Hall Hjn Hak) as [r Hon].
    destruct (Hpair j r Hjn Hak Hon) as (_ & sh' & sh2 & sd2 & Hsh & Hrest).
    rewrite Hj in Hsh. injection Hsh as <-. exists sh2, sd2. exact Hrest.
Qed.

(** The pass of the cancellations after a round that failed. *)
Lemma cancel_round t2 shards2 :
  same_routing t0 t2 -> length shards2 = N -> shards_from 0 shards2 ->
  exists t3 shards3 cancelled,
    RunBriefInParallel (CancelInShard L) (is_active sa ns) 0 shards2 t2
    = Some (t3, shards3, cancelled) /\
    same_routing t0 t3 /\ txid_ t3 = txid_ t2 /\ length shards3 = N /\
    count_true cancelled
    = length (filter (fun k => queued t2 (SidToId t0 k) = true)
                (filter (fun k => is_active sa ns t0 k = Some true) (seq 0 N))) /\
    (forall j sh, shards2 !! j = Some sh -> is_active sa ns t0 j = Some false ->
                  shards3 !! j = Some sh) /\
    (forall j sh2, shards2 !! j = Some sh2 -> is_active sa ns t0 j = Some true ->
       exists sh3 sd2,
         shards3 !! j = Some sh3 /\ shard_data_ t2 !! SidToId t0 j = Some sd2 /\
         queued t3 (SidToId t0 j) = false /\
         committed_txid sh3 = committed_txid sh2 /\ shard_id sh3 = shard_id sh2 /\
         txq sh3 = (if (pq_pos sd2 =? kEnd)%Z then txq sh2
                    else txq_Remove (pq_pos sd2) (txq sh2))).
Proof.
  intros Hr Hlen Hfrom.
  destruct (RunBriefInParallel_local (CancelInShard L) cancel_rel
              sa ns t0 N (txid_ t2)) with (shards := shards2) (i := 0) (t := t2)
    as (t3 & shards3 & cancelled & Hrun & Hr3 & Htx3 & Hl3 & Hframe & Hidle & Hall);
    try assumption; [|reflexivity|lia|].
  { intros t' sh sd Hr' Htx' Hsd.
    destruct (CancelInShard_local L t' sh sd Hsd)
      as (sd' & sh' & Hc & Hp & Has & Hac & Hcm & Hid & _ & _ & Hq & _).
    exists sd', sh', (negb (pq_pos sd =? kEnd)%Z).
    split; [exact Hc|]. split; [exact Has|]. split; [exact Hac|].
    repeat split; assumption. }
  assert (Hin : Forall (fun k => k < N /\ is_active sa ns t0 k = Some true)
                  (filter (fun k => is_active sa ns t0 k = Some true) (seq 0 N))).
  { apply Forall_forall. intros k Hk. apply list_elem_of_filter in Hk as [Hak Hk].
    apply elem_of_seq in Hk. split; [lia|exact Hak]. }
  rewrite Hlen in Hall.
  exists t3, shards3, cancelled. split; [exact Hrun|].
  split; [eapply same_routing_trans; eassumption|]. split; [exact Htx3|].
  split; [congruence|]. split; [|split].
  - rewrite <- (list_fmap_id cancelled) at 1.
    apply (count_true_Forall2 id (fun k => queued t2 (SidToId t0 k))).
    eapply Forall2_impl; [exact Hall|].
    intros k r (j & sh & sd & sh3 & sd3 & Hkj & Hsh & Hsh3 & Hsd & Hsd3 & HR).
    destruct HR as (_ & _ & -> & _). simpl. symmetry. apply queued_slot. exact Hsd.
  - intros j sh Hj Hf. apply Hidle; assumption.
  - intros j sh2 Hj Hak.
    assert (Hjn : j < N) by (rewrite <- Hlen; eapply lookup_lt_Some; eassumption).
    destruct (Forall2_filter_seq _ _ N cancelled j Hall Hjn Hak)
      as (r & j' & sh & sd & sh3 & sd3 & Hkj & Hsh & Hsh3 & Hsd & Hsd3 & HR).
    simpl in Hkj. subst j'. rewrite Hj in Hsh. injection Hsh as <-.
    destruct HR as (Hc & Hid & _ & Hp & Hq).
    exists sh3, sd. split; [exact Hsh3|]. split; [exact Hsd|].
    split; [|auto].
    rewrite (queued_slot _ _ _ Hsd3), Hp, Z.eqb_refl. reflexivity.
Qed.

Variable M : Z.
Hypothesis Hcount :
  length (filter (fun k => is_active sa ns t0 k = Some true) (seq 0 N)) = ns.

(** The loop ends: once the id of a round is above every id that the
    shards have committed or hold at the tail of their queues, the round
    succeeds; a round that fails leaves the queues as it found them. *)
Lemma ScheduleInternal_loop_ends : forall fuel op_seq t shards,
  same_routing t0 t -> length shards = N -> shards_from 0 shards ->
  (forall k, k < N -> is_active sa ns t0 k = Some true ->
             queued t (SidToId t0 k) = false) ->
  Forall (fun sh => queue_positions_ok (txq sh)) shards ->
  Forall (fun sh => (committed_txid sh <= M)%Z /\ (txq_TailScore (txq sh) <= M)%Z)
    shards ->
  (0 <= op_seq)%Z -> (Z.max op_seq (M + 1) + 1 < 2 ^ 64)%Z ->
  (M + 1 - op_seq < Z.of_nat fuel)%Z -> fuel <> 0 ->
  exists op_seq' t' shards' res,
    ScheduleInternal_loop L C fuel sa single_hop ns op_seq t shards
    = Some (op_seq', t', shards', res) /\
    (op_seq <= txid_ t' <= Z.max op_seq (M + 1))%Z /\
    op_seq' = (txid_ t' + 1)%Z /\ length shards' = N /\
    forall j sh, shards !! j = Some sh ->
      (is_active sa ns t0 j = Some false -> shards' !! j = Some sh) /\
      (is_active sa ns t0 j = Some true ->
       exists sh' sd',
         shards' !! j = Some sh' /\ shard_data_ t' !! SidToId t0 j = Some sd' /\
         pq_pos sd' = txq_fresh_pos (txq sh) /\
         txq sh' = (txq_Insert (txid_ t') (this t0) (txq sh)).2 /\
         committed_txid sh' = committed_txid sh).
Proof.
  induction fuel as [|fuel IH];
    intros op_seq t shards Hr Hlen Hfrom Hinv Hqs HM Hop Hmax Hfuel Hf0;
    [contradiction|].
  cbn [ScheduleInternal_loop]. unfold op_seq_fetch_add. cbv iota beta.
  assert (Hr1 : same_routing t0 (with_txid op_seq t))
    by (eapply same_routing_trans; [exact Hr|apply same_routing_with_txid]).
  destruct (sched_round op_seq (with_txid op_seq t) shards Hr1 eq_refl Hlen Hfrom
              Hinv Hqs)
    as (t2 & shards2 & res & Hrun & Hr2 & Htx2 & Hl2 & Hcnt & Hidle & Hact).
  rewrite Hrun. cbn [mbind option_bind].
  assert (Htr : Bits.trunc 64 (op_seq + 1) = (op_seq + 1)%Z).
  { unfold Bits.trunc. apply Z.mod_small. lia. }
  destruct (Nat.eqb_spec (count_true (fst <$> res)) ns) as [Hs|Hs].
  - do 4 eexists. split; [reflexivity|]. simpl txid_. simpl shard_data_.
    rewrite Htx2, Htr. split; [lia|]. split; [reflexivity|]. split; [exact Hl2|].
    assert (Hall : Forall (fun k => queued t2 (SidToId t0 k) = true)
                     (filter (fun k => is_active sa ns t0 k = Some true) (seq 0 N))).
    { apply (filter_all (fun k => queued t2 (SidToId t0 k) = true)). congruence. }
    intros j sh Hj. split; [intros Ha; apply Hidle; assumption|].
    intros Ha. destruct (Hact j sh Hj Ha) as (sh2 & sd2 & H1 & H2 & H3 & H4 & Hcase).
    assert (Hjn : j < N) by (rewrite <- Hlen; eapply lookup_lt_Some; eassumption).
    assert (Hqj : queued t2 (SidToId t0 j) = true).
    { apply (proj1 (Forall_forall _ _) Hall). apply list_elem_of_filter.
      split; [exact Ha|]. apply elem_of_seq. lia. }
    destruct Hcase as [(Hq & _)|(_ & Hp & Hq)]; [congruence|].
    exists sh2, sd2. auto.
  - assert (Hfrom2 : shards_from 0 shards2).
    { intros j sh2 Hj.
      assert (Hjn : j < N) by (rewrite <- Hl2; eapply lookup_lt_Some; eassumption).
      destruct (lookup_lt_is_Some_2 shards j ltac:(lia)) as [sh Hsh].
      destruct (Htot j Hjn) as [[|] Ha].
      - destruct (Hact j sh Hsh Ha) as (sh2' & sd2 & H1 & _ & _ & H4 & _).
        rewrite Hj in H1. injection H1 as <-. rewrite H4. apply Hfrom. exact Hsh.
      - rewrite (Hidle j sh Hsh Ha) in Hj. injection Hj as <-. apply Hfrom. exact Hsh. }
    destruct (cancel_round t2 shards2 Hr2 Hl2 Hfrom2)
      as (t3 & shards3 & cancelled & Hcan & Hr3 & Htx3 & Hl3 & Hcnt3 & Hidle3 & Hact3).
    rewrite Hcan. cbn [mbind option_bind].
    rewrite Hcnt, Hcnt3, Z.sub_diag. change (Bits.trunc 32 0 =? 0)%Z with true.
    cbn [negb].
    assert (HTM : (op_seq <= M)%Z).
    { destruct (Z_le_gt_dec op_seq M) as [Hle|Hgt]; [exact Hle|]. exfalso. apply Hs.
      rewrite Hcnt, (filter_id (fun k => queued t2 (SidToId t0 k) = true));
        [exact Hcount|].
      apply Forall_forall. intros k Hk. apply list_elem_of_filter in Hk as [Hak Hk].
      apply elem_of_seq in Hk.
      destruct (lookup_lt_is_Some_2 shards k ltac:(lia)) as [sh Hsh].
      destruct (Hact k sh Hsh Hak) as (sh2 & sd2 & _ & _ & _ & _ & Hcase).
      destruct Hcase as [(_ & _ & Hno)|(Hq & _)]; [|exact Hq].
      exfalso. apply Hno.
      destruct (proj1 (Forall_lookup _ _) HM k sh Hsh) as [Hc Hts].
      split; [lia|right; lia]. }
    assert (Hsum : forall j sh, shards !! j = Some sh ->
              exists sh3, shards3 !! j = Some sh3 /\ shard_id sh3 = shard_id sh /\
                committed_txid sh3 = committed_txid sh /\ txq sh3 = txq sh /\
                (is_active sa ns t0 j = Some false -> sh3 = sh) /\
                (is_active sa ns t0 j = Some true ->
                 queued t3 (SidToId t0 j) = false)).
    { intros j sh Hsh.
      assert (Hjn : j < N) by (rewrite <- Hlen; eapply lookup_lt_Some; eassumption).
      destruct (Htot j Hjn) as [[|] Ha].
      - destruct (Hact j sh Hsh Ha) as (sh2 & sd2 & H1 & H2 & H3 & H4 & Hcase).
        destruct (Hact3 j sh2 H1 Ha) as (sh3 & sd2' & G1 & G2 & G3 & G4 & G5 & G6).
        rewrite H2 in G2. injection G2 as <-.
        exists sh3. split; [exact G1|]. split; [congruence|]. split; [congruence|].
        split; [|split; [intros E; congruence|intros _; exact G3]].
        rewrite G6. pose proof (queued_slot _ _ _ H2) as Hqs2.
        destruct Hcase as [(Hq & Hq2 & _)|(Hq & Hp & Hq2)]; rewrite Hq in Hqs2.
        + symmetry in Hqs2. apply negb_false_iff in Hqs2. rewrite Hqs2. exact Hq2.
        + symmetry in Hqs2. apply negb_true_iff in Hqs2. rewrite Hqs2, Hp, Hq2.
          apply (txq_Remove_Insert op_seq (this t0) (txq sh)).
      - pose proof (Hidle j sh Hsh Ha) as H1.
        pose proof (Hidle3 j sh H1 Ha) as G1.
        exists sh. split; [exact G1|]. repeat split; try reflexivity.
        intros E. congruence. }
    assert (Hback : forall j sh3, shards3 !! j = Some sh3 ->
              exists sh, shards !! j = Some sh /\ shard_id sh3 = shard_id sh /\
                committed_txid sh3 = committed_txid sh /\ txq sh3 = txq sh).
    { intros j sh3 Hj.
      assert (Hjn : j < N) by (rewrite <- Hl3; eapply lookup_lt_Some; eassumption).
      destruct (lookup_lt_is_Some_2 shards j ltac:(lia)) as [sh Hsh].
      destruct (Hsum j sh Hsh) as (sh3' & G1 & G2 & G3 & G4 & _).
      rewrite Hj in G1. injection G1 as <-. exists sh. auto. }
    destruct (IH (op_seq + 1)%Z t3 shards3)
      as (op_seq' & t' & shards' & res' & Hloop & Hid & Hnext & Hl' & Hpost).
    + exact Hr3.
    + exact Hl3.
    + intros j sh3 Hj. destruct (Hback j sh3 Hj) as (sh & Hsh & -> & _).
      apply Hfrom. exact Hsh.
    + intros k Hk Hak.
      destruct (lookup_lt_is_Some_2 shards k ltac:(lia)) as [sh Hsh].
      destruct (Hsum k sh Hsh) as (sh3 & _ & _ & _ & _ & _ & G). apply G. exact Hak.
    + apply Forall_lookup. intros j sh3 Hj.
      destruct (Hback j sh3 Hj) as (sh & Hsh & _ & _ & ->).
      apply (proj1 (Forall_lookup _ _) Hqs j sh Hsh).
    + apply Forall_lookup. intros j sh3 Hj.
      destruct (Hback j sh3 Hj) as (sh & Hsh & _ & -> & ->).
      apply (proj1 (Forall_lookup _ _) HM j sh Hsh).
    + lia.
    + lia.
    + lia.
    + lia.
    + rewrite Htr, Hloop. exists op_seq', t', shards', res'.
      split; [reflexivity|]. split; [lia|]. split; [exact Hnext|]. split; [exact Hl'|].
      intros j sh Hsh.
      destruct (Hsum j sh Hsh) as (sh3 & G1 & G2 & G3 & G4 & G5 & _).
      destruct (Hpost j sh3 G1) as [Pidle Pact]. split.
      * intros Ha. rewrite (Pidle Ha). f_equal. apply G5. exact Ha.
      * intros Ha. destruct (Pact Ha) as (sh' & sd' & P1 & P2 & P3 & P4 & P5).
        exists sh', sd'. rewrite <- G4, <- G3. auto.
Qed.

End SchedulerEnds.
Section SchedulerTermination.

Context (L : LocalStateBits) (C : CoordinatorStateBits).
Hypothesis HL : local_state_ok L = true.

Lemma unqueued_everywhere t x :
  Forall (fun sd => pq_pos sd = kEnd) (shard_data_ t) -> queued t x = false.
Proof.
  intros H. unfold queued.
  destruct (shard_data_ t !! x) as [sd|] eqn:Hsd; [|reflexivity].
  rewrite (proj1 (Forall_lookup _ _) H x sd Hsd), Z.eqb_refl. reflexivity.
Qed.

Lemma SidToId_slot t k : k < length (shard_data_ t) -> SidToId t k = k.
Proof.
  intros Hk. unfold SidToId.
  destruct (Nat.ltb_spec k (length (shard_data_ t))); [reflexivity|lia].
Qed.

(** The loop as [ScheduleInternal] calls it. *)
Lemma ScheduleInternal_calls_loop fuel op_seq t shards M :
  shard_data_ t <> [] ->
  (IsGlobal t = true \/ unique_shard_cnt_ t <> 1 ->
   length shards <= length (shard_data_ t)) ->
  (forall j sh, shards !! j = Some sh -> shard_id sh = j) ->
  Forall (fun sd => pq_pos sd = kEnd) (shard_data_ t) ->
  Forall (fun sh => queue_positions_ok (txq sh)) shards ->
  Forall (fun sh => (committed_txid sh <= M)%Z /\ (txq_TailScore (txq sh) <= M)%Z)
    shards ->
  (IsGlobal t = false ->
   active_count false (unique_shard_cnt_ t) t (length shards) = unique_shard_cnt_ t) ->
  (0 <= op_seq)%Z -> (Z.max op_seq (M + 1) + 1 < 2 ^ 64)%Z ->
  (M + 1 - op_seq < Z.of_nat fuel)%Z -> fuel <> 0 ->
  exists op_seq' t' shards' res,
    ScheduleInternal_loop L C fuel (IsGlobal t)
      (Bits.has (coordinator_state_ t) (COORD_EXEC_CONCLUDING C))
      (if IsGlobal t then length shards else unique_shard_cnt_ t) op_seq t
      (if IsGlobal t
       then (fun sh => with_shard_lock
                         (IntentLock_Acquire (TxMode t) (shard_lock sh)).2 sh) <$> shards
       else shards)
    = Some (op_seq', t', shards', res) /\
    (op_seq <= txid_ t' <= Z.max op_seq (M + 1))%Z /\
    op_seq' = (txid_ t' + 1)%Z /\ length shards' = length shards /\
    forall j sh, shards !! j = Some sh ->
      (is_active (IsGlobal t) (unique_shard_cnt_ t) t j = Some false ->
       shards' !! j = Some sh) /\
      (is_active (IsGlobal t) (unique_shard_cnt_ t) t j = Some true ->
       exists sh' sd',
         shards' !! j = Some sh' /\ shard_data_ t' !! SidToId t j = Some sd' /\
         pq_pos sd' = txq_fresh_pos (txq sh) /\
         txq sh' = (txq_Insert (txid_ t') (this t) (txq sh)).2 /\
         committed_txid sh' = committed_txid sh).
Proof.
  intros Hne Hslots Hids Hend Hqs HM Hact Hop Hmax Hfuel Hf0.
  assert (Hfrom : shards_from 0 shards) by (intros j sh Hj; simpl; auto).
  destruct (IsGlobal t) eqn:Hg.
  - specialize (Hslots (or_introl eq_refl)).
    destruct (ScheduleInternal_loop_ends L C HL true
                (Bits.has (coordinator_state_ t) (COORD_EXEC_CONCLUDING C))
                (length shards) t (length shards) Hne) with (M := M) (fuel := fuel)
                (op_seq := op_seq) (t := t)
                (shards := (fun sh => with_shard_lock
                              (IntentLock_Acquire (TxMode t) (shard_lock sh)).2 sh)
                             <$> shards)
      as (op_seq' & t' & shards' & res & Hloop & Hid & Hnext & Hl' & Hrest).
    + intros k Hk. eexists. reflexivity.
    + intros k k' Hk Hk' _ _. rewrite !SidToId_slot by lia. auto.
    + rewrite filter_id; [apply length_seq|]. apply Forall_forall. reflexivity.
    + apply same_routing_refl.
    + apply length_fmap.
    + intros j sh Hj. rewrite list_lookup_fmap in Hj.
      destruct (shards !! j) as [x|] eqn:Hx; [|discriminate].
      injection Hj as <-. simpl. apply Hids. exact Hx.
    + intros k Hk Ha. apply unqueued_everywhere. exact Hend.
    + apply Forall_fmap. exact Hqs.
    + apply Forall_fmap. exact HM.
    + exact Hop.
    + exact Hmax.
    + exact Hfuel.
    + exact Hf0.
    + exists op_seq', t', shards', res. split; [exact Hloop|].
      split; [exact Hid|]. split; [exact Hnext|]. split; [exact Hl'|].
      intros j sh Hj. split; [discriminate|]. intros _.
      destruct (Hrest j (with_shard_lock
                           (IntentLock_Acquire (TxMode t) (shard_lock sh)).2 sh))
        as [_ Pact]; [rewrite list_lookup_fmap, Hj; reflexivity|].
      destruct (Pact eq_refl) as (sh' & sd' & P1 & P2 & P3 & P4 & P5).
      simpl in P3, P4, P5. exists sh', sd'. auto.
  - specialize (Hact eq_refl).
    destruct (ScheduleInternal_loop_ends L C HL false
                (Bits.has (coordinator_state_ t) (COORD_EXEC_CONCLUDING C))
                (unique_shard_cnt_ t) t (length shards) Hne) with (M := M) (fuel := fuel)
                (op_seq := op_seq) (t := t) (shards := shards)
      as (op_seq' & t' & shards' & res & Hloop & Hid & Hnext & Hl' & Hrest).
    + intros k Hk. unfold is_active.
      destruct (Nat.eqb_spec (unique_shard_cnt_ t) 1) as [E|E]; [eexists; reflexivity|].
      specialize (Hslots (or_intror E)).
      destruct (lookup_lt_is_Some_2 (shard_data_ t) k ltac:(lia)) as [sd Hsd].
      rewrite Hsd. eexists. reflexivity.
    + intros k k' Hk Hk'. unfold is_active.
      destruct (Nat.eqb_spec (unique_shard_cnt_ t) 1) as [E|E].
      * intros H1 H2 _. injection H1 as H1. injection H2 as H2.
        apply Nat.eqb_eq in H1. apply Nat.eqb_eq in H2. congruence.
      * specialize (Hslots (or_intror E)). intros _ _.
        rewrite !SidToId_slot by lia. auto.
    + exact Hact.
    + apply same_routing_refl.
    + reflexivity.
    + exact Hfrom.
    + intros k Hk Ha. apply unqueued_everywhere. exact Hend.
    + exact Hqs.
    + exact HM.
    + exact Hop.
    + exact Hmax.
    + exact Hfuel.
    + exact Hf0.
    + exists op_seq', t', shards', res. auto.
Qed.

(** X19. [ScheduleInternal] ends. With every slot of the transaction out
    of the queues, and [M] a bound of the ids that the shards have
    committed or hold at the tail of their queues, it returns after at most
    [M + 2 - op_seq] rounds (one round if [op_seq] is above [M]) with an id
    between [op_seq] and [max op_seq (M + 1)]; the counter is left just
    behind that id. Every shard that the transaction touches then holds it
    in its queue under that id, at the position kept in the slot of the
    shard; the rounds that failed before have left no entry behind, and a
    shard that the transaction does not touch is as it was. *)
Theorem ScheduleInternal_ends fuel op_seq t shards M :
  shard_data_ t <> [] ->
  (IsGlobal t = true \/ unique_shard_cnt_ t <> 1 ->
   length shards <= length (shard_data_ t)) ->
  (forall j sh, shards !! j = Some sh -> shard_id sh = j) ->
  Forall (fun sd => pq_pos sd = kEnd) (shard_data_ t) ->
  Forall (fun sh => queue_positions_ok (txq sh)) shards ->
  Forall (fun sh => (committed_txid sh <= M)%Z /\ (txq_TailScore (txq sh) <= M)%Z)
    shards ->
  (IsGlobal t = false ->
   active_count false (unique_shard_cnt_ t) t (length shards) = unique_shard_cnt_ t) ->
  (0 <= op_seq)%Z -> (Z.max op_seq (M + 1) + 1 < 2 ^ 64)%Z ->
  (M + 1 - op_seq < Z.of_nat fuel)%Z -> fuel <> 0 ->
  exists op_seq' t' shards' res,
    ScheduleInternal L C fuel op_seq t shards = Some (op_seq', t', shards', res) /\
    (op_seq <= txid_ t' <= Z.max op_seq (M + 1))%Z /\
    op_seq' = (txid_ t' + 1)%Z /\ length shards' = length shards /\
    forall j sh, shards !! j = Some sh ->
      (is_active (IsGlobal t) (unique_shard_cnt_ t) t j = Some false ->
       shards' !! j = Some sh) /\
      (is_active (IsGlobal t) (unique_shard_cnt_ t) t j = Some true ->
       exists sh' sd',
         shards' !! j = Some sh' /\ shard_data_ t' !! SidToId t j = Some sd' /\
         pq_pos sd' = txq_fresh_pos (txq sh) /\
         txq sh' = (txq_Insert (txid_ t') (this t) (txq sh)).2 /\
         committed_txid sh' = committed_txid sh).
Proof.
  intros Hne Hslots Hids Hend Hqs HM Hact Hop Hmax Hfuel Hf0.
  destruct (ScheduleInternal_calls_loop fuel op_seq t shards M Hne Hslots Hids Hend
              Hqs HM Hact Hop Hmax Hfuel Hf0)
    as (op_seq' & t1 & shards' & res & Hloop & Hid & Hnext & Hl' & Hrest).
  unfold ScheduleInternal.
  destruct (IsGlobal t) eqn:Hg; simpl in Hloop |- *; rewrite Hloop;
    cbn [mbind option_bind]; do 4 eexists; (split; [reflexivity|]).
  all: assert (Htx : txid_ (if IsOOO C t1
                            then with_shard_data
                                   ((fun sd => set_local_mask
                                       (Bits.set (local_mask sd) (OUT_OF_ORDER L)) sd)
                                      <$> shard_data_ t1) t1
                            else t1) = txid_ t1)
      by (destruct (IsOOO C t1); reflexivity).
  all: rewrite Htx; split; [exact Hid|]; split; [exact Hnext|]; split; [exact Hl'|].
  all: intros j sh Hj; destruct (Hrest j sh Hj) as [Pidle Pact].
  all: split; [exact Pidle|]; intros Ha.
  all: destruct (Pact Ha) as (sh' & sd' & P1 & P2 & P3 & P4 & P5).
  all: destruct (IsOOO C t1).
  all: try (exists sh', sd'; auto; fail).
  all: exists sh', (set_local_mask (Bits.set (local_mask sd') (OUT_OF_ORDER L)) sd').
  all: split; [exact P1|]; split;
    [simpl; rewrite list_lookup_fmap, P2; reflexivity|auto].
Qed.

End SchedulerTermination.
(** * From the packer to the scheduler *)

Section PackThenSchedule.

Variable Shard : string -> nat -> ShardId.
Variable DetermineKeys : CommandId -> list string -> KeyIndex.

Lemma pack_shards_slots inc si : forall i st st',
  pack_shards inc i si st = Some st' ->
  length (ps_shard_data st') = length (ps_shard_data st) /\
  (Forall (fun sd => pq_pos sd = kEnd) (ps_shard_data st) ->
   Forall (fun sd => pq_pos sd = kEnd) (ps_shard_data st')).
Proof.
  induction si as [|sc rest IH]; intros i st st' H; simpl in H.
  - injection H as <-. auto.
  - destruct (negb _); [discriminate|].
    destruct (ps_shard_data st !! i) as [sd|] eqn:Hsd; simpl in H; [|discriminate].
    assert (Hins : forall sd2, pq_pos sd2 = pq_pos sd ->
              Forall (fun sd => pq_pos sd = kEnd) (ps_shard_data st) ->
              Forall (fun sd => pq_pos sd = kEnd) (<[i := sd2]> (ps_shard_data st))).
    { intros sd2 Hp HF. apply Forall_insert; [exact HF|].
      rewrite Hp. apply (proj1 (Forall_lookup _ _) HF i sd Hsd). }
    destruct (_ =? 0)%Z.
    + apply IH in H. simpl in H. rewrite length_insert in H.
      destruct H as [Hl HF]. split; [exact Hl|]. intros H0. apply HF, Hins; [|exact H0].
      destruct inc; reflexivity.
    + destruct (copy_args _ _ _ _ _ _) as [[[p a] r]|]; simpl in H; [|discriminate].
      apply IH in H. simpl in H. rewrite length_insert in H.
      destruct H as [Hl HF]. split; [exact Hl|]. intros H0. apply HF, Hins; [|exact H0].
      destruct inc; reflexivity.
Qed.

Lemma InitByArgs_cid n index args t t' :
  InitByArgs Shard DetermineKeys n index args t = Some t' -> cid_ t' = cid_ t.
Proof.
  unfold InitByArgs. cbv zeta. intros H.
  repeat match type of H with
         | (if ?b then _ else _) = _ => destruct b
         | (?r ≫= _) = _ => destruct r; simpl in H
         | None = Some _ => discriminate H
         end.
  all: try (injection H as <-; reflexivity).
Qed.

(** What [InitByArgs] hands to the scheduler. *)
Lemma InitByArgs_ready n index args t0 t :
  InitByArgs Shard DetermineKeys n index args t0 = Some t ->
  0 < n -> unique_shard_cnt_ t0 = 0 ->
  Forall (fun sd => pq_pos sd = kEnd) (shard_data_ t0) ->
  (IsGlobal t0 = false ->
   start (DetermineKeys (cid_ t0) args) <> length args /\
   0 < start (DetermineKeys (cid_ t0) args) /\
   forall k, Shard k n < n) ->
  IsGlobal t = IsGlobal t0 /\ shard_data_ t <> [] /\
  (IsGlobal t = true \/ unique_shard_cnt_ t <> 1 -> length (shard_data_ t) = n) /\
  Forall (fun sd => pq_pos sd = kEnd) (shard_data_ t) /\
  (IsGlobal t = false ->
   active_count false (unique_shard_cnt_ t) t n = unique_shard_cnt_ t).
Proof.
  intros H Hn Hc0 Hend Hng.
  pose proof (InitByArgs_cid _ _ _ _ _ H) as Hcid.
  assert (HG : IsGlobal t = IsGlobal t0) by (unfold IsGlobal; rewrite Hcid; reflexivity).
  split; [exact HG|].
  assert (Hres : forall k, Forall (fun sd => pq_pos sd = kEnd)
                             (resize k PerShardData_default (shard_data_ t0)))
    by (intros k; apply Forall_resize; [reflexivity|exact Hend]).
  assert (Hnil : forall k (l : list PerShardData), 0 < k -> length l = k -> l <> [])
    by (intros k l Hk Hl E; rewrite E in Hl; simpl in Hl; lia).
  destruct (IsGlobal t0) eqn:Hg.
  - clear Hng. unfold InitByArgs in H.
    change (IsGlobal (with_db_index index t0)) with (IsGlobal t0) in H.
    rewrite Hg in H. injection H as <-. simpl.
    split; [apply (Hnil n); [exact Hn|apply length_resize]|].
    split; [intros _; apply length_resize|].
    split; [apply Hres|]. intros Habs. rewrite HG in Habs. discriminate.
  - destruct (Hng eq_refl) as (Hstart & Hpos & Hrange). clear Hng.
    set (ki := DetermineKeys (cid_ t0) args) in *.
    assert (Hcase : (is_multi t0 = true \/ start ki + step ki < end_ ki)
                    \/ (is_multi t0 = false /\ end_ ki <= start ki + step ki)).
    { destruct (is_multi t0); [left; left; reflexivity|].
      destruct (le_lt_dec (end_ ki) (start ki + step ki)); [right|left; right]; auto. }
    destruct Hcase as [Hpath|[Hm Hle]].
    + destruct (InitByArgs_packed Shard DetermineKeys _ _ _ _ _ H Hg Hstart Hpath)
        as (rec & mode & inc & lk0 & rs & ps & _ & _ & Hp & _ & _ & _ & Hc & Hid & _
            & Hne1 & Heq1).
      destruct (pack_shards_slots _ _ _ _ _ Hp) as [Hlen HF].
      simpl in Hlen, HF. rewrite length_resize in Hlen. specialize (HF (Hres n)).
      rewrite <- Hc in Hne1, Heq1.
      assert (Hsent : forall sd, pq_pos sd = kEnd -> pq_pos (set_sentinel sd) = kEnd)
        by (intros sd Hsd; exact Hsd).
      split; [|split; [|split]].
      * destruct (Nat.eq_dec (unique_shard_cnt_ t) 1) as [E|E].
        -- rewrite (Heq1 E). destruct (is_multi t0).
           ++ destruct (ps_shard_data ps !! unique_shard_id_ t) eqn:Hl;
                rewrite <- ?Hid, ?Hl; apply (Hnil n); try assumption.
              rewrite length_insert. exact Hlen.
           ++ destruct (resize 1 PerShardData_default (ps_shard_data ps)) eqn:Hrz;
                [|discriminate].
              apply (f_equal length) in Hrz. rewrite length_resize in Hrz. discriminate.
        -- rewrite (Hne1 E). apply (Hnil n); assumption.
      * intros [Habs|E]; [rewrite HG in Habs; discriminate|].
        rewrite (Hne1 E). exact Hlen.
      * destruct (Nat.eq_dec (unique_shard_cnt_ t) 1) as [E|E].
        -- rewrite (Heq1 E). destruct (is_multi t0).
           ++ rewrite <- Hid.
              destruct (ps_shard_data ps !! unique_shard_id_ t) as [sd|] eqn:Hl;
                [|exact HF].
              apply Forall_insert; [exact HF|]. apply Hsent.
              apply (proj1 (Forall_lookup _ _) HF _ _ Hl).
           ++ assert (H1 : Forall (fun sd => pq_pos sd = kEnd)
                             (resize 1 PerShardData_default (ps_shard_data ps)))
                by (apply Forall_resize; [reflexivity|exact HF]).
              destruct (resize 1 PerShardData_default (ps_shard_data ps)) as [|sd l];
                [constructor|].
              inversion H1; subst. constructor; [apply Hsent|]; assumption.
        -- rewrite (Hne1 E). exact HF.
      * intros _.
        apply (InitByArgs_active_count Shard DetermineKeys n index args t0 t H Hg
                 Hstart Hpos Hpath Hc0).
    + unfold InitByArgs in H.
      change (IsGlobal (with_db_index index t0)) with (IsGlobal t0) in H.
      change (cid_ (with_db_index index t0)) with (cid_ t0) in H.
      change (is_multi (with_db_index index t0)) with (is_multi t0) in H.
      change (shard_data_ (with_db_index index t0)) with (shard_data_ t0) in H.
      fold ki in H. rewrite Hg, Hm in H.
      destruct (negb (1 <? length args)); [discriminate|].
      destruct (Nat.eqb_spec (start ki) (length args)) as [|_]; [contradiction|].
      rewrite (proj2 (Nat.leb_le _ _) Hle) in H. cbn [negb andb] in H. cbv zeta in H.
      destruct (negb _); [discriminate|].
      match type of H with (?r ≫= _) = _ => destruct r as [key|]; simpl in H end;
        [|discriminate].
      injection H as <-. simpl.
      split; [apply (Hnil 1); [lia|apply length_resize]|].
      split; [intros [Habs|E]; [|contradiction]|].
      { unfold IsGlobal in *. simpl in Habs. congruence. }
      split; [apply Hres|]. intros _.
      unfold active_count. apply (length_filter_seq_one (Shard key n)); [|apply Hrange].
      intros i. unfold is_active. simpl. split.
      * intros E. injection E as E. apply Nat.eqb_eq in E. exact E.
      * intros ->. rewrite Nat.eqb_refl. reflexivity.
Qed.

Context (L : LocalStateBits) (C : CoordinatorStateBits).
Hypothesis HL : local_state_ok L = true.
Hypothesis HC : coordinator_state_ok C = true.

(** X20. Whatever [InitByArgs] builds, [ScheduleInternal] schedules.
    For a transaction that [InitByArgs] has set up from one that is in no
    queue (with a router that answers below the shard count and a command
    that has keys, unless it is global), on the [n] shards of the store
    and with no other transaction at work, [ScheduleInternal] passes every
    check and every read of a slot, ends with an id between [op_seq] and
    [max op_seq (M + 1)], sets COORD_SCHED, and has then been taken into
    the queue of [unique_shard_cnt_] shards, of all [n] for a global
    transaction. *)
Theorem InitByArgs_then_ScheduleInternal n index args t0 t fuel op_seq shards M :
  InitByArgs Shard DetermineKeys n index args t0 = Some t ->
  0 < n -> unique_shard_cnt_ t0 = 0 ->
  Forall (fun sd => pq_pos sd = kEnd) (shard_data_ t0) ->
  (IsGlobal t0 = false ->
   start (DetermineKeys (cid_ t0) args) <> length args /\
   0 < start (DetermineKeys (cid_ t0) args) /\
   forall k, Shard k n < n) ->
  length shards = n ->
  (forall j sh, shards !! j = Some sh -> shard_id sh = j) ->
  Forall (fun sh => queue_positions_ok (txq sh)) shards ->
  Forall (fun sh => (committed_txid sh <= M)%Z /\ (txq_TailScore (txq sh) <= M)%Z)
    shards ->
  (0 <= op_seq)%Z -> (Z.max op_seq (M + 1) + 1 < 2 ^ 64)%Z ->
  (M + 1 - op_seq < Z.of_nat fuel)%Z -> fuel <> 0 ->
  exists op_seq' t' shards' res,
    ScheduleInternal L C fuel op_seq t shards = Some (op_seq', t', shards', res) /\
    (op_seq <= txid_ t' <= Z.max op_seq (M + 1))%Z /\
    Bits.has (coordinator_state_ t') (COORD_SCHED C) = true /\
    length res = (if IsGlobal t0 then n else unique_shard_cnt_ t) /\
    Forall (fun r => r.1 = true) res.
Proof.
  intros H Hn Hc0 Hend0 Hng Hlen Hids Hqs HM Hop Hmax Hfuel Hf0.
  destruct (InitByArgs_ready n index args t0 t H Hn Hc0 Hend0 Hng)
    as (HG & Hne & Hsl & Hend & Hact).
  destruct (ScheduleInternal_calls_loop L C HL fuel op_seq t shards M)
    as (op_seq' & t1 & shards' & res & Hloop & Hid & Hnext & Hl' & _); try assumption.
  { intros Hor. rewrite (Hsl Hor), Hlen. lia. }
  { intros Hg. rewrite Hlen. apply Hact. exact Hg. }
  pose proof (ScheduleInternal_loop_spec L C _ _ _ _ _ _ _ _ _ _ _ Hloop)
    as (_ & _ & Hcnt & Hlres & _ & _ & Hcs).
  assert (Hres : length res = (if IsGlobal t then n else unique_shard_cnt_ t)).
  { rewrite Hlres. destruct (IsGlobal t) eqn:Hg.
    - rewrite length_fmap, Hlen, filter_id; [apply length_seq|].
      apply Forall_forall. reflexivity.
    - rewrite Hlen. apply Hact. reflexivity. }
  assert (Hall : Forall (fun r : bool * bool => r.1 = true) res).
  { assert (Hf : Forall (fun b : bool => b = true) (fst <$> res)).
    { apply count_true_all. rewrite length_fmap, Hcnt, Hres.
      destruct (IsGlobal t); [exact Hlen|reflexivity]. }
    rewrite Forall_fmap in Hf. exact Hf. }
  assert (Hsched : Bits.has (coordinator_state_ t1) (COORD_SCHED C) = true).
  { rewrite Hcs. clear - HC. bits_facts HC. unfold COORD_SCHED.
    apply has_set_same. bit_side. }
  unfold ScheduleInternal.
  destruct (IsGlobal t) eqn:Hg; simpl in Hloop |- *; rewrite Hloop;
    cbn [mbind option_bind]; do 4 eexists; (split; [reflexivity|]).
  all: rewrite <- HG.
  all: destruct (IsOOO C t1); simpl; auto.
Qed.

End PackThenSchedule.

(** * The out-of-order mark of the scheduler *)

(** The results of a pass are the answers of its callback on the active
    shards, one after the other. *)
Lemma RunBriefInParallel_calls {A : Type}
    (cb : Transaction -> EngineShard -> option (Transaction * EngineShard * A))
    sa ns t0 T :
  (forall t sh t' sh' r, same_routing t0 t -> txid_ t = T ->
     cb t sh = Some (t', sh', r) -> same_routing t t' /\ txid_ t' = T) ->
  forall shards i t t' shards' rs,
    same_routing t0 t -> txid_ t = T ->
    RunBriefInParallel cb (is_active sa ns) i shards t = Some (t', shards', rs) ->
    length shards' = length shards /\
    Forall2 (fun k r => exists j sh_k t_k t_k' sh_k',
               k = i + j /\ shards !! j = Some sh_k /\
               same_routing t0 t_k /\ txid_ t_k = T /\
               cb t_k sh_k = Some (t_k', sh_k', r) /\ shards' !! j = Some sh_k')
      (filter (fun k => is_active sa ns t0 k = Some true) (seq i (length shards))) rs.
Proof.
  intros Hcb. induction shards as [|sh rest IH]; intros i t t' shards' rs Hr Htx H;
    simpl in H.
  - injection H as <- <- <-. split; [reflexivity|constructor].
  - rewrite (is_active_same_routing sa ns _ _ i Hr) in H.
    destruct (is_active sa ns t0 i) as [a|] eqn:Ha; simpl in H; [|discriminate].
    cbn [length seq]. rewrite filter_cons.
    assert (Hshift : forall (t1 : Transaction) rest2 rs2 (x : EngineShard),
              Forall2 (fun k r => exists j sh_k t_k t_k' sh_k',
                         k = S i + j /\ rest !! j = Some sh_k /\
                         same_routing t0 t_k /\ txid_ t_k = T /\
                         cb t_k sh_k = Some (t_k', sh_k', r) /\ rest2 !! j = Some sh_k')
                (filter (fun k => is_active sa ns t0 k = Some true)
                   (seq (S i) (length rest))) rs2 ->
              Forall2 (fun k r => exists j sh_k t_k t_k' sh_k',
                         k = i + j /\ (sh :: rest) !! j = Some sh_k /\
                         same_routing t0 t_k /\ txid_ t_k = T /\
                         cb t_k sh_k = Some (t_k', sh_k', r) /\
                         (x :: rest2) !! j = Some sh_k')
                (filter (fun k => is_active sa ns t0 k = Some true)
                   (seq (S i) (length rest))) rs2).
    { intros t1 rest2 rs2 x HF. eapply Forall2_impl; [exact HF|].
      intros k r (j & sh_k & t_k & t_k' & sh_k' & Hk & H1 & H2 & H3 & H4 & H5).
      exists (S j), sh_k, t_k, t_k', sh_k'. split; [lia|].
      split; [exact H1|]. split; [exact H2|]. split; [exact H3|].
      split; [exact H4|exact H5]. }
    destruct a.
    + rewrite decide_True by exact Ha.
      destruct (cb t sh) as [[[t1 sh1] r]|] eqn:Hc; simpl in H; [|discriminate].
      destruct (Hcb _ _ _ _ _ Hr Htx Hc) as [Hr1 Htx1].
      destruct (RunBriefInParallel cb _ (S i) rest t1) as [[[t2 rest2] rs2]|] eqn:Hrec;
        simpl in H; [|discriminate].
      injection H as <- <- <-.
      apply IH in Hrec; [|eapply same_routing_trans; eassumption|exact Htx1].
      destruct Hrec as [Hl HF]. split; [simpl; congruence|].
      constructor; [|apply (Hshift t1); exact HF].
      exists 0, sh, t, t1, sh1. rewrite Nat.add_0_r.
      split; [reflexivity|]. split; [reflexivity|]. split; [exact Hr|].
      split; [exact Htx|]. split; [exact Hc|reflexivity].
    + rewrite decide_False by (rewrite Ha; discriminate).
      destruct (RunBriefInParallel cb _ (S i) rest t) as [[[t2 rest2] rs2]|] eqn:Hrec;
        simpl in H; [|discriminate].
      injection H as <- <- <-.
      apply IH in Hrec; [|exact Hr|exact Htx].
      destruct Hrec as [Hl HF]. split; [simpl; congruence|].
      apply (Hshift t); exact HF.
Qed.

Section OutOfOrder.

Context (L : LocalStateBits) (C : CoordinatorStateBits).
Hypothesis HL : local_state_ok L = true.

Lemma db_Acquire_ext m la lt1 lt2 :
  (forall db k, lt1 db k = lt2 db k) ->
  (db_Acquire m la lt1).1 = (db_Acquire m la lt2).1 /\
  forall db k, (db_Acquire m la lt1).2 db k = (db_Acquire m la lt2).2 db k.
Proof.
  unfold db_Acquire. generalize true. generalize (lock_keys la).
  intros keys. revert lt1 lt2.
  induction keys as [|key keys IH]; intros lt1 lt2 ok Hlt; simpl; [auto|].
  rewrite (Hlt (kl_db_index la) key). apply IH.
  intros db k. unfold lock_update. rewrite Hlt. reflexivity.
Qed.

Lemma lock_granted_in_agrees t sh sh' :
  shard_agrees sh sh' -> lock_granted_in t sh' = lock_granted_in t sh.
Proof.
  intros (Hid & _ & _ & Hsl & _ & Hlt). unfold lock_granted_in.
  rewrite Hid, Hsl.
  rewrite (proj1 (db_Acquire_ext (TxMode t) (GetLockArgs t (shard_id sh))
                    (lock_table sh') (lock_table sh) Hlt)).
  reflexivity.
Qed.

Lemma shard_agrees_refl sh : shard_agrees sh sh.
Proof. unfold shard_agrees. auto 10. Qed.

Lemma shard_agrees_trans sh1 sh2 sh3 :
  shard_agrees sh1 sh2 -> shard_agrees sh2 sh3 -> shard_agrees sh1 sh3.
Proof.
  intros (A1 & A2 & A3 & A4 & A5 & A6) (B1 & B2 & B3 & B4 & B5 & B6).
  unfold shard_agrees. repeat split; congruence.
Qed.

(** The attempt and the cancellation, seen from a transaction routed as
    [t0]. *)
Lemma ScheduleInShard_attempt t0 T t sh sd :
  same_routing t0 t -> txid_ t = T ->
  shard_data_ t !! SidToId t (shard_id sh) = Some sd ->
  exists sd' sh' r,
    ScheduleInShard L t sh = Some (set_slot (SidToId t (shard_id sh)) sd' t, sh', r) /\
    arg_start sd' = arg_start sd /\ arg_count sd' = arg_count sd /\
    attempt_rel L t0 T sh sd sh' sd' r.
Proof.
  intros Hr Htx Hsd.
  destruct (ScheduleInShard_local L HL t sh sd Hsd)
    as (sd' & sh' & r & Hs & Has & Hac & Hc & Hid & Hsl & Hw & Hok & Hfail & _).
  exists sd', sh', r. split; [exact Hs|]. split; [exact Has|]. split; [exact Hac|].
  rewrite (GetLockArgs_same_routing _ _ _ Hr), (TxMode_same_routing _ _ Hr), Htx in Hok.
  assert (HG : IsGlobal t = IsGlobal t0).
  { destruct Hr as (_ & Hcid & _). unfold IsGlobal. rewrite Hcid. reflexivity. }
  destruct Hr as (Hthis & _). rewrite HG, Hthis in Hok.
  unfold attempt_rel. auto 10.
Qed.

Lemma CancelInShard_cancellation t0 T t sh sd :
  same_routing t0 t -> txid_ t = T ->
  shard_data_ t !! SidToId t (shard_id sh) = Some sd ->
  exists sd' sh' r,
    CancelInShard L t sh = Some (set_slot (SidToId t (shard_id sh)) sd' t, sh', r) /\
    arg_start sd' = arg_start sd /\ arg_count sd' = arg_count sd /\
    cancellation_rel L t0 sh sd sh' sd' r.
Proof.
  intros Hr _ Hsd.
  destruct (CancelInShard_local L t sh sd Hsd)
    as (sd' & sh' & Hc & Hp & Has & Hac & Hcm & Hid & Hsl & Hw & Hq & Hlt & Hm).
  exists sd', sh', (negb (pq_pos sd =? kEnd)%Z).
  split; [exact Hc|]. split; [exact Has|]. split; [exact Hac|].
  rewrite (GetLockArgs_same_routing _ _ _ Hr), (TxMode_same_routing _ _ Hr) in Hlt.
  unfold cancellation_rel. auto 10.
Qed.


(** A shard that takes the transaction into its queue answers with what
    it found of the locks. *)
Lemma ScheduleInShard_granted t sh t' sh' r :
  ScheduleInShard L t sh = Some (t', sh', r) ->
  r.1 = true -> r = (true, lock_granted_in t sh).
Proof.
  unfold ScheduleInShard, lock_granted_in. intros H Hr.
  destruct (txid_ t <=? committed_txid sh)%Z.
  { injection H as <- <- <-. simpl in Hr. discriminate Hr. }
  destruct (shard_data_ t !! SidToId t (shard_id sh)) as [sd|]; simpl in H;
    [|discriminate].
  destruct (IsGlobal t); simpl in H.
  - destruct (negb (txq_Empty (txq sh)) && _).
    + destruct (Bits.has _ _); injection H as <- <- <-; simpl in Hr; discriminate Hr.
    + unfold txq_Insert in H. injection H as <- <- <-. reflexivity.
  - destruct (db_Acquire _ _ _) as [acq lt]. simpl in H.
    destruct (negb (txq_Empty (txq sh)) && _).
    + destruct (Bits.has _ _); injection H as <- <- <-; simpl in Hr; discriminate Hr.
    + unfold txq_Insert in H. injection H as <- <- <-. reflexivity.
Qed.

Lemma lock_granted_in_same_routing t t' sh :
  same_routing t t' -> lock_granted_in t' sh = lock_granted_in t sh.
Proof.
  intros Hr. unfold lock_granted_in.
  rewrite (GetLockArgs_same_routing _ _ _ Hr), (TxMode_same_routing _ _ Hr).
  destruct Hr as (_ & Hcid & _). unfold IsGlobal. rewrite Hcid. reflexivity.
Qed.

(** A round that fails and is cancelled leaves every shard as it found
    it, and the transaction ready for the next round. *)
Lemma failed_round sa ns t0 T t shards t2 shards2 res t3 shards3 cancelled :
  layout_ok sa ns t0 (length shards) ->
  round_ready L sa ns t0 t shards ->
  RunBriefInParallel (ScheduleInShard L) (is_active sa ns) 0 shards (with_txid T t)
    = Some (t2, shards2, res) ->
  RunBriefInParallel (CancelInShard L) (is_active sa ns) 0 shards2 t2
    = Some (t3, shards3, cancelled) ->
  round_ready L sa ns t0 t3 shards3 /\ length shards3 = length shards /\
  Forall2 shard_agrees shards shards3.
Proof.
  intros (Hsa & Hne & Htot & Hinj) (Hr & Hfrom & Hunq & HK & Hqs) Hrun Hcan.
  assert (Hr1 : same_routing t0 (with_txid T t))
    by (eapply same_routing_trans; [exact Hr|apply same_routing_with_txid]).
  destruct (RunBriefInParallel_local (ScheduleInShard L) (attempt_rel L t0 T)
              sa ns t0 (length shards) T (ScheduleInShard_attempt t0 T) Hne Htot Hinj
              shards 0 (with_txid T t) Hr1 eq_refl Hfrom (le_n _))
    as (t2' & shards2' & res' & Hrun' & Hr2 & Htx2 & Hl2 & _ & Hidle2 & Hall2).
  rewrite Hrun in Hrun'. injection Hrun' as <- <- <-.
  assert (Hatt : forall j sh, shards !! j = Some sh ->
            is_active sa ns t0 j = Some true ->
            exists sd sh2 sd2 r,
              shard_data_ t !! SidToId t0 j = Some sd /\
              shards2 !! j = Some sh2 /\ shard_data_ t2 !! SidToId t0 j = Some sd2 /\
              attempt_rel L t0 T sh sd sh2 sd2 r).
  { intros j sh Hj Ha.
    assert (Hjn : j < length shards) by (eapply lookup_lt_Some; eassumption).
    destruct (Forall2_filter_seq _ _ _ _ j Hall2 Hjn Ha)
      as (r & j' & sh_ & sd & sh2 & sd2 & Hk & Hsh & Hsh2 & Hsd & Hsd2 & HR).
    simpl in Hk. subst j'. rewrite Hj in Hsh. injection Hsh as <-.
    exists sd, sh2, sd2, r. auto. }
  assert (Hfrom2 : shards_from 0 shards2).
  { intros j sh2 Hj.
    assert (Hjn : j < length shards) by (rewrite <- Hl2; eapply lookup_lt_Some; eassumption).
    destruct (lookup_lt_is_Some_2 shards j Hjn) as [sh Hsh].
    destruct (Htot j Hjn) as [[|] Ha].
    - destruct (Hatt j sh Hsh Ha) as (sd & sh2' & sd2 & r & _ & H2 & _ & HR).
      rewrite Hj in H2. injection H2 as <-.
      destruct HR as (_ & Hid & _). rewrite Hid. apply Hfrom. exact Hsh.
    - rewrite (Hidle2 j sh Hsh Ha) in Hj. injection Hj as <-. apply Hfrom. exact Hsh. }
  assert (Hr02 : same_routing t0 t2) by (eapply same_routing_trans; eassumption).
  destruct (RunBriefInParallel_local (CancelInShard L) (cancellation_rel L t0)
              sa ns t0 (length shards) (txid_ t2)
              (CancelInShard_cancellation t0 (txid_ t2)) Hne Htot Hinj
              shards2 0 t2 Hr02 eq_refl Hfrom2 ltac:(lia))
    as (t3' & shards3' & c' & Hcan' & Hr3 & Htx3 & Hl3 & _ & Hidle3 & Hall3).
  rewrite Hcan in Hcan'. injection Hcan' as <- <- <-.
  rewrite Hl2 in Hall3.
  assert (Hsum : forall j sh, shards !! j = Some sh ->
            exists sh3, shards3 !! j = Some sh3 /\ shard_agrees sh sh3 /\
              (is_active sa ns t0 j = Some true ->
               exists sd3, shard_data_ t3 !! SidToId t0 j = Some sd3 /\
                 pq_pos sd3 = kEnd /\
                 (sa = true -> Bits.has (local_mask sd3) (KEYLOCK_ACQUIRED L) = false))).
  { intros j sh Hj.
    assert (Hjn : j < length shards) by (eapply lookup_lt_Some; eassumption).
    destruct (Htot j Hjn) as [[|] Ha].
    2:{ pose proof (Hidle2 j sh Hj Ha) as H2. pose proof (Hidle3 j sh H2 Ha) as H3.
        exists sh. split; [exact H3|]. split; [apply shard_agrees_refl|].
        intros E. congruence. }
    destruct (Hatt j sh Hj Ha) as (sd & sh2 & sd2 & r & Hsd & Hsh2 & Hsd2 & HR).
    destruct (Forall2_filter_seq _ _ _ _ j Hall3 Hjn Ha)
      as (c & j' & sh2_ & sd2_ & sh3 & sd3 & Hk & Hs2 & Hsh3 & Hd2 & Hsd3 & HC).
    simpl in Hk. subst j'.
    rewrite Hsh2 in Hs2. injection Hs2 as <-. rewrite Hsd2 in Hd2. injection Hd2 as <-.
    pose proof (queued_false _ _ _ (Hunq j Hjn Ha) Hsd) as Hend.
    pose proof (proj1 (Forall_lookup _ _) Hqs j sh Hj) as Hq. simpl in Hq.
    pose proof (txq_fresh_pos_bounds _ Hq) as Hfresh.
    destruct HR as (A1 & A2 & A3 & A4 & Aok & Afail).
    destruct HC as (B1 & B2 & B3 & B4 & B5 & B6 & B7 & B8).
    assert (HKsd : sa = true -> Bits.has (local_mask sd) (KEYLOCK_ACQUIRED L) = false)
      by (intros E; apply (HK E j sd Hjn Hsd)).
    exists sh3. split; [exact Hsh3|].
    destruct r as [[|] g]; simpl in Aok, Afail.
    - destruct (Aok eq_refl) as (Q1 & Q2 & Q3 & Q4). clear Aok Afail.
      assert (Hn : (pq_pos sd2 =? kEnd)%Z = false) by (apply Z.eqb_neq; lia).
      rewrite Hn in B6, B7, B8. simpl in B7, B8.
      assert (Hq3 : txq sh3 = txq sh).
      { rewrite B6, Q1, Q2. apply (txq_Remove_Insert T (this t0) (txq sh)). }
      destruct (IsGlobal t0) eqn:Hg.
      + rewrite Q4, (HKsd Hsa) in B7, B8.
        split; [unfold shard_agrees; repeat split; try congruence;
                intros db k; rewrite B7, Q3; reflexivity|].
        intros _. exists sd3. split; [exact Hsd3|]. split; [exact B5|].
        intros _. rewrite B8. apply HKsd. exact Hsa.
      + assert (HKs : Bits.has (Bits.set (local_mask sd) (KEYLOCK_ACQUIRED L))
                        (KEYLOCK_ACQUIRED L) = true).
        { clear - HL. bits_facts HL. apply has_set_same. bit_side. }
        rewrite Q4, HKs in B7, B8.
        split; [unfold shard_agrees; repeat split; try congruence|].
        * intros db k. rewrite B7, Q3, A2. apply db_Release_Acquire.
        * intros _. exists sd3. split; [exact Hsd3|]. split; [exact B5|].
          intros E. congruence.
    - destruct (Afail eq_refl) as (Q1 & Q2 & Q3 & Q4). clear Aok Afail.
      assert (Hn : (pq_pos sd2 =? kEnd)%Z = true) by (apply Z.eqb_eq; congruence).
      rewrite Hn in B6, B7, B8. simpl in B7, B8.
      split; [unfold shard_agrees; repeat split; try congruence;
              intros db k; rewrite B7; apply Q3|].
      intros _. exists sd3. split; [exact Hsd3|]. split; [exact B5|].
      intros E. rewrite B8. apply Q4, HKsd, E. }
  assert (Hback : forall j sh3, shards3 !! j = Some sh3 ->
            exists sh, shards !! j = Some sh /\ shard_agrees sh sh3).
  { intros j sh3 Hj.
    assert (Hjn : j < length shards)
      by (rewrite <- Hl2, <- Hl3; eapply lookup_lt_Some; eassumption).
    destruct (lookup_lt_is_Some_2 shards j Hjn) as [sh Hsh].
    destruct (Hsum j sh Hsh) as (sh3' & G1 & G2 & _).
    rewrite Hj in G1. injection G1 as <-. exists sh. auto. }
  split; [|split; [congruence|]].
  - split; [eapply same_routing_trans; eassumption|]. split; [|split; [|split]].
    + intros j sh3 Hj. destruct (Hback j sh3 Hj) as (sh & Hsh & Hid & _).
      rewrite Hid. apply Hfrom. exact Hsh.
    + intros k Hk Ha. rewrite Hl3, Hl2 in Hk.
      destruct (lookup_lt_is_Some_2 shards k Hk) as [sh Hsh].
      destruct (Hsum k sh Hsh) as (sh3 & _ & _ & G).
      destruct (G Ha) as (sd3 & Hsd3 & Hp & _).
      rewrite (queued_slot _ _ _ Hsd3), Hp, Z.eqb_refl. reflexivity.
    + intros E k sd Hk Hsd. rewrite Hl3, Hl2 in Hk.
      destruct (lookup_lt_is_Some_2 shards k Hk) as [sh Hsh].
      destruct (Hsum k sh Hsh) as (sh3 & _ & _ & G).
      assert (Ha : is_active sa ns t0 k = Some true)
        by (rewrite E; reflexivity).
      destruct (G Ha) as (sd3 & Hsd3 & _ & HK3).
      rewrite Hsd in Hsd3. injection Hsd3 as <-. apply HK3. exact E.
    + apply Forall_lookup. intros j sh3 Hj.
      destruct (Hback j sh3 Hj) as (sh & Hsh & _ & _ & Hq & _).
      simpl. rewrite Hq. apply (proj1 (Forall_lookup _ _) Hqs j sh Hsh).
  - apply Forall2_same_length_lookup_2; [congruence|].
    intros j sh sh3 Hsh Hj.
    destruct (Hsum j sh Hsh) as (sh3' & G1 & G2 & _).
    rewrite Hj in G1. injection G1 as <-. exact G2.
Qed.

Lemma shards_agree_trans l1 l2 l3 :
  Forall2 shard_agrees l1 l2 -> Forall2 shard_agrees l2 l3 ->
  Forall2 shard_agrees l1 l3.
Proof.
  intros H12. revert l3. induction H12 as [|x y l1 l2 Hxy _ IH]; intros l3 H23.
  - inversion H23. constructor.
  - inversion H23; subst. constructor; [eapply shard_agrees_trans; eassumption|auto].
Qed.

Lemma shards_agree_refl l : Forall2 shard_agrees l l.
Proof. induction l; constructor; [apply shard_agrees_refl|assumption]. Qed.

(** The loop returns what its last round made: the pass of
    [ScheduleInShard] over the shards as that round found them, which are
    the shards that the loop was given when every round before was
    cancelled on shards in the order of their ids. *)
Lemma ScheduleInternal_loop_final sa sh ns t0 :
  forall fuel op_seq t shards op_seq' t' shards' res,
  ScheduleInternal_loop L C fuel sa sh ns op_seq t shards
    = Some (op_seq', t', shards', res) ->
  exists t_r shards_r t2,
    same_routing t t_r /\ length shards_r = length shards /\
    RunBriefInParallel (ScheduleInShard L) (is_active sa ns) 0 shards_r
      (with_txid (txid_ t') t_r) = Some (t2, shards', res) /\
    shard_data_ t' = shard_data_ t2 /\
    (layout_ok sa ns t0 (length shards) -> round_ready L sa ns t0 t shards ->
     Forall2 shard_agrees shards shards_r).
Proof.
  induction fuel as [|fuel IH]; intros op_seq t shards op_seq' t' shards' res H;
    [discriminate|].
  cbn [ScheduleInternal_loop] in H. unfold op_seq_fetch_add in H. cbv iota beta in H.
  destruct (RunBriefInParallel (ScheduleInShard L) (is_active sa ns) 0 shards
              (with_txid op_seq t)) as [[[t2 shards2] res2]|] eqn:Hrun;
    simpl in H; [|discriminate].
  pose proof (txid_preserved_RunBrief _ _ (txid_preserved_ScheduleInShard L)
                _ _ _ _ _ _ Hrun) as Htx. simpl in Htx.
  pose proof Hrun as Hrun'.
  apply (RunBriefInParallel_spec (ScheduleInShard L) (fun _ => True) sa ns
           (with_txid op_seq t)) in Hrun'; [| |apply same_routing_refl].
  2:{ intros t1 sh0 t1' sh1 r Hr Hc. apply ScheduleInShard_answer in Hc as [Hr' _].
      auto. }
  destruct Hrun' as (Hr2 & _ & Hlen2 & _).
  destruct (count_true (fst <$> res2) =? ns).
  - injection H as <- <- <- <-. exists t, shards, t2. simpl.
    split; [apply same_routing_refl|]. split; [reflexivity|].
    rewrite Htx. split; [exact Hrun|]. split; [reflexivity|].
    intros _ _. apply shards_agree_refl.
  - destruct (RunBriefInParallel (CancelInShard L) (is_active sa ns) 0 shards2 t2)
      as [[[t3 shards3] cancelled]|] eqn:Hcan; simpl in H; [|discriminate].
    pose proof Hcan as Hcan'.
    apply (RunBriefInParallel_spec (CancelInShard L) (fun _ => True) sa ns t2) in Hcan';
      [| |apply same_routing_refl].
    2:{ intros t1 sh0 t1' sh1 r Hr Hc. apply CancelInShard_routing in Hc. auto. }
    destruct Hcan' as (Hr3 & _ & Hlen3 & _).
    destruct (negb _); [discriminate|].
    apply IH in H.
    destruct H as (t_r & shards_r & t2' & Hrr & Hlr & Hrun_r & Hsd & Himp).
    exists t_r, shards_r, t2'.
    split; [|split; [congruence|split; [exact Hrun_r|split; [exact Hsd|]]]].
    + eapply same_routing_trans; [apply same_routing_with_txid|].
      eapply same_routing_trans; [exact Hr2|].
      eapply same_routing_trans; eassumption.
    + intros Hlay Hready.
      destruct (failed_round sa ns t0 op_seq t shards t2 shards2 res2 t3 shards3
                  cancelled Hlay Hready Hrun Hcan) as (Hready3 & Hl3 & Hag).
      apply (shards_agree_trans _ shards3); [exact Hag|].
      apply Himp; [rewrite Hl3; exact Hlay|exact Hready3].
Qed.

Hypothesis HC : coordinator_state_ok C = true.

(** C1: [ScheduleInternal] sets COORD_OOO exactly for a single-hop
    transaction that is not global and to which every active shard granted
    its locks in the round that scheduled it; and then OUT_OF_ORDER is set
    in the mask of every slot. The answers [res] are those of
    [ScheduleInShard] in that round, one call on every active shard with
    the id that the transaction keeps: every shard took the transaction
    into its queue and answered with what it found of the locks of its
    keys and of its own lock. When the shards come in the order of their
    ids and the transaction is in no queue, the rounds that failed before
    have left every shard as it was, so that the mark is decided by the
    locks that the shards held when [ScheduleInternal] was called. *)
Theorem ScheduleInternal_OOO fuel op_seq t shards op_seq' t' shards' res :
  ScheduleInternal L C fuel op_seq t shards = Some (op_seq', t', shards', res) ->
  Bits.has (coordinator_state_ t) (COORD_OOO C) = false ->
  0 < length shards ->
  (IsGlobal t = false ->
   active_count false (unique_shard_cnt_ t) t (length shards) = unique_shard_cnt_ t) ->
  exists shards_r,
    length shards_r = length shards /\
    Forall2 (fun k r =>
               answered L t (txid_ t') shards_r shards' k r /\
               exists sh_k, shards_r !! k = Some sh_k /\
                            r = (true, lock_granted_in t sh_k))
      (filter (fun k => is_active (IsGlobal t) (unique_shard_cnt_ t) t k = Some true)
         (seq 0 (length shards))) res /\
    (IsOOO C t' = true <->
       Bits.has (coordinator_state_ t) (COORD_EXEC_CONCLUDING C) = true /\
       IsGlobal t = false /\
       Forall (fun r => r.2 = true) res) /\
    (IsOOO C t' = true ->
       Forall (fun sd => Bits.has (local_mask sd) (OUT_OF_ORDER L) = true)
              (shard_data_ t')) /\
    (shard_data_ t <> [] ->
     (IsGlobal t = true \/ unique_shard_cnt_ t <> 1 ->
      length shards <= length (shard_data_ t)) ->
     (forall j sh, shards !! j = Some sh -> shard_id sh = j) ->
     Forall (fun sd => pq_pos sd = kEnd /\
                       (IsGlobal t = true ->
                        Bits.has (local_mask sd) (KEYLOCK_ACQUIRED L) = false))
            (shard_data_ t) ->
     Forall (fun sh => queue_positions_ok (txq sh)) shards ->
     Forall2 (fun sh sh_r =>
                shard_agrees
                  (if IsGlobal t
                   then with_shard_lock
                          (IntentLock_Acquire (TxMode t) (shard_lock sh)).2 sh
                   else sh) sh_r) shards shards_r /\
     (IsOOO C t' = true <->
        Bits.has (coordinator_state_ t) (COORD_EXEC_CONCLUDING C) = true /\
        forall k sh, shards !! k = Some sh ->
          is_active (IsGlobal t) (unique_shard_cnt_ t) t k = Some true ->
          lock_granted_in t sh = true)).
Proof.
  intros H Hooo Hn Hact.
  unfold ScheduleInternal in H.
  set (sh := Bits.has (coordinator_state_ t) (COORD_EXEC_CONCLUDING C)) in *.
  set (ns := if IsGlobal t then length shards else unique_shard_cnt_ t).
  set (shards1 := if IsGlobal t
                  then (fun x => with_shard_lock
                                   (IntentLock_Acquire (TxMode t) (shard_lock x)).2 x)
                         <$> shards
                  else shards).
  assert (Hloop0 : exists seq1 t1,
            ScheduleInternal_loop L C fuel (IsGlobal t) sh ns op_seq t shards1
            = Some (seq1, t1, shards', res) /\
            t' = (if IsOOO C t1
                  then with_shard_data
                         ((fun sd => set_local_mask
                                       (Bits.set (local_mask sd) (OUT_OF_ORDER L)) sd)
                            <$> shard_data_ t1) t1
                  else t1)).
  { subst ns shards1. destruct (IsGlobal t);
      (destruct (ScheduleInternal_loop _ _ _ _ _ _ _ _ _)
         as [[[[seq1 t1] shards2] res1]|]; simpl in H; [|discriminate]);
      injection H as <- <- <- <-; eauto. }
  clear H. destruct Hloop0 as (seq1 & t1 & Hloop & Ht').
  assert (Hl1 : length shards1 = length shards).
  { subst shards1. destruct (IsGlobal t); [apply length_fmap|reflexivity]. }
  assert (Hactive : forall k, is_active (IsGlobal t) ns t k
                              = is_active (IsGlobal t) (unique_shard_cnt_ t) t k).
  { intros k. subst ns. destruct (IsGlobal t); reflexivity. }
  pose proof (ScheduleInternal_loop_spec L C _ _ _ _ _ _ _ _ _ _ _ Hloop)
    as (_ & Hans & Hsucc & Hlen & _ & _ & Hcs).
  destruct (ScheduleInternal_loop_final (IsGlobal t) sh ns t _ _ _ _ _ _ _ _ Hloop)
    as (t_r & shards_r & t2 & Hrr & Hlr & Hrun & _ & Himp).
  rewrite Hl1 in Hlen, Hlr.
  assert (Hcount : length res = ns).
  { rewrite Hlen. subst ns. destruct (IsGlobal t) eqn:Hg.
    - rewrite filter_id; [apply length_seq|]. apply Forall_forall. reflexivity.
    - apply Hact. reflexivity. }
  assert (Hstate : coordinator_state_ t' = coordinator_state_ t1 /\
                   txid_ t' = txid_ t1 /\
                   (IsOOO C t1 = true ->
                    Forall (fun sd => Bits.has (local_mask sd) (OUT_OF_ORDER L) = true)
                           (shard_data_ t'))).
  { rewrite Ht'. destruct (IsOOO C t1) eqn:Ho;
      (split; [reflexivity|]); (split; [reflexivity|]); [intros _|discriminate].
    simpl. apply Forall_fmap, Forall_forall. intros sd _. simpl.
    unfold OUT_OF_ORDER. apply has_set_same. clear - HL. bits_facts HL. bit_side. }
  destruct Hstate as (Hst & Htx & Hall).
  assert (Hiff : IsOOO C t1 = true <-> sh = true /\ count_true (snd <$> res) = ns).
  { clear - HC Hcs Hooo. bits_facts HC.
    unfold IsOOO. rewrite Hcs. unfold COORD_OOO, COORD_SCHED in *.
    rewrite has_set_other by bit_side.
    destruct sh; simpl; [|rewrite Hooo; split; [discriminate|intros [? _]; discriminate]].
    destruct (Nat.eqb_spec (count_true (snd <$> res)) ns) as [E|E].
    - rewrite has_set_same by bit_side. split; auto.
    - rewrite Hooo. split; [discriminate|]. intros [_ ?]. contradiction. }
  assert (HO : IsOOO C t' = IsOOO C t1) by (unfold IsOOO; rewrite Hst; reflexivity).
  assert (Hscheduled : Forall (fun r : bool * bool => r.1 = true) res).
  { assert (Hf : Forall (fun b : bool => b = true) (fst <$> res)).
    { apply count_true_all. rewrite length_fmap. congruence. }
    rewrite Forall_fmap in Hf. exact Hf. }
  assert (Hcalls :
    Forall2 (fun k r =>
               answered L t (txid_ t') shards_r shards' k r /\
               exists sh_k, shards_r !! k = Some sh_k /\
                            r = (true, lock_granted_in t sh_k))
      (filter (fun k => is_active (IsGlobal t) (unique_shard_cnt_ t) t k = Some true)
         (seq 0 (length shards))) res).
  { rewrite Htx.
    assert (Hr0 : same_routing t (with_txid (txid_ t1) t_r))
      by (eapply same_routing_trans; [exact Hrr|apply same_routing_with_txid]).
    rewrite <- Htx in Hrun.
    destruct (RunBriefInParallel_calls (ScheduleInShard L) (IsGlobal t) ns t (txid_ t1))
      with (shards := shards_r) (i := 0) (t := with_txid (txid_ t') t_r)
           (t' := t2) (shards' := shards') (rs := res) as [_ HF].
    { intros x sh0 x' sh1 r Hx Hxt Hc. split.
      - apply ScheduleInShard_answer in Hc. apply Hc.
      - rewrite (txid_preserved_ScheduleInShard _ _ _ _ _ _ Hc). exact Hxt. }
    { rewrite Htx. exact Hr0. }
    { simpl. exact Htx. }
    { exact Hrun. }
    rewrite Hlr in HF.
    rewrite (list_filter_iff _ (fun k => is_active (IsGlobal t) ns t k = Some true)
               (seq 0 (length shards)))
      by (intros k; rewrite Hactive; reflexivity).
    apply Forall2_same_length_lookup_2; [eapply Forall2_length; exact HF|].
    intros i k r Hk Hri.
    destruct (Forall2_lookup_lr _ _ _ _ _ _ HF Hk Hri)
      as (j & sh_k & t_k & t_k' & sh_k' & Hkj & H1 & H2 & H3 & H4 & H5).
    simpl in Hkj. subst j.
    pose proof (proj1 (Forall_lookup _ _) Hscheduled i r Hri) as Hr1. simpl in Hr1.
    split; [exists sh_k, t_k, t_k', sh_k'; auto|].
    exists sh_k. split; [exact H1|].
    rewrite (ScheduleInShard_granted _ _ _ _ _ H4 Hr1).
    rewrite (lock_granted_in_same_routing _ _ _ H2). reflexivity. }
  assert (Hmain : IsOOO C t' = true <->
                  sh = true /\ IsGlobal t = false /\ Forall (fun r => r.2 = true) res).
  { rewrite HO, Hiff. split.
    - intros [Hsh Hg]. split; [assumption|].
      destruct (IsGlobal t) eqn:Hsa.
      + exfalso.
        assert (Hz : count_true (snd <$> res) = 0).
        { apply count_true_none, Forall_fmap.
          eapply Forall_impl; [exact Hans|]. intros r [_ Hr]. simpl.
          apply Hr. exact Hsa. }
        subst ns. lia.
      + split; [reflexivity|].
        apply (answers_granted t); [assumption|congruence|congruence].
    - intros (Hsh & Hg & Hall'). split; [assumption|].
      apply (answers_granted t) in Hall'; [|assumption|congruence]. congruence. }
  exists shards_r. split; [exact Hlr|]. split; [exact Hcalls|].
  split; [exact Hmain|]. split; [rewrite HO; exact Hall|].
  intros Hne Hslots Hids Hend Hqs.
  assert (Hlay : layout_ok (IsGlobal t) ns t (length shards1)).
  { rewrite Hl1. split; [reflexivity|]. split; [exact Hne|]. subst ns.
    destruct (IsGlobal t) eqn:Hg.
    - specialize (Hslots (or_introl eq_refl)). split.
      + intros k Hk. eexists. reflexivity.
      + intros k k' Hk Hk' _ _. rewrite !SidToId_slot by lia. auto.
    - split.
      + intros k Hk. unfold is_active.
        destruct (Nat.eqb_spec (unique_shard_cnt_ t) 1) as [E|E];
          [eexists; reflexivity|].
        specialize (Hslots (or_intror E)).
        destruct (lookup_lt_is_Some_2 (shard_data_ t) k ltac:(lia)) as [sd Hsd].
        rewrite Hsd. eexists. reflexivity.
      + intros k k' Hk Hk'. unfold is_active.
        destruct (Nat.eqb_spec (unique_shard_cnt_ t) 1) as [E|E].
        * intros H1 H2 _. injection H1 as H1. injection H2 as H2.
          apply Nat.eqb_eq in H1. apply Nat.eqb_eq in H2. congruence.
        * specialize (Hslots (or_intror E)). intros _ _.
          rewrite !SidToId_slot by lia. auto. }
  assert (Hready : round_ready L (IsGlobal t) ns t t shards1).
  { split; [apply same_routing_refl|]. split; [|split; [|split]].
    - subst shards1. destruct (IsGlobal t).
      + intros j x Hj. rewrite list_lookup_fmap in Hj.
        destruct (shards !! j) as [y|] eqn:Hy; [|discriminate].
        injection Hj as <-. simpl. apply Hids. exact Hy.
      + intros j x Hj. simpl. apply Hids. exact Hj.
    - intros k _ _. apply unqueued_everywhere.
      eapply Forall_impl; [exact Hend|]. intros sd [Hp _]. exact Hp.
    - intros Hsa k sd _ Hsd.
      apply (proj1 (Forall_lookup _ _) Hend _ _ Hsd). exact Hsa.
    - subst shards1. destruct (IsGlobal t); [|exact Hqs].
      apply Forall_fmap. exact Hqs. }
  pose proof (Himp Hlay Hready) as Hag.
  assert (Hlg : IsGlobal t = false -> forall k sh0 sh_k,
            shards !! k = Some sh0 -> shards_r !! k = Some sh_k ->
            lock_granted_in t sh_k = lock_granted_in t sh0).
  { intros Hg k sh0 sh_k Hk Hrk. apply lock_granted_in_agrees.
    subst shards1. rewrite Hg in Hag.
    apply (Forall2_lookup_lr _ _ _ _ _ _ Hag Hk Hrk). }
  split.
  - subst shards1. destruct (IsGlobal t); [|exact Hag].
    rewrite Forall2_fmap_l in Hag. exact Hag.
  - rewrite Hmain. split.
    + intros (Hsh & Hg & Hall2). split; [exact Hsh|]. intros k sh0 Hk Ha.
      assert (Hkn : k < length shards) by (eapply lookup_lt_Some; eassumption).
      assert (Hin : k ∈ filter (fun k => is_active (IsGlobal t) (unique_shard_cnt_ t)
                                            t k = Some true) (seq 0 (length shards))).
      { apply list_elem_of_filter. split; [exact Ha|]. apply elem_of_seq. lia. }
      apply list_elem_of_lookup_1 in Hin as [i Hi].
      destruct (Forall2_lookup_l _ _ _ _ _ Hcalls Hi)
        as (r & Hri & _ & sh_k & Hrk & Hr).
      pose proof (proj1 (Forall_lookup _ _) Hall2 i r Hri) as Hr2.
      rewrite Hr in Hr2. simpl in Hr2.
      rewrite <- (Hlg Hg k sh0 sh_k Hk Hrk). exact Hr2.
    + intros (Hsh & Hall2). split; [exact Hsh|].
      assert (Hg : IsGlobal t = false).
      { destruct (IsGlobal t) eqn:Hg; [|reflexivity]. exfalso.
        destruct (lookup_lt_is_Some_2 shards 0 Hn) as [sh0 Hsh0].
        specialize (Hall2 0 sh0 Hsh0 eq_refl).
        unfold lock_granted_in in Hall2. rewrite Hg in Hall2. discriminate. }
      split; [exact Hg|]. apply Forall_lookup. intros i r Hri.
      destruct (Forall2_lookup_r _ _ _ _ _ Hcalls Hri)
        as (k & Hi & _ & sh_k & Hrk & Hr).
      apply list_elem_of_lookup_2 in Hi.
      apply list_elem_of_filter in Hi as [Ha Hk]. apply elem_of_seq in Hk.
      destruct (lookup_lt_is_Some_2 shards k ltac:(lia)) as [sh0 Hsh0].
      rewrite Hr. simpl. rewrite (Hlg Hg k sh0 sh_k Hsh0 Hrk).
      apply (Hall2 k sh0 Hsh0 Ha).
Qed.

End OutOfOrder.


Import Scenario.

(** ** The packer on the concrete instance *)

Lemma InitByArgs_arg_count_witness :
  exists t',
    InitByArgs route determine_keys 4 0 mset_args (NewTransaction 1 MSET) = Some t' /\
    ((unique_shard_cnt_ t' <> 1 ->
       forall s, s < 4 ->
       exists sd, shard_data_ t' !! s = Some sd /\
         arg_count sd = Z.of_nat (2 * keys_routed_to route 4 mset_args
                                        (determine_keys MSET mset_args) s)) /\
     (unique_shard_cnt_ t' = 1 ->
       exists sd, shard_data_ t' !! SidToId t' (unique_shard_id_ t') = Some sd /\
         arg_count sd = (2 ^ 16 - 1)%Z)).
Proof.
  eexists. split; [vm_compute; reflexivity|].
  apply (InitByArgs_arg_count route determine_keys 4 0 mset_args (NewTransaction 1 MSET));
    [vm_compute; reflexivity | reflexivity | vm_compute; lia | vm_compute; lia
    | right; vm_compute; lia | reflexivity].
Defined.

(** C3 as the claim states it fails: MSET d 1 b 2 on four shards sends one
    key to shard 0 and the slot counts two arguments; MGET d d sends two keys
    to shard 0 and the only slot holds the sentinel. *)
Lemma InitByArgs_arg_count_not_key_count :
  (exists t' sd,
     InitByArgs route determine_keys 4 0 mset_args (NewTransaction 1 MSET) = Some t' /\
     shard_data_ t' !! 0 = Some sd /\
     arg_count sd = 2%Z /\
     keys_routed_to route 4 mset_args (determine_keys MSET mset_args) 0 = 1 /\
     arg_count sd
       <> Z.of_nat (keys_routed_to route 4 mset_args (determine_keys MSET mset_args) 0)) /\
  (exists t' sd,
     InitByArgs route determine_keys 4 0 mget_args (NewTransaction 1 MGET) = Some t' /\
     shard_data_ t' = [sd] /\
     arg_count sd = 65535%Z /\
     keys_routed_to route 4 mget_args (determine_keys MGET mget_args) 0 = 2 /\
     arg_count sd
       <> Z.of_nat (keys_routed_to route 4 mget_args (determine_keys MGET mget_args) 0)).
Proof.
  split.
  - eexists _, _. split; [vm_compute; reflexivity|].
    split; [reflexivity|]. split; [reflexivity|]. split; [reflexivity|].
    vm_compute. discriminate.
  - eexists _, _. split; [vm_compute; reflexivity|].
    split; [reflexivity|]. split; [reflexivity|]. split; [reflexivity|].
    vm_compute. discriminate.
Qed.

Lemma ReverseArgIndex_round_trip_witness :
  exists t',
    InitByArgs route determine_keys 4 0 mset_args (NewTransaction 1 MSET) = Some t' /\
    ((unique_shard_cnt_ t' <> 1 ->
       forall s sd j p,
         shard_data_ t' !! s = Some sd ->
         (Z.of_nat j < arg_count sd)%Z ->
         p = Z.to_nat (arg_start sd) + j ->
         exists a r,
           args_ t' !! p = Some a /\
           ReverseArgIndex t' s j = Some r /\
           mset_args !! (S r) = Some a) /\
     (unique_shard_cnt_ t' <> 1 ->
       forall i key,
         i ∈ [1; 3] ->
         mset_args !! i = Some key ->
         exists sd j,
           shard_data_ t' !! route key 4 = Some sd /\
           (Z.of_nat j < arg_count sd)%Z /\
           args_ t' !! (Z.to_nat (arg_start sd) + j) = Some key /\
           ReverseArgIndex t' (route key 4) j = Some (i - 1)) /\
     (unique_shard_cnt_ t' = 1 -> forall s j, ReverseArgIndex t' s j = Some j)).
Proof.
  eexists. split; [vm_compute; reflexivity|].
  apply (ReverseArgIndex_round_trip route determine_keys 4 0 mset_args
           (NewTransaction 1 MSET));
    [vm_compute; reflexivity | reflexivity | vm_compute; lia | vm_compute; lia
    | right; vm_compute; lia | vm_compute; reflexivity].
Defined.


(** ** The scheduler on the concrete instance *)

Lemma ScheduleInShard_failure_witness :
  exists t' shard' res sd,
    ScheduleInShard local_bits (with_txid 5 mget3) busy0 = Some (t', shard', res) /\
    shard_data_ (with_txid 5 mget3) !! 0 = Some sd /\
    (res.1 = false <->
       (5 <= committed_txid busy0)%Z \/
       (txq busy0 <> [] /\ lock_granted_in (with_txid 5 mget3) busy0 = false /\
        (5 <= txq_TailScore (txq busy0))%Z)) /\
    (res.1 = false ->
       res = (false, false) /\
       txq shard' = txq busy0 /\
       (forall db k, lock_table shard' db k = lock_table busy0 db k) /\
       shard_lock shard' = shard_lock busy0 /\
       committed_txid shard' = committed_txid busy0 /\
       watched shard' = watched busy0 /\
       shard_id shard' = shard_id busy0 /\
       (forall k, k <> 0 -> shard_data_ t' !! k = shard_data_ (with_txid 5 mget3) !! k) /\
       exists sd',
         shard_data_ t' !! 0 = Some sd' /\
         Bits.has (local_mask sd') (KEYLOCK_ACQUIRED local_bits) = false /\
         pq_pos sd' = pq_pos sd /\ arg_start sd' = arg_start sd /\
         arg_count sd' = arg_count sd).
Proof.
  do 4 eexists. split; [vm_compute; reflexivity|]. split; [vm_compute; reflexivity|].
  eapply (ScheduleInShard_failure local_bits eq_refl (with_txid 5 mget3) busy0);
    [vm_compute; reflexivity | vm_compute; reflexivity | vm_compute; reflexivity].
Defined.


(** ** The blocking controller on the concrete instance *)

Lemma NotifySuspended_spec_witness :
  exists t' sd',
    NotifySuspended local_bits 42 2 (blocked 20 kuint64max) = Some (t', true) /\
    shard_data_ t' !! 2 = Some sd' /\
    Bits.has (local_mask sd') (SUSPENDED_Q local_bits) = false /\
    Bits.has (local_mask sd') (AWAKED_Q local_bits) = true /\
    notify_txid_ t' = 42%Z /\
    blocking_ec_notified t' = 1.
Proof.
  destruct (NotifySuspended_spec local_bits eq_refl 42 2 (blocked 20 kuint64max) _
              eq_refl eq_refl) as [_ H].
  destruct (H eq_refl) as (t' & sd' & H1 & H2 & H3 & H4 & _ & _ & _ & _ & H5 & _ & H6).
  exists t', sd'. repeat split; assumption.
Defined.

(** C6 as the claim states it fails: a second shard that wakes the
    transaction with a later id (7, after 5) flips its slot and answers
    [true] without a notification; and on a slot that is awake and no longer
    suspended the call does not return. *)
Lemma NotifySuspended_silent :
  (exists t',
     NotifySuspended local_bits 7 2 (blocked 20 5) = Some (t', true) /\
     notify_txid_ t' = 5%Z /\
     blocking_ec_notified t' = blocking_ec_notified (blocked 20 5)) /\
  NotifySuspended local_bits 7 2 (blocked 36 5) = None.
Proof.
  split; [|vm_compute; reflexivity].
  eexists. split; [vm_compute; reflexivity|]. split; reflexivity.
Qed.


Lemma WaitOnWatch_expires_witness :
  exists t' shards',
    WaitOnWatch local_bits coord_bits id (fun _ _ => true) no_convergence
      hop_done await_deadline (Some 100%Z) (blocked 20 kuint64max) shards4
    = Some (t', shards', false) /\
    Bits.has (coordinator_state_ t') (COORD_BLOCKED coord_bits) = false /\
    (forall i, i ∈ [2; 3] ->
       exists sh sd',
         shards4 !! i = Some sh /\
         shard_data_ t' !! i = Some sd' /\
         Bits.has (local_mask sd') (EXPIRED_Q local_bits) = true /\
         Bits.has (local_mask sd') (KEYLOCK_ACQUIRED local_bits) = false).
Proof.
  do 2 eexists. split; [vm_compute; reflexivity|].
  edestruct (WaitOnWatch_expires local_bits coord_bits id (fun _ _ => true) no_convergence
               hop_done await_deadline eq_refl eq_refl (Some 100%Z)
               (blocked 20 kuint64max) shards4) as [_ H];
    [vm_compute; reflexivity | reflexivity | reflexivity | |].
  - intros i sh Hi Hl. vm_compute in Hi.
    apply elem_of_cons in Hi as [->|Hi];
      [vm_compute in Hl; injection Hl as <-; reflexivity|].
    apply elem_of_cons in Hi as [->|Hi];
      [vm_compute in Hl; injection Hl as <-; reflexivity|].
    inversion Hi.
  - destruct (H eq_refl) as (t4 & _ & _ & HB & Hin & _).
    split; [exact HB|].
    intros i Hi. destruct (Hin i Hi) as (sh & sd' & H1 & _ & H3 & H4 & H5).
    exists sh, sd'. split; [exact H1|]. split; [|split; assumption].
    apply elem_of_cons in Hi as [->|Hi]; [exact H3|].
    apply elem_of_cons in Hi as [->|Hi]; [exact H3|]. inversion Hi.
Defined.


(** ** The runner and the multi controller on the concrete instance *)

Lemma RunInShard_concluding_witness :
  exists t' shard',
    RunInShard local_bits coord_bits nothing_awakened noop_cb armed3 held0
      = Some (t', shard', false) /\
    exists sd',
    shard_data_ t' !! 0 = Some sd' /\
    Bits.has (local_mask sd') (KEYLOCK_ACQUIRED local_bits) = false /\
    Bits.has (local_mask sd') (OUT_OF_ORDER local_bits) = false /\
    lock_table shard' 0 "d"%string = cnt_zero.
Proof.
  do 2 eexists. split; [vm_compute; reflexivity|].
  edestruct (RunInShard_concluding local_bits coord_bits nothing_awakened eq_refl
               noop_cb armed3 held0)
    as (status & tc & shc & sdc & sd' & aw & sh2 & Hcb & Hsdc & Hsd' & _ & _ & _ & _
        & HO & _ & HK & _);
    [vm_compute; reflexivity | reflexivity | reflexivity | reflexivity | reflexivity | |].
  - intros status tc shc Hc. injection Hc as _ <- _.
    unfold same_routing. repeat split; reflexivity.
  - injection Hcb as <- <- <-.
    vm_compute in Hsdc. injection Hsdc as <-.
    destruct (HK eq_refl) as [HK' _].
    exists sd'. split; [exact Hsd'|]. split; [exact HK'|]. split; [exact HO|]. reflexivity.
Defined.

Lemma UnlockMulti_releases_witness :
  exists t' shards',
    UnlockMulti route id nothing_awakened nothing_to_shut 4 exec_done multi_shards
      = Some (t', shards') /\
    Forall (fun sd => pq_pos sd = kEnd) (shard_data_ t') /\
    exists sh0 sh2,
      shards' !! 0 = Some sh0 /\ shards' !! 2 = Some sh2 /\
      lock_table sh0 0 "d"%string = cnt_zero /\
      lock_table sh2 0 "b"%string = cnt_zero /\
      txq sh0 = [].
Proof.
  do 2 eexists. split; [vm_compute; reflexivity|].
  edestruct (UnlockMulti_releases route id nothing_awakened nothing_to_shut 4
               exec_done multi_shards) as [Hq Hs];
    [vm_compute; reflexivity | reflexivity | reflexivity | |].
  - intros i sh Hl.
    destruct i as [|[|[|[|i]]]]; simpl in Hl; try discriminate;
      injection Hl as <-; reflexivity.
  - split; [exact Hq|].
    do 2 eexists. split; [reflexivity|]. split; [reflexivity|].
    vm_compute. repeat split; reflexivity.
Defined.

(** ** The allocation of transaction ids on the concrete instance *)




Import Scenario.
Import PackerCases.

(** ** The packer on the concrete instance, continued *)


Lemma InitByArgs_slices_witness :
  exists t',
    InitByArgs route determine_keys 4 0 mset_args (NewTransaction 1 MSET) = Some t' /\
    ShardArgsInShard t' 0 = ["d"; "1"]%string /\
    ShardArgsInShard t' 2 = ["b"; "2"]%string.
Proof.
  eexists. split; [vm_compute; reflexivity|].
  edestruct (InitByArgs_slices route determine_keys 4 0 mset_args (NewTransaction 1 MSET))
    as [Hmany _];
    [vm_compute; reflexivity | reflexivity | vm_compute; lia | vm_compute; lia
    | right; vm_compute; lia | reflexivity | vm_compute; reflexivity |].
  split; [rewrite (Hmany ltac:(vm_compute; lia) 0 ltac:(lia))
         |rewrite (Hmany ltac:(vm_compute; lia) 2 ltac:(lia))]; vm_compute; reflexivity.
Defined.

Lemma InitByArgs_slots_witness :
  exists t',
    InitByArgs route determine_keys 4 0 mget_args (NewTransaction 1 MGET) = Some t' /\
    length (shard_data_ t') = 1 /\
    is_Some (shard_data_ t' !! SidToId t' 3).
Proof.
  eexists. split; [vm_compute; reflexivity|].
  edestruct (InitByArgs_slots route determine_keys 4 0 mget_args (NewTransaction 1 MGET))
    as (Hlen & _ & Hslot); [vm_compute; reflexivity | right; vm_compute; lia|].
  split; [exact Hlen|]. apply Hslot. lia.
Defined.


Lemma InitByArgs_rejects_witness :
  InitByArgs route determine_keys 4 0 ["MGET"]%string (NewTransaction 1 MGET) = None.
Proof.
  apply (proj1 (InitByArgs_rejects route determine_keys 4 0 ["MGET"]%string
                  (NewTransaction 1 MGET) eq_refl)).
  simpl. lia.
Defined.

Lemma InitByArgs_records_locks_witness :
  exists t' m',
    InitByArgs route determine_keys 4 0 set_args exec_set = Some t' /\
    multi_ t' = Some m' /\
    locks m' !! "d"%string = Some (mkLockCnt 0 1) /\
    locks m' !! "1"%string = None.
Proof.
  destruct (InitByArgs_records_locks route determine_keys 4 0 set_args exec_set
              (default exec_set (InitByArgs route determine_keys 4 0 set_args exec_set))
              (mkMulti ∅ (mkOptMask false false) true false))
    as (m' & Hm' & _ & _ & _ & Hlocks);
    [vm_compute; reflexivity | reflexivity | reflexivity | vm_compute; lia|].
  eexists _, m'. split; [vm_compute; reflexivity|]. split; [exact Hm'|].
  split; rewrite Hlocks; vm_compute; reflexivity.
Defined.

Lemma InitByArgs_touched_count_witness :
  exists t',
    InitByArgs route determine_keys 4 0 mget3_args (NewTransaction 7 MGET) = Some t' /\
    length (touched_shards t') = 3 /\ unique_shard_cnt_ t' = 3.
Proof.
  eexists. split; [vm_compute; reflexivity|].
  edestruct (InitByArgs_touched_count route determine_keys 4 0 mget3_args
               (NewTransaction 7 MGET)) as [H _];
    [vm_compute; reflexivity | reflexivity | vm_compute; lia | vm_compute; lia
    | reflexivity|].
  split; [rewrite H|]; reflexivity.
Defined.

Import Scenario.
Import BlockingCases.

(** ** The blocking controller on the concrete instance, continued *)

Lemma NotifySuspended_once_witness :
  exists t',
    NotifySuspended local_bits 42 2 (blocked 20 kuint64max) = Some (t', true) /\
    NotifySuspended local_bits 43 2 t' = None.
Proof.
  eexists. split; [vm_compute; reflexivity|].
  apply (NotifySuspended_once local_bits eq_refl 42 43 2 (blocked 20 kuint64max) _ true).
  vm_compute. reflexivity.
Defined.

Lemma NotifySuspended_after_ExpireBlocking_witness :
  exists t' shards',
    ExpireBlocking local_bits id (blocked 20 kuint64max) shards4 = Some (t', shards') /\
    NotifySuspended local_bits 42 2 t' = Some (t', false).
Proof.
  do 2 eexists. split; [vm_compute; reflexivity|].
  eapply (NotifySuspended_after_ExpireBlocking local_bits id eq_refl
            (blocked 20 kuint64max) shards4).
  - vm_compute. reflexivity.
  - intros i sh Hi Hl. vm_compute in Hi.
    apply elem_of_cons in Hi as [->|Hi];
      [vm_compute in Hl; injection Hl as <-; reflexivity|].
    apply elem_of_cons in Hi as [->|Hi];
      [vm_compute in Hl; injection Hl as <-; reflexivity|].
    inversion Hi.
  - vm_compute. constructor.
  - vm_compute. reflexivity.
  - reflexivity.
Defined.

Lemma BreakOnClose_only_while_blocked_witness :
  Bits.has (coordinator_state_ (BreakOnClose coord_bits blpop_waiting))
    (COORD_CANCELLED coord_bits) = true /\
  blocking_ec_notified (BreakOnClose coord_bits blpop_waiting) = 1.
Proof.
  destruct (BreakOnClose_only_while_blocked local_bits coord_bits id (fun _ _ => true)
              no_convergence hop_done await_deadline eq_refl blpop_waiting)
    as (_ & H & _).
  destruct (H eq_refl) as (H1 & _ & H2 & _). split; [exact H1|exact H2].
Defined.

Lemma RunInShard_suspends_witness :
  exists t' shard' sd',
    RunInShard local_bits coord_bits nothing_awakened (AddToWatchedShardCb local_bits)
      blpop_armed (idle 2) = Some (t', shard', false) /\
    shard_data_ t' !! 2 = Some sd' /\
    Bits.has (local_mask sd') (SUSPENDED_Q local_bits) = true /\
    Bits.has (local_mask sd') (KEYLOCK_ACQUIRED local_bits) = true /\
    watched shard' = [(0, "b"%string, 8)].
Proof.
  edestruct (RunInShard_suspends local_bits coord_bits nothing_awakened eq_refl
               blpop_armed (idle 2))
    as [_ H]; [reflexivity | reflexivity | reflexivity | vm_compute; reflexivity|].
  edestruct H as (sd' & aw & sh2 & Hk & Hsh & Hsd' & HS & HK & _ & _ & _ & _ & _ & _ & Hw);
    [vm_compute; reflexivity|].
  do 3 eexists. split; [vm_compute; reflexivity|].
  split; [exact Hsd'|]. split; [exact HS|]. split; [exact HK|]. reflexivity.
Defined.

Import Scenario.
Import HopCases.

(** ** The hops on the concrete instance *)

Lemma RunNoop_spec_witness :
  exists t' shard' sd',
    RunNoop local_bits coord_bits nothing_to_collect armed3 held0 = Some (t', shard') /\
    shard_data_ t' !! 0 = Some sd' /\
    run_count_ t' = 2%Z /\
    Bits.has (local_mask sd') (KEYLOCK_ACQUIRED local_bits) = false /\
    lock_table shard' 0 "d"%string = cnt_zero.
Proof.
  edestruct (RunNoop_spec local_bits coord_bits nothing_to_collect eq_refl armed3 held0)
    as [_ H]; [vm_compute; reflexivity|].
  destruct H as (t' & shard' & sd' & Hrun & Hsd' & Hrc & _ & _ & _ & _ & _ & _ & _ & Hc);
    [vm_compute; discriminate|].
  destruct (Hc eq_refl) as (HK & _ & Hsh).
  exists t', shard', sd'. split; [exact Hrun|]. split; [exact Hsd'|].
  split; [exact Hrc|]. split; [exact HK|]. rewrite Hsh. reflexivity.
Defined.

Lemma RunInShard_multi_witness :
  exists t' shard',
    RunInShard local_bits coord_bits nothing_awakened noop_cb exec_armed (idle 0)
      = Some (t', shard', true) /\
    lock_table shard' 0 "d"%string = mkLockCnt 0 1.
Proof.
  do 2 eexists. split; [vm_compute; reflexivity|].
  edestruct (RunInShard_multi local_bits coord_bits nothing_awakened eq_refl noop_cb
               exec_armed (idle 0))
    as (status & tc & shc & Hcb & _ & Hlt & _);
    [vm_compute; reflexivity | reflexivity | vm_compute; reflexivity|].
  injection Hcb as _ _ <-. reflexivity.
Defined.

Lemma ExpireBlocking_run_count_witness :
  exists t' shards',
    ExpireBlocking local_bits id (blocked 20 kuint64max) shards4 = Some (t', shards') /\
    run_count_ t' = 0%Z.
Proof.
  do 2 eexists. split; [vm_compute; reflexivity|].
  edestruct (ExpireBlocking_run_count local_bits id (blocked 20 kuint64max) shards4)
    as [H _]; [vm_compute; reflexivity|].
  pose proof (fun t' s' pf => proj2 (proj2 (H t' s' pf))) as H0.
  eapply H0; [vm_compute; reflexivity|reflexivity].
Defined.

Lemma ExecuteAsync_arms_witness :
  exists t1,
    ExecuteAsync_arm local_bits mget3 = Some t1 /\
    length (ExecuteAsync_targets mget3) = 3 /\
    (forall i, i ∈ [0; 2; 3] ->
       exists m, GetLocalMask t1 i = Some m /\ Bits.has m (ARMED local_bits) = true).
Proof.
  eexists. split; [vm_compute; reflexivity|].
  edestruct (ExecuteAsync_arms local_bits eq_refl mget3)
    as (Harmed & _ & _ & _ & Hcount); [vm_compute; reflexivity | discriminate|].
  split; [apply Hcount; reflexivity|exact Harmed].
Defined.

Lemma UnlockMulti_run_count_witness :
  exists t' shards',
    UnlockMulti route id nothing_awakened nothing_to_shut 4 exec_done multi_shards
      = Some (t', shards') /\
    run_count_ t' = 0%Z.
Proof.
  do 2 eexists. split; [vm_compute; reflexivity|].
  edestruct (UnlockMulti_run_count route id nothing_awakened nothing_to_shut 4
               exec_done multi_shards) as [H _];
    [vm_compute; discriminate | vm_compute; reflexivity|].
  eapply H. vm_compute. reflexivity.
Defined.

Lemma ScheduleSingleHop_eager_witness :
  exists t' sd',
    ScheduleSingleHop local_bits coord_bits id poll_nothing never_awaited
      noop_cb 1 op_seq_init mget1 shards4
    = Some (op_seq_init, t', shards4, OK) /\
    txid_ t' = 0%Z /\ cb_set t' = false /\ run_count_ t' = 0%Z /\
    shard_data_ t' !! 0 = Some sd' /\
    Bits.has (local_mask sd') (ARMED local_bits) = false.
Proof.
  edestruct (ScheduleSingleHop_eager local_bits coord_bits id poll_nothing never_awaited
               noop_cb 1 op_seq_init mget1 shards4)
    as (t' & sd' & Hrun & Htx & _ & Hcb & Hrc & Hsd' & Hmask & _);
    [reflexivity | reflexivity | reflexivity | reflexivity | vm_compute; reflexivity
    | vm_compute; reflexivity | vm_compute; reflexivity | reflexivity
    | vm_compute; reflexivity | reflexivity|].
  exists t', sd'. split; [exact Hrun|]. split; [exact Htx|]. split; [exact Hcb|].
  split; [exact Hrc|]. split; [exact Hsd'|]. rewrite Hmask. reflexivity.
Defined.

Import Scenario.
Import FindCases.

(** ** Finding the first key on the concrete instance *)

Lemma Process_spec_witness :
  Process both_found (blocked 0 kuint64max) = Some (first_found 2 21).
Proof.
  edestruct (Process_spec both_found (blocked 0 kuint64max)) as (out & Hp & _).
  - intros sid fr Hk [Hh _].
    destruct sid as [|[|[|[|sid]]]]; simpl in Hk; try discriminate;
      injection Hk as <-; try (exfalso; apply Hh; reflexivity);
      vm_compute; eauto.
  - rewrite Hp. vm_compute in Hp. injection Hp as <-. reflexivity.
Defined.

Import Scenario.

(** ** The scheduler on the concrete instance *)

(** MGET d b c arrives with the id 11 at shard 0, whose queue holds a
    transaction with the id 10 and whose key d is locked: it is queued
    behind and then cancelled. *)
Lemma ScheduleInShard_then_CancelInShard_witness :
  exists t1 sh1 t2 sh2,
    ScheduleInShard local_bits (with_txid 11 mget3) busy0 = Some (t1, sh1, (true, false)) /\
    CancelInShard local_bits t1 sh1 = Some (t2, sh2, true) /\
    txq sh2 = [mkQueueEntry 0 10 99].
Proof.
  do 2 eexists.
  edestruct (ScheduleInShard_then_CancelInShard local_bits eq_refl (with_txid 11 mget3)
               busy0)
    as (sh2 & Hc & Hq & _).
  - vm_compute. reflexivity.
  - reflexivity.
  - unfold queue_positions_ok. simpl.
    repeat first [apply Forall_nil_2 | apply Forall_cons_2 | split];
      vm_compute; first [reflexivity | discriminate].
  - intros H. vm_compute in H. discriminate.
  - vm_compute. reflexivity.
  - do 2 eexists. split; [vm_compute; reflexivity|]. split; [exact Hc|exact Hq].
Defined.

(** The same transaction with the counter at 5: the rounds with the ids 5
    to 10 fail at shard 0, the round with the id 11 succeeds. *)
Lemma ScheduleInternal_ends_witness :
  exists op_seq' t' shards' res,
    ScheduleInternal local_bits coord_bits 7 5 mget3 [busy0; idle 1; idle 2; idle 3]
    = Some (op_seq', t', shards', res) /\
    (5 <= txid_ t' <= 11)%Z /\ op_seq' = (txid_ t' + 1)%Z.
Proof.
  destruct (ScheduleInternal_ends local_bits coord_bits eq_refl 7 5 mget3
              [busy0; idle 1; idle 2; idle 3] 10)
    as (o & t' & s' & r & H & Hid & Hnext & _).
  - intros E. vm_compute in E. discriminate.
  - intros _. vm_compute. repeat constructor.
  - intros j sh Hj.
    destruct j as [|[|[|[|j]]]]; simpl in Hj; try discriminate; injection Hj as <-;
      reflexivity.
  - vm_compute. repeat constructor.
  - repeat first [apply Forall_nil_2 | apply Forall_cons_2];
      unfold queue_positions_ok; simpl;
      repeat first [apply Forall_nil_2 | apply Forall_cons_2 | split];
      vm_compute; first [reflexivity | discriminate].
  - repeat first [apply Forall_nil_2 | apply Forall_cons_2 | split];
      vm_compute; discriminate.
  - intros _. vm_compute. reflexivity.
  - lia.
  - vm_compute. reflexivity.
  - vm_compute. reflexivity.
  - discriminate.
  - exists o, t', s', r. split; [exact H|]. split; [exact Hid|exact Hnext].
Defined.


(** MGET d b c from its set-up to the queues of the shards 0, 2 and 3. *)
Lemma InitByArgs_then_ScheduleInternal_witness :
  exists t op_seq' t' shards' res,
    InitByArgs route determine_keys 4 0 mget3_args (NewTransaction 7 MGET) = Some t /\
    ScheduleInternal local_bits coord_bits 7 5 t [busy0; idle 1; idle 2; idle 3]
    = Some (op_seq', t', shards', res) /\
    length res = 3.
Proof.
  exists (default (NewTransaction 7 MGET)
            (InitByArgs route determine_keys 4 0 mget3_args (NewTransaction 7 MGET))).
  edestruct (InitByArgs_then_ScheduleInternal route determine_keys local_bits coord_bits
               eq_refl eq_refl 4 0 mget3_args (NewTransaction 7 MGET)
               (default (NewTransaction 7 MGET)
                  (InitByArgs route determine_keys 4 0 mget3_args (NewTransaction 7 MGET)))
               7 5 [busy0; idle 1; idle 2; idle 3] 10)
    as (o & t' & s' & r & Hs & _ & _ & Hl & _).
  - vm_compute. reflexivity.
  - lia.
  - reflexivity.
  - apply Forall_nil_2.
  - intros _. split; [vm_compute; discriminate|]. split; [vm_compute; lia|].
    intros k. unfold route. destruct k; [lia|apply Nat.mod_upper_bound; lia].
  - reflexivity.
  - intros j sh Hj.
    destruct j as [|[|[|[|j]]]]; simpl in Hj; try discriminate; injection Hj as <-;
      reflexivity.
  - repeat first [apply Forall_nil_2 | apply Forall_cons_2];
      unfold queue_positions_ok; simpl;
      repeat first [apply Forall_nil_2 | apply Forall_cons_2 | split];
      vm_compute; first [reflexivity | discriminate].
  - repeat first [apply Forall_nil_2 | apply Forall_cons_2 | split];
      vm_compute; discriminate.
  - lia.
  - vm_compute. reflexivity.
  - vm_compute. reflexivity.
  - discriminate.
  - exists o, t', s', r. split; [vm_compute; reflexivity|]. split; [exact Hs|].
    vm_compute in Hl. exact Hl.
Defined.

Import Scenario.

(** ** The out-of-order mark on the concrete instance *)

(** MGET d b c as a single hop. On four idle shards the shards 0, 2 and 3
    all grant their locks in the first round: COORD_OOO is set and every slot
    gets OUT_OF_ORDER. With key d locked and a transaction with the id 10
    queued on shard 0, the round with the id 10 fails and is cancelled, the
    round with the id 11 is answered without the lock of shard 0, and
    COORD_OOO stays clear. *)
Lemma ScheduleInternal_OOO_witness :
  (exists op_seq' t' shards',
     ScheduleInternal local_bits coord_bits 3 1 mget3 shards4
       = Some (op_seq', t', shards', [(true, true); (true, true); (true, true)]) /\
     IsOOO coord_bits t' = true /\
     Forall (fun sd => Bits.has (local_mask sd) (OUT_OF_ORDER local_bits) = true)
            (shard_data_ t')) /\
  (exists op_seq' t' shards',
     ScheduleInternal local_bits coord_bits 3 10 mget3 [busy0; idle 1; idle 2; idle 3]
       = Some (op_seq', t', shards', [(true, false); (true, true); (true, true)]) /\
     txid_ t' = 11%Z /\
     IsOOO coord_bits t' = false).
Proof.
  assert (Hids : forall (a : EngineShard) j sh,
            shard_id a = 0 -> [a; idle 1; idle 2; idle 3] !! j = Some sh ->
            shard_id sh = j).
  { intros a j sh Ha Hj.
    destruct j as [|[|[|[|j]]]]; simpl in Hj; try discriminate; injection Hj as <-;
      [exact Ha|reflexivity..]. }
  assert (Hhop : Bits.has (coordinator_state_ mget3) (COORD_EXEC_CONCLUDING coord_bits)
                 = true) by (vm_compute; reflexivity).
  assert (Hact : is_active (IsGlobal mget3) (unique_shard_cnt_ mget3) mget3 0 = Some true)
    by (vm_compute; reflexivity).
  split.
  - do 3 eexists. split; [vm_compute; reflexivity|].
    edestruct (ScheduleInternal_OOO local_bits coord_bits eq_refl eq_refl 3 1 mget3
                 shards4)
      as (shards_r & _ & _ & _ & Hmark & Hlayout);
      [vm_compute; reflexivity | vm_compute; reflexivity | simpl; lia
      | intros _; vm_compute; reflexivity |].
    destruct Hlayout as [_ Hiff].
    + intros E. vm_compute in E. discriminate.
    + intros _. vm_compute. repeat constructor.
    + intros j sh Hj. apply (Hids (idle 0) j sh eq_refl Hj).
    + vm_compute. repeat (apply Forall_cons_2; [split; [reflexivity|discriminate]|]).
      apply Forall_nil_2.
    + repeat first [apply Forall_nil_2 | apply Forall_cons_2];
        unfold queue_positions_ok; simpl; apply Forall_nil_2.
    + assert (Hgranted : forall k sh, shards4 !! k = Some sh ->
                is_active (IsGlobal mget3) (unique_shard_cnt_ mget3) mget3 k = Some true ->
                lock_granted_in mget3 sh = true).
      { intros k sh Hk _.
        destruct k as [|[|[|[|k]]]]; simpl in Hk; try discriminate; injection Hk as <-;
          vm_compute; reflexivity. }
      pose proof (proj2 Hiff (conj Hhop Hgranted)) as Ho.
      exact (conj Ho (Hmark Ho)).
  - do 3 eexists. split; [vm_compute; reflexivity|].
    split; [vm_compute; reflexivity|].
    edestruct (ScheduleInternal_OOO local_bits coord_bits eq_refl eq_refl 3 10 mget3
                 [busy0; idle 1; idle 2; idle 3])
      as (shards_r & _ & _ & _ & _ & Hlayout);
      [vm_compute; reflexivity | vm_compute; reflexivity | simpl; lia
      | intros _; vm_compute; reflexivity |].
    destruct Hlayout as [_ Hiff].
    + intros E. vm_compute in E. discriminate.
    + intros _. vm_compute. repeat constructor.
    + intros j sh Hj. apply (Hids busy0 j sh eq_refl Hj).
    + vm_compute. repeat (apply Forall_cons_2; [split; [reflexivity|discriminate]|]).
      apply Forall_nil_2.
    + repeat first [apply Forall_nil_2 | apply Forall_cons_2];
        unfold queue_positions_ok; simpl;
        repeat first [apply Forall_nil_2 | apply Forall_cons_2 | split];
        vm_compute; first [reflexivity | discriminate].
    + assert (Hbusy : lock_granted_in mget3 busy0 = false) by (vm_compute; reflexivity).
      apply not_true_is_false. intros E.
      destruct (proj1 Hiff E) as [_ Hall].
      pose proof (Hall 0 busy0 eq_refl Hact) as Hc.
      rewrite Hbusy in Hc. discriminate Hc.
Defined.
